(** * Validator state machine of the fast-path recovery prototype

    A shallow embedding of the TypeScript validator cores
    ([prototype/src/common.ts], [prototype/src/validator-core.ts], the later
    revision of [ValidatorCore] that re-enters the certificate processor, and
    [prototype/src/classic-validator-core.ts]) together with the properties
    the specification states about them. *)

From Stdlib Require Import ZArith NArith List Bool Ascii String Lia.
From stdpp Require Import base option list gmap strings.

Open Scope Z_scope.

(** ** Addresses *)

(** Addresses are hexadecimal strings. The code compares and indexes account
    addresses after [toLowerCase()]; the [validator] field of a vote is
    lower-cased by [verifyVote] only, and compared and counted as written
    everywhere else. *)
Definition address : Type := string.

Definition lowerAscii (c : ascii) : ascii :=
  let n := nat_of_ascii c in
  if (Nat.leb 65 n && Nat.leb n 90)%bool then ascii_of_nat (n + 32) else c.

Fixpoint toLowerCase (s : string) : string :=
  match s with
  | EmptyString => EmptyString
  | String c s' => String (lowerAscii c) (toLowerCase s')
  end.

(** [RECOVERY_CONTRACT] of common.ts. *)
Definition RECOVERY_CONTRACT : address :=
  "0x0000000000000000000000000000000000000100"%string.

(** ** Transactions (ethers [Transaction]) *)

(** The serialisation is opaque to the core: a transaction is modelled by its
    decoded view, and a byte string by what [Transaction.from] makes of it.
    [from] is [None] for an unsigned transaction (ethers returns [null] for
    [from], [signature] and [hash] alike), [to] is [None] for a transaction
    without recipient. The [data] field is empty (["0x"]), a byte string that
    decodes to an inner transaction, or a byte string that does not decode. *)
Inductive Transaction : Type :=
  | mkTransaction (from to : option address) (value nonce : N) (data : TxData)
with TxData : Type :=
  | DataEmpty
  | DataOpaque (bytes : string)
  | DataTx (inner : Transaction).

Definition tx_from (tx : Transaction) : option address :=
  match tx with mkTransaction f _ _ _ _ => f end.
Definition tx_to (tx : Transaction) : option address :=
  match tx with mkTransaction _ t _ _ _ => t end.
Definition tx_value (tx : Transaction) : N :=
  match tx with mkTransaction _ _ v _ _ => v end.
Definition tx_nonce (tx : Transaction) : N :=
  match tx with mkTransaction _ _ _ n _ => n end.
Definition tx_data (tx : Transaction) : TxData :=
  match tx with mkTransaction _ _ _ _ d => d end.

(** Equality of transactions, by content. *)
Fixpoint tx_eqb (x y : Transaction) : bool :=
  match x, y with
  | mkTransaction f t v n d, mkTransaction f' t' v' n' d' =>
      bool_decide (f = f') && bool_decide (t = t') && bool_decide (v = v')
      && bool_decide (n = n')
      && match d, d' with
         | DataEmpty, DataEmpty => true
         | DataOpaque b, DataOpaque b' => bool_decide (b = b')
         | DataTx i, DataTx i' => tx_eqb i i'
         | _, _ => false
         end
  end.

Lemma tx_eqb_eq : forall x y : Transaction, tx_eqb x y = true <-> x = y.
Proof.
  fix IH 1.
  intros [f t v n d] [f' t' v' n' d']; simpl.
  rewrite !andb_true_iff, !bool_decide_eq_true.
  destruct d as [|b|i], d' as [|b'|i'];
    try (split; [intros [_ ?]; discriminate | intros; discriminate]).
  - split; [intros [[[[-> ->] ->] ->] _]; reflexivity | intros [= -> -> -> ->]; auto].
  - rewrite bool_decide_eq_true.
    split; [intros [[[[-> ->] ->] ->] ->]; reflexivity | intros [= -> -> -> -> ->]; auto].
  - rewrite IH.
    split; [intros [[[[-> ->] ->] ->] ->]; reflexivity | intros [= -> -> -> -> ->]; auto].
Qed.

#[export] Instance Transaction_eq : EqDecision Transaction.
Proof.
  refine (fun x y =>
            match tx_eqb x y as b return tx_eqb x y = b -> Decision (x = y) with
            | true => fun H => left _
            | false => fun H => right _
            end eq_refl).
  - abstract (apply tx_eqb_eq; exact H).
  - abstract (intros E; apply tx_eqb_eq in E; congruence).
Defined.

(** Content hash: [tx.hash] is [null] for an unsigned transaction and a
    collision-free digest of the content otherwise, so the digest is modelled
    by the content itself. *)
Definition tx_hash (tx : Transaction) : option Transaction :=
  match tx_from tx with
  | Some _ => Some tx
  | None => None
  end.

(** ** Errors and results *)

Inductive Error : Type :=
  | InvalidTransactionSignature   (* "Invalid transaction signature" *)
  | AccountPending                (* "Account has pending transaction" *)
  | NonceMismatch                 (* "Nonce mismatch: expected .., got .." *)
  | PreviousNonceNotFinalised     (* "Previous nonce not finalised" *)
  | InsufficientBalance           (* "Insufficient balance" *)
  | RecoveryMissingTip            (* "Recovery transaction missing tip" *)
  | TipSenderMismatch             (* "Tip transaction sender mismatch" *)
  | TipNoNotarisationQuorum       (* "Tip transaction doesn't have notarisation quorum" *)
  | IntermediateMissingBot (k : Z) (* "Intermediate nonce k missing bot certificate" *)
  | InvalidVote                   (* "Invalid vote signature or validator not in set" *)
  | MissingNotarisation (k : Z)   (* "Missing notarisation certificate at nonce k" *)
  | RecoveryNotSupported          (* "Recovery not supported in classic FastPay" *)
  | DecodeError                   (* Transaction.from rejects the bytes *)
  | TypeError                     (* property access on null or undefined *)
  | UnsignedSerialization         (* "cannot serialize unsigned transaction" of [tx.serialized] *)
  | FuelExhausted.                (* the model ran out of recursion fuel; not a JS error *)

Inductive Result (A : Type) : Type :=
  | Ok (a : A)
  | Throw (e : Error).
Arguments Ok {A} a.
Arguments Throw {A} e.

(** [Transaction.from(bytes)]. *)
Definition TransactionFrom (bytes : TxData) : Result Transaction :=
  match bytes with
  | DataTx tx => Ok tx
  | DataEmpty | DataOpaque _ => Throw DecodeError
  end.

Definition isRecoveryContract (to : address) : bool :=
  bool_decide (toLowerCase to = toLowerCase RECOVERY_CONTRACT).

(** [getTxChainStart] (validator-core.ts, both revisions):
<<
  if (tx.to!.toLowerCase() === RECOVERY_CONTRACT.toLowerCase() && tx.data && tx.data !== "0x") {
    const tipTx = Transaction.from(tx.data);
    return this.getTxChainStart(tipTx);
  }
  return tx;
>> *)
Fixpoint getTxChainStart (tx : Transaction) : Result Transaction :=
  match tx with
  | mkTransaction _ to _ _ data =>
      match to with
      | None => Throw TypeError
      | Some to' =>
          if isRecoveryContract to' then
            match data with
            | DataEmpty => Ok tx
            | DataOpaque _ => Throw DecodeError
            | DataTx tipTx => getTxChainStart tipTx
            end
          else Ok tx
      end
  end.

(** Number of nested transactions carried in the data payloads. *)
Fixpoint nestingDepth (tx : Transaction) : nat :=
  match tx with
  | mkTransaction _ _ _ _ (DataTx inner) => S (nestingDepth inner)
  | _ => 0%nat
  end.

(** A recovery transaction signed by [sender] whose tip is [tip]. *)
Definition recoveryOf (sender : address) (nonce : N) (tip : Transaction) : Transaction :=
  mkTransaction (Some sender) (Some RECOVERY_CONTRACT) 0 nonce (DataTx tip).

(** [wrap d tx]: [tx] wrapped in [d] recovery layers. *)
Fixpoint wrapRecovery (sender : address) (d : nat) (tx : Transaction) : Transaction :=
  match d with
  | O => tx
  | S d' => recoveryOf sender (tx_nonce tx + N.of_nat d) (wrapRecovery sender d' tx)
  end.

(** ** Votes, accounts and the helpers of common.ts *)

(** What a vote signature covers:
    [solidityPackedKeccak256(["address","uint256","bytes32"], [account, nonce, hash ?? ZeroHash])].
    The address is packed without regard to letter case: ethers packs the same
    twenty bytes for the lowercase, the uppercase and the checksummed spelling
    of an address. A string it does not take as an address (mixed case with a
    wrong checksum, not forty hex digits) makes the packing throw, in
    [verifyVote] before the validator reads or writes anything; the account
    strings here stand for strings ethers takes. *)
Definition Message : Type := (address * Z * option Transaction)%type.

Definition voteMessage (account : address) (nonce : Z) (hash : option Transaction) : Message :=
  (toLowerCase account, nonce, hash).

(** An ideal signature: it names its signer and the message it was made for.
    [verifyMessage] recovers the signer from a signature over the very same
    message, and an address that belongs to nobody otherwise. *)
Record Signature : Type := mkSignature {
  sig_signer : address;
  sig_message : Message
}.

#[export] Instance Signature_eq : EqDecision Signature.
Proof.
  refine (fun x y => cast_if (decide ((sig_signer x, sig_message x) = (sig_signer y, sig_message y))));
    abstract (destruct x, y; simpl in *; congruence).
Defined.

Definition verifyMessage (m : Message) (s : Signature) : option address :=
  if decide (sig_message s = m) then Some (sig_signer s) else None.

(** [Vote] of common.ts; [serializedTx = None] is the bot vote. A serialised
    transaction is kept in decoded form: a string that does not decode makes
    [verifyVote] throw before the validator reads or writes anything.
    [voteNonce] is the integer that [verifyVote] packs as a uint256; a number
    it does not pack (negative, fractional, beyond the safe integers) makes
    [verifyVote] throw in the same way. With [skipVerification] set, the cores
    of client.ts and classic take such votes unchecked; the statements below
    that rest on the arithmetic of the nonce or on the stored transactions
    being decoded ones are made with verification on. *)
Record Vote : Type := mkVote {
  validator : address;
  account : address;
  voteNonce : Z;
  serializedTx : option Transaction;
  signature : Signature
}.

#[export] Instance Vote_eq : EqDecision Vote.
Proof.
  refine (fun x y =>
            cast_if (decide ((validator x, account x, voteNonce x, serializedTx x, signature x)
                             = (validator y, account y, voteNonce y, serializedTx y, signature y))));
    abstract (destruct x, y; simpl in *; congruence).
Defined.

Record AccountState : Type := mkAccountState {
  balance : Z;
  nonce : Z;
  pending : bool;
  finalised : Z
}.

#[export] Instance AccountState_eq : EqDecision AccountState.
Proof.
  refine (fun x y =>
            cast_if (decide ((balance x, nonce x, pending x, finalised x)
                             = (balance y, nonce y, pending y, finalised y))));
    abstract (destruct x, y; simpl in *; congruence).
Defined.

Definition voteTx (vote : Vote) : option Transaction := serializedTx vote.

Definition voteTxHash (vote : Vote) : option Transaction :=
  match serializedTx vote with
  | Some tx => tx_hash tx
  | None => None
  end.

(** [new Set(votes.map((v) => v.validator)).size] *)
Definition distinctValidators (votes : list Vote) : Z :=
  Z.of_nat (length (remove_dups (validator <$> votes))).

(** [countQuorum(votes, txHash)]: unique validators voting for [txHash]. *)
Definition countQuorum (votes : list Vote) (txHash : option Transaction) : Z :=
  distinctValidators (filter (fun v => voteTxHash v = txHash) votes).

(** [verifyVote(vote, validatorSet)] *)
Definition verifyVote (vote : Vote) (validatorSet : gset address) : bool :=
  if negb (bool_decide (toLowerCase (validator vote) ∈ validatorSet)) then false
  else
    let message := voteMessage (account vote) (voteNonce vote) (voteTxHash vote) in
    match verifyMessage message (signature vote) with
    | Some recoveredAddress =>
        bool_decide (toLowerCase recoveredAddress = toLowerCase (validator vote))
    | None => false
    end.

(** ** Configuration of one validator *)

(** [address] is [this.address], [N_VALIDATORS] and [F_BYZANTINE] are the
    protocol parameters ([n] and [fByzantine] of the constructors). *)
Record Config : Type := mkConfig {
  self : address;
  validatorSet : gset address;
  N_VALIDATORS : Z;
  F_BYZANTINE : Z;
  skipVerification : bool
}.

Definition FINALITY_QUORUM (cfg : Config) : Z := N_VALIDATORS cfg - F_BYZANTINE cfg.
Definition NOTARISATION_QUORUM (cfg : Config) : Z := N_VALIDATORS cfg - 3 * F_BYZANTINE cfg.

(** common.ts refuses to load unless [n >= 5f + 1]; [f] is a fault budget. *)
Definition validParams (cfg : Config) : Prop :=
  0 <= F_BYZANTINE cfg /\ 5 * F_BYZANTINE cfg + 1 <= N_VALIDATORS cfg.

(** [signVote(account, nonce, tx)] *)
Definition signVote (cfg : Config) (account : address) (nonce : Z) (tx : option Transaction) : Vote :=
  let message := voteMessage account nonce (match tx with Some t => tx_hash t | None => None end) in
  {| validator := self cfg;
     account := account;
     voteNonce := nonce;
     serializedTx := tx;
     signature := mkSignature (self cfg) message |}.

(** ** Quorum evaluation: [getMaxQuorumCert] *)

(** [votesByTx]: an object used as an insertion-ordered dictionary from the
    payload hash (or ["BOT"], here [None]) to the votes carrying it. *)
Fixpoint pushGroup (key : option Transaction) (vote : Vote)
    (groups : list (option Transaction * list Vote)) : list (option Transaction * list Vote) :=
  match groups with
  | [] => [(key, [vote])]
  | (k, vs) :: rest =>
      if decide (k = key) then (k, vs ++ [vote]) :: rest
      else (k, vs) :: pushGroup key vote rest
  end.

Definition votesByTx (votes : list Vote) : list (option Transaction * list Vote) :=
  fold_left (fun groups vote => pushGroup (voteTxHash vote) vote groups) votes [].

Record MaxQuorumCert : Type := mkMaxQuorumCert {
  quorum : Z;
  tx : option Transaction;
  cert : option (list Vote)
}.

(** One turn of the loop over [Object.values(votesByTx)]. *)
Definition maxStep (best : Z * option Transaction * list Vote)
    (group : option Transaction * list Vote) : Z * option Transaction * list Vote :=
  let '(maxQuorum, maxTx, maxVotes) := best in
  let txVotes := snd group in
  let count := distinctValidators txVotes in
  if count >? maxQuorum then (count, head txVotes ≫= voteTx, txVotes)
  else (maxQuorum, maxTx, maxVotes).

Definition getMaxQuorumCert (votes : list Vote) (minQuorum : Z) : MaxQuorumCert :=
  let '(maxQuorum, maxTx, maxVotes) := fold_left maxStep (votesByTx votes) (0, None, []) in
  if maxQuorum >=? minQuorum then mkMaxQuorumCert maxQuorum maxTx (Some maxVotes)
  else mkMaxQuorumCert 0 None None.

(** ** Validator state and the monad of the handlers *)

(** [accounts] is the account object ([getAccount] creates the default entry
    on first reference, so an absent key and the default account cannot be
    told apart); [voteStore] is the two-level vote object, keyed by the
    lower-cased account and the nonce; [broadcasts] records, oldest first,
    the votes handed to [broadcastVoteCallback]. *)
Record State : Type := mkState {
  accounts : gmap address AccountState;
  voteStore : gmap (address * Z) (list Vote);
  broadcasts : list Vote
}.

(** Handlers mutate the state and may throw; what was mutated before a throw
    stays mutated. *)
Definition M (A : Type) : Type := State -> Result A * State.

Definition ret {A} (a : A) : M A := fun s => (Ok a, s).
Definition throw {A} (e : Error) : M A := fun s => (Throw e, s).
Definition bind {A B} (m : M A) (k : A -> M B) : M B :=
  fun s => match m s with
           | (Ok a, s') => k a s'
           | (Throw e, s') => (Throw e, s')
           end.
Definition gets {A} (f : State -> A) : M A := fun s => (Ok (f s), s).
Definition modify (f : State -> State) : M unit := fun s => (Ok tt, f s).
Definition liftResult {A} (r : Result A) : M A := fun s => (r, s).
(** The non-null assertion [x!] followed by a property access. *)
Definition nonNull {A} (o : option A) : M A :=
  match o with
  | Some a => ret a
  | None => throw TypeError
  end.

Notation "'let*' x := m 'in' k" := (bind m (fun x => k))
  (at level 10, x name, m at level 100, k at level 200, only parsing).
Notation "m ;; k" := (bind m (fun _ => k))
  (at level 100, k at level 200, only parsing, right associativity).

Definition newAccount : AccountState :=
  {| balance := 0; nonce := 0; pending := false; finalised := -1 |}.

Definition getAccount (address : address) (s : State) : AccountState :=
  default newAccount (accounts s !! toLowerCase address).

Definition updateAccount (address : address) (f : AccountState -> AccountState)
    (s : State) : State :=
  {| accounts := <[toLowerCase address := f (getAccount address s)]> (accounts s);
     voteStore := voteStore s;
     broadcasts := broadcasts s |}.

Definition setPending (b : bool) (a : AccountState) : AccountState :=
  {| balance := balance a; nonce := nonce a; pending := b; finalised := finalised a |}.
Definition setNonce (k : Z) (a : AccountState) : AccountState :=
  {| balance := balance a; nonce := k; pending := pending a; finalised := finalised a |}.
Definition setFinalised (k : Z) (a : AccountState) : AccountState :=
  {| balance := balance a; nonce := nonce a; pending := pending a; finalised := k |}.
Definition addBalance (d : Z) (a : AccountState) : AccountState :=
  {| balance := balance a + d; nonce := nonce a; pending := pending a; finalised := finalised a |}.

(** [this.voteStore[normalized][nonce]], empty when absent. *)
Definition storedVotes (normalized : address) (nonce : Z) (s : State) : list Vote :=
  default [] (voteStore s !! (normalized, nonce)).

(** [getVotes(account, nonce)] *)
Definition getVotes (account : address) (nonce : Z) (s : State) : list Vote :=
  storedVotes (toLowerCase account) nonce s.

(** [this.voteStore[normalized][nonce].push(vote)] *)
Definition pushVote (normalized : address) (nonce : Z) (vote : Vote) (s : State) : State :=
  {| accounts := accounts s;
     voteStore := <[(normalized, nonce) := storedVotes normalized nonce s ++ [vote]]> (voteStore s);
     broadcasts := broadcasts s |}.

Definition withBroadcast (vote : Vote) (s : State) : State :=
  {| accounts := accounts s; voteStore := voteStore s;
     broadcasts := broadcasts s ++ [vote] |}.

(** [await this.broadcastVoteCallback(vote)]: the vote leaves for the peers. *)
Definition broadcastVote (vote : Vote) : M unit := modify (withBroadcast vote).

(** [executeTransfer(tx)]:
<<
  const senderAcc = this.getAccount(tx.from!);
  const recipientAcc = this.getAccount(tx.to!);
  senderAcc.balance -= tx.value;
  recipientAcc.balance += tx.value;
>> *)
Definition executeTransfer (tx : Transaction) : M unit :=
  let* sender := nonNull (tx_from tx) in
  let* recipient := nonNull (tx_to tx) in
  modify (updateAccount sender (addBalance (- Z.of_N (tx_value tx)))) ;;
  modify (updateAccount recipient (addBalance (Z.of_N (tx_value tx)))).

(** Reading the state with a check that may throw. *)
Definition reads {A} (f : State -> Result A) : M A := fun s => (f s, s).

(** What a validator is asked to do. *)
Inductive Call : Type :=
  | CallTransaction (signedTx : TxData)
  | CallVote (vote : Vote).

(** ** validator-core.ts: [ValidatorCore] *)

Module ValidatorCore.

(** [validatePayment(tx)] *)
Definition validatePayment (tx : Transaction) (s : State) : Result unit :=
  match tx_from tx with
  | None => Throw TypeError
  | Some from =>
      let account := getAccount from s in
      if negb (finalised account =? Z.of_N (tx_nonce tx) - 1) then Throw PreviousNonceNotFinalised
      else if balance account <? Z.of_N (tx_value tx) then Throw InsufficientBalance
      else Ok tt
  end.

(** The loop [for (let k = tipTx.nonce + 1; k < tx.nonce; k++)] of
    [validateRecovery], over the nonces it visits. *)
Fixpoint checkIntermediate (cfg : Config) (sender : address) (ks : list Z) (s : State) : Result unit :=
  match ks with
  | [] => Ok tt
  | k :: ks' =>
      if countQuorum (getVotes sender k s) None <? NOTARISATION_QUORUM cfg
      then Throw (IntermediateMissingBot k)
      else checkIntermediate cfg sender ks' s
  end.

(** [validateRecovery(tx)] *)
Definition validateRecovery (cfg : Config) (tx : Transaction) (s : State) : Result unit :=
  match tx_data tx with
  | DataEmpty => Throw RecoveryMissingTip
  | data =>
      match TransactionFrom data with
      | Throw e => Throw e
      | Ok tipTx =>
          match tx_from tx with
          | None => Throw TypeError
          | Some from =>
              let sender := toLowerCase from in
              if negb (bool_decide (toLowerCase <$> tx_from tipTx = Some sender))
              then Throw TipSenderMismatch
              else if countQuorum (getVotes sender (Z.of_N (tx_nonce tipTx)) s) (tx_hash tipTx)
                        <? NOTARISATION_QUORUM cfg
              then Throw TipNoNotarisationQuorum
              else checkIntermediate cfg sender
                     (seqZ (Z.of_N (tx_nonce tipTx) + 1)
                           (Z.of_N (tx_nonce tx) - Z.of_N (tx_nonce tipTx) - 1)) s
          end
      end
  end.

(** The two [existing.some(...)] tests of [onVote]: a vote with a transaction
    is dropped when the validator has any vote there, a bot vote when the
    validator has a bot vote there. *)
Definition alreadyVoted (vote : Vote) (existing : list Vote) : bool :=
  match serializedTx vote with
  | Some _ => existsb (fun v => bool_decide (validator v = validator vote)) existing
  | None =>
      existsb (fun v => bool_decide (validator v = validator vote)
                        && bool_decide (serializedTx v = None)) existing
  end.

(** [votes.some((v) => v.validator === this.address && v.serializedTx === null)] *)
Definition votedBot (cfg : Config) (votes : list Vote) : bool :=
  existsb (fun v => bool_decide (validator v = self cfg)
                    && bool_decide (serializedTx v = None)) votes.

(** "Handle current nonce" of [processCertificate]; [acc] stands for the
    account object (its key in [accounts]), [k] for the local [nonce]. *)
Definition handleCurrentNonce (cfg : Config) (onVoteRec : Vote -> M unit)
    (acc account : address) (k quorum : Z) (votes : list Vote) : M unit :=
  let* a := gets (getAccount acc) in
  if k =? nonce a then
    if quorum <? NOTARISATION_QUORUM cfg then
      if negb (votedBot cfg votes) then
        modify (updateAccount acc (setPending true)) ;;
        let botVote := signVote cfg account k None in
        onVoteRec botVote ;;
        broadcastVote botVote
      else ret tt
    else if pending a then
      modify (updateAccount acc (fun a => setPending false (setNonce (k + 1) a)))
    else ret tt
  else ret tt.

(** "Handle finality (n-f quorum)" of [processCertificate]. *)
Definition handleFinality (cfg : Config) (acc : address) (k quorum : Z)
    (tx : option Transaction) : M unit :=
  let* a := gets (getAccount acc) in
  match tx with
  | Some tx' =>
      if (quorum >=? FINALITY_QUORUM cfg) && (k >? finalised a) then
        let* originalTx := liftResult (getTxChainStart tx') in
        let originalNonce := Z.of_N (tx_nonce originalTx) in
        if (originalNonce =? finalised a) || (originalNonce =? finalised a + 1) then
          (if originalNonce =? finalised a + 1 then executeTransfer originalTx else ret tt) ;;
          modify (updateAccount acc (setFinalised k)) ;;
          let* a' := gets (getAccount acc) in
          if k >=? nonce a' then
            modify (updateAccount acc (fun a => setPending false (setNonce (k + 1) a)))
          else ret tt
        else ret tt
      else ret tt
  | None => ret tt
  end.

(** [processCertificate(acc, votes)], open in the call to [onVote]. *)
Definition processCertificateBody (cfg : Config) (onVoteRec : Vote -> M unit)
    (acc : address) (votes : list Vote) : M unit :=
  let* first := nonNull (head votes) in
  let account := toLowerCase (account first) in
  let k := voteNonce first in
  let c := getMaxQuorumCert votes 1 in
  handleCurrentNonce cfg onVoteRec acc account k (quorum c) votes ;;
  handleFinality cfg acc k (quorum c) (tx c).

(** [onVote(vote)], open in the call to [processCertificate]. *)
Definition onVoteBody (cfg : Config) (processCertificateRec : address -> list Vote -> M unit)
    (vote : Vote) : M unit :=
  if negb (verifyVote vote (validatorSet cfg)) then throw InvalidVote
  else
    let normalized := toLowerCase (account vote) in
    let* existing := gets (storedVotes normalized (voteNonce vote)) in
    if alreadyVoted vote existing then ret tt
    else
      modify (pushVote normalized (voteNonce vote) vote) ;;
      let* existing' := gets (storedVotes normalized (voteNonce vote)) in
      let* acc := gets (getAccount normalized) in
      if (voteNonce vote =? nonce acc)
         && (Z.of_nat (length existing') >=? FINALITY_QUORUM cfg)
      then processCertificateRec normalized existing'
      else ret tt.

(** [onVote] and [processCertificate] call each other; [fuel] bounds the
    depth of the calls to [onVote]. *)
Fixpoint onVote (cfg : Config) (fuel : nat) (vote : Vote) : M unit :=
  match fuel with
  | O => throw FuelExhausted
  | S fuel' => onVoteBody cfg (processCertificateBody cfg (onVote cfg fuel')) vote
  end.

Definition processCertificate (cfg : Config) (fuel : nat) : address -> list Vote -> M unit :=
  processCertificateBody cfg (onVote cfg fuel).

(** The checks of [onTransaction] that come before the first write. *)
Definition validateTransaction (cfg : Config) (signedTx : TxData) (s : State) : Result Transaction :=
  match TransactionFrom signedTx with
  | Throw e => Throw e
  | Ok tx =>
      match tx_from tx with
      | None => Throw InvalidTransactionSignature
      | Some from =>
          let sender := toLowerCase from in
          let account := getAccount sender s in
          if pending account then Throw AccountPending
          else if negb (Z.of_N (tx_nonce tx) =? nonce account) then Throw NonceMismatch
          else
            match tx_to tx with
            | None => Throw TypeError
            | Some to =>
                match (if isRecoveryContract to then validateRecovery cfg tx s
                       else validatePayment tx s) with
                | Throw e => Throw e
                | Ok _ => Ok tx
                end
            end
      end
  end.

(** [onTransaction(signedTx)] *)
Definition onTransaction (cfg : Config) (fuel : nat) (signedTx : TxData) : M Vote :=
  let* tx := reads (validateTransaction cfg signedTx) in
  let* from := nonNull (tx_from tx) in
  let sender := toLowerCase from in
  modify (updateAccount sender (setPending true)) ;;
  let vote := signVote cfg sender (Z.of_N (tx_nonce tx)) (Some tx) in
  onVote cfg fuel vote ;;
  broadcastVote vote ;;
  ret vote.

Definition step (cfg : Config) (fuel : nat) (c : Call) (s : State) : State :=
  match c with
  | CallTransaction signedTx => snd (onTransaction cfg fuel signedTx s)
  | CallVote vote => snd (onVote cfg fuel vote s)
  end.

Definition run (cfg : Config) (fuel : nat) (calls : list Call) (s : State) : State :=
  fold_left (fun s c => step cfg fuel c s) calls s.

End ValidatorCore.

(** [storeVote(vote)] of the later revision and of the classic core: the own
    vote is pushed without the tests of [onVote]. *)
Definition storeVote (vote : Vote) : M unit :=
  modify (pushVote (toLowerCase (account vote)) (voteNonce vote) vote).

(** ** The later revision of [ValidatorCore]

    The source tree holds a second revision of the class (it follows the
    [Client] class in prototype/src/client.ts). It takes the quorums from the
    constructor, stores the own transaction vote with [storeVote], runs
    [processCertificate(account, nonce)] on every stored vote, asks for
    [votes.length >= finalityQuorum] before a bot vote, and re-enters the
    processor when the nonce was incremented. [validatePayment],
    [validateRecovery] and the checks of [onTransaction] read as in
    validator-core.ts.

    The nonce [k] of a pass comes from a stored vote. With the verification
    of votes on, it is a safe integer ([verifyVote] has packed it), and
    [k + 1] and the comparisons below are those of the integers. With
    [skipVerification] set, a vote is stored whatever its nonce, for which
    [nonce + 1] of the source need not be the successor; the statements
    that follow the nonce of this revision through [k + 1] assume
    verification on. *)

Module ValidatorCoreReentry.

(** "Handle current nonce"; the result is what the pass adds to
    [nonceIncremented]. *)
Definition handleCurrentNonce (cfg : Config) (onVoteRec : Vote -> M unit)
    (account : address) (k quorum : Z) (votes : list Vote) : M bool :=
  let* acc := gets (getAccount account) in
  if k =? nonce acc then
    if quorum <? NOTARISATION_QUORUM cfg then
      let alreadyVotedBot := ValidatorCore.votedBot cfg votes in
      if (Z.of_nat (length votes) >=? FINALITY_QUORUM cfg) && negb alreadyVotedBot then
        modify (updateAccount account (setPending true)) ;;
        let botVote := signVote cfg account k None in
        onVoteRec botVote ;;
        broadcastVote botVote ;;
        ret false
      else ret false
    else if pending acc then
      modify (updateAccount account (fun a => setPending false (setNonce (k + 1) a))) ;;
      ret true
    else ret false
  else ret false.

(** "Handle finality (n-f quorum)". *)
Definition handleFinality (cfg : Config) (account : address) (k quorum : Z)
    (tx : option Transaction) : M bool :=
  let* acc := gets (getAccount account) in
  match tx with
  | Some tx' =>
      if (quorum >=? FINALITY_QUORUM cfg) && (k >? finalised acc) then
        let* originalTx := liftResult (getTxChainStart tx') in
        let originalNonce := Z.of_N (tx_nonce originalTx) in
        if (originalNonce =? finalised acc) || (originalNonce =? finalised acc + 1) then
          (if originalNonce =? finalised acc + 1 then executeTransfer originalTx else ret tt) ;;
          modify (updateAccount account (setFinalised k)) ;;
          let* acc' := gets (getAccount account) in
          if k >=? nonce acc' then
            modify (updateAccount account (fun a => setPending false (setNonce (k + 1) a))) ;;
            ret true
          else ret false
        else ret false
      else ret false
  | None => ret false
  end.

(** [processCertificate(account, nonce)], open in its two recursive calls. *)
Definition processCertificateBody (cfg : Config) (onVoteRec : Vote -> M unit)
    (processCertificateRec : address -> Z -> M unit) (account : address) (k : Z) : M unit :=
  let* votes := gets (getVotes account k) in
  let c := getMaxQuorumCert votes 1 in
  let* incremented1 := handleCurrentNonce cfg onVoteRec account k (quorum c) votes in
  let* incremented2 := handleFinality cfg account k (quorum c) (tx c) in
  if incremented1 || incremented2 then
    let* acc := gets (getAccount account) in
    processCertificateRec account (nonce acc)
  else ret tt.

(** [onVote(vote)], open in the call to [processCertificate]. *)
Definition onVoteBody (cfg : Config) (processCertificateRec : address -> Z -> M unit)
    (vote : Vote) : M unit :=
  if negb (skipVerification cfg) && negb (verifyVote vote (validatorSet cfg))
  then throw InvalidVote
  else
    let normalized := toLowerCase (account vote) in
    let* existing := gets (storedVotes normalized (voteNonce vote)) in
    if ValidatorCore.alreadyVoted vote existing then ret tt
    else
      modify (pushVote normalized (voteNonce vote) vote) ;;
      processCertificateRec (account vote) (voteNonce vote).

Fixpoint processCertificate (cfg : Config) (fuel : nat) (account : address) (k : Z) : M unit :=
  match fuel with
  | O => throw FuelExhausted
  | S fuel' =>
      processCertificateBody cfg
        (onVoteBody cfg (processCertificate cfg fuel'))
        (processCertificate cfg fuel') account k
  end.

Definition onVote (cfg : Config) (fuel : nat) (vote : Vote) : M unit :=
  onVoteBody cfg (processCertificate cfg fuel) vote.

(** [onTransaction(signedTx)] *)
Definition onTransaction (cfg : Config) (fuel : nat) (signedTx : TxData) : M Vote :=
  let* tx := reads (ValidatorCore.validateTransaction cfg signedTx) in
  let* from := nonNull (tx_from tx) in
  let sender := toLowerCase from in
  modify (updateAccount sender (setPending true)) ;;
  let vote := signVote cfg sender (Z.of_N (tx_nonce tx)) (Some tx) in
  storeVote vote ;;
  processCertificate cfg fuel (account vote) (voteNonce vote) ;;
  broadcastVote vote ;;
  ret vote.

Definition step (cfg : Config) (fuel : nat) (c : Call) (s : State) : State :=
  match c with
  | CallTransaction signedTx => snd (onTransaction cfg fuel signedTx s)
  | CallVote vote => snd (onVote cfg fuel vote s)
  end.

Definition run (cfg : Config) (fuel : nat) (calls : list Call) (s : State) : State :=
  fold_left (fun s c => step cfg fuel c s) calls s.

End ValidatorCoreReentry.

(** ** classic-validator-core.ts: [ClassicValidatorCore] *)

Module ClassicValidatorCore.

(** The constructor sets [finalityQuorum = n - fByzantine] and throws unless
    [n >= 3f + 1]. *)
Definition finalityQuorum (cfg : Config) : Z := N_VALIDATORS cfg - F_BYZANTINE cfg.

Definition validParams (cfg : Config) : Prop :=
  0 <= F_BYZANTINE cfg /\ 3 * F_BYZANTINE cfg + 1 <= N_VALIDATORS cfg.

(** The class has its own [getMaxQuorumCert], without [minQuorum]. *)
Definition getMaxQuorumCert (votes : list Vote) : Z * option Transaction :=
  let '(maxQuorum, maxTx, _) := fold_left maxStep (votesByTx votes) (0, None, []) in
  (maxQuorum, maxTx).

(** [processCertificate(account, nonce)] *)
Definition processCertificate (cfg : Config) (account : address) (k : Z) : M unit :=
  let* acc := gets (getAccount account) in
  let* votes := gets (getVotes account k) in
  let '(quorum, tx) := getMaxQuorumCert votes in
  match tx with
  | Some tx' =>
      if (k =? nonce acc) && (quorum >=? finalityQuorum cfg) then
        executeTransfer tx' ;;
        modify (updateAccount account
                  (fun a => setPending false (setNonce (k + 1) (setFinalised k a))))
      else ret tt
  | None => ret tt
  end.

(** [onVote(vote)] *)
Definition onVote (cfg : Config) (vote : Vote) : M unit :=
  if negb (skipVerification cfg) && negb (verifyVote vote (validatorSet cfg))
  then throw InvalidVote
  else
    let normalized := toLowerCase (account vote) in
    let* existing := gets (storedVotes normalized (voteNonce vote)) in
    if existsb (fun v => bool_decide (validator v = validator vote)) existing then ret tt
    else
      modify (pushVote normalized (voteNonce vote) vote) ;;
      processCertificate cfg (account vote) (voteNonce vote).

(** The checks of [onTransaction] that come before the first write. *)
Definition validateTransaction (signedTx : TxData) (s : State) : Result Transaction :=
  match TransactionFrom signedTx with
  | Throw e => Throw e
  | Ok tx =>
      match tx_from tx with
      | None => Throw InvalidTransactionSignature
      | Some from =>
          let account := getAccount (toLowerCase from) s in
          if pending account then Throw AccountPending
          else if negb (Z.of_N (tx_nonce tx) =? nonce account) then Throw NonceMismatch
          else if balance account <? Z.of_N (tx_value tx) then Throw InsufficientBalance
          else Ok tx
      end
  end.

(** [onTransaction(signedTx)] *)
Definition onTransaction (cfg : Config) (signedTx : TxData) : M Vote :=
  let* tx := reads (validateTransaction signedTx) in
  let* from := nonNull (tx_from tx) in
  let sender := toLowerCase from in
  modify (updateAccount sender (setPending true)) ;;
  let vote := signVote cfg sender (Z.of_N (tx_nonce tx)) (Some tx) in
  storeVote vote ;;
  processCertificate cfg (account vote) (voteNonce vote) ;;
  broadcastVote vote ;;
  ret vote.

Definition step (cfg : Config) (c : Call) (s : State) : State :=
  match c with
  | CallTransaction signedTx => snd (onTransaction cfg signedTx s)
  | CallVote vote => snd (onVote cfg vote s)
  end.

(** The states a sequence of calls goes through, the first one first. *)
Fixpoint trace (cfg : Config) (calls : list Call) (s : State) : list State :=
  match calls with
  | [] => [s]
  | c :: calls' => s :: trace cfg calls' (step cfg c s)
  end.

Definition run (cfg : Config) (calls : list Call) (s : State) : State :=
  fold_left (fun s c => step cfg c s) calls s.

End ClassicValidatorCore.

(** The state after the constructor: genesis balances, no votes. *)
Definition genesis (balances : list (address * Z)) : State :=
  {| accounts :=
       fold_left (fun m ab => <[toLowerCase (fst ab) := mkAccountState (snd ab) 0 false (-1)]> m)
                 balances ∅;
     voteStore := ∅;
     broadcasts := [] |}.

(** ** Predicates of the statements *)

(** What the specification asks of an accepted recovery transaction [tx]: the
    data decodes to a tip signed by the same sender, the store holds a
    notarisation quorum for the tip at its nonce, and a notarisation quorum
    of bot votes at every nonce between the tip and [tx]. *)
Definition recoveryConditions (cfg : Config) (tx : Transaction) (s : State) : Prop :=
  exists (tipTx : Transaction) (from : address),
    tx_data tx = DataTx tipTx
    /\ tx_from tx = Some from
    /\ toLowerCase <$> tx_from tipTx = Some (toLowerCase from)
    /\ NOTARISATION_QUORUM cfg
       <= countQuorum (getVotes from (Z.of_N (tx_nonce tipTx)) s) (tx_hash tipTx)
    /\ forall k : Z,
         Z.of_N (tx_nonce tipTx) < k < Z.of_N (tx_nonce tx) ->
         NOTARISATION_QUORUM cfg <= countQuorum (getVotes from k s) None.

(** Fixtures of the examples: six validators and one fault, as in the tests. *)
Module Fixture.
Definition validators : list address :=
  ["0xa1"; "0xa2"; "0xa3"; "0xa4"; "0xa5"; "0xa6"]%string.
Definition config (me : address) : Config :=
  mkConfig me (list_to_set validators) 6 1 false.
Definition alice : address := "0xc1"%string.
Definition bob : address := "0xb1"%string.
Definition carol : address := "0xb2"%string.
Definition payment (to : address) (value nonce : N) : Transaction :=
  mkTransaction (Some alice) (Some to) value nonce DataEmpty.
(** The vote of validator [who] for [tx] on alice's account at [nonce]. *)
Definition voteOf (who : address) (nonce : Z) (tx : option Transaction) : Vote :=
  signVote (config who) alice nonce tx.
Definition me : Config := config "0xa1"%string.
End Fixture.

(** Scenarios of the examples, run on validator [0xa1]. *)
Module Scenario.
Import Fixture.
Definition start : State := genesis [(alice, 1000)].
Definition pay0 : Transaction := payment bob 100 0.
(** Alice's payment at nonce 0 submitted to [0xa1], then the votes of four
    peers: five votes finalise it. *)
Definition finalise0 : list Call :=
  CallTransaction (DataTx pay0)
  :: map (fun who => CallVote (voteOf who 0 (Some pay0)))
         ["0xa2"; "0xa3"; "0xa4"; "0xa5"]%string.
Definition afterPay0 : State := ValidatorCore.run me 2 finalise0 start.
(** A recovery transaction at nonce 1 whose tip is the payment at nonce 0. *)
Definition recover1 : Transaction := recoveryOf alice 1 pay0.
End Scenario.

(** How the control fields of the accounts may change between two states:
    nonces and finalised nonces do not go down, [finalised < nonce] is kept,
    and an account that is pending stays pending as long as its nonce stays. *)
Definition evolves (s s' : State) : Prop :=
  forall a : address,
    nonce (getAccount a s) <= nonce (getAccount a s')
    /\ finalised (getAccount a s) <= finalised (getAccount a s')
    /\ (finalised (getAccount a s) < nonce (getAccount a s) ->
        finalised (getAccount a s') < nonce (getAccount a s'))
    /\ (nonce (getAccount a s') = nonce (getAccount a s) ->
        pending (getAccount a s) = true -> pending (getAccount a s') = true).

(** Every run of [m] relates the state before to the state after, whether
    it returns or throws. *)
Definition preserves (R : State -> State -> Prop) {A} (m : M A) : Prop :=
  forall s, R s (snd (m s)).

(** Two states whose accounts differ at most in the balances. *)
Definition sameControl (s s' : State) : Prop :=
  forall a : address,
    nonce (getAccount a s') = nonce (getAccount a s)
    /\ pending (getAccount a s') = pending (getAccount a s)
    /\ finalised (getAccount a s') = finalised (getAccount a s).

(** The errors of the checks [onTransaction] makes by itself, by message. *)
Definition validationError (e : Error) : Prop :=
  match e with
  | InvalidTransactionSignature | AccountPending | NonceMismatch
  | PreviousNonceNotFinalised | InsufficientBalance | RecoveryMissingTip
  | TipSenderMismatch | TipNoNotarisationQuorum | IntermediateMissingBot _ => True
  | _ => False
  end.

(** The errors that can come out of storing and processing a vote. *)
Definition processingError (e : Error) : Prop :=
  e = InvalidVote \/ e = TypeError \/ e = DecodeError \/ e = FuelExhausted.

Definition throwsOnly (E : Error -> Prop) {A} (m : M A) : Prop :=
  forall s e, fst (m s) = Throw e -> E e.

(** The votes of validator [val] in a list, with and without a transaction. *)
Definition txVotesOf (val : address) (votes : list Vote) : list Vote :=
  filter (fun v => validator v = val /\ serializedTx v <> None) votes.
Definition botVotesOf (val : address) (votes : list Vote) : list Vote :=
  filter (fun v => validator v = val /\ serializedTx v = None) votes.

(** At most one vote with a transaction and at most one bot vote from each
    validator. *)
Definition singleVotes (votes : list Vote) : Prop :=
  forall val, (length (txVotesOf val votes) <= 1)%nat /\ (length (botVotesOf val votes) <= 1)%nat.

Definition storeSingle (s : State) : Prop :=
  forall n k, singleVotes (storedVotes n k s).

(** How the vote store may change: lists only grow at the end, and the
    single-vote property is kept. *)
Definition storeStep (s s' : State) : Prop :=
  (storeSingle s -> storeSingle s')
  /\ forall n k, storedVotes n k s `prefix_of` storedVotes n k s'.

Definition sameStore (s s' : State) : Prop := voteStore s' = voteStore s.

(** Account [a] sits at nonce [k] with its pending flag set. *)
Definition lockedAt (a : address) (k : Z) (s : State) : Prop :=
  nonce (getAccount a s) = k /\ pending (getAccount a s) = true.

(** No payload has a finality quorum among the votes stored for [(a, k)]. *)
Definition belowFinality (fq : Z) (a : address) (k : Z) (s : State) : Prop :=
  forall payload, countQuorum (getVotes a k s) payload < fq.

(** The broadcasts of [s'] are those of [s] followed by votes that carry a
    transaction. *)
Definition noBotCast (s s' : State) : Prop :=
  exists new, broadcasts s' = broadcasts s ++ new
              /\ Forall (fun v => serializedTx v <> None) new.

(** A split at nonce 1 in the classic core: [0xa1] votes for a payment to
    bob, then learns of two more votes for it and of three votes for a
    payment to carol. *)
Module ClassicScenario.
Import Fixture.
Definition toBob : Transaction := payment bob 200 0.
Definition toCarol : Transaction := payment carol 300 0.
Definition voted : State :=
  snd (ClassicValidatorCore.onTransaction me (DataTx toBob) (genesis [(alice, 1000)])).
Definition split : list Call :=
  map (fun who => CallVote (voteOf who 0 (Some toBob))) ["0xa2"; "0xa3"]%string
  ++ map (fun who => CallVote (voteOf who 0 (Some toCarol))) ["0xa4"; "0xa5"; "0xa6"]%string
  ++ [CallTransaction (DataTx (payment bob 50 0)); CallTransaction (DataTx (payment bob 50 1))].
End ClassicScenario.

(** What a transfer of [value] from [sender] to [recipient] adds to the
    balance of account [a] (nothing in total when both are [a]). *)
Definition balanceChange (sender recipient : address) (value : N) (a : address) : Z :=
  (if decide (toLowerCase recipient = toLowerCase a) then Z.of_N value else 0)
  - (if decide (toLowerCase sender = toLowerCase a) then Z.of_N value else 0).

(** In the later revision: [0xa1] votes for alice's payment at nonce 0 and
    sees it notarised by three votes, then votes for her recovery transaction
    at nonce 1; a fourth vote for the payment arrives. *)
Module ReentryScenario.
Import Fixture.
Definition pay0 : Transaction := payment bob 100 0.
Definition recover1 : Transaction := recoveryOf alice 1 pay0.
Definition calls : list Call :=
  [CallTransaction (DataTx pay0);
   CallVote (voteOf "0xa2" 0 (Some pay0));
   CallVote (voteOf "0xa3" 0 (Some pay0));
   CallTransaction (DataTx recover1);
   CallVote (voteOf "0xa4" 0 (Some pay0))].
Definition pendingAt1 : State :=
  ValidatorCoreReentry.run me 5 calls (genesis [(alice, 1000)]).
(** The fifth vote for the payment at nonce 0. *)
Definition fifth : Vote := voteOf "0xa5" 0 (Some pay0).
End ReentryScenario.

(** The writes that close "Handle finality": [acc.finalised = nonce], and
    [acc.nonce = nonce + 1; acc.pending = false] under [nonce >= acc.nonce]. *)
Definition finaliseAt (acc : address) (k : Z) (s : State) : State :=
  let s2 := updateAccount acc (setFinalised k) s in
  if k >=? nonce (getAccount acc s2)
  then updateAccount acc (fun a => setPending false (setNonce (k + 1) a)) s2
  else s2.

(** Every stored vote sits under its own account and nonce. *)
Definition storeKeyed (s : State) : Prop :=
  forall n k v, v ∈ storedVotes n k s -> toLowerCase (account v) = n /\ voteNonce v = k.

(** Neither the vote store nor the broadcasts change. *)
Definition quiet (s s' : State) : Prop :=
  voteStore s' = voteStore s /\ broadcasts s' = broadcasts s.

(** An equivocation seen by [0xa1]: three validators vote for three different
    payments at nonce 0, one of them also votes bot. *)
Module SplitScenario.
Import Fixture.
Definition calls : list Call :=
  [CallVote (voteOf "0xa2" 0 (Some (payment bob 1 0)));
   CallVote (voteOf "0xa3" 0 (Some (payment bob 2 0)));
   CallVote (voteOf "0xa4" 0 (Some (payment bob 3 0)));
   CallVote (voteOf "0xa2" 0 None)].
Definition fourVotes : State := ValidatorCore.run me 2 calls (genesis [(alice, 1000)]).
(** The vote of a fourth validator, for a fourth payment. *)
Definition fifth : Vote := voteOf "0xa5" 0 (Some (payment bob 4 0)).
End SplitScenario.

(** Every balance is non-negative. *)
Definition nonNegative (s : State) : Prop :=
  forall a, 0 <= balance (getAccount a s).

(** The payment at the chain start of [t], if it resolves and is signed, asks
    for no more than its sender has in [s]. *)
Definition covered (s : State) (t : Transaction) : Prop :=
  forall orig sender,
    getTxChainStart t = Ok orig -> tx_from orig = Some sender ->
    Z.of_N (tx_value orig) <= balance (getAccount sender s).

(** [t] is carried by a vote of the store. *)
Definition storedPayload (s : State) (t : Transaction) : Prop :=
  exists n k v, v ∈ storedVotes n k s /\ serializedTx v = Some t.

(** The transaction a call brings along. *)
Definition payloadOf (c : Call) : option Transaction :=
  match c with
  | CallTransaction (DataTx t) => Some t
  | CallTransaction _ => None
  | CallVote v => serializedTx v
  end.

(** The balances of [s'] are those of [s], or those of [s] after one transfer
    of the chain start of a transaction in [P]. *)
Definition oneTransfer (P : Transaction -> Prop) (s s' : State) : Prop :=
  (forall a, balance (getAccount a s') = balance (getAccount a s))
  \/ exists t orig sender recipient,
       P t /\ getTxChainStart t = Ok orig
       /\ tx_from orig = Some sender /\ tx_to orig = Some recipient
       /\ forall a, balance (getAccount a s')
                    = balance (getAccount a s)
                      + balanceChange sender recipient (tx_value orig) a.

(** Five validators vote for a payment of 150 from an account that holds 100. *)
Module OverdraftScenario.
Import Fixture.
Definition start : State := genesis [(alice, 100)].
Definition pay : Transaction := payment bob 150 0.
Definition votes : list Vote :=
  map (fun who => voteOf who 0 (Some pay)) ["0xa2"; "0xa3"; "0xa4"; "0xa5"; "0xa6"]%string.
End OverdraftScenario.

Definition sameBalance (s s' : State) : Prop :=
  forall a, balance (getAccount a s') = balance (getAccount a s).

(** Four of the five votes that finalise alice's payment of 100 at nonce 0
    have arrived at [0xa1]. *)
Module TransferScenario.
Import Fixture.
Definition pay : Transaction := payment bob 100 0.
Definition fourVotes : State :=
  ValidatorCore.run me 2
    (map (fun who => CallVote (voteOf who 0 (Some pay))) ["0xa2"; "0xa3"; "0xa4"; "0xa5"]%string)
    (genesis [(alice, 1000)]).
Definition fifth : Call := CallVote (voteOf "0xa6" 0 (Some pay)).
End TransferScenario.


(** In the later revision: the five votes for alice's payment at nonce 1
    reach [0xa1] before the votes for her payment at nonce 0. *)
Module EarlyVotesScenario.
Import Fixture.
Definition pay0 : Transaction := payment bob 100 0.
Definition pay1 : Transaction := payment bob 200 1.
Definition calls : list Call :=
  map (fun who => CallVote (voteOf who 1 (Some pay1)))
    ["0xa2"; "0xa3"; "0xa4"; "0xa5"; "0xa6"]%string
  ++ map (fun who => CallVote (voteOf who 0 (Some pay0)))
       ["0xa2"; "0xa3"; "0xa4"; "0xa5"]%string.
Definition before : State :=
  ValidatorCoreReentry.run me 3 calls (genesis [(alice, 1000)]).
(** The fifth vote for the payment at nonce 0. *)
Definition fifth : Vote := voteOf "0xa6" 0 (Some pay0).
(** [0xa1] has voted for the payment at nonce 0 and stored the vote of
    [0xa2]; the vote of [0xa3] has just been pushed. *)
Definition thirdStored : State :=
  pushVote alice 0 (voteOf "0xa3" 0 (Some pay0))
    (ValidatorCoreReentry.run me 3
       [CallTransaction (DataTx pay0); CallVote (voteOf "0xa2" 0 (Some pay0))]
       (genesis [(alice, 1000)])).
End EarlyVotesScenario.

(** The broadcasts of [s'] are those of [s] followed by votes that satisfy
    [P]. *)
Definition castOnly (P : Vote -> Prop) (s s' : State) : Prop :=
  exists new, broadcasts s' = broadcasts s ++ new /\ Forall P new.

(** A bot vote signed by the validator of [cfg]. *)
Definition ownBot (cfg : Config) (v : Vote) : Prop :=
  exists a k, v = signVote cfg a k None.

(** The votes with a transaction that the validator has broadcast for
    account [a] at nonce [k]. *)
Definition txCasts (a : address) (k : Z) (s : State) : list Vote :=
  filter (fun v => serializedTx v <> None
                   /\ toLowerCase (account v) = toLowerCase a /\ voteNonce v = k)
         (broadcasts s).

(** At most one transaction vote was broadcast for each account and nonce,
    and an account for which one was broadcast at [k] has moved beyond [k] or
    is still pending at [k]. *)
Definition castOnce (s : State) : Prop :=
  forall a k,
    (length (txCasts a k s) <= 1)%nat
    /\ (txCasts a k s <> [] ->
        k < nonce (getAccount a s)
        \/ (k = nonce (getAccount a s) /\ pending (getAccount a s) = true)).

(** ** [getRecoveryInfo] *)

(** [ChainEntry] and [RecoveryInfo] of common.ts; a certificate is given by
    its list of votes, a serialised transaction by the transaction. *)
Record ChainEntry : Type := mkChainEntry {
  entryNonce : Z;
  entryTx : option Transaction;
  entryCert : list Vote
}.

Record RecoveryInfo : Type := mkRecoveryInfo {
  finalisedNonce : Z;
  serializedFinalisedTx : option Transaction;
  finalityCert : option (list Vote);
  currentNonce : Z;
  chain : list ChainEntry
}.

(** [tx.serialized]: ethers serialises a signed transaction and throws for
    an unsigned one. *)
Definition serialized (tx : Transaction) : Result Transaction :=
  match tx_from tx with
  | Some _ => Ok tx
  | None => Throw UnsignedSerialization
  end.

(** [tx?.serialized ?? null] *)
Definition serializedOrNull (tx : option Transaction) : Result (option Transaction) :=
  match tx with
  | Some t =>
      match serialized t with
      | Ok bytes => Ok (Some bytes)
      | Throw e => Throw e
      end
  | None => Ok None
  end.

(** The loop [for (let k = kf + 1; k < kn; k++)] of [getRecoveryInfo], over
    the nonces it visits: it stops at the first nonce without a notarisation
    certificate, or whose certificate is headed by a vote with an unsigned
    transaction. *)
Fixpoint buildChain (cfg : Config) (account : address) (ks : list Z) (s : State)
    : Result (list ChainEntry) :=
  match ks with
  | [] => Ok []
  | k :: ks' =>
      let c := getMaxQuorumCert (getVotes account k s) (NOTARISATION_QUORUM cfg) in
      match cert c with
      | None => Throw (MissingNotarisation k)
      | Some votes =>
          match serializedOrNull (tx c) with
          | Throw e => Throw e
          | Ok serializedTx =>
              match buildChain cfg account ks' s with
              | Ok rest => Ok (mkChainEntry k serializedTx votes :: rest)
              | Throw e => Throw e
              end
          end
      end
  end.

(** The first block of [getRecoveryInfo]: the finalised transaction and its
    certificate, when [kf >= 0]. *)
Definition finalisedPart (cfg : Config) (account : address) (kf : Z) (s : State)
    : Result (option Transaction * option (list Vote)) :=
  if kf >=? 0 then
    let c := getMaxQuorumCert (getVotes account kf s) (FINALITY_QUORUM cfg) in
    match tx c, cert c with
    | Some t, Some votes =>
        match serialized t with
        | Ok bytes => Ok (Some bytes, Some votes)
        | Throw e => Throw e
        end
    | _, _ => Ok (None, None)
    end
  else Ok (None, None).

(** [getRecoveryInfo(account)] of both revisions of [ValidatorCore]. *)
Definition getRecoveryInfo (cfg : Config) (account : address) (s : State) : Result RecoveryInfo :=
  let acc := getAccount account s in
  let kf := finalised acc in
  let kn := nonce acc in
  match finalisedPart cfg account kf s with
  | Throw e => Throw e
  | Ok (serializedFinalisedTx, cf) =>
      match buildChain cfg account (seqZ (kf + 1) (kn - kf - 1)) s with
      | Ok chain => Ok (mkRecoveryInfo kf serializedFinalisedTx cf kn chain)
      | Throw e => Throw e
      end
  end.

(** Every nonce of an account between its finalised nonce and its current
    nonce has a payload with a notarisation quorum in the store. *)
Definition notarisedBelow (cfg : Config) (s : State) : Prop :=
  forall a k,
    finalised (getAccount a s) < k < nonce (getAccount a s) ->
    exists payload, NOTARISATION_QUORUM cfg <= countQuorum (getVotes a k s) payload.

(** The sum of the balances of all accounts. *)
Definition totalBalance (s : State) : Z :=
  map_fold (fun _ a total => balance a + total) 0 (accounts s).

Definition sameTotal (s s' : State) : Prop := totalBalance s' = totalBalance s.

(** In the classic core the nonce of an account is the successor of its
    finalised nonce. *)
Definition tracksFinalised (s : State) : Prop :=
  forall a, nonce (getAccount a s) = finalised (getAccount a s) + 1
            /\ 0 <= nonce (getAccount a s).

Definition classicStep (s s' : State) : Prop :=
  (tracksFinalised s -> tracksFinalised s')
  /\ forall a, nonce (getAccount a s) <= nonce (getAccount a s').

(** ** client.ts: [Client] *)

Module Client.

(** [responses.reduce((best, r) => r.currentNonce > best.currentNonce ? r : best)],
    on a list that is not empty. *)
Definition bestResponse (first : RecoveryInfo) (rest : list RecoveryInfo) : RecoveryInfo :=
  fold_left (fun best r => if currentNonce r >? currentNonce best then r else best) rest first.

(** The loop of [findTipTransaction] from the end of the chain down to the
    first entry that is not bot; the argument is the chain, last entry
    first. *)
Fixpoint lastTransaction (fromEnd : list ChainEntry) : option Transaction :=
  match fromEnd with
  | [] => None
  | entry :: earlier =>
      match entryTx entry with
      | Some t => Some t
      | None => lastTransaction earlier
      end
  end.

(** [findTipTransaction(responses)]; [ownNonce] is [this.nonce]. *)
Definition findTipTransaction (ownNonce : Z) (responses : list RecoveryInfo)
    : option Transaction * Z :=
  match responses with
  | [] => (None, ownNonce)
  | first :: rest =>
      let best := bestResponse first rest in
      let tipTx := match lastTransaction (reverse (chain best)) with
                   | Some t => Some t
                   | None => serializedFinalisedTx best
                   end in
      (tipTx, currentNonce best)
  end.

(** The transaction [initiateRecovery] signs: to the recovery contract, of
    value 0, at the nonce found, with the tip as data. *)
Definition recoveryTransaction (client : address) (nonce : Z) (tipTx : Transaction)
    : Transaction :=
  mkTransaction (Some client) (Some RECOVERY_CONTRACT) 0 (Z.to_N nonce) (DataTx tipTx).

End Client.

(** The lists of the vote store only grow at the end. *)
Definition storeGrows (s s' : State) : Prop :=
  forall n k, storedVotes n k s `prefix_of` storedVotes n k s'.

(** The validator has voted for [t] at account [n] and nonce [k]: its own vote
    [signVote(n, k, t)] is in the store there. [onTransaction] casts that vote
    after [validateTransaction] has let [t] pass. *)
Definition owned (cfg : Config) (n : address) (k : Z) (t : Transaction) (s : State) : Prop :=
  signVote cfg n k (Some t) ∈ storedVotes n k s.



(** What [validateTransaction] leaves behind for a transaction [t] of account
    [n]: the chain of [t] starts at a signed payment of [n] whose nonce is
    not above [finalised + 1] and which, when its nonce is [finalised + 1]
    (the case in which "Handle finality" executes it), asks for no more than
    the balance of [n]. *)
Definition validatedAt (n : address) (t : Transaction) (s : State) : Prop :=
  exists orig sender recipient,
    getTxChainStart t = Ok orig
    /\ tx_from orig = Some sender /\ toLowerCase sender = toLowerCase n
    /\ tx_to orig = Some recipient
    /\ Z.of_N (tx_nonce orig) <= finalised (getAccount n s) + 1
    /\ (Z.of_N (tx_nonce orig) = finalised (getAccount n s) + 1 ->
        Z.of_N (tx_value orig) <= balance (getAccount n s)).

(** The invariant of the runs in which every delivered vote is [endorsed]:
    balances are non-negative, every stored vote with a transaction sits next
    to the validator's own vote for it, and what the validator has voted for
    is [validatedAt] its account. *)
Definition balanceInv (cfg : Config) (s : State) : Prop :=
  storeKeyed s /\ nonNegative s
  /\ (forall n k v t, v ∈ storedVotes n k s -> serializedTx v = Some t -> owned cfg n k t s)
  /\ (forall n k t, owned cfg n k t s -> validatedAt n t s).



(** Two payments of alice seen by [0xa1], each accepted by [onTransaction]
    and then voted for by four more validators: 100 to bob at nonce 0, and
    the remaining 900 to carol at nonce 1. *)
Module PaymentsScenario.
Import Fixture.
Definition pay0 : Transaction := payment bob 100 0.
Definition pay1 : Transaction := payment carol 900 1.
Definition peers : list address := ["0xa2"; "0xa3"; "0xa4"; "0xa5"]%string.
Definition calls : list Call :=
  CallTransaction (DataTx pay0) :: map (fun who => CallVote (voteOf who 0 (Some pay0))) peers
  ++ CallTransaction (DataTx pay1) :: map (fun who => CallVote (voteOf who 1 (Some pay1))) peers.
End PaymentsScenario.

(** The state "Handle current nonce" leaves when the votes give a
    notarisation quorum: the nonce of a pending account at nonce [k] has
    advanced, and nothing else has changed. *)
Definition advanced (acc : address) (k : Z) (s : State) : State :=
  if (k =? nonce (getAccount acc s)) && pending (getAccount acc s)
  then updateAccount acc (fun a => setPending false (setNonce (k + 1) a)) s
  else s.

(** How nonce and [pending] of [acc] stand in [s2] once nonce [k] was
    finalised, starting from [s]: a nonce not above [k] has become [k + 1]
    with [pending] cleared; a nonce already above [k] has stayed, and so has
    [pending]. *)
Definition closes (acc : address) (k : Z) (s s2 : State) : Prop :=
  (nonce (getAccount acc s) <= k ->
   nonce (getAccount acc s2) = k + 1 /\ pending (getAccount acc s2) = false)
  /\ (k < nonce (getAccount acc s) ->
      nonce (getAccount acc s2) = nonce (getAccount acc s)
      /\ pending (getAccount acc s2) = pending (getAccount acc s)).

(** What the finality rule makes of state [s] when the votes at nonce [k] of
    [acc] give a finality quorum for a transaction whose chain start is
    [orig]; [ends s2] says that the processor has reached state [s2]. *)
Definition finalityOutcome (ends : State -> Prop) (acc : address) (k : Z)
    (orig : Transaction) (s : State) : Prop :=
  let fin := finalised (getAccount acc s) in
  (Z.of_N (tx_nonce orig) = fin + 1 ->
   forall sender recipient,
     tx_from orig = Some sender -> tx_to orig = Some recipient ->
     exists s2,
       ends s2 /\ quiet s s2
       /\ finalised (getAccount acc s2) = k
       /\ (forall a, balance (getAccount a s2)
                     = balance (getAccount a s)
                       + balanceChange sender recipient (tx_value orig) a)
       /\ closes acc k s s2)
  /\ (Z.of_N (tx_nonce orig) = fin ->
      exists s2,
        ends s2 /\ quiet s s2
        /\ finalised (getAccount acc s2) = k
        /\ sameBalance s s2
        /\ closes acc k s s2)
  /\ (Z.of_N (tx_nonce orig) <> fin -> Z.of_N (tx_nonce orig) <> fin + 1 ->
      ends (advanced acc k s)).

(** In the later revision: while alice is at nonce 0, [0xa1] stores five
    votes for five different payments of nonce 1; then the five votes for her
    payment at nonce 0 arrive. *)
Module ReentryBotScenario.
Import Fixture.
Definition pay0 : Transaction := payment bob 100 0.
Definition early : list Vote :=
  [voteOf "0xa2" 1 (Some (payment bob 1 1)); voteOf "0xa3" 1 (Some (payment bob 2 1));
   voteOf "0xa4" 1 (Some (payment bob 3 1)); voteOf "0xa5" 1 (Some (payment bob 4 1));
   voteOf "0xa6" 1 (Some (payment bob 5 1))].
Definition calls : list Call :=
  map CallVote early
  ++ map (fun who => CallVote (voteOf who 0 (Some pay0))) ["0xa2"; "0xa3"; "0xa4"; "0xa5"]%string.
Definition before : State := ValidatorCoreReentry.run me 5 calls (genesis [(alice, 1000)]).
(** The fifth vote for the payment at nonce 0. *)
Definition fifth : Vote := voteOf "0xa6" 0 (Some pay0).
End ReentryBotScenario.

(** The number of validators behind a list of votes. [verifyVote] compares
    validator strings after [toLowerCase()], so two strings that differ in
    letter case only name the same validator. *)
Definition distinctSigners (votes : list Vote) : Z :=
  Z.of_nat (length (remove_dups ((fun v => toLowerCase (validator v)) <$> votes))).

(** The votes of one validator written under several names: [0xa1] votes for
    alice's payment at nonce 0 and then receives the vote of [0xa2] four
    times, the validator string written in four letter cases. *)
Module SpellingScenario.
Import Fixture.
(** [v] with its [validator] field written as [spelling]. *)
Definition respell (spelling : address) (v : Vote) : Vote :=
  mkVote spelling (account v) (voteNonce v) (serializedTx v) (signature v).
Definition spellings : list address := ["0xa2"; "0xA2"; "0Xa2"; "0XA2"]%string.
Definition pay0 : Transaction := payment bob 100 0.
Definition peerVotes : list Vote :=
  map (fun spelling => respell spelling (voteOf "0xa2" 0 (Some pay0))) spellings.
Definition calls : list Call := CallTransaction (DataTx pay0) :: map CallVote peerVotes.
Definition start : State := genesis [(alice, 1000)].
Definition after : State := ValidatorCore.run me 2 calls start.
Definition after' : State := ValidatorCoreReentry.run me 5 calls start.
(** A recovery transaction at nonce 1 whose tip is the payment at nonce 0. *)
Definition recover1 : Transaction := recoveryOf alice 1 pay0.
End SpellingScenario.

(** * Properties *)

(** ** Basic facts about the state *)

Lemma lowerAscii_idemp (c : ascii) : lowerAscii (lowerAscii c) = lowerAscii c.
Proof. destruct c as [[] [] [] [] [] [] [] []]; reflexivity. Qed.

Lemma toLowerCase_idemp (s : string) : toLowerCase (toLowerCase s) = toLowerCase s.
Proof.
  induction s as [|c s IH]; simpl; [reflexivity|].
  rewrite lowerAscii_idemp, IH; reflexivity.
Qed.

Lemma getAccount_lower (a : address) (s : State) :
  getAccount (toLowerCase a) s = getAccount a s.
Proof. unfold getAccount. rewrite toLowerCase_idemp. reflexivity. Qed.

Lemma getAccount_updateAccount (a b : address) f (s : State) :
  getAccount a (updateAccount b f s)
  = if decide (toLowerCase b = toLowerCase a) then f (getAccount b s) else getAccount a s.
Proof.
  unfold getAccount, updateAccount; simpl.
  rewrite lookup_insert. destruct (decide (toLowerCase b = toLowerCase a)); reflexivity.
Qed.

Lemma getAccount_updateAccount_eq (a : address) f (s : State) :
  getAccount a (updateAccount a f s) = f (getAccount a s).
Proof. rewrite getAccount_updateAccount. destruct (decide _); congruence. Qed.

Lemma getAccount_pushVote (a n : address) (k : Z) (v : Vote) (s : State) :
  getAccount a (pushVote n k v s) = getAccount a s.
Proof. reflexivity. Qed.

Lemma storedVotes_updateAccount (n a : address) (k : Z) f (s : State) :
  storedVotes n k (updateAccount a f s) = storedVotes n k s.
Proof. reflexivity. Qed.

Lemma storedVotes_pushVote (n n' : address) (k k' : Z) (v : Vote) (s : State) :
  storedVotes n' k' (pushVote n k v s)
  = if decide ((n, k) = (n', k')) then storedVotes n k s ++ [v] else storedVotes n' k' s.
Proof.
  unfold storedVotes, pushVote; simpl. rewrite lookup_insert.
  destruct (decide ((n, k) = (n', k'))); reflexivity.
Qed.

(** ** The recovery-chain resolver *)

Lemma getTxChainStart_payment (p : Transaction) (to : address) :
  tx_to p = Some to -> isRecoveryContract to = false -> getTxChainStart p = Ok p.
Proof. destruct p as [f t v n d]; simpl; intros -> ->; reflexivity. Qed.

Lemma isRecoveryContract_self : isRecoveryContract RECOVERY_CONTRACT = true.
Proof. reflexivity. Qed.

Lemma getTxChainStart_wrap (sender : address) (d : nat) (p : Transaction) :
  getTxChainStart (wrapRecovery sender d p) = getTxChainStart p.
Proof. induction d as [|d IH]; [reflexivity|]. simpl. exact IH. Qed.

Lemma nestingDepth_wrap (sender : address) (d : nat) (p : Transaction) :
  nestingDepth (wrapRecovery sender d p) = (d + nestingDepth p)%nat.
Proof. induction d as [|d IH]; [reflexivity|]. simpl. rewrite IH. reflexivity. Qed.

Lemma getTxChainStart_cases :
  forall tx : Transaction,
    (exists orig, getTxChainStart tx = Ok orig /\ getTxChainStart orig = Ok orig
                  /\ (nestingDepth orig <= nestingDepth tx)%nat)
    \/ getTxChainStart tx = Throw TypeError
    \/ getTxChainStart tx = Throw DecodeError.
Proof.
  fix IH 1. intros [f [to|] v n d]; [|right; left; reflexivity].
  simpl. destruct (isRecoveryContract to) eqn:E.
  - destruct d as [|b|inner].
    + left. eexists; split; [reflexivity|]. simpl. rewrite E. split; [reflexivity|lia].
    + right; right; reflexivity.
    + destruct (IH inner) as [(orig & H1 & H2 & H3)|[H|H]].
      * left. exists orig. repeat split; [exact H1|exact H2|lia].
      * right; left; exact H.
      * right; right; exact H.
  - left. eexists; split; [reflexivity|]. simpl. rewrite E. split; [reflexivity|lia].
Qed.

(** C9, as the specification states it, fails: the resolver has no depth cap.
    Whatever cap is proposed, some transaction nested deeper than the cap is
    resolved to its chain start. *)
Lemma getTxChainStart_has_no_cap :
  ~ exists cap : nat,
      forall tx : Transaction,
        (cap < nestingDepth tx)%nat -> forall orig, getTxChainStart tx <> Ok orig.
Proof.
  intros [cap H].
  set (p := Fixture.payment Fixture.bob 10 0).
  apply (H (wrapRecovery Fixture.alice (S cap) p)) with (orig := p).
  - rewrite nestingDepth_wrap. lia.
  - rewrite getTxChainStart_wrap. reflexivity.
Qed.

(** C9, amended: [getTxChainStart] has no depth cap. A payment wrapped in any
    number [d] of recovery layers is resolved to the payment; on every input
    the resolver returns a transaction that it leaves as it is and that is
    nested no deeper than the input, or throws because a recipient is
    missing or a data payload does not decode. *)
Theorem getTxChainStart_unbounded (sender : address) (d : nat) (p : Transaction)
    (to : address) (tx : Transaction) :
  tx_to p = Some to ->
  isRecoveryContract to = false ->
  (getTxChainStart (wrapRecovery sender d p) = Ok p
   /\ nestingDepth (wrapRecovery sender d p) = (d + nestingDepth p)%nat)
  /\ ((exists orig, getTxChainStart tx = Ok orig /\ getTxChainStart orig = Ok orig
                    /\ (nestingDepth orig <= nestingDepth tx)%nat)
      \/ getTxChainStart tx = Throw TypeError
      \/ getTxChainStart tx = Throw DecodeError).
Proof.
  intros Hto Hrec. split; [split|].
  - rewrite getTxChainStart_wrap. eapply getTxChainStart_payment; eassumption.
  - apply nestingDepth_wrap.
  - apply getTxChainStart_cases.
Qed.

Lemma getTxChainStart_unbounded_witness :
  getTxChainStart (wrapRecovery Fixture.alice 9 (Fixture.payment Fixture.bob 10 0))
  = Ok (Fixture.payment Fixture.bob 10 0).
Proof.
  apply (getTxChainStart_unbounded Fixture.alice 9 (Fixture.payment Fixture.bob 10 0)
           Fixture.bob (Fixture.payment Fixture.bob 10 0)); reflexivity.
Defined.

(** ** Acceptance of transactions *)

Lemma onTransaction_rejected (cfg : Config) (fuel : nat) (signedTx : TxData) (s : State)
    (e : Error) :
  ValidatorCore.validateTransaction cfg signedTx s = Throw e ->
  ValidatorCore.onTransaction cfg fuel signedTx s = (Throw e, s).
Proof.
  intros H. unfold ValidatorCore.onTransaction, bind, reads. rewrite H. reflexivity.
Qed.

Lemma onTransaction_accepted (cfg : Config) (fuel : nat) (signedTx : TxData) (s : State)
    (vote : Vote) :
  fst (ValidatorCore.onTransaction cfg fuel signedTx s) = Ok vote ->
  exists tx, ValidatorCore.validateTransaction cfg signedTx s = Ok tx.
Proof.
  unfold ValidatorCore.onTransaction, bind, reads.
  destruct (ValidatorCore.validateTransaction cfg signedTx s) as [tx|e]; simpl.
  - intros _. exists tx. reflexivity.
  - discriminate.
Qed.

Lemma onTransaction_rejected' (cfg : Config) (fuel : nat) (signedTx : TxData) (s : State)
    (e : Error) :
  ValidatorCore.validateTransaction cfg signedTx s = Throw e ->
  ValidatorCoreReentry.onTransaction cfg fuel signedTx s = (Throw e, s).
Proof.
  intros H. unfold ValidatorCoreReentry.onTransaction, bind, reads. rewrite H. reflexivity.
Qed.

Lemma onTransaction_accepted' (cfg : Config) (fuel : nat) (signedTx : TxData) (s : State)
    (vote : Vote) :
  fst (ValidatorCoreReentry.onTransaction cfg fuel signedTx s) = Ok vote ->
  exists tx, ValidatorCore.validateTransaction cfg signedTx s = Ok tx.
Proof.
  unfold ValidatorCoreReentry.onTransaction, bind, reads.
  destruct (ValidatorCore.validateTransaction cfg signedTx s) as [tx|e]; simpl.
  - intros _. exists tx. reflexivity.
  - discriminate.
Qed.

Lemma checkIntermediate_Ok (cfg : Config) (sender : address) (ks : list Z) (s : State) :
  ValidatorCore.checkIntermediate cfg sender ks s = Ok tt
  <-> forall k, k ∈ ks -> NOTARISATION_QUORUM cfg <= countQuorum (getVotes sender k s) None.
Proof.
  induction ks as [|k ks IH]; simpl.
  - split; [intros _ k Hk; inversion Hk | reflexivity].
  - destruct (Z.ltb_spec (countQuorum (getVotes sender k s) None) (NOTARISATION_QUORUM cfg)).
    + split; [discriminate|]. intros Hall.
      specialize (Hall k (list_elem_of_here _ _)). lia.
    + rewrite IH. split.
      * intros Hall k' Hk'. apply elem_of_cons in Hk' as [->|Hk']; [lia|auto].
      * intros Hall k' Hk'. apply Hall. apply list_elem_of_further. exact Hk'.
Qed.

Lemma checkIntermediate_result (cfg : Config) (sender : address) (ks : list Z) (s : State) :
  ValidatorCore.checkIntermediate cfg sender ks s = Ok tt
  \/ exists k, ValidatorCore.checkIntermediate cfg sender ks s = Throw (IntermediateMissingBot k).
Proof.
  induction ks as [|k ks IH]; simpl; [left; reflexivity|].
  destruct (_ <? _); [right; eexists; reflexivity|exact IH].
Qed.

Lemma validateRecovery_Ok (cfg : Config) (tx : Transaction) (s : State) :
  ValidatorCore.validateRecovery cfg tx s = Ok tt <-> recoveryConditions cfg tx s.
Proof.
  unfold ValidatorCore.validateRecovery, recoveryConditions.
  destruct (tx_data tx) as [|b|tipTx] eqn:Hd; simpl.
  - split; [discriminate|]. intros (t & f & H & _). discriminate.
  - split; [discriminate|]. intros (t & f & H & _). discriminate.
  - destruct (tx_from tx) as [from|] eqn:Hf.
    2:{ split; [discriminate|]. intros (t & f & _ & H & _). discriminate. }
    destruct (bool_decide (toLowerCase <$> tx_from tipTx = Some (toLowerCase from))) eqn:Hs; simpl.
    2:{ apply bool_decide_eq_false in Hs. split; [discriminate|].
        intros (t & f & [= <-] & [= <-] & H & _). contradiction. }
    apply bool_decide_eq_true in Hs.
    unfold getVotes. rewrite toLowerCase_idemp.
    destruct (Z.ltb_spec (countQuorum (storedVotes (toLowerCase from) (Z.of_N (tx_nonce tipTx)) s)
                            (tx_hash tipTx)) (NOTARISATION_QUORUM cfg)) as [Hq|Hq].
    { split; [discriminate|]. intros (t & f & [= <-] & [= <-] & _ & H & _). lia. }
    rewrite checkIntermediate_Ok. unfold getVotes. split.
    + intros Hall. exists tipTx, from. repeat split; try assumption.
      intros k Hk. specialize (Hall k). rewrite toLowerCase_idemp in Hall.
      apply Hall. apply elem_of_seqZ. lia.
    + intros (t & f & [= <-] & [= <-] & _ & _ & Hall) k Hk.
      rewrite toLowerCase_idemp. apply Hall. apply elem_of_seqZ in Hk. lia.
Qed.

Lemma validateTransaction_recovery (cfg : Config) (tx tx' : Transaction) (to : address)
    (s : State) :
  tx_to tx = Some to ->
  isRecoveryContract to = true ->
  ValidatorCore.validateTransaction cfg (DataTx tx) s = Ok tx' ->
  recoveryConditions cfg tx s.
Proof.
  intros Hto Hrec. unfold ValidatorCore.validateTransaction; simpl.
  destruct (tx_from tx); [|discriminate].
  destruct (pending _); [discriminate|].
  destruct (negb _); [discriminate|].
  rewrite Hto, Hrec.
  destruct (ValidatorCore.validateRecovery cfg tx s) as [[]|e] eqn:Hv; [|discriminate].
  intros _. apply validateRecovery_Ok. exact Hv.
Qed.

Lemma validateTransaction_not_recovery (cfg : Config) (tx : Transaction) (to : address)
    (s : State) :
  tx_to tx = Some to ->
  isRecoveryContract to = true ->
  ~ recoveryConditions cfg tx s ->
  exists e, ValidatorCore.validateTransaction cfg (DataTx tx) s = Throw e.
Proof.
  intros Hto Hrec Hno.
  destruct (ValidatorCore.validateTransaction cfg (DataTx tx) s) as [tx'|e] eqn:Hv.
  - exfalso. apply Hno. eapply validateTransaction_recovery; eassumption.
  - exists e. reflexivity.
Qed.

(** X19 ([validateRecovery] and [onTransaction], both revisions).
    Acceptance of a recovery transaction, with the quorums as [countQuorum]
    computes them (over validator strings): [onTransaction] accepts it only
    if its data decodes to a tip of the same sender, [countQuorum] of the tip
    at the tip's nonce reaches [n - 3f], and so does [countQuorum] of bot at
    every nonce strictly between; when one of these fails, [onTransaction]
    throws and leaves the whole state (accounts, vote store, broadcasts) as
    it was, so no vote is cast. Both revisions of the core. *)
Theorem recovery_acceptance (cfg : Config) (fuel : nat) (tx : Transaction) (to : address)
    (s : State) :
  tx_to tx = Some to ->
  isRecoveryContract to = true ->
  ((forall vote, fst (ValidatorCore.onTransaction cfg fuel (DataTx tx) s) = Ok vote ->
                 recoveryConditions cfg tx s)
   /\ (~ recoveryConditions cfg tx s ->
       exists e, ValidatorCore.onTransaction cfg fuel (DataTx tx) s = (Throw e, s)))
  /\ ((forall vote, fst (ValidatorCoreReentry.onTransaction cfg fuel (DataTx tx) s) = Ok vote ->
                    recoveryConditions cfg tx s)
      /\ (~ recoveryConditions cfg tx s ->
          exists e, ValidatorCoreReentry.onTransaction cfg fuel (DataTx tx) s = (Throw e, s))).
Proof.
  intros Hto Hrec. repeat split.
  - intros vote H. apply onTransaction_accepted in H as [tx' H].
    eapply validateTransaction_recovery; eassumption.
  - intros Hno. destruct (validateTransaction_not_recovery cfg tx to s Hto Hrec Hno) as [e He].
    exists e. apply onTransaction_rejected. exact He.
  - intros vote H. apply onTransaction_accepted' in H as [tx' H].
    eapply validateTransaction_recovery; eassumption.
  - intros Hno. destruct (validateTransaction_not_recovery cfg tx to s Hto Hrec Hno) as [e He].
    exists e. apply onTransaction_rejected'. exact He.
Qed.

Lemma recovery_acceptance_witness :
  recoveryConditions Fixture.me Scenario.recover1 Scenario.afterPay0.
Proof.
  apply (proj1 (proj1 (recovery_acceptance Fixture.me 2 Scenario.recover1 RECOVERY_CONTRACT
                         Scenario.afterPay0 eq_refl eq_refl))
           (signVote Fixture.me Fixture.alice 1 (Some Scenario.recover1))).
  vm_compute. reflexivity.
Defined.

(** C4 fails on the code, by a defect of [countQuorum]: it counts validator
    strings as they are written in the votes, while [verifyVote] accepts a
    validator string in any letter case. Validator [0xa1] holds its own vote
    for alice's payment at nonce 0 and the vote of [0xa2] under four
    spellings, all verified: two validators are behind the tip, fewer than
    [n - 3f = 3], and yet [onTransaction] accepts the recovery transaction
    at nonce 1 with that tip and casts the validator's vote for it, in both
    revisions. *)
Theorem recovery_accepted_on_respelled_votes :
  let s := SpellingScenario.after in
  let s' := SpellingScenario.after' in
  let tip := SpellingScenario.pay0 in
  let tipVotes (st : State) :=
    filter (fun v => voteTxHash v = tx_hash tip) (getVotes Fixture.alice 0 st) in
  let own := signVote Fixture.me Fixture.alice 1 (Some SpellingScenario.recover1) in
  Forall (fun v => verifyVote v (validatorSet Fixture.me) = true) SpellingScenario.peerVotes
  /\ NOTARISATION_QUORUM Fixture.me = 3
  /\ distinctSigners (tipVotes s) = 2
  /\ countQuorum (getVotes Fixture.alice 0 s) (tx_hash tip) = 5
  /\ fst (ValidatorCore.onTransaction Fixture.me 2 (DataTx SpellingScenario.recover1) s) = Ok own
  /\ own ∈ broadcasts
             (snd (ValidatorCore.onTransaction Fixture.me 2 (DataTx SpellingScenario.recover1) s))
  /\ distinctSigners (tipVotes s') = 2
  /\ fst (ValidatorCoreReentry.onTransaction Fixture.me 5 (DataTx SpellingScenario.recover1) s')
     = Ok own.
Proof.
  cbv zeta. split; [|split; [|split; [|split; [|split; [|split; [|split]]]]]].
  - repeat constructor.
  - reflexivity.
  - vm_compute. reflexivity.
  - vm_compute. reflexivity.
  - vm_compute. reflexivity.
  - apply (bool_decide_unpack _). vm_compute. exact I.
  - vm_compute. reflexivity.
  - vm_compute. reflexivity.
Qed.

(** ** Reasoning about handlers *)

Section Preserves.
Context (R : State -> State -> Prop).
Hypothesis R_refl : forall s, R s s.
Hypothesis R_trans : forall s1 s2 s3, R s1 s2 -> R s2 s3 -> R s1 s3.

Lemma preserves_ret {A} (a : A) : preserves R (ret a).
Proof. intros s. apply R_refl. Qed.

Lemma preserves_throw {A} (e : Error) : preserves R (@throw A e).
Proof. intros s. apply R_refl. Qed.

Lemma preserves_gets {A} (f : State -> A) : preserves R (gets f).
Proof. intros s. apply R_refl. Qed.

Lemma preserves_reads {A} (f : State -> Result A) : preserves R (reads f).
Proof. intros s. apply R_refl. Qed.

Lemma preserves_liftResult {A} (r : Result A) : preserves R (liftResult r).
Proof. intros s. apply R_refl. Qed.

Lemma preserves_nonNull {A} (o : option A) : preserves R (nonNull o).
Proof. destruct o; intros s; apply R_refl. Qed.

Lemma preserves_modify (f : State -> State) :
  (forall s, R s (f s)) -> preserves R (modify f).
Proof. intros H s. apply H. Qed.

Lemma preserves_bind {A B} (m : M A) (k : A -> M B) :
  preserves R m -> (forall a, preserves R (k a)) -> preserves R (bind m k).
Proof.
  intros Hm Hk s. unfold bind. specialize (Hm s).
  destruct (m s) as [[a|e] s'] eqn:E; simpl in *.
  - eapply R_trans; [exact Hm|apply Hk].
  - exact Hm.
Qed.

(** The same, at one state. *)
Lemma bind_at {A B} (m : M A) (k : A -> M B) (s : State) :
  R s (snd (m s)) ->
  (forall a, fst (m s) = Ok a -> R (snd (m s)) (snd (k a (snd (m s))))) ->
  R s (snd (bind m k s)).
Proof.
  intros Hm Hk. unfold bind.
  destruct (m s) as [[a|e] s'] eqn:E; simpl in *.
  - eapply R_trans; [exact Hm|apply Hk; reflexivity].
  - exact Hm.
Qed.
End Preserves.

Lemma evolves_refl (s : State) : evolves s s.
Proof. intros a. repeat split; auto; lia. Qed.

Lemma evolves_trans (s1 s2 s3 : State) : evolves s1 s2 -> evolves s2 s3 -> evolves s1 s3.
Proof.
  intros H12 H23 a.
  destruct (H12 a) as (N1 & F1 & I1 & P1), (H23 a) as (N2 & F2 & I2 & P2).
  repeat split; [lia|lia|auto|].
  intros E Hp. apply P2; [lia|]. apply P1; [lia|exact Hp].
Qed.

(** A write to one account evolves the state when it evolves that account. *)
Lemma evolves_updateAccount (acc : address) (f : AccountState -> AccountState) (s : State) :
  (let x := getAccount acc s in
   nonce x <= nonce (f x) /\ finalised x <= finalised (f x)
   /\ (finalised x < nonce x -> finalised (f x) < nonce (f x))
   /\ (nonce (f x) = nonce x -> pending x = true -> pending (f x) = true)) ->
  evolves s (updateAccount acc f s).
Proof.
  intros H a. rewrite getAccount_updateAccount.
  destruct (decide (toLowerCase acc = toLowerCase a)) as [E|E].
  - assert (getAccount a s = getAccount acc s) as ->
      by (unfold getAccount; rewrite E; reflexivity).
    exact H.
  - repeat split; auto; lia.
Qed.

Lemma updateAccount_compose (acc : address) (f g : AccountState -> AccountState) (s : State) :
  updateAccount acc g (updateAccount acc f s) = updateAccount acc (fun a => g (f a)) s.
Proof.
  unfold updateAccount at 1 3. rewrite getAccount_updateAccount_eq. simpl.
  f_equal. apply insert_insert_eq.
Qed.

Lemma evolves_pushVote (n : address) (k : Z) (v : Vote) (s : State) :
  evolves s (pushVote n k v s).
Proof. intros a. rewrite getAccount_pushVote. apply (evolves_refl s). Qed.

Lemma evolves_broadcastVote (v : Vote) : preserves evolves (broadcastVote v).
Proof. intros s a. apply (evolves_refl s). Qed.

Lemma evolves_executeTransfer (tx : Transaction) : preserves evolves (executeTransfer tx).
Proof.
  unfold executeTransfer.
  apply preserves_bind; [apply evolves_trans|apply preserves_nonNull, evolves_refl|intros sender].
  apply preserves_bind; [apply evolves_trans|apply preserves_nonNull, evolves_refl|intros recipient].
  apply preserves_bind; [apply evolves_trans| |intros _];
    apply preserves_modify; intros s; apply evolves_updateAccount; simpl;
    repeat split; auto; lia.
Qed.

Lemma bind_gets {A B} (f : State -> A) (k : A -> M B) (s : State) :
  bind (gets f) k s = k (f s) s.
Proof. reflexivity. Qed.

Lemma bind_modify {B} (f : State -> State) (k : unit -> M B) (s : State) :
  bind (modify f) k s = k tt (f s).
Proof. reflexivity. Qed.

Lemma bind_ret {A B} (a : A) (k : A -> M B) (s : State) : bind (ret a) k s = k a s.
Proof. reflexivity. Qed.

Lemma bind_throw {A B} (e : Error) (k : A -> M B) (s : State) :
  bind (throw e) k s = (Throw e, s).
Proof. reflexivity. Qed.

Lemma bind_liftResult {A B} (r : Result A) (k : A -> M B) (s : State) :
  bind (liftResult r) k s = match r with Ok a => k a s | Throw e => (Throw e, s) end.
Proof. destruct r; reflexivity. Qed.

Lemma bind_reads {A B} (f : State -> Result A) (k : A -> M B) (s : State) :
  bind (reads f) k s = match f s with Ok a => k a s | Throw e => (Throw e, s) end.
Proof. unfold bind, reads. destruct (f s); reflexivity. Qed.

Lemma bind_nonNull {A B} (o : option A) (k : A -> M B) (s : State) :
  bind (nonNull o) k s = match o with Some a => k a s | None => (Throw TypeError, s) end.
Proof. destruct o; reflexivity. Qed.

Lemma bind_broadcastVote {B} (v : Vote) (k : unit -> M B) (s : State) :
  bind (broadcastVote v) k s = k tt (withBroadcast v s).
Proof. reflexivity. Qed.

Lemma bind_run {A B} (m : M A) (k : A -> M B) (s : State) :
  bind m k s = match m s with
               | (Ok a, s') => k a s'
               | (Throw e, s') => (Throw e, s')
               end.
Proof. reflexivity. Qed.

Ltac msimpl :=
  repeat (first [ rewrite bind_gets | rewrite bind_modify | rewrite bind_ret
                | rewrite bind_throw | rewrite bind_liftResult | rewrite bind_reads
                | rewrite bind_nonNull | rewrite bind_broadcastVote ];
          cbv beta).

Lemma sameControl_refl (s : State) : sameControl s s.
Proof. intros a. auto. Qed.

Lemma sameControl_trans (s1 s2 s3 : State) :
  sameControl s1 s2 -> sameControl s2 s3 -> sameControl s1 s3.
Proof.
  intros H12 H23 a. destruct (H12 a) as (? & ? & ?), (H23 a) as (? & ? & ?).
  repeat split; congruence.
Qed.

Lemma sameControl_updateAccount (acc : address) (f : AccountState -> AccountState) (s : State) :
  (forall x, nonce (f x) = nonce x /\ pending (f x) = pending x /\ finalised (f x) = finalised x) ->
  sameControl s (updateAccount acc f s).
Proof.
  intros H a. rewrite getAccount_updateAccount.
  destruct (decide (toLowerCase acc = toLowerCase a)) as [E|E]; [|auto].
  assert (getAccount a s = getAccount acc s) as ->
      by (unfold getAccount; rewrite E; reflexivity).
  apply H.
Qed.

Lemma sameControl_executeTransfer (tx : Transaction) :
  preserves sameControl (executeTransfer tx).
Proof.
  unfold executeTransfer.
  apply preserves_bind; [apply sameControl_trans|apply preserves_nonNull, sameControl_refl|intros sender].
  apply preserves_bind; [apply sameControl_trans|apply preserves_nonNull, sameControl_refl|intros recipient].
  apply preserves_bind; [apply sameControl_trans| |intros _];
    apply preserves_modify; intros s; apply sameControl_updateAccount; intros x; simpl; auto.
Qed.

Lemma sameControl_evolves (s s' : State) : sameControl s s' -> evolves s s'.
Proof.
  intros H a. destruct (H a) as (-> & -> & ->). repeat split; auto; lia.
Qed.

(** The writes that close [handleFinality]: [finalised] is set to [k] and the
    nonce is moved past [k] when it is not there yet. *)
Lemma evolves_finalise (acc : address) (k : Z) (s : State) :
  finalised (getAccount acc s) < k ->
  evolves s
    (let s1 := updateAccount acc (setFinalised k) s in
     if k >=? nonce (getAccount acc s1)
     then updateAccount acc (fun a => setPending false (setNonce (k + 1) a)) s1
     else s1).
Proof.
  intros Hk. cbv zeta. rewrite getAccount_updateAccount_eq. simpl.
  destruct (Z.geb_spec k (nonce (getAccount acc s))).
  - rewrite updateAccount_compose. apply evolves_updateAccount. simpl.
    repeat split; try lia.
  - apply evolves_updateAccount. simpl. repeat split; auto; lia.
Qed.

Lemma evolves_handleFinality (cfg : Config) (acc : address) (k q : Z) (tx : option Transaction) :
  preserves evolves (ValidatorCore.handleFinality cfg acc k q tx).
Proof.
  intros s. unfold ValidatorCore.handleFinality. msimpl.
  destruct tx as [tx'|]; [|apply evolves_refl].
  destruct ((q >=? FINALITY_QUORUM cfg) && (k >? finalised (getAccount acc s))) eqn:Hc;
    [|apply evolves_refl].
  apply andb_true_iff in Hc as [_ Hk]. apply Z.gtb_lt in Hk.
  msimpl. destruct (getTxChainStart tx') as [orig|e]; [|apply evolves_refl].
  destruct (_ || _); [|apply evolves_refl].
  apply bind_at; [apply evolves_trans| |intros [] _].
  - destruct (_ =? _); [apply evolves_executeTransfer|apply evolves_refl].
  - set (s1 := snd (_ s)).
    assert (Hs1 : sameControl s s1).
    { subst s1. destruct (_ =? _); [apply sameControl_executeTransfer|apply sameControl_refl]. }
    msimpl.
    pose proof (evolves_finalise acc k s1) as Hf. cbv zeta in Hf.
    destruct (Hs1 acc) as (_ & _ & Hfin).
    destruct (k >=? _); simpl; apply Hf; lia.
Qed.

Lemma evolves_handleCurrentNonce (cfg : Config) (onVoteRec : Vote -> M unit)
    (acc account : address) (k q : Z) (votes : list Vote) :
  (forall v, preserves evolves (onVoteRec v)) ->
  preserves evolves (ValidatorCore.handleCurrentNonce cfg onVoteRec acc account k q votes).
Proof.
  intros Hrec s. unfold ValidatorCore.handleCurrentNonce. msimpl.
  destruct (Z.eqb_spec k (nonce (getAccount acc s))) as [Hk|]; [|apply evolves_refl].
  destruct (q <? NOTARISATION_QUORUM cfg).
  - destruct (negb _); [|apply evolves_refl].
    msimpl. eapply evolves_trans.
    + apply (evolves_updateAccount acc (setPending true) s). simpl.
      repeat split; auto; lia.
    + apply preserves_bind; [apply evolves_trans|apply Hrec|intros _].
      apply evolves_broadcastVote.
  - destruct (pending (getAccount acc s)); [|apply evolves_refl].
    apply (evolves_updateAccount acc _ s). simpl. repeat split; try lia.
Qed.

Lemma evolves_processCertificateBody (cfg : Config) (onVoteRec : Vote -> M unit)
    (acc : address) (votes : list Vote) :
  (forall v, preserves evolves (onVoteRec v)) ->
  preserves evolves (ValidatorCore.processCertificateBody cfg onVoteRec acc votes).
Proof.
  intros Hrec. unfold ValidatorCore.processCertificateBody.
  apply preserves_bind; [apply evolves_trans|apply preserves_nonNull, evolves_refl|intros first].
  apply preserves_bind; [apply evolves_trans| |intros _].
  - apply evolves_handleCurrentNonce. exact Hrec.
  - apply evolves_handleFinality.
Qed.

Lemma evolves_onVoteBody (cfg : Config) (pc : address -> list Vote -> M unit) (vote : Vote) :
  (forall acc votes, preserves evolves (pc acc votes)) ->
  preserves evolves (ValidatorCore.onVoteBody cfg pc vote).
Proof.
  intros Hpc s. unfold ValidatorCore.onVoteBody.
  destruct (negb _); [apply evolves_refl|]. msimpl.
  destruct (ValidatorCore.alreadyVoted _ _); [apply evolves_refl|]. msimpl.
  eapply evolves_trans; [apply evolves_pushVote|].
  destruct (_ && _); [apply Hpc|apply evolves_refl].
Qed.

Lemma evolves_onVote (cfg : Config) (fuel : nat) (vote : Vote) :
  preserves evolves (ValidatorCore.onVote cfg fuel vote).
Proof.
  revert vote. induction fuel as [|fuel IH]; intros vote; simpl.
  - apply preserves_throw, evolves_refl.
  - apply evolves_onVoteBody. intros acc votes.
    apply evolves_processCertificateBody. exact IH.
Qed.

Lemma evolves_onTransaction (cfg : Config) (fuel : nat) (signedTx : TxData) :
  preserves evolves (ValidatorCore.onTransaction cfg fuel signedTx).
Proof.
  unfold ValidatorCore.onTransaction.
  apply preserves_bind; [apply evolves_trans|apply preserves_reads, evolves_refl|intros tx].
  apply preserves_bind; [apply evolves_trans|apply preserves_nonNull, evolves_refl|intros from].
  apply preserves_bind; [apply evolves_trans| |intros _].
  { apply preserves_modify. intros s. apply evolves_updateAccount. simpl.
    repeat split; auto; lia. }
  apply preserves_bind; [apply evolves_trans|apply evolves_onVote|intros _].
  apply preserves_bind; [apply evolves_trans|apply evolves_broadcastVote|intros _].
  apply preserves_ret, evolves_refl.
Qed.

Lemma evolves_step (cfg : Config) (fuel : nat) (c : Call) (s : State) :
  evolves s (ValidatorCore.step cfg fuel c s).
Proof.
  destruct c; simpl; [apply evolves_onTransaction|apply evolves_onVote].
Qed.

Lemma evolves_run (cfg : Config) (fuel : nat) (calls : list Call) (s : State) :
  evolves s (ValidatorCore.run cfg fuel calls s).
Proof.
  revert s. induction calls as [|c calls IH]; intros s; simpl.
  - apply evolves_refl.
  - eapply evolves_trans; [apply evolves_step|apply IH].
Qed.

Lemma genesis_accounts_lookup (balances : list (address * Z)) (m : gmap address AccountState)
    (k : address) (x : AccountState) :
  (forall y, m !! k = Some y -> nonce y = 0 /\ finalised y = -1 /\ pending y = false) ->
  fold_left (fun m ab => <[toLowerCase (fst ab) := mkAccountState (snd ab) 0 false (-1)]> m)
            balances m !! k = Some x ->
  nonce x = 0 /\ finalised x = -1 /\ pending x = false.
Proof.
  revert m. induction balances as [|[b v] bs IH]; intros m Hm; simpl; [apply Hm|].
  apply IH. intros y. rewrite lookup_insert.
  destruct (decide _); [intros [= <-]; auto|apply Hm].
Qed.

Lemma getAccount_genesis (balances : list (address * Z)) (a : address) :
  nonce (getAccount a (genesis balances)) = 0
  /\ finalised (getAccount a (genesis balances)) = -1
  /\ pending (getAccount a (genesis balances)) = false.
Proof.
  unfold genesis, getAccount; simpl.
  destruct (_ !! toLowerCase a) as [x|] eqn:E; simpl; [|auto].
  eapply genesis_accounts_lookup; [|exact E].
  intros y. rewrite lookup_empty. discriminate.
Qed.

(** C5: along every sequence of [onTransaction] and [onVote] calls from the
    state after the constructor, no account's nonce and no account's
    finalised nonce ever decreases, and [finalised < nonce] holds after every
    call. [calls1] leads to any state of the run, [calls2] to any later one. *)
Theorem nonce_finalised_monotone (cfg : Config) (fuel : nat) (balances : list (address * Z))
    (calls1 calls2 : list Call) (a : address) :
  let s1 := ValidatorCore.run cfg fuel calls1 (genesis balances) in
  let s2 := ValidatorCore.run cfg fuel calls2 s1 in
  nonce (getAccount a s1) <= nonce (getAccount a s2)
  /\ finalised (getAccount a s1) <= finalised (getAccount a s2)
  /\ finalised (getAccount a s1) < nonce (getAccount a s1)
  /\ finalised (getAccount a s2) < nonce (getAccount a s2).
Proof.
  intros s1 s2.
  destruct (getAccount_genesis balances a) as (Hn & Hf & _).
  destruct (evolves_run cfg fuel calls1 (genesis balances) a) as (_ & _ & I1 & _).
  destruct (evolves_run cfg fuel calls2 s1 a) as (N2 & F2 & I2 & _).
  fold s1 in I1. fold s2 in N2, F2, I2.
  assert (finalised (getAccount a s1) < nonce (getAccount a s1)) by (apply I1; lia).
  auto.
Qed.

(** ** Errors of the handlers *)

Lemma throwsOnly_bind (E : Error -> Prop) {A B} (m : M A) (k : A -> M B) :
  throwsOnly E m -> (forall a, throwsOnly E (k a)) -> throwsOnly E (bind m k).
Proof.
  intros Hm Hk s e. unfold bind. specialize (Hm s).
  destruct (m s) as [[a|e'] s'] eqn:Em; simpl in *.
  - apply Hk.
  - intros [= <-]. apply Hm. reflexivity.
Qed.

Lemma throwsOnly_ret (E : Error -> Prop) {A} (a : A) : throwsOnly E (ret a).
Proof. intros s e; discriminate. Qed.

Lemma throwsOnly_gets (E : Error -> Prop) {A} (f : State -> A) : throwsOnly E (gets f).
Proof. intros s e; discriminate. Qed.

Lemma throwsOnly_modify (E : Error -> Prop) (f : State -> State) : throwsOnly E (modify f).
Proof. intros s e; discriminate. Qed.

Lemma throwsOnly_throw (E : Error -> Prop) {A} (e : Error) : E e -> throwsOnly E (@throw A e).
Proof. intros H s e' [= <-]. exact H. Qed.

Lemma throwsOnly_nonNull {A} (o : option A) : throwsOnly processingError (nonNull o).
Proof.
  destruct o; [apply throwsOnly_ret|apply throwsOnly_throw]. right; left; reflexivity.
Qed.

Lemma processingError_getTxChainStart (tx : Transaction) (e : Error) :
  getTxChainStart tx = Throw e -> processingError e.
Proof.
  destruct (getTxChainStart_cases tx) as [(orig & -> & _)|[->| ->]].
  - discriminate.
  - intros [= <-]. right; left; reflexivity.
  - intros [= <-]. right; right; left; reflexivity.
Qed.

Lemma throwsOnly_executeTransfer (tx : Transaction) :
  throwsOnly processingError (executeTransfer tx).
Proof.
  unfold executeTransfer.
  apply throwsOnly_bind; [apply throwsOnly_nonNull|intros sender].
  apply throwsOnly_bind; [apply throwsOnly_nonNull|intros recipient].
  apply throwsOnly_bind; [apply throwsOnly_modify|intros _]. apply throwsOnly_modify.
Qed.

Lemma throwsOnly_handleFinality (cfg : Config) (acc : address) (k q : Z)
    (tx : option Transaction) :
  throwsOnly processingError (ValidatorCore.handleFinality cfg acc k q tx).
Proof.
  unfold ValidatorCore.handleFinality.
  apply throwsOnly_bind; [apply throwsOnly_gets|intros a].
  destruct tx as [tx'|]; [|apply throwsOnly_ret].
  destruct (_ && _); [|apply throwsOnly_ret].
  apply throwsOnly_bind.
  { intros s e. unfold liftResult; simpl. apply processingError_getTxChainStart. }
  intros orig. destruct (_ || _); [|apply throwsOnly_ret].
  apply throwsOnly_bind.
  { destruct (_ =? _); [apply throwsOnly_executeTransfer|apply throwsOnly_ret]. }
  intros _. apply throwsOnly_bind; [apply throwsOnly_modify|intros _].
  apply throwsOnly_bind; [apply throwsOnly_gets|intros a'].
  destruct (_ >=? _); [apply throwsOnly_modify|apply throwsOnly_ret].
Qed.

Lemma throwsOnly_processCertificateBody (cfg : Config) (onVoteRec : Vote -> M unit)
    (acc : address) (votes : list Vote) :
  (forall v, throwsOnly processingError (onVoteRec v)) ->
  throwsOnly processingError (ValidatorCore.processCertificateBody cfg onVoteRec acc votes).
Proof.
  intros Hrec. unfold ValidatorCore.processCertificateBody.
  apply throwsOnly_bind; [apply throwsOnly_nonNull|intros first].
  apply throwsOnly_bind; [|intros _; apply throwsOnly_handleFinality].
  unfold ValidatorCore.handleCurrentNonce.
  apply throwsOnly_bind; [apply throwsOnly_gets|intros a].
  destruct (_ =? _); [|apply throwsOnly_ret].
  destruct (_ <? _).
  - destruct (negb _); [|apply throwsOnly_ret].
    apply throwsOnly_bind; [apply throwsOnly_modify|intros _].
    apply throwsOnly_bind; [apply Hrec|intros _]. apply throwsOnly_modify.
  - destruct (pending a); [apply throwsOnly_modify|apply throwsOnly_ret].
Qed.

Lemma throwsOnly_onVote (cfg : Config) (fuel : nat) (vote : Vote) :
  throwsOnly processingError (ValidatorCore.onVote cfg fuel vote).
Proof.
  revert vote. induction fuel as [|fuel IH]; intros vote; simpl.
  - apply throwsOnly_throw. right; right; right; reflexivity.
  - unfold ValidatorCore.onVoteBody.
    destruct (negb _); [apply throwsOnly_throw; left; reflexivity|].
    apply throwsOnly_bind; [apply throwsOnly_gets|intros existing].
    destruct (ValidatorCore.alreadyVoted _ _); [apply throwsOnly_ret|].
    apply throwsOnly_bind; [apply throwsOnly_modify|intros _].
    apply throwsOnly_bind; [apply throwsOnly_gets|intros existing'].
    apply throwsOnly_bind; [apply throwsOnly_gets|intros acc].
    destruct (_ && _); [|apply throwsOnly_ret].
    apply throwsOnly_processCertificateBody. exact IH.
Qed.

Lemma validationError_not_processing (e : Error) : validationError e -> ~ processingError e.
Proof. intros Hv [->|[->|[->| ->]]]; exact Hv. Qed.

(** What an accepted transaction looked like to the checks. *)
Lemma validateTransaction_Ok (cfg : Config) (signedTx : TxData) (s : State) (tx : Transaction) :
  ValidatorCore.validateTransaction cfg signedTx s = Ok tx ->
  signedTx = DataTx tx
  /\ exists from, tx_from tx = Some from
       /\ pending (getAccount (toLowerCase from) s) = false
       /\ nonce (getAccount (toLowerCase from) s) = Z.of_N (tx_nonce tx).
Proof.
  unfold ValidatorCore.validateTransaction.
  destruct signedTx as [|b|tx0]; simpl; try discriminate.
  destruct (tx_from tx0) as [from|] eqn:Hf; [|discriminate].
  destruct (pending _) eqn:Hp; [discriminate|].
  destruct (Z.eqb_spec (Z.of_N (tx_nonce tx0)) (nonce (getAccount (toLowerCase from) s)));
    simpl; [|discriminate].
  destruct (tx_to tx0); [|discriminate].
  destruct (if isRecoveryContract _ then _ else _); [|discriminate].
  intros [= <-]. split; [reflexivity|]. exists from. auto.
Qed.

(** C8: when one of the checks of [onTransaction] fails, the call throws that
    error and the state (every field of every account, the vote store, the
    broadcasts) is as before; an error with one of the messages of these
    checks never comes with a changed state; and after a successful
    [onTransaction], the same signed bytes are refused with "Account has
    pending transaction" or "Nonce mismatch", again without any change. *)
Theorem rejected_transaction_atomic (cfg : Config) (fuel fuel' : nat) (signedTx : TxData)
    (s : State) :
  (forall e, ValidatorCore.validateTransaction cfg signedTx s = Throw e ->
             ValidatorCore.onTransaction cfg fuel signedTx s = (Throw e, s))
  /\ (forall e, fst (ValidatorCore.onTransaction cfg fuel signedTx s) = Throw e ->
                validationError e ->
                snd (ValidatorCore.onTransaction cfg fuel signedTx s) = s)
  /\ (forall vote, fst (ValidatorCore.onTransaction cfg fuel signedTx s) = Ok vote ->
        let s1 := snd (ValidatorCore.onTransaction cfg fuel signedTx s) in
        exists e, ValidatorCore.onTransaction cfg fuel' signedTx s1 = (Throw e, s1)
                  /\ (e = AccountPending \/ e = NonceMismatch)).
Proof.
  split; [|split].
  - intros e. apply onTransaction_rejected.
  - intros e He Hv. unfold ValidatorCore.onTransaction in *. rewrite bind_reads in *.
    destruct (ValidatorCore.validateTransaction cfg signedTx s) as [tx|e0]; [|reflexivity].
    exfalso. apply (validationError_not_processing e Hv).
    revert He.
    match goal with
    | |- fst (?m s) = _ -> _ => assert (T : throwsOnly processingError m)
    end.
    { apply throwsOnly_bind; [apply throwsOnly_nonNull|intros from].
      apply throwsOnly_bind; [apply throwsOnly_modify|intros _].
      apply throwsOnly_bind; [apply throwsOnly_onVote|intros _].
      apply throwsOnly_bind; [apply throwsOnly_modify|intros _].
      apply throwsOnly_ret. }
    apply T.
  - intros vote Hok s1.
    destruct (onTransaction_accepted _ _ _ _ _ Hok) as [tx Hval].
    destruct (validateTransaction_Ok _ _ _ _ Hval) as (-> & from & Hfrom & Hp & Hn).
    assert (Hev : evolves (updateAccount (toLowerCase from) (setPending true) s) s1).
    { subst s1. unfold ValidatorCore.onTransaction. rewrite bind_reads, Hval.
      rewrite bind_nonNull, Hfrom. rewrite bind_modify.
      apply preserves_bind; [apply evolves_trans|apply evolves_onVote|intros _].
      apply preserves_bind; [apply evolves_trans|apply evolves_broadcastVote|intros _].
      apply preserves_ret, evolves_refl. }
    destruct (Hev (toLowerCase from)) as (N & _ & _ & P).
    rewrite getAccount_updateAccount_eq in N, P. simpl in N, P.
    assert (Hrej : exists e, ValidatorCore.validateTransaction cfg (DataTx tx) s1 = Throw e
                             /\ (e = AccountPending \/ e = NonceMismatch)).
    { unfold ValidatorCore.validateTransaction; simpl. rewrite Hfrom.
      destruct (pending (getAccount (toLowerCase from) s1)) eqn:Hp1.
      - eexists; split; [reflexivity|left; reflexivity].
      - destruct (Z.eqb_spec (Z.of_N (tx_nonce tx)) (nonce (getAccount (toLowerCase from) s1)))
          as [E|E]; simpl.
        + exfalso. assert (false = true) by (apply P; [congruence|reflexivity]).
          discriminate.
        + eexists; split; [reflexivity|right; reflexivity]. }
    destruct Hrej as (e & He & Hcase). exists e. split; [|exact Hcase].
    apply onTransaction_rejected. exact He.
Qed.

Lemma rejected_transaction_atomic_witness :
  let s1 := snd (ValidatorCore.onTransaction Fixture.me 2 (DataTx Scenario.pay0) Scenario.start) in
  exists e, ValidatorCore.onTransaction Fixture.me 2 (DataTx Scenario.pay0) s1 = (Throw e, s1)
            /\ (e = AccountPending \/ e = NonceMismatch).
Proof.
  apply (proj2 (proj2 (rejected_transaction_atomic Fixture.me 2 2 (DataTx Scenario.pay0)
                         Scenario.start))
           (signVote Fixture.me Fixture.alice 0 (Some Scenario.pay0))).
  vm_compute. reflexivity.
Defined.

(** ** The vote store *)

Lemma sameStore_refl (s : State) : sameStore s s.
Proof. reflexivity. Qed.

Lemma sameStore_trans (s1 s2 s3 : State) : sameStore s1 s2 -> sameStore s2 s3 -> sameStore s1 s3.
Proof. unfold sameStore. congruence. Qed.

Lemma sameStore_executeTransfer (tx : Transaction) : preserves sameStore (executeTransfer tx).
Proof.
  unfold executeTransfer.
  apply preserves_bind; [apply sameStore_trans|apply preserves_nonNull, sameStore_refl|intros sender].
  apply preserves_bind; [apply sameStore_trans|apply preserves_nonNull, sameStore_refl|intros recipient].
  apply preserves_bind; [apply sameStore_trans| |intros _];
    apply preserves_modify; intros s; reflexivity.
Qed.

Lemma sameStore_handleFinality (cfg : Config) (acc : address) (k q : Z) (tx : option Transaction) :
  preserves sameStore (ValidatorCore.handleFinality cfg acc k q tx).
Proof.
  unfold ValidatorCore.handleFinality.
  apply preserves_bind; [apply sameStore_trans|apply preserves_gets, sameStore_refl|intros a].
  destruct tx as [tx'|]; [|apply preserves_ret, sameStore_refl].
  destruct (_ && _); [|apply preserves_ret, sameStore_refl].
  apply preserves_bind; [apply sameStore_trans|apply preserves_liftResult, sameStore_refl|intros orig].
  destruct (_ || _); [|apply preserves_ret, sameStore_refl].
  apply preserves_bind; [apply sameStore_trans| |intros _].
  { destruct (_ =? _); [apply sameStore_executeTransfer|apply preserves_ret, sameStore_refl]. }
  apply preserves_bind; [apply sameStore_trans|apply preserves_modify; reflexivity|intros _].
  apply preserves_bind; [apply sameStore_trans|apply preserves_gets, sameStore_refl|intros a'].
  destruct (_ >=? _); [apply preserves_modify; reflexivity|apply preserves_ret, sameStore_refl].
Qed.

Lemma storeStep_refl (s : State) : storeStep s s.
Proof. split; [auto|]. intros n k. reflexivity. Qed.

Lemma storeStep_trans (s1 s2 s3 : State) : storeStep s1 s2 -> storeStep s2 s3 -> storeStep s1 s3.
Proof.
  intros [I1 G1] [I2 G2]. split; [auto|].
  intros n k. etransitivity; [apply G1|apply G2].
Qed.

Lemma sameStore_storeStep (s s' : State) : sameStore s s' -> storeStep s s'.
Proof.
  intros H. split.
  - intros I n k. unfold storedVotes. rewrite H. apply I.
  - intros n k. unfold storedVotes. rewrite H. reflexivity.
Qed.

Lemma existsb_false {A} (f : A -> bool) (l : list A) :
  existsb f l = false <-> forall x, x ∈ l -> f x = false.
Proof.
  induction l as [|y l IH]; simpl.
  - split; [intros _ x Hx; inversion Hx|reflexivity].
  - rewrite orb_false_iff, IH. split.
    + intros [Hy Hl] x Hx. apply elem_of_cons in Hx as [->|Hx]; auto.
    + intros H. split; [apply H; left|intros x Hx; apply H; right; exact Hx].
Qed.

Lemma existsb_true {A} (f : A -> bool) (l : list A) :
  existsb f l = true <-> exists x, x ∈ l /\ f x = true.
Proof.
  rewrite existsb_exists. split; intros (x & Hx & Hf); exists x; split; auto;
    apply list_elem_of_In; exact Hx.
Qed.

Lemma filter_nil_iff {A} (P : A -> Prop) `{forall x, Decision (P x)} (l : list A) :
  (forall x, x ∈ l -> ~ P x) -> filter P l = [].
Proof.
  induction l as [|y l IH]; intros Hl; [reflexivity|].
  rewrite filter_cons. destruct (decide (P y)) as [Hy|Hy].
  - exfalso. apply (Hl y); [left|exact Hy].
  - apply IH. intros x Hx. apply Hl. right. exact Hx.
Qed.

(** The dedup test of [onVote], in words. *)
Lemma alreadyVoted_true (vote : Vote) (existing : list Vote) :
  ValidatorCore.alreadyVoted vote existing = true
  <-> match serializedTx vote with
      | Some _ => exists v, v ∈ existing /\ validator v = validator vote
      | None => exists v, v ∈ existing /\ validator v = validator vote /\ serializedTx v = None
      end.
Proof.
  unfold ValidatorCore.alreadyVoted. destruct (serializedTx vote); rewrite existsb_true.
  - split; intros (v & Hv & Hf); exists v; split; auto.
    + apply bool_decide_eq_true in Hf. exact Hf.
    + apply bool_decide_eq_true. exact Hf.
  - split; intros (v & Hv & Hf); exists v; split; auto.
    + apply andb_true_iff in Hf as [H1 H2].
      apply bool_decide_eq_true in H1, H2. auto.
    + destruct Hf as [H1 H2]. apply andb_true_iff.
      split; apply bool_decide_eq_true; assumption.
Qed.

Lemma singleVotes_push (vote : Vote) (existing : list Vote) :
  singleVotes existing ->
  ValidatorCore.alreadyVoted vote existing = false ->
  singleVotes (existing ++ [vote]).
Proof.
  intros Hs Hnew val. destruct (Hs val) as [Ht Hb].
  unfold txVotesOf, botVotesOf in *. rewrite !filter_app, !length_app.
  assert (Hno : ~ match serializedTx vote with
                  | Some _ => exists v, v ∈ existing /\ validator v = validator vote
                  | None => exists v, v ∈ existing /\ validator v = validator vote
                                      /\ serializedTx v = None
                  end).
  { rewrite <- alreadyVoted_true, Hnew. discriminate. }
  rewrite !filter_cons, !filter_nil.
  destruct (decide (validator vote = val /\ serializedTx vote <> None)) as [[Hv Hsome]|Hn1];
    destruct (decide (validator vote = val /\ serializedTx vote = None)) as [[Hv' Hnone]|Hn2];
    simpl; try lia; try congruence.
  - destruct (serializedTx vote) as [t|] eqn:Et; [|congruence].
    rewrite (filter_nil_iff (fun v => validator v = val /\ serializedTx v <> None) existing);
      [simpl; lia|].
    intros x Hx [Hxv _]. apply Hno. exists x. split; [exact Hx|congruence].
  - rewrite Hnone in Hno.
    rewrite (filter_nil_iff (fun v => validator v = val /\ serializedTx v = None) existing);
      [simpl; lia|].
    intros x Hx [Hxv Hxn]. apply Hno. exists x. repeat split; [exact Hx|congruence|exact Hxn].
Qed.

Lemma storeStep_pushVote (n : address) (k : Z) (vote : Vote) (s : State) :
  ValidatorCore.alreadyVoted vote (storedVotes n k s) = false ->
  storeStep s (pushVote n k vote s).
Proof.
  intros Hnew. split.
  - intros I n' k'. rewrite storedVotes_pushVote. destruct (decide _) as [[= <- <-]|]; [|apply I].
    apply singleVotes_push; [apply I|exact Hnew].
  - intros n' k'. rewrite storedVotes_pushVote. destruct (decide _) as [[= <- <-]|]; [|reflexivity].
    apply prefix_app_r. reflexivity.
Qed.

Lemma storeStep_processCertificateBody (cfg : Config) (onVoteRec : Vote -> M unit)
    (acc : address) (votes : list Vote) :
  (forall v, preserves storeStep (onVoteRec v)) ->
  preserves storeStep (ValidatorCore.processCertificateBody cfg onVoteRec acc votes).
Proof.
  intros Hrec. unfold ValidatorCore.processCertificateBody.
  apply preserves_bind; [apply storeStep_trans|apply preserves_nonNull, storeStep_refl|intros first].
  apply preserves_bind; [apply storeStep_trans| |intros _].
  - unfold ValidatorCore.handleCurrentNonce.
    apply preserves_bind; [apply storeStep_trans|apply preserves_gets, storeStep_refl|intros a].
    destruct (_ =? _); [|apply preserves_ret, storeStep_refl].
    destruct (_ <? _).
    + destruct (negb _); [|apply preserves_ret, storeStep_refl].
      apply preserves_bind; [apply storeStep_trans| |intros _].
      { apply preserves_modify. intros s. apply sameStore_storeStep. reflexivity. }
      apply preserves_bind; [apply storeStep_trans|apply Hrec|intros _].
      apply preserves_modify. intros s. apply sameStore_storeStep. reflexivity.
    + destruct (pending a); [|apply preserves_ret, storeStep_refl].
      apply preserves_modify. intros s. apply sameStore_storeStep. reflexivity.
  - intros s. apply sameStore_storeStep. apply sameStore_handleFinality.
Qed.

Lemma storeStep_onVote (cfg : Config) (fuel : nat) (vote : Vote) :
  preserves storeStep (ValidatorCore.onVote cfg fuel vote).
Proof.
  revert vote. induction fuel as [|fuel IH]; intros vote; simpl.
  - apply preserves_throw, storeStep_refl.
  - intros s. unfold ValidatorCore.onVoteBody.
    destruct (negb _); [apply storeStep_refl|]. msimpl.
    destruct (ValidatorCore.alreadyVoted _ _) eqn:Hdup; [apply storeStep_refl|]. msimpl.
    eapply storeStep_trans; [apply storeStep_pushVote; exact Hdup|].
    destruct (_ && _); [|apply storeStep_refl].
    apply storeStep_processCertificateBody. exact IH.
Qed.

Lemma storeStep_onTransaction (cfg : Config) (fuel : nat) (signedTx : TxData) :
  preserves storeStep (ValidatorCore.onTransaction cfg fuel signedTx).
Proof.
  unfold ValidatorCore.onTransaction.
  apply preserves_bind; [apply storeStep_trans|apply preserves_reads, storeStep_refl|intros tx].
  apply preserves_bind; [apply storeStep_trans|apply preserves_nonNull, storeStep_refl|intros from].
  apply preserves_bind; [apply storeStep_trans| |intros _].
  { apply preserves_modify. intros s. apply sameStore_storeStep. reflexivity. }
  apply preserves_bind; [apply storeStep_trans|apply storeStep_onVote|intros _].
  apply preserves_bind; [apply storeStep_trans| |intros _].
  { apply preserves_modify. intros s. apply sameStore_storeStep. reflexivity. }
  apply preserves_ret, storeStep_refl.
Qed.

Lemma storeStep_run (cfg : Config) (fuel : nat) (calls : list Call) (s : State) :
  storeStep s (ValidatorCore.run cfg fuel calls s).
Proof.
  revert s. induction calls as [|c calls IH]; intros s; simpl.
  - apply storeStep_refl.
  - eapply storeStep_trans; [|apply IH].
    destruct c; simpl; [apply storeStep_onTransaction|apply storeStep_onVote].
Qed.

Lemma storeSingle_genesis (balances : list (address * Z)) : storeSingle (genesis balances).
Proof.
  intros n k val. unfold storedVotes, genesis; simpl. rewrite lookup_empty; simpl.
  split; lia.
Qed.

Lemma onVote_store (cfg : Config) (fuel : nat) (vote : Vote) (s : State) :
  verifyVote vote (validatorSet cfg) = true ->
  let existing := getVotes (account vote) (voteNonce vote) s in
  if ValidatorCore.alreadyVoted vote existing
  then ValidatorCore.onVote cfg (S fuel) vote s = (Ok tt, s)
  else existing ++ [vote]
         `prefix_of` getVotes (account vote) (voteNonce vote)
                       (snd (ValidatorCore.onVote cfg (S fuel) vote s)).
Proof.
  intros Hver existing. subst existing. unfold getVotes. simpl.
  unfold ValidatorCore.onVoteBody. rewrite Hver. simpl. msimpl.
  destruct (ValidatorCore.alreadyVoted _ _) eqn:Hdup; [reflexivity|]. msimpl.
  set (s1 := pushVote _ _ _ s).
  assert (Hs1 : storedVotes (toLowerCase (account vote)) (voteNonce vote) s1
                = storedVotes (toLowerCase (account vote)) (voteNonce vote) s ++ [vote]).
  { subst s1. rewrite storedVotes_pushVote. destruct (decide _); congruence. }
  rewrite <- Hs1.
  destruct (_ && _); [|reflexivity].
  apply storeStep_processCertificateBody. intros v. apply storeStep_onVote.
Qed.

(** X20 (the two [existing.some] tests of [onVote], validator-core.ts).
    The vote store, with validators told apart by the [validator] string as
    the code compares it: in every state reached from the constructor by
    [onTransaction] and [onVote] calls, each list of the vote store holds at
    most one vote with a transaction and at most one bot vote under any one
    validator string; and a vote that
    passes verification is dropped (the stored list stays as it is, nothing
    else changes either) exactly when, for a vote with a transaction, the
    list already has some vote from that validator, and, for a bot vote, the
    list already has a bot vote from that validator; otherwise it is appended
    to the list. *)
Theorem single_vote_store (cfg : Config) (fuel : nat) (balances : list (address * Z))
    (calls : list Call) (n : address) (k : Z) (val : address) (vote : Vote) (s0 : State) :
  verifyVote vote (validatorSet cfg) = true ->
  let s := ValidatorCore.run cfg fuel calls (genesis balances) in
  let existing := getVotes (account vote) (voteNonce vote) s0 in
  let after := getVotes (account vote) (voteNonce vote)
                 (snd (ValidatorCore.onVote cfg (S fuel) vote s0)) in
  ((length (txVotesOf val (storedVotes n k s)) <= 1)%nat
   /\ (length (botVotesOf val (storedVotes n k s)) <= 1)%nat)
  /\ (after = existing
      <-> match serializedTx vote with
          | Some _ => exists v, v ∈ existing /\ validator v = validator vote
          | None => exists v, v ∈ existing /\ validator v = validator vote
                              /\ serializedTx v = None
          end)
  /\ (after = existing -> ValidatorCore.onVote cfg (S fuel) vote s0 = (Ok tt, s0))
  /\ (after <> existing -> existing ++ [vote] `prefix_of` after).
Proof.
  intros Hver s existing after. split.
  { apply (proj1 (storeStep_run cfg fuel calls (genesis balances))).
    apply storeSingle_genesis. }
  pose proof (onVote_store cfg fuel vote s0 Hver) as H. cbv zeta in H.
  fold existing in H. rewrite <- alreadyVoted_true.
  destruct (ValidatorCore.alreadyVoted vote existing) eqn:Hdup.
  - assert (after = existing) as Hsame by (subst after; rewrite H; reflexivity).
    split; [split; auto|]. split; [intros _; exact H|]. intros Hne. contradiction.
  - fold after in H.
    assert (after <> existing) as Hne.
    { intros E. rewrite E in H. apply prefix_length in H. rewrite length_app in H.
      simpl in H. lia. }
    split; [split; intros; congruence|]. split; [intros; congruence|].
    intros _. exact H.
Qed.

Lemma single_vote_store_witness :
  let v := Fixture.voteOf "0xa2" 0 (Some Scenario.pay0) in
  getVotes Fixture.alice 0 Scenario.start ++ [v]
    `prefix_of` getVotes Fixture.alice 0 (snd (ValidatorCore.onVote Fixture.me 1 v Scenario.start)).
Proof.
  intros v.
  apply (proj2 (proj2 (proj2 (single_vote_store Fixture.me 0 [] [] Fixture.alice 0
                                Fixture.alice v Scenario.start eq_refl)))).
  vm_compute. discriminate.
Defined.

(** C7 fails on the code, by the same defect: the tests of [onVote] compare
    the [validator] strings with [===], while [verifyVote] accepts a
    validator string in any letter case. The vote of validator [0xa2] for
    alice's payment is delivered twice, the second time with the validator
    written [0xA2]: both deliveries verify, the second is not dropped, and
    the store holds two votes with a transaction from one validator at one
    account and nonce. *)
Theorem store_keeps_respelled_votes :
  let v1 := Fixture.voteOf "0xa2" 0 (Some SpellingScenario.pay0) in
  let v2 := SpellingScenario.respell "0xA2" v1 in
  let s1 := ValidatorCore.run Fixture.me 2 [CallVote v1] SpellingScenario.start in
  let r := ValidatorCore.onVote Fixture.me 2 v2 s1 in
  verifyVote v1 (validatorSet Fixture.me) = true
  /\ verifyVote v2 (validatorSet Fixture.me) = true
  /\ toLowerCase (validator v1) = toLowerCase (validator v2)
  /\ serializedTx v1 <> None /\ serializedTx v2 <> None
  /\ getVotes Fixture.alice 0 s1 = [v1]
  /\ fst r = Ok tt
  /\ getVotes Fixture.alice 0 (snd r) = [v1; v2]
  /\ distinctSigners (getVotes Fixture.alice 0 (snd r)) = 1.
Proof.
  cbv zeta. repeat split; try discriminate; vm_compute; reflexivity.
Qed.

(** ** The quorum evaluator *)

Lemma votesByTx_snoc (votes : list Vote) (v : Vote) :
  votesByTx (votes ++ [v]) = pushGroup (voteTxHash v) v (votesByTx votes).
Proof. unfold votesByTx. rewrite fold_left_app. reflexivity. Qed.

Lemma pushGroup_keys (key : option Transaction) (v : Vote)
    (groups : list (option Transaction * list Vote)) :
  fst <$> pushGroup key v groups
  = if decide (key ∈ (fst <$> groups : list (option Transaction)))
    then fst <$> groups else (fst <$> groups) ++ [key].
Proof.
  induction groups as [|[k vs] groups IH]; cbn [pushGroup].
  - case_decide as H; [inversion H|reflexivity].
  - destruct (decide (k = key)) as [->|Hne]; rewrite !fmap_cons; cbn [fst].
    + clear IH. case_decide as H; [reflexivity|]. exfalso. apply H. left.
    + rewrite IH. clear IH.
      destruct (decide (key ∈ groups.*1)) as [H|H];
        destruct (decide (key ∈ k :: groups.*1)) as [H'|H']; try reflexivity.
      * exfalso. apply H'. right. exact H.
      * exfalso. apply elem_of_cons in H' as [->|H']; [congruence|contradiction].
Qed.

Lemma pushGroup_elem (key : option Transaction) (v : Vote)
    (groups : list (option Transaction * list Vote)) (k : option Transaction) (vs : list Vote) :
  NoDup (fst <$> groups) ->
  (k, vs) ∈ pushGroup key v groups ->
  (k <> key /\ (k, vs) ∈ groups)
  \/ (k = key /\ ((exists vs0, (k, vs0) ∈ groups /\ vs = vs0 ++ [v])
                  \/ ((key ∉ (fst <$> groups)) /\ vs = [v]))).
Proof.
  induction groups as [|[k0 vs0] groups IH]; simpl; intros Hnd Hin.
  - apply list_elem_of_singleton in Hin as [= -> ->]. right. split; [reflexivity|].
    right. split; [intros H; inversion H|reflexivity].
  - apply NoDup_cons in Hnd as [Hk0 Hnd].
    destruct (decide (k0 = key)) as [->|Hne].
    + apply elem_of_cons in Hin as [[= -> ->]|Hin].
      * right. split; [reflexivity|]. left. exists vs0. split; [left|reflexivity].
      * left. split; [|right; exact Hin].
        intros ->. apply Hk0. apply list_elem_of_fmap. exists (key, vs). auto.
    + apply elem_of_cons in Hin as [[= -> ->]|Hin].
      * left. split; [exact Hne|left].
      * destruct (IH Hnd Hin) as [[H1 H2]|[-> [(vs1 & H1 & H2)|[H1 H2]]]].
        -- left. split; [exact H1|right; exact H2].
        -- right. split; [reflexivity|]. left. exists vs1. split; [right; exact H1|exact H2].
        -- right. split; [reflexivity|]. right. split; [|exact H2].
           intros H. apply elem_of_cons in H as [->|H]; [congruence|contradiction].
Qed.

(** The groups of [votesByTx] are the classes of the votes by payload hash. *)
Lemma votesByTx_spec (votes : list Vote) :
  NoDup (fst <$> votesByTx votes)
  /\ (forall k vs, (k, vs) ∈ votesByTx votes ->
                   vs = filter (fun v => voteTxHash v = k) votes /\ vs <> [])
  /\ (forall v, v ∈ votes -> voteTxHash v ∈ (fst <$> votesByTx votes)).
Proof.
  induction votes as [|v votes IH] using rev_ind.
  - split; [constructor|]. split; [intros k vs H; inversion H|intros v H; inversion H].
  - destruct IH as (Hnd & Hgroups & Hkeys). rewrite votesByTx_snoc. split; [|split].
    + rewrite pushGroup_keys. destruct (decide (_ ∈ _)) as [H|H]; [exact Hnd|].
      apply NoDup_app. split; [exact Hnd|]. split; [|apply NoDup_singleton].
      intros x Hx Hx'. apply list_elem_of_singleton in Hx' as ->. contradiction.
    + intros k vs Hin. rewrite filter_app, filter_cons, filter_nil.
      destruct (pushGroup_elem _ _ _ _ _ Hnd Hin) as [[H1 H2]|[-> [(vs0 & H1 & ->)|[H1 ->]]]].
      * destruct (Hgroups k vs H2) as [-> Hne].
        destruct (decide (voteTxHash v = k)) as [E|E]; [congruence|].
        rewrite app_nil_r. auto.
      * destruct (Hgroups _ vs0 H1) as [-> Hne].
        destruct (decide (voteTxHash v = voteTxHash v)) as [E|E]; [|congruence].
        split; [reflexivity|]. intros E'. apply app_eq_nil in E' as [_ E']. discriminate.
      * destruct (decide (voteTxHash v = voteTxHash v)) as [E|E]; [|congruence].
        split; [|discriminate].
        rewrite (filter_nil_iff (fun v0 => voteTxHash v0 = voteTxHash v) votes); [reflexivity|].
        intros x Hx Hxk. apply H1. rewrite <- Hxk. apply Hkeys. exact Hx.
    + intros x Hx. rewrite pushGroup_keys. apply elem_of_app in Hx as [Hx|Hx].
      * destruct (decide (_ ∈ _)); [apply Hkeys; exact Hx|].
        apply elem_of_app. left. apply Hkeys. exact Hx.
      * apply list_elem_of_singleton in Hx as ->.
        destruct (decide (_ ∈ _)) as [H|H]; [exact H|]. apply elem_of_app. right. left.
Qed.

Lemma distinctValidators_nonneg (votes : list Vote) : 0 <= distinctValidators votes.
Proof. unfold distinctValidators. lia. Qed.

(** The loop over the groups keeps the largest count seen and the payload of
    the first group that has it. *)
Lemma maxStep_fold (groups : list (option Transaction * list Vote))
    (q0 : Z) (t0 : option Transaction) (vs0 : list Vote) :
  let '(q, t, vs) := fold_left maxStep groups (q0, t0, vs0) in
  q0 <= q
  /\ (forall g, g ∈ groups -> distinctValidators (snd g) <= q)
  /\ ((q, t, vs) = (q0, t0, vs0)
      \/ exists g, g ∈ groups /\ q = distinctValidators (snd g)
                   /\ t = head (snd g) ≫= voteTx /\ vs = snd g).
Proof.
  revert q0 t0 vs0. induction groups as [|g groups IH]; intros q0 t0 vs0; simpl.
  - split; [lia|]. split; [intros g H; inversion H|left; reflexivity].
  - destruct (Z.gtb_spec (distinctValidators (snd g)) q0) as [Hgt|Hle].
    + specialize (IH (distinctValidators (snd g)) (head (snd g) ≫= voteTx) (snd g)).
      destruct (fold_left maxStep groups _) as [[q t] vs].
      destruct IH as (Hq & Hall & Hsrc). split; [lia|]. split.
      * intros g' Hg'. apply elem_of_cons in Hg' as [->|Hg']; [lia|auto].
      * right. destruct Hsrc as [[= -> -> ->]|(g' & Hg' & H)].
        -- exists g. split; [left|auto].
        -- exists g'. split; [right; exact Hg'|exact H].
    + specialize (IH q0 t0 vs0).
      destruct (fold_left maxStep groups _) as [[q t] vs].
      destruct IH as (Hq & Hall & Hsrc). split; [lia|]. split.
      * intros g' Hg'. apply elem_of_cons in Hg' as [->|Hg']; [lia|auto].
      * destruct Hsrc as [H|(g' & Hg' & H)]; [left; exact H|].
        right. exists g'. split; [right; exact Hg'|exact H].
Qed.

(** [getMaxQuorumCert(votes)]: the quorum it returns bounds the count of every
    payload, and is the count of the payload of some stored vote (the payload
    it returns) unless there is no vote at all. *)
Lemma getMaxQuorumCert_spec (votes : list Vote) :
  let c := getMaxQuorumCert votes 1 in
  (forall key, countQuorum votes key <= quorum c)
  /\ ((votes = [] /\ quorum c = 0 /\ tx c = None)
      \/ exists v, v ∈ votes /\ quorum c = countQuorum votes (voteTxHash v)
                   /\ 1 <= quorum c
                   /\ exists w, w ∈ votes /\ voteTxHash w = voteTxHash v /\ tx c = voteTx w).
Proof.
  unfold getMaxQuorumCert.
  pose proof (maxStep_fold (votesByTx votes) 0 None []) as H.
  destruct (votesByTx_spec votes) as (Hnd & Hgroups & Hkeys).
  destruct (fold_left maxStep (votesByTx votes) (0, None, [])) as [[q t] vs].
  destruct H as (Hq & Hall & Hsrc).
  assert (Hbound : forall key, countQuorum votes key <= q).
  { intros key. unfold countQuorum.
    destruct (decide (key ∈ (fst <$> votesByTx votes))) as [Hin|Hout].
    - apply list_elem_of_fmap in Hin as ([k vs'] & -> & Hin). simpl.
      destruct (Hgroups _ _ Hin) as [E _]. rewrite <- E. apply (Hall _ Hin).
    - rewrite (filter_nil_iff (fun v => voteTxHash v = key) votes); [exact Hq|].
      intros x Hx Hk. apply Hout. rewrite <- Hk. apply Hkeys. exact Hx. }
  destruct Hsrc as [[= -> -> ->]|([k g] & Hg & -> & -> & ->)]; simpl.
  - split; [intros key; specialize (Hbound key); simpl; lia|].
    destruct votes as [|v votes]; [left; auto|]. exfalso.
    assert (Hv : voteTxHash v ∈ (fst <$> votesByTx (v :: votes))) by (apply Hkeys; left).
    apply list_elem_of_fmap in Hv as ([k' vs'] & _ & Hin).
    destruct (Hgroups _ _ Hin) as [_ Hne]. specialize (Hall _ Hin). simpl in Hall.
    unfold distinctValidators in Hall. destruct vs' as [|x vs']; [congruence|].
    destruct (remove_dups (validator <$> x :: vs')) eqn:E; [|simpl in Hall; lia].
    assert (validator x ∈ remove_dups (validator <$> x :: vs'))
      by (apply elem_of_remove_dups; simpl; left).
    rewrite E in H. inversion H.
  - destruct (Hgroups _ _ Hg) as [Hfil Hne].
    destruct g as [|w g']; [congruence|]. simpl.
    assert (Hw : w ∈ votes /\ voteTxHash w = k).
    { assert (w ∈ filter (fun v => voteTxHash v = k) votes) by (rewrite <- Hfil; left).
      apply list_elem_of_filter in H. tauto. }
    destruct Hw as [Hw Hwk].
    assert (Hpos : 1 <= distinctValidators (w :: g')).
    { unfold distinctValidators.
      destruct (remove_dups (validator <$> w :: g')) eqn:E; [|simpl; lia].
      assert (validator w ∈ remove_dups (validator <$> w :: g'))
        by (apply elem_of_remove_dups; simpl; left).
      rewrite E in H. inversion H. }
    destruct (Z.geb_spec (distinctValidators (w :: g')) 1) as [_|Hlt]; [|lia]. simpl.
    split; [exact Hbound|]. right. exists w. split; [exact Hw|].
    split; [unfold countQuorum; rewrite Hwk, <- Hfil; reflexivity|].
    split; [exact Hpos|]. exists w. auto.
Qed.

(** Counting validator strings. *)

Lemma remove_dups_snoc_length {A} `{EqDecision A} (l : list A) (x : A) :
  length (remove_dups (l ++ [x]))
  = if decide (x ∈ l) then length (remove_dups l) else S (length (remove_dups l)).
Proof.
  assert (P : remove_dups (l ++ [x])
              ≡ₚ if decide (x ∈ l) then remove_dups l else x :: remove_dups l).
  { apply NoDup_Permutation.
    - apply NoDup_remove_dups.
    - destruct (decide (x ∈ l)) as [Hin|Hin]; [apply NoDup_remove_dups|].
      apply NoDup_cons. split; [rewrite elem_of_remove_dups; exact Hin|apply NoDup_remove_dups].
    - intros y. rewrite elem_of_remove_dups, elem_of_app, list_elem_of_singleton.
      destruct (decide (x ∈ l)) as [Hin|Hin].
      + rewrite elem_of_remove_dups. split; [intros [H| ->]; assumption|auto].
      + rewrite elem_of_cons, elem_of_remove_dups. tauto. }
  rewrite P. destruct (decide (x ∈ l)); reflexivity.
Qed.

Lemma distinctValidators_snoc (votes : list Vote) (v : Vote) :
  distinctValidators (votes ++ [v])
  = if decide (validator v ∈ (validator <$> votes : list address))
    then distinctValidators votes else distinctValidators votes + 1.
Proof.
  unfold distinctValidators. rewrite fmap_app. simpl.
  rewrite remove_dups_snoc_length. destruct (decide _); lia.
Qed.

Lemma remove_dups_length_le {A} `{EqDecision A} (l : list A) :
  (length (remove_dups l) <= length l)%nat.
Proof.
  induction l as [|x l IH]; simpl; [lia|].
  destruct (decide_rel elem_of x l); simpl; lia.
Qed.

Lemma distinctValidators_le_length (votes : list Vote) :
  distinctValidators votes <= Z.of_nat (length votes).
Proof.
  unfold distinctValidators.
  pose proof (remove_dups_length_le (validator <$> votes)) as H.
  rewrite length_fmap in H. lia.
Qed.

Lemma countQuorum_snoc (votes : list Vote) (v : Vote) (h : option Transaction) :
  countQuorum (votes ++ [v]) h
  = if decide (voteTxHash v = h
               /\ validator v ∉ (validator <$> filter (fun w => voteTxHash w = h) votes
                                 : list address))
    then countQuorum votes h + 1 else countQuorum votes h.
Proof.
  unfold countQuorum. rewrite filter_app. simpl. rewrite filter_cons, filter_nil.
  destruct (decide (voteTxHash v = h)) as [E|E].
  - rewrite distinctValidators_snoc.
    destruct (decide (validator v ∈ _)) as [Hin|Hin].
    + rewrite decide_False by tauto. reflexivity.
    + rewrite decide_True by tauto. reflexivity.
  - rewrite app_nil_r. rewrite decide_False by tauto. reflexivity.
Qed.

Lemma countQuorum_app_le (votes more : list Vote) (h : option Transaction) :
  countQuorum votes h <= countQuorum (votes ++ more) h.
Proof.
  induction more as [|v more IH] using rev_ind; [rewrite app_nil_r; lia|].
  rewrite app_assoc, countQuorum_snoc. destruct (decide _); lia.
Qed.

Lemma countQuorum_prefix (votes votes' : list Vote) (h : option Transaction) :
  votes `prefix_of` votes' -> countQuorum votes h <= countQuorum votes' h.
Proof. intros [more ->]. apply countQuorum_app_le. Qed.

(** ** The classic core *)

Lemma classic_getMaxQuorumCert_spec (votes : list Vote) :
  let '(q, t) := ClassicValidatorCore.getMaxQuorumCert votes in
  (forall key, countQuorum votes key <= q)
  /\ (t <> None -> exists key, q = countQuorum votes key).
Proof.
  unfold ClassicValidatorCore.getMaxQuorumCert.
  pose proof (maxStep_fold (votesByTx votes) 0 None []) as H.
  destruct (votesByTx_spec votes) as (Hnd & Hgroups & Hkeys).
  destruct (fold_left maxStep (votesByTx votes) (0, None, [])) as [[q t] vs].
  destruct H as (Hq & Hall & Hsrc). split.
  - intros key. unfold countQuorum.
    destruct (decide (key ∈ (fst <$> votesByTx votes))) as [Hin|Hout].
    + apply list_elem_of_fmap in Hin as ([k vs'] & -> & Hin). simpl.
      destruct (Hgroups _ _ Hin) as [E _]. rewrite <- E. apply (Hall _ Hin).
    + rewrite (filter_nil_iff (fun v => voteTxHash v = key) votes); [exact Hq|].
      intros x Hx Hk. apply Hout. rewrite <- Hk. apply Hkeys. exact Hx.
  - intros Ht. destruct Hsrc as [[= -> -> ->]|([k g] & Hg & -> & _)]; [congruence|].
    exists k. unfold countQuorum. destruct (Hgroups _ _ Hg) as [<- _]. reflexivity.
Qed.

Lemma lockedAt_sameControl (a : address) (k : Z) (s s' : State) :
  sameControl s s' -> lockedAt a k s -> lockedAt a k s'.
Proof.
  intros H [Hn Hp]. destruct (H a) as (E1 & E2 & _). unfold lockedAt.
  rewrite E1, E2. split; assumption.
Qed.

Lemma lockedAt_updateAccount_other (a b : address) (k : Z) f (s : State) :
  toLowerCase b <> toLowerCase a ->
  lockedAt a k s -> lockedAt a k (updateAccount b f s).
Proof.
  intros Hne [Hn Hp]. unfold lockedAt. rewrite getAccount_updateAccount.
  destruct (decide _); [contradiction|]. split; assumption.
Qed.

Lemma getAccount_same_lower (a b : address) (s : State) :
  toLowerCase a = toLowerCase b -> getAccount a s = getAccount b s.
Proof. intros H. unfold getAccount. rewrite H. reflexivity. Qed.

Lemma classic_processCertificate (cfg : Config) (a : address) (k : Z) (account : address)
    (n : Z) (s : State) :
  let s' := snd (ClassicValidatorCore.processCertificate cfg account n s) in
  voteStore s' = voteStore s
  /\ broadcasts s' = broadcasts s
  /\ (lockedAt a k s ->
      lockedAt a k s'
      \/ exists payload, ClassicValidatorCore.finalityQuorum cfg
                         <= countQuorum (getVotes a k s) payload).
Proof.
  unfold ClassicValidatorCore.processCertificate. msimpl.
  pose proof (classic_getMaxQuorumCert_spec (getVotes account n s)) as Hspec.
  destruct (ClassicValidatorCore.getMaxQuorumCert (getVotes account n s)) as [q t].
  destruct Hspec as [_ Hkey].
  destruct t as [tx'|]; [|simpl; auto].
  destruct (_ && _) eqn:Hc; [|simpl; auto].
  apply andb_true_iff in Hc as [Hn Hq]. apply Z.eqb_eq in Hn. apply Z.geb_le in Hq.
  assert (Hst : sameStore s (snd (executeTransfer tx' s)))
    by apply sameStore_executeTransfer.
  assert (Hbr : broadcasts (snd (executeTransfer tx' s)) = broadcasts s).
  { unfold executeTransfer. msimpl. destruct (tx_from tx'); [|reflexivity]. msimpl.
    destruct (tx_to tx'); reflexivity. }
  assert (Hct : sameControl s (snd (executeTransfer tx' s)))
    by apply sameControl_executeTransfer.
  unfold bind. destruct (executeTransfer tx' s) as [[[]|e] s1]; simpl in *.
  - split; [exact Hst|]. split; [exact Hbr|]. intros Hlock.
    destruct (decide (toLowerCase account = toLowerCase a)) as [E|E].
    + right. destruct (Hkey ltac:(discriminate)) as [key Hk]. exists key.
      destruct Hlock as [Hk' _]. rewrite (getAccount_same_lower _ _ _ E) in Hn.
      unfold getVotes in *. rewrite <- E. rewrite <- Hk', <- Hn, <- Hk. exact Hq.
    + left. apply lockedAt_updateAccount_other; [exact E|].
      eapply lockedAt_sameControl; eassumption.
  - split; [exact Hst|]. split; [exact Hbr|]. intros Hlock. left.
    eapply lockedAt_sameControl; eassumption.
Qed.

Lemma countQuorum_getVotes_sameStore (a : address) (k : Z) (s s' : State) payload :
  voteStore s' = voteStore s ->
  countQuorum (getVotes a k s') payload = countQuorum (getVotes a k s) payload.
Proof. intros H. unfold getVotes, storedVotes. rewrite H. reflexivity. Qed.

Lemma classic_onVote (cfg : Config) (a : address) (k : Z) (vote : Vote) (s : State) :
  let s' := snd (ClassicValidatorCore.onVote cfg vote s) in
  broadcasts s' = broadcasts s
  /\ (lockedAt a k s ->
      lockedAt a k s'
      \/ exists payload, ClassicValidatorCore.finalityQuorum cfg
                         <= countQuorum (getVotes a k s') payload).
Proof.
  unfold ClassicValidatorCore.onVote.
  destruct (_ && _); [simpl; auto|]. msimpl.
  destruct (existsb _ _); [simpl; auto|]. msimpl.
  set (s1 := pushVote _ _ _ s).
  destruct (classic_processCertificate cfg a k (account vote) (voteNonce vote) s1)
    as (Hst & Hbr & Hlock).
  split; [rewrite Hbr; reflexivity|]. intros Hl.
  destruct (Hlock Hl) as [H|[payload H]]; [left; exact H|].
  right. exists payload. rewrite (countQuorum_getVotes_sameStore _ _ _ _ _ Hst). exact H.
Qed.

Lemma classic_onTransaction (cfg : Config) (a : address) (k : Z) (signedTx : TxData)
    (s : State) :
  let s' := snd (ClassicValidatorCore.onTransaction cfg signedTx s) in
  noBotCast s s'
  /\ (lockedAt a k s ->
      lockedAt a k s'
      \/ exists payload, ClassicValidatorCore.finalityQuorum cfg
                         <= countQuorum (getVotes a k s') payload).
Proof.
  cbv zeta. remember (snd (ClassicValidatorCore.onTransaction cfg signedTx s)) as s' eqn:Es'.
  assert (Hsame : noBotCast s s) by (exists []; rewrite app_nil_r; auto).
  unfold ClassicValidatorCore.onTransaction in Es'. rewrite bind_reads in Es'.
  unfold ClassicValidatorCore.validateTransaction in Es'.
  destruct (TransactionFrom signedTx) as [tx|e]; [|subst s'; simpl; auto].
  destruct (tx_from tx) as [from|] eqn:Hfrom; [|subst s'; simpl; auto].
  destruct (pending (getAccount (toLowerCase from) s)) eqn:Hp; [subst s'; simpl; auto|].
  destruct (negb _); [subst s'; simpl; auto|].
  destruct (_ <? _); [subst s'; simpl; auto|].
  rewrite bind_nonNull, Hfrom in Es'. unfold storeVote in Es'.
  rewrite !bind_modify in Es'.
  set (vote := signVote cfg (toLowerCase from) (Z.of_N (tx_nonce tx)) (Some tx)) in *.
  set (s1 := pushVote _ _ _ _) in Es'.
  destruct (classic_processCertificate cfg a k (account vote) (voteNonce vote) s1)
    as (Hst & Hbr & Hlock).
  assert (Hl1 : lockedAt a k s -> lockedAt a k s1).
  { intros Hl. subst s1. unfold lockedAt. rewrite getAccount_pushVote.
    apply lockedAt_updateAccount_other; [|exact Hl].
    intros E. rewrite toLowerCase_idemp in E. destruct Hl as [_ Hpa].
    rewrite (getAccount_same_lower (toLowerCase from) a) in Hp
      by (rewrite toLowerCase_idemp; exact E).
    congruence. }
  assert (Hbr1 : broadcasts s1 = broadcasts s) by reflexivity.
  clearbody s1. unfold bind at 1 in Es'.
  destruct (ClassicValidatorCore.processCertificate cfg (account vote) (voteNonce vote) s1)
    as [[[]|e] s2]; cbn [fst snd] in *.
  - rewrite bind_broadcastVote in Es'. unfold ret in Es'. cbn [snd] in Es'. subst s'. split.
    + exists [vote]. unfold withBroadcast. cbn [broadcasts]. rewrite Hbr, Hbr1.
      split; [reflexivity|].
      constructor; [discriminate|constructor].
    + intros Hl. destruct (Hlock (Hl1 Hl)) as [H|[payload H]]; [left; exact H|].
      right. exists payload.
      erewrite countQuorum_getVotes_sameStore; [exact H|exact Hst].
  - subst s'. split.
    + exists []. rewrite Hbr, Hbr1, app_nil_r. split; [reflexivity|constructor].
    + intros Hl. destruct (Hlock (Hl1 Hl)) as [H|[payload H]]; [left; exact H|].
      right. exists payload.
      rewrite (countQuorum_getVotes_sameStore a k s1 _ payload Hst). exact H.
Qed.

Lemma noBotCast_trans (s1 s2 s3 : State) : noBotCast s1 s2 -> noBotCast s2 s3 -> noBotCast s1 s3.
Proof.
  intros (n1 & E1 & F1) (n2 & E2 & F2). exists (n1 ++ n2).
  rewrite E2, E1, app_assoc. split; [reflexivity|]. apply Forall_app. auto.
Qed.

Lemma classic_step (cfg : Config) (a : address) (k : Z) (c : Call) (s : State) :
  noBotCast s (ClassicValidatorCore.step cfg c s)
  /\ (lockedAt a k s ->
      lockedAt a k (ClassicValidatorCore.step cfg c s)
      \/ exists payload, ClassicValidatorCore.finalityQuorum cfg
                         <= countQuorum (getVotes a k (ClassicValidatorCore.step cfg c s)) payload).
Proof.
  destruct c as [signedTx|vote]; simpl.
  - apply classic_onTransaction.
  - destruct (classic_onVote cfg a k vote s) as [Hbr Hl]. split; [|exact Hl].
    exists []. rewrite Hbr, app_nil_r. split; [reflexivity|constructor].
Qed.

(** X21 ([onVote] and [processCertificate] of the classic core). The lock
    of the classic core, with the quorum as the code counts it (over
    validator strings): an account that is pending at nonce [k] stays
    pending at nonce [k] through every sequence of [onVote] and
    [onTransaction] calls during which no payload reaches [n - f] validator
    strings among the votes stored for [(account, k)]; on the way the core
    broadcasts no bot vote; and a single call can only end the lock when
    afterwards some payload has [n - f] validator strings at [k]. *)
Theorem classic_permanent_lock (cfg : Config) (calls : list Call) (a : address) (k : Z)
    (s : State) :
  lockedAt a k s ->
  Forall (belowFinality (ClassicValidatorCore.finalityQuorum cfg) a k)
         (ClassicValidatorCore.trace cfg calls s) ->
  lockedAt a k (ClassicValidatorCore.run cfg calls s)
  /\ noBotCast s (ClassicValidatorCore.run cfg calls s)
  /\ (forall c, lockedAt a k (ClassicValidatorCore.step cfg c s)
                \/ exists payload,
                     ClassicValidatorCore.finalityQuorum cfg
                     <= countQuorum (getVotes a k (ClassicValidatorCore.step cfg c s)) payload).
Proof.
  intros Hl Hall. split; [|split].
  - revert s Hl Hall. induction calls as [|c calls IH]; intros s Hl Hall; simpl; [exact Hl|].
    simpl in Hall. apply Forall_cons in Hall as [_ Hall].
    apply IH; [|exact Hall].
    destruct (proj2 (classic_step cfg a k c s) Hl) as [H|[payload H]]; [exact H|].
    exfalso. destruct calls; simpl in Hall; apply Forall_cons in Hall as [Hb _];
      specialize (Hb payload); lia.
  - clear Hl Hall. revert s. induction calls as [|c calls IH]; intros s; simpl.
    + exists []. rewrite app_nil_r. split; [reflexivity|constructor].
    + eapply noBotCast_trans; [apply (classic_step cfg a k c s)|apply IH].
  - intros c. apply (classic_step cfg a k c s). exact Hl.
Qed.

Lemma belowFinality_quorum (fq : Z) (a : address) (k : Z) (s : State) :
  quorum (getMaxQuorumCert (getVotes a k s) 1) < fq -> belowFinality fq a k s.
Proof.
  intros H payload.
  pose proof (proj1 (getMaxQuorumCert_spec (getVotes a k s)) payload). lia.
Qed.

Lemma classic_permanent_lock_witness :
  lockedAt Fixture.alice 0
    (ClassicValidatorCore.run Fixture.me ClassicScenario.split ClassicScenario.voted).
Proof.
  apply (classic_permanent_lock Fixture.me ClassicScenario.split Fixture.alice 0
           ClassicScenario.voted).
  - split; vm_compute; reflexivity.
  - unfold ClassicScenario.split. cbn [map app ClassicValidatorCore.trace].
    repeat (apply Forall_cons; split;
            [apply belowFinality_quorum; vm_compute; reflexivity|]).
    apply Forall_nil_2.
Defined.

(** C10 fails on the code, by the same defect of counting validator strings
    in [getMaxQuorumCert] and comparing them with [===] in [onVote]. In the
    classic core with [n - f = 5], alice is pending at nonce 0 after [0xa1]
    voted for her payment; the vote of the single peer [0xa2] then arrives
    under four spellings. Never more than two validators stand behind the
    votes stored at nonce 0, but the fourth delivery executes the payment and
    unlocks the account. *)
Theorem classic_unlocked_by_respelled_votes :
  let peer := map (fun spelling =>
                     SpellingScenario.respell spelling
                       (Fixture.voteOf "0xa2" 0 (Some ClassicScenario.toBob)))
                  SpellingScenario.spellings in
  let states := ClassicValidatorCore.trace Fixture.me (map CallVote peer) ClassicScenario.voted in
  let s := ClassicValidatorCore.run Fixture.me (map CallVote peer) ClassicScenario.voted in
  lockedAt Fixture.alice 0 ClassicScenario.voted
  /\ ClassicValidatorCore.finalityQuorum Fixture.me = 5
  /\ Forall (fun v => verifyVote v (validatorSet Fixture.me) = true) peer
  /\ Forall (fun st => distinctSigners (getVotes Fixture.alice 0 st) <= 2) states
  /\ nonce (getAccount Fixture.alice s) = 1
  /\ pending (getAccount Fixture.alice s) = false
  /\ finalised (getAccount Fixture.alice s) = 0
  /\ balance (getAccount Fixture.alice s) = 800.
Proof.
  cbv zeta. split; [|split; [|split; [|split; [|split; [|split; [|split]]]]]].
  - split; vm_compute; reflexivity.
  - reflexivity.
  - repeat constructor.
  - vm_compute. repeat (constructor; [intros H; discriminate H|]). constructor.
  - vm_compute. reflexivity.
  - vm_compute. reflexivity.
  - vm_compute. reflexivity.
  - vm_compute. reflexivity.
Qed.

(** ** Finality *)

Lemma executeTransfer_effect (tx : Transaction) (sender recipient : address) (s : State) :
  tx_from tx = Some sender ->
  tx_to tx = Some recipient ->
  executeTransfer tx s
  = (Ok tt, updateAccount recipient (addBalance (Z.of_N (tx_value tx)))
              (updateAccount sender (addBalance (- Z.of_N (tx_value tx))) s)).
Proof. intros Hf Ht. unfold executeTransfer. rewrite Hf, Ht. reflexivity. Qed.

Lemma executeTransfer_balance (tx : Transaction) (sender recipient : address) (s : State)
    (a : address) :
  tx_from tx = Some sender ->
  tx_to tx = Some recipient ->
  balance (getAccount a (snd (executeTransfer tx s)))
  = balance (getAccount a s) + balanceChange sender recipient (tx_value tx) a.
Proof.
  intros Hf Ht. rewrite (executeTransfer_effect tx sender recipient s Hf Ht). simpl.
  unfold balanceChange. rewrite !getAccount_updateAccount.
  destruct (decide (toLowerCase recipient = toLowerCase a)) as [Er|Er];
    destruct (decide (toLowerCase sender = toLowerCase a)) as [Es|Es]; simpl.
  - destruct (decide (toLowerCase sender = toLowerCase recipient)); [|congruence].
    simpl. rewrite (getAccount_same_lower sender a) by exact Es. lia.
  - destruct (decide (toLowerCase sender = toLowerCase recipient)); [congruence|].
    rewrite (getAccount_same_lower recipient a) by exact Er. lia.
  - rewrite (getAccount_same_lower sender a) by exact Es. lia.
  - lia.
Qed.

(** The writes that close [handleFinality], seen from the account. *)
Lemma finalise_effect (acc : address) (k : Z) (s : State) :
  let s2 := updateAccount acc (setFinalised k) s in
  let s3 := if k >=? nonce (getAccount acc s2)
            then updateAccount acc (fun a => setPending false (setNonce (k + 1) a)) s2
            else s2 in
  finalised (getAccount acc s3) = k
  /\ (forall a, balance (getAccount a s3) = balance (getAccount a s))
  /\ (nonce (getAccount acc s) <= k ->
      nonce (getAccount acc s3) = k + 1 /\ pending (getAccount acc s3) = false)
  /\ (k < nonce (getAccount acc s) ->
      nonce (getAccount acc s3) = nonce (getAccount acc s)
      /\ pending (getAccount acc s3) = pending (getAccount acc s)).
Proof.
  cbv zeta. rewrite getAccount_updateAccount_eq. simpl.
  destruct (Z.geb_spec k (nonce (getAccount acc s))) as [Hge|Hlt].
  - rewrite updateAccount_compose. rewrite getAccount_updateAccount_eq. simpl.
    split; [reflexivity|]. split; [|split; [auto|lia]].
    intros a. rewrite getAccount_updateAccount. destruct (decide _) as [E|E]; [|reflexivity].
    simpl. rewrite (getAccount_same_lower acc a) by exact E. reflexivity.
  - rewrite getAccount_updateAccount_eq. simpl.
    split; [reflexivity|]. split; [|split; [lia|auto]].
    intros a. rewrite getAccount_updateAccount. destruct (decide _) as [E|E]; [|reflexivity].
    simpl. rewrite (getAccount_same_lower acc a) by exact E. reflexivity.
Qed.

(** Both revisions of "Handle finality" make the same writes. *)
Lemma handleFinality_same_state (cfg : Config) (acc : address) (k q : Z)
    (tx : option Transaction) (s : State) :
  snd (ValidatorCoreReentry.handleFinality cfg acc k q tx s)
  = snd (ValidatorCore.handleFinality cfg acc k q tx s).
Proof.
  unfold ValidatorCoreReentry.handleFinality, ValidatorCore.handleFinality. msimpl.
  destruct tx as [tx'|]; [|reflexivity].
  destruct (_ && _); [|reflexivity]. msimpl.
  destruct (getTxChainStart tx') as [orig|e]; [|reflexivity].
  destruct (_ || _); [|reflexivity].
  unfold bind.
  destruct ((if _ =? _ then executeTransfer orig else ret tt) s) as [[[]|e] s1];
    simpl; [|reflexivity].
  destruct (_ >=? _); reflexivity.
Qed.

(** "Handle finality" when its guard holds and the chain start resolves. *)
Lemma handleFinality_run (cfg : Config) (acc : address) (k q : Z) (tx orig : Transaction)
    (s : State) :
  FINALITY_QUORUM cfg <= q ->
  finalised (getAccount acc s) < k ->
  getTxChainStart tx = Ok orig ->
  ValidatorCore.handleFinality cfg acc k q (Some tx) s
  = if Z.of_N (tx_nonce orig) =? finalised (getAccount acc s) + 1 then
      match executeTransfer orig s with
      | (Ok _, s1) => (Ok tt, finaliseAt acc k s1)
      | (Throw e, s1) => (Throw e, s1)
      end
    else if Z.of_N (tx_nonce orig) =? finalised (getAccount acc s) then
      (Ok tt, finaliseAt acc k s)
    else (Ok tt, s).
Proof.
  intros Hq Hk Horig. unfold ValidatorCore.handleFinality. msimpl.
  destruct (Z.geb_spec q (FINALITY_QUORUM cfg)) as [_|]; [|lia].
  destruct (Z.gtb_spec k (finalised (getAccount acc s))) as [_|]; [|lia].
  cbn [andb]. msimpl. rewrite Horig.
  destruct (Z.eqb_spec (Z.of_N (tx_nonce orig)) (finalised (getAccount acc s) + 1)) as [E1|E1].
  - rewrite orb_true_r. unfold bind at 1.
    destruct (executeTransfer orig s) as [[[]|e] s1]; [|reflexivity].
    msimpl. unfold finaliseAt. destruct (_ >=? _); reflexivity.
  - rewrite orb_false_r.
    destruct (Z.eqb_spec (Z.of_N (tx_nonce orig)) (finalised (getAccount acc s))) as [E2|E2];
      [|reflexivity].
    msimpl. unfold finaliseAt. destruct (_ >=? _); reflexivity.
Qed.

(** ** The bot-vote rule *)

Lemma quiet_refl (s : State) : quiet s s.
Proof. split; reflexivity. Qed.

Lemma quiet_trans (s1 s2 s3 : State) : quiet s1 s2 -> quiet s2 s3 -> quiet s1 s3.
Proof. intros [A1 B1] [A2 B2]. split; congruence. Qed.

Lemma quiet_updateAccount (acc : address) f (s : State) : quiet s (updateAccount acc f s).
Proof. split; reflexivity. Qed.

Lemma quiet_executeTransfer (tx : Transaction) : preserves quiet (executeTransfer tx).
Proof.
  unfold executeTransfer.
  apply preserves_bind; [apply quiet_trans|apply preserves_nonNull, quiet_refl|intros sender].
  apply preserves_bind; [apply quiet_trans|apply preserves_nonNull, quiet_refl|intros recipient].
  apply preserves_bind; [apply quiet_trans| |intros _];
    apply preserves_modify; intros s; apply quiet_updateAccount.
Qed.

Lemma quiet_handleFinality (cfg : Config) (acc : address) (k q : Z) (tx : option Transaction) :
  preserves quiet (ValidatorCore.handleFinality cfg acc k q tx).
Proof.
  unfold ValidatorCore.handleFinality.
  apply preserves_bind; [apply quiet_trans|apply preserves_gets, quiet_refl|intros a].
  destruct tx as [tx'|]; [|apply preserves_ret, quiet_refl].
  destruct (_ && _); [|apply preserves_ret, quiet_refl].
  apply preserves_bind; [apply quiet_trans|apply preserves_liftResult, quiet_refl|intros orig].
  destruct (_ || _); [|apply preserves_ret, quiet_refl].
  apply preserves_bind; [apply quiet_trans| |intros _].
  { destruct (_ =? _); [apply quiet_executeTransfer|apply preserves_ret, quiet_refl]. }
  apply preserves_bind; [apply quiet_trans| |intros _].
  { apply preserves_modify. intros s. apply quiet_updateAccount. }
  apply preserves_bind; [apply quiet_trans|apply preserves_gets, quiet_refl|intros a'].
  destruct (_ >=? _); [|apply preserves_ret, quiet_refl].
  apply preserves_modify. intros s. apply quiet_updateAccount.
Qed.

Lemma handleFinality_below (cfg : Config) (acc : address) (k q : Z) (tx : option Transaction)
    (s : State) :
  q < FINALITY_QUORUM cfg ->
  ValidatorCore.handleFinality cfg acc k q tx s = (Ok tt, s).
Proof.
  intros Hq. unfold ValidatorCore.handleFinality. msimpl.
  destruct tx; [|reflexivity].
  destruct (Z.geb_spec q (FINALITY_QUORUM cfg)); [lia|reflexivity].
Qed.


Lemma quorums_ordered (cfg : Config) :
  validParams cfg -> NOTARISATION_QUORUM cfg <= FINALITY_QUORUM cfg.
Proof. unfold validParams, NOTARISATION_QUORUM, FINALITY_QUORUM. lia. Qed.

Lemma storeKeyed_pushVote (vote : Vote) (s : State) :
  storeKeyed s -> storeKeyed (pushVote (toLowerCase (account vote)) (voteNonce vote) vote s).
Proof.
  intros H n k v. rewrite storedVotes_pushVote.
  destruct (decide _) as [[= <- <-]|]; [|apply H].
  intros Hv. apply elem_of_app in Hv as [Hv|Hv]; [apply H; exact Hv|].
  apply list_elem_of_singleton in Hv as ->. auto.
Qed.

(** [onVote] on a verified vote that is not dropped: the vote is pushed, and
    the processor runs under the gate. *)
Lemma onVote_pushed (cfg : Config) (fuel : nat) (vote : Vote) (s : State) :
  verifyVote vote (validatorSet cfg) = true ->
  ValidatorCore.alreadyVoted vote
    (storedVotes (toLowerCase (account vote)) (voteNonce vote) s) = false ->
  let normalized := toLowerCase (account vote) in
  let s0 := pushVote normalized (voteNonce vote) vote s in
  let votes := storedVotes normalized (voteNonce vote) s ++ [vote] in
  ValidatorCore.onVote cfg (S fuel) vote s
  = if (voteNonce vote =? nonce (getAccount normalized s))
       && (Z.of_nat (length votes) >=? FINALITY_QUORUM cfg)
    then ValidatorCore.processCertificate cfg fuel normalized votes s0
    else (Ok tt, s0).
Proof.
  intros Hver Hnew. cbv zeta. simpl. unfold ValidatorCore.onVoteBody.
  rewrite Hver. simpl. msimpl. rewrite Hnew. msimpl.
  rewrite storedVotes_pushVote. destruct (decide _); [|congruence].
  rewrite getAccount_pushVote. destruct (_ && _); reflexivity.
Qed.

Lemma handleCurrentNonce_cast (cfg : Config) (rec : Vote -> M unit) (acc account : address)
    (k q : Z) (votes : list Vote) (s0 : State) :
  k = nonce (getAccount acc s0) ->
  q < NOTARISATION_QUORUM cfg ->
  ValidatorCore.votedBot cfg votes = false ->
  ValidatorCore.handleCurrentNonce cfg rec acc account k q votes s0
  = match rec (signVote cfg account k None) (updateAccount acc (setPending true) s0) with
    | (Ok _, s2) => (Ok tt, withBroadcast (signVote cfg account k None) s2)
    | (Throw e, s2) => (Throw e, s2)
    end.
Proof.
  intros Hcur Hq Hb. unfold ValidatorCore.handleCurrentNonce. rewrite bind_gets.
  rewrite <- Hcur, Z.eqb_refl.
  destruct (Z.ltb_spec q (NOTARISATION_QUORUM cfg)); [|lia].
  rewrite Hb. cbn [negb]. rewrite bind_modify. unfold bind.
  destruct (rec _ _) as [[[]|e] s2]; reflexivity.
Qed.

Lemma handleCurrentNonce_quiet (cfg : Config) (rec : Vote -> M unit) (acc account : address)
    (k q : Z) (votes : list Vote) (s0 : State) :
  ~ (k = nonce (getAccount acc s0) /\ q < NOTARISATION_QUORUM cfg
     /\ ValidatorCore.votedBot cfg votes = false) ->
  fst (ValidatorCore.handleCurrentNonce cfg rec acc account k q votes s0) = Ok tt
  /\ quiet s0 (snd (ValidatorCore.handleCurrentNonce cfg rec acc account k q votes s0)).
Proof.
  intros Hno. unfold ValidatorCore.handleCurrentNonce. rewrite bind_gets.
  destruct (Z.eqb_spec k (nonce (getAccount acc s0))); [|split; [reflexivity|apply quiet_refl]].
  destruct (Z.ltb_spec q (NOTARISATION_QUORUM cfg)).
  - destruct (ValidatorCore.votedBot cfg votes) eqn:Hb; [split; [reflexivity|apply quiet_refl]|].
    exfalso. apply Hno. auto.
  - destruct (pending _); split; try reflexivity; try apply quiet_refl.
    apply quiet_updateAccount.
Qed.

Lemma processCertificate_head (cfg : Config) (fuel : nat) (acc : address) (votes : list Vote)
    (first : Vote) (s0 : State) :
  head votes = Some first ->
  ValidatorCore.processCertificate cfg fuel acc votes s0
  = let q := quorum (getMaxQuorumCert votes 1) in
    match ValidatorCore.handleCurrentNonce cfg (ValidatorCore.onVote cfg fuel) acc
            (toLowerCase (account first)) (voteNonce first) q votes s0 with
    | (Ok _, s1) =>
        ValidatorCore.handleFinality cfg acc (voteNonce first) q
          (tx (getMaxQuorumCert votes 1)) s1
    | (Throw e, s1) => (Throw e, s1)
    end.
Proof.
  intros Hhead. unfold ValidatorCore.processCertificate, ValidatorCore.processCertificateBody.
  rewrite bind_nonNull, Hhead. reflexivity.
Qed.


Lemma storeKeyed_sameStore (s s' : State) : sameStore s s' -> storeKeyed s -> storeKeyed s'.
Proof. intros H Hk n k v. unfold storedVotes. rewrite H. apply Hk. Qed.

Lemma storeKeyed_processCertificateBody (cfg : Config) (onVoteRec : Vote -> M unit)
    (acc : address) (votes : list Vote) :
  (forall v, preserves (fun s s' => storeKeyed s -> storeKeyed s') (onVoteRec v)) ->
  preserves (fun s s' => storeKeyed s -> storeKeyed s')
            (ValidatorCore.processCertificateBody cfg onVoteRec acc votes).
Proof.
  intros Hrec. unfold ValidatorCore.processCertificateBody.
  assert (Htrans : forall s1 s2 s3 : State,
             (storeKeyed s1 -> storeKeyed s2) -> (storeKeyed s2 -> storeKeyed s3) ->
             storeKeyed s1 -> storeKeyed s3) by auto.
  assert (Hrefl : forall s : State, storeKeyed s -> storeKeyed s) by auto.
  apply preserves_bind; [exact Htrans|apply preserves_nonNull; exact Hrefl|intros first].
  apply preserves_bind; [exact Htrans| |intros _].
  - unfold ValidatorCore.handleCurrentNonce.
    apply preserves_bind; [exact Htrans|apply preserves_gets; exact Hrefl|intros a].
    destruct (_ =? _); [|apply preserves_ret; exact Hrefl].
    destruct (_ <? _).
    + destruct (negb _); [|apply preserves_ret; exact Hrefl].
      apply preserves_bind; [exact Htrans| |intros _].
      { apply preserves_modify. intros s. apply storeKeyed_sameStore. reflexivity. }
      apply preserves_bind; [exact Htrans|apply Hrec|intros _].
      apply preserves_modify. intros s. apply storeKeyed_sameStore. reflexivity.
    + destruct (pending a); [|apply preserves_ret; exact Hrefl].
      apply preserves_modify. intros s. apply storeKeyed_sameStore. reflexivity.
  - intros s. apply storeKeyed_sameStore. apply sameStore_handleFinality.
Qed.

Lemma storeKeyed_onVote (cfg : Config) (fuel : nat) (vote : Vote) (s : State) :
  storeKeyed s -> storeKeyed (snd (ValidatorCore.onVote cfg fuel vote s)).
Proof.
  revert vote s. induction fuel as [|fuel IH]; intros vote s; simpl; [auto|].
  unfold ValidatorCore.onVoteBody.
  destruct (negb _); [auto|]. msimpl.
  destruct (ValidatorCore.alreadyVoted _ _); [auto|]. msimpl.
  intros Hk. apply storeKeyed_pushVote with (vote := vote) in Hk. revert Hk.
  destruct (_ && _); [|auto].
  apply storeKeyed_processCertificateBody. intros v s'. apply IH.
Qed.

Lemma storeKeyed_run (cfg : Config) (fuel : nat) (calls : list Call) (s : State) :
  storeKeyed s -> storeKeyed (ValidatorCore.run cfg fuel calls s).
Proof.
  revert s. induction calls as [|c calls IH]; intros s Hk; simpl; [exact Hk|].
  apply IH. destruct c as [signedTx|vote]; simpl; [|apply storeKeyed_onVote; exact Hk].
  unfold ValidatorCore.onTransaction. rewrite bind_reads.
  destruct (ValidatorCore.validateTransaction cfg signedTx s) as [tx|e]; [|exact Hk].
  rewrite bind_nonNull. destruct (tx_from tx) as [from|]; [|exact Hk].
  rewrite bind_modify. unfold bind at 1.
  assert (Hk1 : storeKeyed (updateAccount (toLowerCase from) (setPending true) s)).
  { eapply storeKeyed_sameStore; [|exact Hk]. reflexivity. }
  pose proof (storeKeyed_onVote cfg fuel
                (signVote cfg (toLowerCase from) (Z.of_N (tx_nonce tx)) (Some tx)) _ Hk1) as H.
  destruct (ValidatorCore.onVote _ _ _ _) as [[[]|e] s2]; simpl in *; [|exact H].
  eapply storeKeyed_sameStore; [|exact H]. reflexivity.
Qed.

Lemma storeKeyed_genesis (balances : list (address * Z)) : storeKeyed (genesis balances).
Proof.
  intros n k v. unfold storedVotes, genesis; simpl. rewrite lookup_empty. simpl.
  intros H. inversion H.
Qed.

(** ** Balances *)


Lemma sameBalance_refl (s : State) : sameBalance s s.
Proof. intros a. reflexivity. Qed.

Lemma sameBalance_trans (s1 s2 s3 : State) :
  sameBalance s1 s2 -> sameBalance s2 s3 -> sameBalance s1 s3.
Proof. intros H1 H2 a. rewrite H2. apply H1. Qed.

Lemma sameBalance_updateAccount (acc : address) (f : AccountState -> AccountState) (s : State) :
  (forall x, balance (f x) = balance x) -> sameBalance s (updateAccount acc f s).
Proof.
  intros H a. rewrite getAccount_updateAccount. destruct (decide _) as [E|E]; [|reflexivity].
  rewrite H. rewrite (getAccount_same_lower acc a) by exact E. reflexivity.
Qed.

Lemma sameBalance_finaliseAt (acc : address) (k : Z) (s : State) :
  sameBalance s (finaliseAt acc k s).
Proof. intros a. apply (finalise_effect acc k s). Qed.

Lemma oneTransfer_same (P : Transaction -> Prop) (s s' : State) :
  sameBalance s s' -> oneTransfer P s s'.
Proof. intros H. left. exact H. Qed.

Lemma oneTransfer_mono (P Q : Transaction -> Prop) (s s' : State) :
  (forall t, P t -> Q t) -> oneTransfer P s s' -> oneTransfer Q s s'.
Proof.
  intros HPQ [H|(t & orig & sender & recipient & Hp & H)]; [left; exact H|].
  right. exists t, orig, sender, recipient. split; [apply HPQ; exact Hp|exact H].
Qed.

Lemma oneTransfer_before (P : Transaction -> Prop) (s1 s2 s3 : State) :
  sameBalance s1 s2 -> oneTransfer P s2 s3 -> oneTransfer P s1 s3.
Proof.
  intros H12 [H|(t & orig & sender & recipient & Hp & Ho & Hf & Ht & H)].
  - left. eapply sameBalance_trans; eassumption.
  - right. exists t, orig, sender, recipient. repeat split; try assumption.
    intros a. rewrite H, H12. reflexivity.
Qed.

Lemma oneTransfer_after (P : Transaction -> Prop) (s1 s2 s3 : State) :
  oneTransfer P s1 s2 -> sameBalance s2 s3 -> oneTransfer P s1 s3.
Proof.
  intros [H|(t & orig & sender & recipient & Hp & Ho & Hf & Ht & H)] H23.
  - left. eapply sameBalance_trans; eassumption.
  - right. exists t, orig, sender, recipient. repeat split; try assumption.
    intros a. rewrite H23, H. reflexivity.
Qed.

Lemma oneTransfer_handleFinality (cfg : Config) (acc : address) (k q : Z)
    (tx : option Transaction) (s : State) :
  oneTransfer (fun t => tx = Some t) s (snd (ValidatorCore.handleFinality cfg acc k q tx s)).
Proof.
  unfold ValidatorCore.handleFinality. msimpl.
  destruct tx as [tx'|]; [|left; apply sameBalance_refl].
  destruct (_ && _); [|left; apply sameBalance_refl]. msimpl.
  destruct (getTxChainStart tx') as [orig|e] eqn:Horig; [|left; apply sameBalance_refl].
  destruct (_ || _); [|left; apply sameBalance_refl].
  assert (Htail : forall s1,
             sameBalance s1
               (snd ((modify (updateAccount acc (setFinalised k)) ;;
                      let* a' := gets (getAccount acc) in
                      if k >=? nonce a'
                      then modify (updateAccount acc
                                     (fun a => setPending false (setNonce (k + 1) a)))
                      else ret tt) s1))).
  { intros s1. msimpl. pose proof (sameBalance_finaliseAt acc k s1) as H.
    unfold finaliseAt in H. cbv zeta in H. destruct (_ >=? _); exact H. }
  destruct (_ =? _).
  - destruct (tx_from orig) as [sender|] eqn:Hf.
    2:{ left. unfold bind, executeTransfer, nonNull. rewrite Hf. apply sameBalance_refl. }
    destruct (tx_to orig) as [recipient|] eqn:Ht.
    2:{ left. unfold bind, executeTransfer, nonNull. rewrite Hf, Ht. apply sameBalance_refl. }
    unfold bind at 1. pose proof (executeTransfer_balance orig sender recipient s) as Hbal.
    rewrite (executeTransfer_effect orig sender recipient s Hf Ht) in *. simpl in Hbal.
    eapply oneTransfer_after; [|apply Htail].
    right. exists tx', orig, sender, recipient. repeat split; try assumption.
    intros a. apply Hbal; assumption.
  - left. rewrite bind_ret. apply Htail.
Qed.

(** From here on [rec] stands for [onVote] with less fuel; what it may
    transfer is a payload of its vote or of the store. *)
Lemma oneTransfer_processCertificateBody (cfg : Config) (rec : Vote -> M unit)
    (acc : address) (votes : list Vote) (s0 : State) :
  validParams cfg ->
  (forall v s, oneTransfer (fun t => storedPayload s t \/ serializedTx v = Some t)
                           s (snd (rec v s))) ->
  oneTransfer (fun t => storedPayload s0 t \/ exists w, w ∈ votes /\ serializedTx w = Some t)
              s0 (snd (ValidatorCore.processCertificateBody cfg rec acc votes s0)).
Proof.
  intros Hcfg Hrec. pose proof (quorums_ordered cfg Hcfg) as Hord.
  unfold ValidatorCore.processCertificateBody. rewrite bind_nonNull.
  destruct (head votes) as [first|]; [|left; apply sameBalance_refl].
  set (q := quorum (getMaxQuorumCert votes 1)).
  set (k := voteNonce first). set (acct := toLowerCase (account first)).
  unfold bind.
  destruct (Z.eqb_spec k (nonce (getAccount acc s0))) as [Hcur|Hcur].
  - destruct (Z.ltb_spec q (NOTARISATION_QUORUM cfg)) as [Hq|Hq].
    + destruct (ValidatorCore.votedBot cfg votes) eqn:Hb.
      * unfold ValidatorCore.handleCurrentNonce at 1. rewrite bind_gets.
        destruct (Z.eqb_spec k (nonce (getAccount acc s0))); [|contradiction].
        destruct (Z.ltb_spec q (NOTARISATION_QUORUM cfg)); [|lia].
        rewrite Hb. cbn [negb ret]. rewrite handleFinality_below by lia.
        left. apply sameBalance_refl.
      * rewrite handleCurrentNonce_cast by assumption.
        specialize (Hrec (signVote cfg acct k None) (updateAccount acc (setPending true) s0)).
        assert (Hone : oneTransfer (fun t => storedPayload s0 t) s0
                         (snd (rec (signVote cfg acct k None)
                                 (updateAccount acc (setPending true) s0)))).
        { eapply oneTransfer_before;
            [apply (sameBalance_updateAccount acc (setPending true) s0); reflexivity|].
          eapply oneTransfer_mono; [|exact Hrec].
          intros t [H|H]; [exact H|discriminate]. }
        destruct (rec _ _) as [[[]|e] s2]; simpl in *.
        -- rewrite handleFinality_below by lia. simpl.
           eapply oneTransfer_mono; [intros t H; left; exact H|].
           eapply oneTransfer_after; [exact Hone|]. intros a. reflexivity.
        -- eapply oneTransfer_mono; [intros t H; left; exact H|exact Hone].
    + assert (Hno : ~ (k = nonce (getAccount acc s0) /\ q < NOTARISATION_QUORUM cfg
                       /\ ValidatorCore.votedBot cfg votes = false)) by lia.
      destruct (handleCurrentNonce_quiet cfg rec acc acct k q votes s0 Hno) as [Hok _].
      assert (Hsame : sameBalance s0
                        (snd (ValidatorCore.handleCurrentNonce cfg rec acc acct k q votes s0))).
      { unfold ValidatorCore.handleCurrentNonce. rewrite bind_gets.
        destruct (Z.eqb_spec k (nonce (getAccount acc s0))); [|contradiction].
        destruct (Z.ltb_spec q (NOTARISATION_QUORUM cfg)); [lia|].
        destruct (pending _); [|apply sameBalance_refl].
        apply sameBalance_updateAccount. reflexivity. }
      destruct (ValidatorCore.handleCurrentNonce cfg rec acc acct k q votes s0)
        as [[[]|e] s1]; simpl in *; [|discriminate].
      eapply oneTransfer_before; [exact Hsame|].
      eapply oneTransfer_mono; [|apply oneTransfer_handleFinality].
      intros t Ht. right.
      destruct (proj2 (getMaxQuorumCert_spec votes)) as [(_ & _ & Hnone)|(v & _ & _ & _ & w & Hw & _ & Hwt)].
      * rewrite Hnone in Ht. discriminate.
      * exists w. split; [exact Hw|]. rewrite Ht in Hwt. symmetry. exact Hwt.
  - assert (Hno : ~ (k = nonce (getAccount acc s0) /\ q < NOTARISATION_QUORUM cfg
                     /\ ValidatorCore.votedBot cfg votes = false)) by tauto.
    destruct (handleCurrentNonce_quiet cfg rec acc acct k q votes s0 Hno) as [Hok _].
    assert (Hsame : snd (ValidatorCore.handleCurrentNonce cfg rec acc acct k q votes s0) = s0).
    { unfold ValidatorCore.handleCurrentNonce. rewrite bind_gets.
      destruct (Z.eqb_spec k (nonce (getAccount acc s0))); [contradiction|reflexivity]. }
    destruct (ValidatorCore.handleCurrentNonce cfg rec acc acct k q votes s0)
      as [[[]|e] s1]; simpl in *; [|discriminate]. subst s1.
    eapply oneTransfer_mono; [|apply oneTransfer_handleFinality].
    intros t Ht. right.
    destruct (proj2 (getMaxQuorumCert_spec votes)) as [(_ & _ & Hnone)|(v & _ & _ & _ & w & Hw & _ & Hwt)].
    + rewrite Hnone in Ht. discriminate.
    + exists w. split; [exact Hw|]. rewrite Ht in Hwt. symmetry. exact Hwt.
Qed.

Lemma storedPayload_pushVote (n : address) (k : Z) (vote : Vote) (s : State) (t : Transaction) :
  storedPayload (pushVote n k vote s) t -> storedPayload s t \/ serializedTx vote = Some t.
Proof.
  intros (n' & k' & v & Hv & Ht). rewrite storedVotes_pushVote in Hv.
  destruct (decide _) as [_|_].
  - apply elem_of_app in Hv as [Hv|Hv].
    + left. exists n, k, v. auto.
    + apply list_elem_of_singleton in Hv as ->. right. exact Ht.
  - left. exists n', k', v. auto.
Qed.

Lemma oneTransfer_onVote (cfg : Config) (fuel : nat) (vote : Vote) (s : State) :
  validParams cfg ->
  oneTransfer (fun t => storedPayload s t \/ serializedTx vote = Some t)
              s (snd (ValidatorCore.onVote cfg fuel vote s)).
Proof.
  intros Hcfg. revert vote s. induction fuel as [|fuel IH]; intros vote s; simpl.
  - left. apply sameBalance_refl.
  - unfold ValidatorCore.onVoteBody.
    destruct (negb _); [left; apply sameBalance_refl|]. msimpl.
    destruct (ValidatorCore.alreadyVoted _ _); [left; apply sameBalance_refl|]. msimpl.
    set (n := toLowerCase (account vote)). set (s0 := pushVote n (voteNonce vote) vote s).
    destruct (_ && _); [|left; intros a; reflexivity].
    eapply oneTransfer_before with (s2 := s0); [intros a; reflexivity|].
    eapply oneTransfer_mono;
      [|apply (oneTransfer_processCertificateBody cfg (ValidatorCore.onVote cfg fuel) n
                 (storedVotes n (voteNonce vote) s0) s0 Hcfg IH)].
    intros t [H|(w & Hw & Ht)].
    + apply storedPayload_pushVote in H. exact H.
    + apply (storedPayload_pushVote n (voteNonce vote) vote s t).
      exists n, (voteNonce vote), w. auto.
Qed.

Lemma oneTransfer_step (cfg : Config) (fuel : nat) (c : Call) (s : State) :
  validParams cfg ->
  oneTransfer (fun t => storedPayload s t \/ payloadOf c = Some t)
              s (ValidatorCore.step cfg fuel c s).
Proof.
  intros Hcfg. destruct c as [signedTx|vote]; simpl; [|apply oneTransfer_onVote; exact Hcfg].
  unfold ValidatorCore.onTransaction. rewrite bind_reads.
  destruct (ValidatorCore.validateTransaction cfg signedTx s) as [tx|e] eqn:Hval;
    [|left; apply sameBalance_refl].
  destruct (validateTransaction_Ok _ _ _ _ Hval) as (-> & from & Hfrom & _).
  rewrite bind_nonNull, Hfrom, bind_modify.
  set (s1 := updateAccount (toLowerCase from) (setPending true) s).
  set (vote := signVote cfg (toLowerCase from) (Z.of_N (tx_nonce tx)) (Some tx)).
  pose proof (oneTransfer_onVote cfg fuel vote s1 Hcfg) as H.
  assert (H' : oneTransfer (fun t => storedPayload s t \/ Some tx = Some t) s
                 (snd (ValidatorCore.onVote cfg fuel vote s1))).
  { eapply oneTransfer_before;
      [apply (sameBalance_updateAccount (toLowerCase from) (setPending true) s); reflexivity|].
    exact H. }
  unfold bind. destruct (ValidatorCore.onVote cfg fuel vote s1) as [[[]|e] s2]; simpl in *.
  - eapply oneTransfer_after; [exact H'|]. intros a. reflexivity.
  - exact H'.
Qed.

Lemma balanceChange_lower_bound (sender recipient : address) (value : N) (a : address) :
  (if decide (toLowerCase sender = toLowerCase a) then - Z.of_N value else 0)
  <= balanceChange sender recipient value a.
Proof.
  unfold balanceChange.
  destruct (decide (toLowerCase recipient = toLowerCase a)),
           (decide (toLowerCase sender = toLowerCase a)); lia.
Qed.

(** A call keeps every balance non-negative when the balances were
    non-negative before it and, for every transaction carried by the call or
    by a stored vote, the payment at its chain start asks for no more than
    its sender's balance at that moment. *)
Lemma covered_step_non_negative (cfg : Config) (fuel : nat) (c : Call) (s : State) :
  validParams cfg ->
  nonNegative s ->
  (forall t, storedPayload s t \/ payloadOf c = Some t -> covered s t) ->
  nonNegative (ValidatorCore.step cfg fuel c s).
Proof.
  intros Hcfg Hnn Hcov a.
  destruct (oneTransfer_step cfg fuel c s Hcfg)
    as [H|(t & orig & sender & recipient & Hp & Ho & Hf & Ht & H)].
  - rewrite H. apply Hnn.
  - rewrite H. pose proof (balanceChange_lower_bound sender recipient (tx_value orig) a) as Hb.
    specialize (Hcov t Hp orig sender Ho Hf). specialize (Hnn a).
    destruct (decide (toLowerCase sender = toLowerCase a)) as [E|E]; [|lia].
    rewrite (getAccount_same_lower sender a) in Hcov by exact E. lia.
Qed.


Lemma storedPayload_votes (s : State) (P : Transaction -> Prop) :
  map_Forall (fun _ l => Forall (fun v => forall t, serializedTx v = Some t -> P t) l)
             (voteStore s) ->
  forall t, storedPayload s t -> P t.
Proof.
  intros H t (n & k & v & Hv & Ht). unfold storedVotes in Hv.
  destruct (voteStore s !! (n, k)) as [l|] eqn:E; simpl in Hv; [|inversion Hv].
  specialize (H _ _ E). rewrite Forall_forall in H. apply (H v Hv t Ht).
Qed.


(** ** The later revision: one pass of the processor and its re-entry *)

Lemma processCertificate_pass (cfg : Config) (fuel : nat) (account : address) (k : Z)
    (s : State) :
  ValidatorCoreReentry.processCertificate cfg (S fuel) account k s
  = let votes := getVotes account k s in
    let c := getMaxQuorumCert votes 1 in
    match ValidatorCoreReentry.handleCurrentNonce cfg
            (ValidatorCoreReentry.onVoteBody cfg (ValidatorCoreReentry.processCertificate cfg fuel))
            account k (quorum c) votes s with
    | (Ok incremented1, s1) =>
        match ValidatorCoreReentry.handleFinality cfg account k (quorum c) (tx c) s1 with
        | (Ok incremented2, s2) =>
            if incremented1 || incremented2
            then ValidatorCoreReentry.processCertificate cfg fuel account
                   (nonce (getAccount account s2)) s2
            else (Ok tt, s2)
        | (Throw e, s2) => (Throw e, s2)
        end
    | (Throw e, s1) => (Throw e, s1)
    end.
Proof.
  simpl. unfold ValidatorCoreReentry.processCertificateBody. rewrite bind_gets.
  unfold bind at 1.
  destruct (ValidatorCoreReentry.handleCurrentNonce _ _ _ _ _ _ _) as [[i1|e] s1]; [|reflexivity].
  unfold bind at 1.
  destruct (ValidatorCoreReentry.handleFinality _ _ _ _ _ _) as [[i2|e] s2]; [|reflexivity].
  destruct (i1 || i2); reflexivity.
Qed.

(** "Handle current nonce" with a notarisation quorum: the nonce advances if
    the account is pending, and nothing else happens. *)
Lemma handleCurrentNonce_notarised (cfg : Config) (rec : Vote -> M unit) (account : address)
    (k q : Z) (votes : list Vote) (s : State) :
  NOTARISATION_QUORUM cfg <= q ->
  ValidatorCoreReentry.handleCurrentNonce cfg rec account k q votes s
  = if (k =? nonce (getAccount account s)) && pending (getAccount account s)
    then (Ok true, updateAccount account (fun a => setPending false (setNonce (k + 1) a)) s)
    else (Ok false, s).
Proof.
  intros Hq. unfold ValidatorCoreReentry.handleCurrentNonce. rewrite bind_gets.
  destruct (k =? nonce (getAccount account s)); [|reflexivity].
  destruct (Z.ltb_spec q (NOTARISATION_QUORUM cfg)); [lia|].
  destruct (pending (getAccount account s)); reflexivity.
Qed.

(** "Handle finality" of the later revision when its guard holds: the flag
    tells whether the nonce was moved. *)
Lemma handleFinality_run' (cfg : Config) (account : address) (k q : Z) (t orig : Transaction)
    (s : State) :
  FINALITY_QUORUM cfg <= q ->
  finalised (getAccount account s) < k ->
  getTxChainStart t = Ok orig ->
  ValidatorCoreReentry.handleFinality cfg account k q (Some t) s
  = if Z.of_N (tx_nonce orig) =? finalised (getAccount account s) + 1 then
      match executeTransfer orig s with
      | (Ok _, s1) => (Ok (k >=? nonce (getAccount account s1)), finaliseAt account k s1)
      | (Throw e, s1) => (Throw e, s1)
      end
    else if Z.of_N (tx_nonce orig) =? finalised (getAccount account s) then
      (Ok (k >=? nonce (getAccount account s)), finaliseAt account k s)
    else (Ok false, s).
Proof.
  intros Hq Hk Horig. unfold ValidatorCoreReentry.handleFinality. msimpl.
  destruct (Z.geb_spec q (FINALITY_QUORUM cfg)) as [_|]; [|lia].
  destruct (Z.gtb_spec k (finalised (getAccount account s))) as [_|]; [|lia].
  cbn [andb]. msimpl. rewrite Horig.
  assert (Htail : forall s1,
            (modify (updateAccount account (setFinalised k)) ;;
             let* acc' := gets (getAccount account) in
             if k >=? nonce acc'
             then modify (updateAccount account
                            (fun a => setPending false (setNonce (k + 1) a))) ;; ret true
             else ret false) s1
            = (Ok (k >=? nonce (getAccount account s1)), finaliseAt account k s1)).
  { intros s1. msimpl. unfold finaliseAt. rewrite !getAccount_updateAccount_eq. simpl.
    destruct (_ >=? _); reflexivity. }
  destruct (Z.eqb_spec (Z.of_N (tx_nonce orig)) (finalised (getAccount account s) + 1)) as [E1|E1].
  - rewrite orb_true_r. unfold bind at 1.
    destruct (executeTransfer orig s) as [[[]|e] s1]; [|reflexivity]. apply Htail.
  - rewrite orb_false_r.
    destruct (Z.eqb_spec (Z.of_N (tx_nonce orig)) (finalised (getAccount account s))) as [E2|E2];
      [|reflexivity].
    rewrite bind_ret. apply Htail.
Qed.

Lemma quiet_finaliseAt (acc : address) (k : Z) (s : State) : quiet s (finaliseAt acc k s).
Proof. unfold finaliseAt. cbv zeta. destruct (_ >=? _); split; reflexivity. Qed.

(** One pass with a finality quorum for the payment expected next: the
    payment is executed, the account moves to the next nonce, and the
    processor goes on there. *)
Lemma pass_finalises (cfg : Config) (fuel : nat) (account : address) (k : Z) (s : State)
    (t orig : Transaction) (sender recipient : address) :
  validParams cfg ->
  nonce (getAccount account s) = k ->
  finalised (getAccount account s) = k - 1 ->
  FINALITY_QUORUM cfg <= quorum (getMaxQuorumCert (getVotes account k s) 1) ->
  tx (getMaxQuorumCert (getVotes account k s) 1) = Some t ->
  getTxChainStart t = Ok orig ->
  Z.of_N (tx_nonce orig) = k ->
  tx_from orig = Some sender ->
  tx_to orig = Some recipient ->
  exists s2,
    ValidatorCoreReentry.processCertificate cfg (S fuel) account k s
    = ValidatorCoreReentry.processCertificate cfg fuel account (k + 1) s2
    /\ nonce (getAccount account s2) = k + 1
    /\ finalised (getAccount account s2) = k
    /\ pending (getAccount account s2) = false
    /\ quiet s s2
    /\ forall x, balance (getAccount x s2)
                 = balance (getAccount x s) + balanceChange sender recipient (tx_value orig) x.
Proof.
  intros Hcfg Hn Hf Hq Ht Horig Hon Hfrom Hto.
  pose proof (quorums_ordered cfg Hcfg) as Hord.
  rewrite processCertificate_pass. cbv zeta. rewrite Ht.
  rewrite handleCurrentNonce_notarised by lia.
  rewrite Hn, Z.eqb_refl. cbn [andb].
  set (s1 := if pending (getAccount account s)
             then updateAccount account (fun a => setPending false (setNonce (k + 1) a)) s
             else s).
  assert (Hs1 : (if pending (getAccount account s)
                 then (Ok true, updateAccount account
                                  (fun a => setPending false (setNonce (k + 1) a)) s)
                 else (Ok false, s))
                = (Ok (pending (getAccount account s)), s1)).
  { subst s1. destruct (pending _); reflexivity. }
  rewrite Hs1. clear Hs1.
  assert (Hf1 : finalised (getAccount account s1) = k - 1).
  { subst s1. destruct (pending _); [|exact Hf].
    rewrite getAccount_updateAccount_eq. simpl. exact Hf. }
  assert (Hn1 : nonce (getAccount account s1)
                = if pending (getAccount account s) then k + 1 else k).
  { subst s1. destruct (pending _); [|exact Hn].
    rewrite getAccount_updateAccount_eq. reflexivity. }
  assert (Hp1 : pending (getAccount account s1) = false).
  { subst s1. destruct (pending _) eqn:Hp; [|exact Hp].
    rewrite getAccount_updateAccount_eq. reflexivity. }
  assert (Hb1 : sameBalance s s1).
  { subst s1. destruct (pending _); [|apply sameBalance_refl].
    apply sameBalance_updateAccount. reflexivity. }
  assert (Hq1 : quiet s s1).
  { subst s1. destruct (pending _); [apply quiet_updateAccount|apply quiet_refl]. }
  clearbody s1.
  rewrite (handleFinality_run' cfg account k _ t orig s1) by (try assumption; lia).
  rewrite Hf1. destruct (Z.eqb_spec (Z.of_N (tx_nonce orig)) (k - 1 + 1)) as [_|]; [|lia].
  pose proof (executeTransfer_balance orig sender recipient s1) as Hbal.
  pose proof (sameControl_executeTransfer orig s1) as Hctl.
  pose proof (quiet_executeTransfer orig s1) as Hqt.
  rewrite (executeTransfer_effect orig sender recipient s1 Hfrom Hto) in *.
  cbn [snd] in Hbal, Hctl, Hqt.
  set (sB := updateAccount recipient _ _) in *. clearbody sB.
  destruct (Hctl account) as (HnB & HpB & HfB).
  destruct (finalise_effect account k sB) as (E1 & E2 & E3 & E4). fold (finaliseAt account k sB) in *.
  assert (Hfinal : nonce (getAccount account (finaliseAt account k sB)) = k + 1
                   /\ pending (getAccount account (finaliseAt account k sB)) = false).
  { rewrite HnB, Hn1 in E3, E4. destruct (pending (getAccount account s)).
    - destruct E4 as [-> ->]; [lia|]. rewrite HpB. auto.
    - apply E3. lia. }
  destruct Hfinal as [HnF HpF].
  exists (finaliseAt account k sB).
  assert (Hflag : pending (getAccount account s) || (k >=? nonce (getAccount account sB)) = true).
  { rewrite HnB, Hn1. destruct (pending (getAccount account s)); [reflexivity|].
    simpl. apply Z.geb_le. lia. }
  rewrite Hflag, HnF.
  split; [reflexivity|]. split; [reflexivity|]. split; [exact E1|]. split; [exact HpF|].
  split.
  - eapply quiet_trans; [exact Hq1|]. eapply quiet_trans; [exact Hqt|]. apply quiet_finaliseAt.
  - intros x. rewrite E2, Hbal by assumption. rewrite Hb1. reflexivity.
Qed.

(** One pass at the current nonce when no vote is stored there: nothing. *)
Lemma pass_idle (cfg : Config) (fuel : nat) (account : address) (k : Z) (s : State) :
  validParams cfg ->
  getVotes account k s = [] ->
  ValidatorCoreReentry.processCertificate cfg (S fuel) account k s = (Ok tt, s).
Proof.
  intros [Hf Hn] Hempty. rewrite processCertificate_pass. cbv zeta. rewrite Hempty.
  unfold ValidatorCoreReentry.handleCurrentNonce, ValidatorCoreReentry.handleFinality.
  msimpl. simpl. change (Z.of_nat 0) with 0.
  assert ((0 <? NOTARISATION_QUORUM cfg) = true) as ->
    by (apply Z.ltb_lt; unfold NOTARISATION_QUORUM; lia).
  assert ((0 >=? FINALITY_QUORUM cfg) = false) as ->.
  { destruct (Z.geb_spec 0 (FINALITY_QUORUM cfg)); [|reflexivity].
    unfold FINALITY_QUORUM in *. lia. }
  destruct (_ =? _); reflexivity.
Qed.

Lemma getVotes_quiet (s s' : State) (account : address) (k : Z) :
  quiet s s' -> getVotes account k s' = getVotes account k s.
Proof. intros [E _]. unfold getVotes, storedVotes. rewrite E. reflexivity. Qed.

(** One pass with a notarisation quorum below finality at the current nonce
    of a pending account: the nonce advances and the processor goes on at
    the new nonce. *)
Lemma pass_notarises (cfg : Config) (fuel : nat) (account : address) (k : Z) (s : State) :
  nonce (getAccount account s) = k ->
  pending (getAccount account s) = true ->
  NOTARISATION_QUORUM cfg <= quorum (getMaxQuorumCert (getVotes account k s) 1) ->
  quorum (getMaxQuorumCert (getVotes account k s) 1) < FINALITY_QUORUM cfg ->
  ValidatorCoreReentry.processCertificate cfg (S fuel) account k s
  = ValidatorCoreReentry.processCertificate cfg fuel account (k + 1)
      (updateAccount account (fun a => setPending false (setNonce (k + 1) a)) s).
Proof.
  intros Hn Hp Hnq Hfq. rewrite processCertificate_pass. cbv zeta.
  rewrite handleCurrentNonce_notarised by assumption.
  rewrite Hn, Hp, Z.eqb_refl. cbn [andb].
  unfold ValidatorCoreReentry.handleFinality. msimpl.
  destruct (tx _) as [t|].
  - destruct (Z.geb_spec (quorum (getMaxQuorumCert (getVotes account k s) 1))
                (FINALITY_QUORUM cfg)) as [?|_]; [lia|].
    cbn [andb]. unfold ret. cbn [orb]. rewrite getAccount_updateAccount_eq. reflexivity.
  - unfold ret. cbn [orb]. rewrite getAccount_updateAccount_eq. reflexivity.
Qed.

(** What the flag of "Handle finality" says about the nonce: it is raised
    exactly when the block moved the nonce, to [k + 1]. *)
Lemma handleFinality_flag (cfg : Config) (account : address) (k q : Z)
    (t : option Transaction) (s : State) :
  let r := ValidatorCoreReentry.handleFinality cfg account k q t s in
  match fst r with
  | Ok true => nonce (getAccount account s) <= k /\ nonce (getAccount account (snd r)) = k + 1
  | Ok false => nonce (getAccount account (snd r)) = nonce (getAccount account s)
  | Throw _ => nonce (getAccount account (snd r)) = nonce (getAccount account s)
  end.
Proof.
  cbv zeta. unfold ValidatorCoreReentry.handleFinality. rewrite bind_gets.
  destruct t as [t'|]; [|reflexivity].
  destruct ((q >=? FINALITY_QUORUM cfg) && (k >? finalised (getAccount account s))) eqn:Hg;
    [|reflexivity].
  rewrite bind_liftResult. destruct (getTxChainStart t') as [orig|e]; [|reflexivity].
  destruct (_ || _); [|reflexivity].
  assert (Htail : forall s1,
            nonce (getAccount account s1) = nonce (getAccount account s) ->
            let r := (modify (updateAccount account (setFinalised k)) ;;
                      let* acc' := gets (getAccount account) in
                      if k >=? nonce acc'
                      then modify (updateAccount account
                                     (fun a => setPending false (setNonce (k + 1) a))) ;; ret true
                      else ret false) s1 in
            match fst r with
            | Ok true => nonce (getAccount account s) <= k
                         /\ nonce (getAccount account (snd r)) = k + 1
            | Ok false => nonce (getAccount account (snd r)) = nonce (getAccount account s)
            | Throw _ => nonce (getAccount account (snd r)) = nonce (getAccount account s)
            end).
  { intros s1 Hn. cbv zeta. rewrite bind_modify, bind_gets.
    rewrite getAccount_updateAccount_eq. simpl. rewrite Hn.
    destruct (Z.geb_spec k (nonce (getAccount account s))) as [Hge|Hlt].
    - rewrite bind_modify. simpl. rewrite getAccount_updateAccount_eq. simpl.
      split; [lia|reflexivity].
    - simpl. rewrite getAccount_updateAccount_eq. simpl. exact Hn. }
  destruct (_ =? _).
  - pose proof (sameControl_executeTransfer orig s account) as (Hn & _).
    rewrite bind_run. destruct (executeTransfer orig s) as [[[]|e] s1]; simpl in Hn |- *.
    + apply Htail. exact Hn.
    + exact Hn.
  - rewrite bind_ret. apply Htail. reflexivity.
Qed.

(** One pass of the processor that finds a notarisation quorum: the state
    after its two blocks has the vote store and the broadcasts of the state
    before; if the nonce has moved, the pass goes on with the processor at
    the new nonce, and if not, it ends there. *)
Lemma pass_reenters (cfg : Config) (fuel : nat) (account : address) (k : Z) (s : State) :
  let votes := getVotes account k s in
  let c := getMaxQuorumCert votes 1 in
  NOTARISATION_QUORUM cfg <= quorum c ->
  let s1 := snd (ValidatorCoreReentry.handleCurrentNonce cfg
                   (ValidatorCoreReentry.onVote cfg fuel) account k (quorum c) votes s) in
  let r2 := ValidatorCoreReentry.handleFinality cfg account k (quorum c) (tx c) s1 in
  let s2 := snd r2 in
  quiet s s2
  /\ nonce (getAccount account s) <= nonce (getAccount account s2)
  /\ (forall e, fst r2 = Throw e ->
        ValidatorCoreReentry.processCertificate cfg (S fuel) account k s = (Throw e, s2))
  /\ (forall b, fst r2 = Ok b ->
        (nonce (getAccount account s) < nonce (getAccount account s2) ->
         ValidatorCoreReentry.processCertificate cfg (S fuel) account k s
         = ValidatorCoreReentry.processCertificate cfg fuel account
             (nonce (getAccount account s2)) s2)
        /\ (nonce (getAccount account s2) = nonce (getAccount account s) ->
            ValidatorCoreReentry.processCertificate cfg (S fuel) account k s = (Ok tt, s2))).
Proof.
  intros votes c Hq.
  pose proof (processCertificate_pass cfg fuel account k s) as Hpass. cbv zeta in Hpass.
  fold votes c in Hpass.
  assert (Hcur : forall rec,
            ValidatorCoreReentry.handleCurrentNonce cfg rec account k (quorum c) votes s
            = if (k =? nonce (getAccount account s)) && pending (getAccount account s)
              then (Ok true, updateAccount account
                               (fun a => setPending false (setNonce (k + 1) a)) s)
              else (Ok false, s))
    by (intros rec; apply handleCurrentNonce_notarised; exact Hq).
  rewrite Hcur in Hpass. cbv zeta. rewrite Hcur.
  set (adv := (k =? nonce (getAccount account s)) && pending (getAccount account s)) in *.
  set (s1' := if adv
              then updateAccount account (fun a => setPending false (setNonce (k + 1) a)) s
              else s).
  assert (Hpass' :
            ValidatorCoreReentry.processCertificate cfg (S fuel) account k s
            = match ValidatorCoreReentry.handleFinality cfg account k (quorum c) (tx c) s1' with
              | (Ok incremented2, s2) =>
                  if adv || incremented2
                  then ValidatorCoreReentry.processCertificate cfg fuel account
                         (nonce (getAccount account s2)) s2
                  else (Ok tt, s2)
              | (Throw e, s2) => (Throw e, s2)
              end).
  { rewrite Hpass. unfold s1'. destruct adv; reflexivity. }
  replace (snd (if adv
                then (Ok true, updateAccount account
                                 (fun a => setPending false (setNonce (k + 1) a)) s)
                else (@Ok bool false, s))) with s1'
    by (unfold s1'; destruct adv; reflexivity).
  clear Hpass Hcur.
  assert (Hq1 : quiet s s1')
    by (unfold s1'; destruct adv; [apply quiet_updateAccount|apply quiet_refl]).
  assert (Hn1 : nonce (getAccount account s1')
                = if adv then k + 1 else nonce (getAccount account s)).
  { unfold s1'. destruct adv; [|reflexivity]. rewrite getAccount_updateAccount_eq. reflexivity. }
  assert (Hk : adv = true -> k = nonce (getAccount account s)).
  { unfold adv. intros H. apply andb_true_iff in H as [H _]. apply Z.eqb_eq in H. exact H. }
  pose proof (handleFinality_flag cfg account k (quorum c) (tx c) s1') as Hflag.
  pose proof (quiet_handleFinality cfg account k (quorum c) (tx c) s1') as Hq2.
  rewrite <- handleFinality_same_state in Hq2.
  cbv zeta in Hflag.
  destruct (ValidatorCoreReentry.handleFinality cfg account k (quorum c) (tx c) s1')
    as [[b|e] s2]; cbn [fst snd] in *.
  - split; [eapply quiet_trans; eassumption|].
    assert (Hmono : nonce (getAccount account s) <= nonce (getAccount account s2)
                    /\ (adv || b = true <-> nonce (getAccount account s)
                                            < nonce (getAccount account s2))).
    { destruct b.
      - destruct Hflag as [Hle Heq]. rewrite Hn1 in Hle. rewrite Heq.
        destruct adv eqn:Ha; [specialize (Hk eq_refl); lia|]. simpl. split; [lia|].
        split; [intros _; lia|reflexivity].
      - rewrite Hflag, Hn1. destruct adv eqn:Ha; simpl.
        + specialize (Hk eq_refl). split; [lia|]. split; [intros _; lia|reflexivity].
        + split; [lia|]. split; [discriminate|lia]. }
    destruct Hmono as [Hle Hiff]. split; [exact Hle|]. split; [discriminate|].
    intros b' [= <-]. split.
    + intros Hlt. rewrite Hpass'. apply Hiff in Hlt. rewrite Hlt. reflexivity.
    + intros Heq. rewrite Hpass'.
      destruct (adv || b); [|reflexivity]. pose proof (proj1 Hiff eq_refl). lia.
  - split; [eapply quiet_trans; eassumption|]. split.
    + rewrite Hflag, Hn1. destruct adv eqn:Ha; [specialize (Hk eq_refl); lia|lia].
    + split; [|discriminate]. intros e' [= <-]. exact Hpass'.
Qed.

(** One pass that finds no notarisation quorum moves no nonce by itself: it
    may cast the bot vote, whose processing follows the same rules, and
    then ends. *)
Lemma pass_below_notarisation (cfg : Config) (fuel : nat) (account : address) (k : Z)
    (s : State) :
  validParams cfg ->
  let votes := getVotes account k s in
  let c := getMaxQuorumCert votes 1 in
  quorum c < NOTARISATION_QUORUM cfg ->
  let r1 := ValidatorCoreReentry.handleCurrentNonce cfg
              (ValidatorCoreReentry.onVote cfg fuel) account k (quorum c) votes s in
  ValidatorCoreReentry.processCertificate cfg (S fuel) account k s
  = (match fst r1 with Ok _ => Ok tt | Throw e => Throw e end, snd r1).
Proof.
  intros Hcfg votes c Hq r1. pose proof (quorums_ordered cfg Hcfg) as Hord.
  rewrite processCertificate_pass. cbv zeta. fold votes c.
  change (ValidatorCoreReentry.onVoteBody cfg (ValidatorCoreReentry.processCertificate cfg fuel))
    with (ValidatorCoreReentry.onVote cfg fuel).
  fold r1.
  assert (Hflag : forall b, fst r1 = Ok b -> b = false).
  { intros b. unfold r1, ValidatorCoreReentry.handleCurrentNonce. rewrite bind_gets.
    destruct (_ =? _); [|intros [= <-]; reflexivity].
    destruct (Z.ltb_spec (quorum c) (NOTARISATION_QUORUM cfg)); [|lia].
    destruct (_ && _); [|intros [= <-]; reflexivity].
    rewrite bind_modify, bind_run.
    destruct (ValidatorCoreReentry.onVote cfg fuel _ _) as [[[]|e] s1]; [|discriminate].
    rewrite bind_broadcastVote. intros [= <-]. reflexivity. }
  destruct r1 as [[b|e] s1]; cbn [fst snd] in *; [|reflexivity].
  rewrite (Hflag b eq_refl).
  assert (Hfin : ValidatorCoreReentry.handleFinality cfg account k (quorum c) (tx c) s1
                 = (Ok false, s1)).
  { unfold ValidatorCoreReentry.handleFinality. rewrite bind_gets.
    destruct (tx c); [|reflexivity].
    destruct (Z.geb_spec (quorum c) (FINALITY_QUORUM cfg)); [lia|reflexivity]. }
  rewrite Hfin. reflexivity.
Qed.

Lemma reentry_onVote_stored (cfg : Config) (fuel : nat) (v : Vote) (s : State) :
  skipVerification cfg = true \/ verifyVote v (validatorSet cfg) = true ->
  ValidatorCore.alreadyVoted v (getVotes (account v) (voteNonce v) s) = false ->
  ValidatorCoreReentry.onVote cfg fuel v s
  = ValidatorCoreReentry.processCertificate cfg fuel (account v) (voteNonce v)
      (pushVote (toLowerCase (account v)) (voteNonce v) v s).
Proof.
  intros Hver Hnew. unfold ValidatorCoreReentry.onVote, ValidatorCoreReentry.onVoteBody.
  assert (negb (skipVerification cfg) && negb (verifyVote v (validatorSet cfg)) = false) as ->
    by (destruct Hver as [-> | ->]; [reflexivity|apply andb_false_r]).
  rewrite bind_gets. change (storedVotes (toLowerCase (account v)) (voteNonce v) s)
    with (getVotes (account v) (voteNonce v) s).
  rewrite Hnew. rewrite bind_modify. reflexivity.
Qed.

(** C3, as the specification states it, fails for validator-core.ts, which
    has no re-entry: its [onVote] runs the processor for the nonce of the
    arriving vote only. The five votes for alice's payment at nonce 1 are
    stored while her account is at nonce 0; the fifth vote for the payment at
    nonce 0 then finalises it and advances the account to nonce 1, where a
    finality quorum for the payment of nonce 1 waits in the store, and
    nothing more happens: that payment is not executed. *)
Lemma earlier_revision_does_not_reenter :
  let before := ValidatorCore.run Fixture.me 3 EarlyVotesScenario.calls
                  (genesis [(Fixture.alice, 1000)]) in
  let r := ValidatorCore.onVote Fixture.me 3 EarlyVotesScenario.fifth before in
  let s := snd r in
  nonce (getAccount Fixture.alice before) = 0
  /\ fst r = Ok tt
  /\ nonce (getAccount Fixture.alice s) = 1
  /\ quorum (getMaxQuorumCert (getVotes Fixture.alice 1 s) 1) = FINALITY_QUORUM Fixture.me
  /\ tx (getMaxQuorumCert (getVotes Fixture.alice 1 s) 1) = Some EarlyVotesScenario.pay1
  /\ finalised (getAccount Fixture.alice s) = 0
  /\ balance (getAccount Fixture.alice s) = 900.
Proof. vm_compute. repeat split; reflexivity. Qed.

(** C3, amended (R4, re-entry): the revision of [ValidatorCore] that carries
    the [nonceIncremented] flag (client.ts), with the verification of votes
    on. Under n >= 5f+1 and f >= 0:
    (1) [onVote] on a vote that verifies and is not dropped stores it and
    runs the processor on its account and nonce;
    (2) whenever a pass of the processor advances the account's nonce, by
    the notarisation advance or by finality (either needs a notarisation
    quorum), the pass goes on with the processor at the new nonce, on the
    vote store as it was before the pass; when the nonce stays, the pass
    ends, and when "Handle finality" throws, the error is passed on;
    (3) a pass that finds no notarisation quorum moves no nonce itself: it
    ends after its bot vote, if it casts one;
    (4) consequently, when a vote completes a finality quorum at the current
    nonce k while a finality quorum for the payment of nonce k+1 is already
    in the store, the same call of [onVote] also finalises nonce k+1: it
    leaves the account at nonce k+2 with finalised = k+1, both transfers
    applied and the votes of k+1 as they were stored, and goes on with the
    processor at k+2 (returning at once when no vote is stored there). *)
Theorem reentry_applies_stored_votes (cfg : Config) (fuel : nat) :
  validParams cfg ->
  skipVerification cfg = false ->
  (forall (v : Vote) (s : State),
     verifyVote v (validatorSet cfg) = true ->
     ValidatorCore.alreadyVoted v (getVotes (account v) (voteNonce v) s) = false ->
     ValidatorCoreReentry.onVote cfg (S fuel) v s
     = ValidatorCoreReentry.processCertificate cfg (S fuel) (account v) (voteNonce v)
         (pushVote (toLowerCase (account v)) (voteNonce v) v s))
  /\ (forall account k s,
        let votes := getVotes account k s in
        let c := getMaxQuorumCert votes 1 in
        NOTARISATION_QUORUM cfg <= quorum c ->
        let s1 := snd (ValidatorCoreReentry.handleCurrentNonce cfg
                         (ValidatorCoreReentry.onVote cfg fuel) account k (quorum c) votes s) in
        let r2 := ValidatorCoreReentry.handleFinality cfg account k (quorum c) (tx c) s1 in
        let s2 := snd r2 in
        quiet s s2
        /\ nonce (getAccount account s) <= nonce (getAccount account s2)
        /\ (forall e, fst r2 = Throw e ->
              ValidatorCoreReentry.processCertificate cfg (S fuel) account k s = (Throw e, s2))
        /\ (forall b, fst r2 = Ok b ->
              (nonce (getAccount account s) < nonce (getAccount account s2) ->
               ValidatorCoreReentry.processCertificate cfg (S fuel) account k s
               = ValidatorCoreReentry.processCertificate cfg fuel account
                   (nonce (getAccount account s2)) s2)
              /\ (nonce (getAccount account s2) = nonce (getAccount account s) ->
                  ValidatorCoreReentry.processCertificate cfg (S fuel) account k s
                  = (Ok tt, s2))))
  /\ (forall account k s,
        let votes := getVotes account k s in
        let c := getMaxQuorumCert votes 1 in
        quorum c < NOTARISATION_QUORUM cfg ->
        let r1 := ValidatorCoreReentry.handleCurrentNonce cfg
                    (ValidatorCoreReentry.onVote cfg fuel) account k (quorum c) votes s in
        ValidatorCoreReentry.processCertificate cfg (S fuel) account k s
        = (match fst r1 with Ok _ => Ok tt | Throw e => Throw e end, snd r1))
  /\ (forall (v : Vote) (s : State) (t0 o0 t1 o1 : Transaction)
             (from0 to0 from1 to1 : address),
        let a := account v in
        let k := voteNonce v in
        let now := getVotes a k s ++ [v] in
        let early := getVotes a (k + 1) s in
        verifyVote v (validatorSet cfg) = true ->
        ValidatorCore.alreadyVoted v (getVotes a k s) = false ->
        nonce (getAccount a s) = k ->
        finalised (getAccount a s) = k - 1 ->
        FINALITY_QUORUM cfg <= quorum (getMaxQuorumCert now 1) ->
        tx (getMaxQuorumCert now 1) = Some t0 ->
        getTxChainStart t0 = Ok o0 ->
        Z.of_N (tx_nonce o0) = k ->
        tx_from o0 = Some from0 ->
        tx_to o0 = Some to0 ->
        FINALITY_QUORUM cfg <= quorum (getMaxQuorumCert early 1) ->
        tx (getMaxQuorumCert early 1) = Some t1 ->
        getTxChainStart t1 = Ok o1 ->
        Z.of_N (tx_nonce o1) = k + 1 ->
        tx_from o1 = Some from1 ->
        tx_to o1 = Some to1 ->
        exists s2,
          ValidatorCoreReentry.onVote cfg (S (S fuel)) v s
          = ValidatorCoreReentry.processCertificate cfg fuel a (k + 2) s2
          /\ nonce (getAccount a s2) = k + 2
          /\ finalised (getAccount a s2) = k + 1
          /\ pending (getAccount a s2) = false
          /\ getVotes a (k + 1) s2 = early
          /\ broadcasts s2 = broadcasts s
          /\ (forall x, balance (getAccount x s2)
                        = balance (getAccount x s)
                          + balanceChange from0 to0 (tx_value o0) x
                          + balanceChange from1 to1 (tx_value o1) x)
          /\ (getVotes a (k + 2) s = [] -> fuel <> O ->
              ValidatorCoreReentry.onVote cfg (S (S fuel)) v s = (Ok tt, s2))).
Proof.
  intros Hcfg Hskip. split; [|split; [|split]].
  - intros v s Hver Hnew. apply reentry_onVote_stored; [right; exact Hver|exact Hnew].
  - intros account k s. apply pass_reenters.
  - intros account k s. apply pass_below_notarisation. exact Hcfg.
  - intros v s t0 o0 t1 o1 from0 to0 from1 to1 a k now early
      Hver Hnew Hn Hf Hq0 Ht0 Ho0 Hk0 Hfrom0 Hto0 Hq1 Ht1 Ho1 Hk1 Hfrom1 Hto1.
    set (s0 := pushVote (toLowerCase a) k v s).
    assert (Hq0s : quiet (pushVote (toLowerCase a) k v s) s0 ) by apply quiet_refl.
    assert (Hnow : getVotes a k s0 = now).
    { unfold getVotes, s0. rewrite storedVotes_pushVote.
      destruct (decide _) as [_|Hne]; [reflexivity|congruence]. }
    assert (Hother : forall j, j <> k -> getVotes a j s0 = getVotes a j s).
    { intros j Hj. unfold getVotes, s0. rewrite storedVotes_pushVote.
      destruct (decide _) as [E|_]; [|reflexivity]. congruence. }
    assert (Hstart : ValidatorCoreReentry.onVote cfg (S (S fuel)) v s
                     = ValidatorCoreReentry.processCertificate cfg (S (S fuel)) a k s0).
    { unfold ValidatorCoreReentry.onVote, ValidatorCoreReentry.onVoteBody.
      rewrite Hver, andb_false_r. msimpl.
      fold a k. change (storedVotes (toLowerCase a) k s) with (getVotes a k s).
      rewrite Hnew. msimpl. reflexivity. }
    destruct (pass_finalises cfg (S fuel) a k s0 t0 o0 from0 to0)
      as (s1 & Hrun1 & Hn1 & Hf1 & Hp1 & Hquiet1 & Hbal1);
      try assumption; try (rewrite Hnow; assumption).
    assert (Hearly : getVotes a (k + 1) s1 = early).
    { rewrite (getVotes_quiet s0 s1) by exact Hquiet1. apply Hother. lia. }
    destruct (pass_finalises cfg fuel a (k + 1) s1 t1 o1 from1 to1)
      as (s2 & Hrun2 & Hn2 & Hf2 & Hp2 & Hquiet2 & Hbal2);
      try assumption; try (rewrite Hearly; assumption); try lia.
    replace (k + 1 + 1) with (k + 2) in * by lia.
    assert (Hend : ValidatorCoreReentry.onVote cfg (S (S fuel)) v s
                   = ValidatorCoreReentry.processCertificate cfg fuel a (k + 2) s2)
      by (rewrite Hstart, Hrun1; exact Hrun2).
    exists s2. split; [exact Hend|]. split; [exact Hn2|]. split; [lia|].
    split; [exact Hp2|]. split; [|split; [|split]].
    + rewrite (getVotes_quiet s1 s2) by exact Hquiet2. exact Hearly.
    + destruct Hquiet2 as [_ ->]. destruct Hquiet1 as [_ ->]. reflexivity.
    + intros x. rewrite Hbal2, Hbal1. reflexivity.
    + intros Hnone Hfuel. rewrite Hend. destruct fuel as [|fuel']; [congruence|].
      apply pass_idle; [exact Hcfg|].
      rewrite (getVotes_quiet s1 s2) by exact Hquiet2.
      rewrite (getVotes_quiet s0 s1) by exact Hquiet1.
      rewrite Hother by lia. exact Hnone.
Qed.

Lemma reentry_applies_stored_votes_witness :
  (exists s2,
     ValidatorCoreReentry.onVote Fixture.me 3 EarlyVotesScenario.fifth EarlyVotesScenario.before
     = (Ok tt, s2)
     /\ nonce (getAccount Fixture.alice s2) = 2
     /\ finalised (getAccount Fixture.alice s2) = 1
     /\ balance (getAccount Fixture.alice s2) = 700
     /\ balance (getAccount Fixture.bob s2) = 300)
  /\ nonce (getAccount Fixture.alice
              (snd (ValidatorCoreReentry.processCertificate Fixture.me 2 Fixture.alice 0
                      EarlyVotesScenario.thirdStored))) = 1.
Proof.
  assert (Hcfg : validParams Fixture.me) by (split; vm_compute; discriminate).
  pose proof (reentry_applies_stored_votes Fixture.me 1 Hcfg eq_refl) as (_ & Hpass & _ & Hfin).
  split.
  - pose proof (Hfin EarlyVotesScenario.fifth EarlyVotesScenario.before
                  EarlyVotesScenario.pay0 EarlyVotesScenario.pay0
                  EarlyVotesScenario.pay1 EarlyVotesScenario.pay1
                  Fixture.alice Fixture.bob Fixture.alice Fixture.bob) as H.
    cbv zeta in H.
    repeat match type of H with
           | ?P -> _ =>
               let h := fresh in
               assert (h : P) by (vm_compute; first [reflexivity|discriminate]);
               specialize (H h); clear h
           end.
    destruct H as (s2 & _ & Hn & Hf & _ & _ & _ & Hbal & Hret).
    exists s2. split; [apply Hret; [vm_compute; reflexivity|discriminate]|].
    split; [exact Hn|]. split; [exact Hf|].
    split; rewrite Hbal; vm_compute; reflexivity.
  - pose proof (Hpass Fixture.alice 0 EarlyVotesScenario.thirdStored) as H.
    cbv zeta in H.
    assert (Hq : NOTARISATION_QUORUM Fixture.me
                 <= quorum (getMaxQuorumCert
                              (getVotes Fixture.alice 0 EarlyVotesScenario.thirdStored) 1))
      by (vm_compute; discriminate).
    destruct (H Hq) as (_ & _ & _ & Hok).
    destruct (Hok false) as [Hadv _]; [vm_compute; reflexivity|].
    rewrite Hadv; vm_compute; reflexivity.
Defined.

(** ** The finality rule *)

Lemma advanced_facts (acc : address) (k : Z) (s : State) :
  quiet s (advanced acc k s)
  /\ sameBalance s (advanced acc k s)
  /\ finalised (getAccount acc (advanced acc k s)) = finalised (getAccount acc s)
  /\ ((k =? nonce (getAccount acc s)) && pending (getAccount acc s) = true ->
      k = nonce (getAccount acc s)
      /\ nonce (getAccount acc (advanced acc k s)) = k + 1
      /\ pending (getAccount acc (advanced acc k s)) = false)
  /\ ((k =? nonce (getAccount acc s)) && pending (getAccount acc s) = false ->
      advanced acc k s = s).
Proof.
  unfold advanced. destruct ((k =? nonce (getAccount acc s)) && pending (getAccount acc s)) eqn:E.
  - split; [apply quiet_updateAccount|].
    split; [apply sameBalance_updateAccount; reflexivity|].
    rewrite getAccount_updateAccount_eq. simpl. split; [reflexivity|].
    split; [|discriminate]. intros _. apply andb_true_iff in E as [E _].
    apply Z.eqb_eq in E. auto.
  - split; [apply quiet_refl|]. split; [apply sameBalance_refl|]. split; [reflexivity|].
    split; [discriminate|reflexivity].
Qed.

(** "Handle current nonce" of validator-core.ts with a notarisation quorum. *)
Lemma core_handleCurrentNonce_notarised (cfg : Config) (rec : Vote -> M unit)
    (acc account : address) (k q : Z) (votes : list Vote) (s : State) :
  NOTARISATION_QUORUM cfg <= q ->
  ValidatorCore.handleCurrentNonce cfg rec acc account k q votes s = (Ok tt, advanced acc k s).
Proof.
  intros Hq. unfold ValidatorCore.handleCurrentNonce, advanced. rewrite bind_gets.
  destruct (k =? nonce (getAccount acc s)); [|reflexivity].
  destruct (Z.ltb_spec q (NOTARISATION_QUORUM cfg)); [lia|].
  destruct (pending (getAccount acc s)); reflexivity.
Qed.

Lemma reentry_handleCurrentNonce_advanced (cfg : Config) (rec : Vote -> M unit)
    (account : address) (k q : Z) (votes : list Vote) (s : State) :
  NOTARISATION_QUORUM cfg <= q ->
  snd (ValidatorCoreReentry.handleCurrentNonce cfg rec account k q votes s) = advanced account k s.
Proof.
  intros Hq. rewrite handleCurrentNonce_notarised by exact Hq. unfold advanced.
  destruct (_ && _); reflexivity.
Qed.

Lemma closes_finaliseAt (acc : address) (k : Z) (s sB : State) :
  nonce (getAccount acc sB) = nonce (getAccount acc (advanced acc k s)) ->
  pending (getAccount acc sB) = pending (getAccount acc (advanced acc k s)) ->
  closes acc k s (finaliseAt acc k sB).
Proof.
  intros Hn Hp. destruct (advanced_facts acc k s) as (_ & _ & _ & Hadv & Hsame).
  destruct (finalise_effect acc k sB) as (_ & _ & E3 & E4). fold (finaliseAt acc k sB) in *.
  destruct ((k =? nonce (getAccount acc s)) && pending (getAccount acc s)) eqn:E.
  - destruct (Hadv eq_refl) as (Hk & Hn1 & Hp1). rewrite Hn1 in Hn. rewrite Hp1 in Hp.
    split; [intros _|intros; lia]. destruct E4 as [-> ->]; [lia|]. rewrite Hn, Hp. auto.
  - rewrite (Hsame eq_refl) in Hn, Hp. rewrite Hn, Hp in *. split; assumption.
Qed.

(** The two blocks of a pass, run on votes that give a finality quorum. *)
Lemma finality_blocks (cfg : Config) (acc : address) (k q : Z) (t orig : Transaction)
    (s : State) :
  FINALITY_QUORUM cfg <= q ->
  finalised (getAccount acc s) < k ->
  getTxChainStart t = Ok orig ->
  finalityOutcome
    (fun s2 => ValidatorCore.handleFinality cfg acc k q (Some t) (advanced acc k s) = (Ok tt, s2))
    acc k orig s.
Proof.
  intros Hq Hk Horig.
  destruct (advanced_facts acc k s) as (Hq1 & Hb1 & Hf1 & _).
  set (s1 := advanced acc k s) in *.
  pose proof (handleFinality_run cfg acc k q t orig s1 Hq) as Hrun.
  rewrite Hf1 in Hrun. specialize (Hrun Hk Horig).
  unfold finalityOutcome. cbv zeta.
  split; [|split].
  - intros E sender recipient Hfrom Hto.
    destruct (Z.eqb_spec (Z.of_N (tx_nonce orig)) (finalised (getAccount acc s) + 1));
      [|contradiction].
    pose proof (executeTransfer_balance orig sender recipient s1) as Hbal.
    pose proof (sameControl_executeTransfer orig s1) as Hctl.
    pose proof (quiet_executeTransfer orig s1) as Hqt.
    rewrite (executeTransfer_effect orig sender recipient s1 Hfrom Hto) in *.
    cbn [snd] in Hbal, Hctl, Hqt.
    set (sB := updateAccount recipient _ _) in *. clearbody sB.
    exists (finaliseAt acc k sB). split; [exact Hrun|].
    split; [eapply quiet_trans; [exact Hq1|]; eapply quiet_trans;
              [exact Hqt|apply quiet_finaliseAt]|].
    destruct (finalise_effect acc k sB) as (E1 & E2 & _). fold (finaliseAt acc k sB) in *.
    split; [exact E1|]. split.
    + intros a. rewrite E2, Hbal by assumption. rewrite Hb1. reflexivity.
    + destruct (Hctl acc) as (Hn & Hp & _). apply closes_finaliseAt; assumption.
  - intros E.
    destruct (Z.eqb_spec (Z.of_N (tx_nonce orig)) (finalised (getAccount acc s) + 1)); [lia|].
    destruct (Z.eqb_spec (Z.of_N (tx_nonce orig)) (finalised (getAccount acc s)));
      [|contradiction].
    exists (finaliseAt acc k s1). split; [exact Hrun|].
    split; [eapply quiet_trans; [exact Hq1|apply quiet_finaliseAt]|].
    destruct (finalise_effect acc k s1) as (E1 & E2 & _). fold (finaliseAt acc k s1) in *.
    split; [exact E1|]. split.
    + intros a. rewrite E2. apply Hb1.
    + apply closes_finaliseAt; reflexivity.
  - intros E1 E2.
    destruct (Z.eqb_spec (Z.of_N (tx_nonce orig)) (finalised (getAccount acc s) + 1));
      [contradiction|].
    destruct (Z.eqb_spec (Z.of_N (tx_nonce orig)) (finalised (getAccount acc s)));
      [contradiction|].
    exact Hrun.
Qed.

Lemma finalityOutcome_impl (P Q : State -> Prop) (acc : address) (k : Z) (orig : Transaction)
    (s : State) :
  (forall s2, nonce (getAccount acc s) <= nonce (getAccount acc s2) -> P s2 -> Q s2) ->
  finalityOutcome P acc k orig s -> finalityOutcome Q acc k orig s.
Proof.
  intros HPQ (H1 & H2 & H3).
  assert (Hmono : forall s2, closes acc k s s2 ->
                    nonce (getAccount acc s) <= nonce (getAccount acc s2)).
  { intros s2 [Ha Hb].
    destruct (Z.le_gt_cases (nonce (getAccount acc s)) k) as [Hle|Hgt].
    - destruct (Ha Hle) as [-> _]. lia.
    - destruct (Hb Hgt) as [-> _]. lia. }
  split; [|split].
  - intros E sender recipient Hf Ht.
    destruct (H1 E sender recipient Hf Ht) as (s2 & Hp & Hrest).
    exists s2. split; [apply HPQ; [apply Hmono; apply Hrest|exact Hp]|exact Hrest].
  - intros E. destruct (H2 E) as (s2 & Hp & Hrest).
    exists s2. split; [apply HPQ; [apply Hmono; apply Hrest|exact Hp]|exact Hrest].
  - intros E1 E2. apply HPQ; [|apply H3; assumption].
    destruct (advanced_facts acc k s) as (_ & _ & _ & Hadv & Hsame).
    destruct ((k =? nonce (getAccount acc s)) && pending (getAccount acc s)) eqn:E.
    + destruct (Hadv eq_refl) as (Hk & -> & _). lia.
    + rewrite (Hsame eq_refl). lia.
Qed.

(** [processCertificate] of validator-core.ts on votes that give a finality
    quorum. *)
Lemma core_processCertificate_finality (cfg : Config) (fuel : nat) (acc : address)
    (votes : list Vote) (first : Vote) (s : State) (t orig : Transaction) :
  validParams cfg ->
  head votes = Some first ->
  FINALITY_QUORUM cfg <= quorum (getMaxQuorumCert votes 1) ->
  tx (getMaxQuorumCert votes 1) = Some t ->
  finalised (getAccount acc s) < voteNonce first ->
  getTxChainStart t = Ok orig ->
  finalityOutcome
    (fun s2 => ValidatorCore.processCertificate cfg fuel acc votes s = (Ok tt, s2))
    acc (voteNonce first) orig s.
Proof.
  intros Hcfg Hhead Hq Ht Hk Horig. pose proof (quorums_ordered cfg Hcfg) as Hord.
  eapply finalityOutcome_impl;
    [|apply (finality_blocks cfg acc (voteNonce first) _ t orig s Hq Hk Horig)].
  intros s2 _ Hrun. rewrite (processCertificate_head cfg fuel acc votes first s Hhead).
  cbv zeta. rewrite core_handleCurrentNonce_notarised by lia. rewrite Ht. exact Hrun.
Qed.

(** [processCertificate] of the later revision on votes that give a finality
    quorum: after the same writes it goes on at the new nonce if the nonce
    has moved. *)
Lemma reentry_processCertificate_finality (cfg : Config) (fuel : nat) (account : address)
    (k : Z) (s : State) (t orig : Transaction) :
  validParams cfg ->
  FINALITY_QUORUM cfg <= quorum (getMaxQuorumCert (getVotes account k s) 1) ->
  tx (getMaxQuorumCert (getVotes account k s) 1) = Some t ->
  finalised (getAccount account s) < k ->
  getTxChainStart t = Ok orig ->
  finalityOutcome
    (fun s2 =>
       ValidatorCoreReentry.processCertificate cfg (S fuel) account k s
       = if nonce (getAccount account s) <? nonce (getAccount account s2)
         then ValidatorCoreReentry.processCertificate cfg fuel account
                (nonce (getAccount account s2)) s2
         else (Ok tt, s2))
    account k orig s.
Proof.
  intros Hcfg Hq Ht Hk Horig. pose proof (quorums_ordered cfg Hcfg) as Hord.
  eapply finalityOutcome_impl;
    [|apply (finality_blocks cfg account k _ t orig s Hq Hk Horig)].
  intros s2 Hmono Hrun.
  assert (Hnq : NOTARISATION_QUORUM cfg <= quorum (getMaxQuorumCert (getVotes account k s) 1))
    by lia.
  pose proof (pass_reenters cfg fuel account k s Hnq) as Hpass. cbv zeta in Hpass.
  rewrite reentry_handleCurrentNonce_advanced in Hpass by exact Hnq.
  rewrite Ht in Hpass.
  pose proof (handleFinality_same_state cfg account k
                (quorum (getMaxQuorumCert (getVotes account k s) 1)) (Some t)
                (advanced account k s)) as Hsame.
  rewrite Hrun in Hsame. cbn [snd] in Hsame.
  destruct Hpass as (_ & _ & Hthrow & Hok). rewrite Hsame in Hthrow, Hok.
  destruct (fst (ValidatorCoreReentry.handleFinality cfg account k
                   (quorum (getMaxQuorumCert (getVotes account k s) 1)) (Some t)
                   (advanced account k s))) as [b|e] eqn:Hfst.
  - destruct (Hok b eq_refl) as [Hadv Hstay].
    destruct (Z.ltb_spec (nonce (getAccount account s)) (nonce (getAccount account s2)));
      [apply Hadv; assumption|apply Hstay; lia].
  - exfalso. revert Hfst. rewrite (surjective_pairing (ValidatorCoreReentry.handleFinality _ _ _ _ _ _)).
    clear -Hrun. unfold ValidatorCoreReentry.handleFinality, ValidatorCore.handleFinality in *.
    revert Hrun. rewrite !bind_gets.
    destruct (_ && _); [|discriminate].
    rewrite !bind_liftResult. destruct (getTxChainStart t) as [o|e0]; [|discriminate].
    destruct (_ || _); [|discriminate].
    rewrite !bind_run.
    destruct ((if _ =? _ then executeTransfer o else ret tt) (advanced account k s))
      as [[[]|e1] s1]; [|discriminate].
    intros _. rewrite bind_modify, bind_gets. destruct (_ >=? _); discriminate.
Qed.

Lemma quorum_le_length (votes : list Vote) :
  quorum (getMaxQuorumCert votes 1) <= Z.of_nat (length votes).
Proof.
  destruct (getMaxQuorumCert_spec votes) as [_ [(-> & -> & _)|(v & _ & -> & _)]];
    [simpl; lia|].
  unfold countQuorum. etransitivity; [apply distinctValidators_le_length|].
  apply inj_le, length_filter.
Qed.

(** C1, as the specification states it, fails in two ways. In the later
    revision, validator [0xa1] has advanced alice to nonce 1 on a
    notarisation and voted for her recovery transaction there; the fifth vote
    for the payment at nonce 0 then gives a finality quorum at nonce 0, above
    [finalised = -1]: the transfer is applied and [finalised] becomes 0, but
    [pending] stays set. In validator-core.ts the processor runs only when a
    vote is stored at the current nonce: with alice at nonce 1 and
    [finalised = 0], the five votes stored at nonce 1 give a finality quorum
    for her payment of nonce 1, and the call that brought her there has
    returned, yet the payment is not executed and [finalised] stays 0. *)
Lemma finality_rule_fails_as_stated :
  (let s := ReentryScenario.pendingAt1 in
   let r := ValidatorCoreReentry.onVote Fixture.me 5 ReentryScenario.fifth s in
   let s' := snd r in
   fst r = Ok tt
   /\ quorum (getMaxQuorumCert (getVotes Fixture.alice 0 s') 1) = FINALITY_QUORUM Fixture.me
   /\ tx (getMaxQuorumCert (getVotes Fixture.alice 0 s') 1) = Some ReentryScenario.pay0
   /\ finalised (getAccount Fixture.alice s) = -1
   /\ finalised (getAccount Fixture.alice s') = 0
   /\ balance (getAccount Fixture.alice s') = balance (getAccount Fixture.alice s) - 100
   /\ nonce (getAccount Fixture.alice s') = 1
   /\ pending (getAccount Fixture.alice s') = true)
  /\ (let s := ValidatorCore.run Fixture.me 3
                 (EarlyVotesScenario.calls ++ [CallVote EarlyVotesScenario.fifth])
                 (genesis [(Fixture.alice, 1000)]) in
      quorum (getMaxQuorumCert (getVotes Fixture.alice 1 s) 1) = FINALITY_QUORUM Fixture.me
      /\ tx (getMaxQuorumCert (getVotes Fixture.alice 1 s) 1) = Some EarlyVotesScenario.pay1
      /\ getTxChainStart EarlyVotesScenario.pay1 = Ok EarlyVotesScenario.pay1
      /\ Z.of_N (tx_nonce EarlyVotesScenario.pay1) = finalised (getAccount Fixture.alice s) + 1
      /\ finalised (getAccount Fixture.alice s) = 0
      /\ balance (getAccount Fixture.alice s) = 900).
Proof. vm_compute. repeat split; reflexivity. Qed.

(** C1, amended (R3, finality execute). Under n >= 5f+1 and f >= 0, whenever
    the certificate processor runs on the votes stored at a nonce, these
    votes give a maximum per-payload quorum of at least [n - f] for a
    payload with a transaction, the nonce is above [account.finalised], and
    [orig] is the chain start of that transaction: if
    [orig.nonce = finalised + 1] the transfer is applied (the sender's
    balance goes down and the recipient's up by the amount, which cancels
    when they are the same account) and [finalised] is set to the nonce; if
    [orig.nonce = finalised], [finalised] is set to the nonce and no balance
    changes; for any other [orig.nonce] the finality rule changes nothing
    and nothing is thrown (the state is the one "Handle current nonce" has
    left). When [finalised] was set to the nonce: an account nonce not above
    it has become [nonce + 1] with [pending] cleared; an account nonce
    already above it has stayed, and so has [pending].
    The processor runs, in validator-core.ts, when [onVote] stores a vote at
    the account's current nonce (first and second part); in the later
    revision, with the verification of votes on, when [onVote] stores a vote
    at any nonce, and the pass goes on at the new nonce if the nonce has
    moved (third and fourth part). *)
Theorem finality_execute (cfg : Config) (fuel : nat) :
  validParams cfg ->
  (forall acc votes first s t orig,
     head votes = Some first ->
     FINALITY_QUORUM cfg <= quorum (getMaxQuorumCert votes 1) ->
     tx (getMaxQuorumCert votes 1) = Some t ->
     finalised (getAccount acc s) < voteNonce first ->
     getTxChainStart t = Ok orig ->
     finalityOutcome
       (fun s2 => ValidatorCore.processCertificate cfg fuel acc votes s = (Ok tt, s2))
       acc (voteNonce first) orig s)
  /\ (forall vote s t orig,
        let normalized := toLowerCase (account vote) in
        let k := voteNonce vote in
        let votes := storedVotes normalized k s ++ [vote] in
        verifyVote vote (validatorSet cfg) = true ->
        storeKeyed s ->
        ValidatorCore.alreadyVoted vote (storedVotes normalized k s) = false ->
        k = nonce (getAccount normalized s) ->
        FINALITY_QUORUM cfg <= quorum (getMaxQuorumCert votes 1) ->
        tx (getMaxQuorumCert votes 1) = Some t ->
        finalised (getAccount normalized s) < k ->
        getTxChainStart t = Ok orig ->
        finalityOutcome
          (fun s2 => ValidatorCore.onVote cfg (S fuel) vote s = (Ok tt, s2))
          normalized k orig (pushVote normalized k vote s))
  /\ (forall account k s t orig,
        skipVerification cfg = false ->
        FINALITY_QUORUM cfg <= quorum (getMaxQuorumCert (getVotes account k s) 1) ->
        tx (getMaxQuorumCert (getVotes account k s) 1) = Some t ->
        finalised (getAccount account s) < k ->
        getTxChainStart t = Ok orig ->
        finalityOutcome
          (fun s2 =>
             ValidatorCoreReentry.processCertificate cfg (S fuel) account k s
             = if nonce (getAccount account s) <? nonce (getAccount account s2)
               then ValidatorCoreReentry.processCertificate cfg fuel account
                      (nonce (getAccount account s2)) s2
               else (Ok tt, s2))
          account k orig s)
  /\ (forall vote s t orig,
        let a := account vote in
        let k := voteNonce vote in
        let s0 := pushVote (toLowerCase a) k vote s in
        skipVerification cfg = false ->
        verifyVote vote (validatorSet cfg) = true ->
        ValidatorCore.alreadyVoted vote (getVotes a k s) = false ->
        FINALITY_QUORUM cfg <= quorum (getMaxQuorumCert (getVotes a k s0) 1) ->
        tx (getMaxQuorumCert (getVotes a k s0) 1) = Some t ->
        finalised (getAccount a s) < k ->
        getTxChainStart t = Ok orig ->
        finalityOutcome
          (fun s2 =>
             ValidatorCoreReentry.onVote cfg (S fuel) vote s
             = if nonce (getAccount a s) <? nonce (getAccount a s2)
               then ValidatorCoreReentry.processCertificate cfg fuel a
                      (nonce (getAccount a s2)) s2
               else (Ok tt, s2))
          a k orig s0).
Proof.
  intros Hcfg. split; [|split; [|split]].
  - intros acc votes first s t orig. apply core_processCertificate_finality. exact Hcfg.
  - intros vote s t orig normalized k votes Hver Hkeyed Hnew Hcur Hq Ht Hk Horig.
    set (s0 := pushVote normalized k vote s).
    assert (Hfirst : exists first, head votes = Some first /\ voteNonce first = k).
    { subst votes. destruct (storedVotes normalized k s) as [|x l] eqn:E; simpl.
      - exists vote. auto.
      - exists x. split; [reflexivity|]. apply (Hkeyed normalized k x). rewrite E. left. }
    destruct Hfirst as (first & Hhead & Hfk).
    pose proof (core_processCertificate_finality cfg fuel normalized votes first s0 t orig
                  Hcfg Hhead Hq Ht) as H.
    rewrite Hfk in H. specialize (H Hk Horig).
    eapply finalityOutcome_impl; [|exact H].
    intros s2 _ Hrun.
    rewrite (onVote_pushed cfg fuel vote s Hver Hnew). fold normalized k votes s0.
    rewrite <- Hcur, Z.eqb_refl.
    pose proof (quorum_le_length votes) as Hlen.
    destruct (Z.geb_spec (Z.of_nat (length votes)) (FINALITY_QUORUM cfg)); [|lia].
    exact Hrun.
  - intros account k s t orig _. apply reentry_processCertificate_finality. exact Hcfg.
  - intros vote s t orig a k s0 _ Hver Hnew Hq Ht Hk Horig.
    pose proof (reentry_processCertificate_finality cfg fuel a k s0 t orig Hcfg Hq Ht Hk Horig)
      as H.
    eapply finalityOutcome_impl; [|exact H].
    intros s2 _ Hrun.
    rewrite (reentry_onVote_stored cfg (S fuel) vote s (or_intror Hver) Hnew).
    exact Hrun.
Qed.

Lemma finality_execute_witness :
  exists s2,
    ValidatorCore.onVote Fixture.me 2 (Fixture.voteOf "0xa6" 0 (Some TransferScenario.pay))
      TransferScenario.fourVotes = (Ok tt, s2)
    /\ finalised (getAccount Fixture.alice s2) = 0
    /\ nonce (getAccount Fixture.alice s2) = 1
    /\ balance (getAccount Fixture.bob s2) = 100.
Proof.
  assert (Hcfg : validParams Fixture.me) by (split; vm_compute; discriminate).
  destruct (finality_execute Fixture.me 1 Hcfg) as (_ & Hvote & _).
  pose proof (Hvote (Fixture.voteOf "0xa6" 0 (Some TransferScenario.pay))
                TransferScenario.fourVotes TransferScenario.pay TransferScenario.pay) as H.
  cbv zeta in H.
  assert (Hkeyed : storeKeyed TransferScenario.fourVotes)
    by (unfold TransferScenario.fourVotes; apply storeKeyed_run, storeKeyed_genesis).
  assert (Hver : verifyVote (Fixture.voteOf "0xa6" 0 (Some TransferScenario.pay))
                   (validatorSet Fixture.me) = true) by (vm_compute; reflexivity).
  specialize (H Hver Hkeyed).
  repeat match type of H with
         | ?P -> _ =>
             let h := fresh in
             assert (h : P) by (vm_compute; first [reflexivity|discriminate]);
             specialize (H h); clear h
         end.
  destruct H as (H1 & _).
  destruct (H1 eq_refl Fixture.alice Fixture.bob eq_refl eq_refl)
    as (s2 & Hrun & _ & Hfin & Hbal & Hclose & _).
  exists s2. split; [exact Hrun|]. split; [exact Hfin|]. split.
  - apply Hclose. vm_compute. discriminate.
  - rewrite Hbal. vm_compute. reflexivity.
Defined.

(** * Further properties of the code *)

(** ** Quorum counting *)

Lemma remove_dups_fmap_length {A B} `{EqDecision A} `{EqDecision B} (f : A -> B) (l : list A) :
  (length (remove_dups (f <$> l)) <= length (remove_dups l))%nat.
Proof.
  rewrite <- (length_fmap f (remove_dups l)). apply submseteq_length.
  apply NoDup_submseteq; [apply NoDup_remove_dups|].
  intros y Hy. rewrite elem_of_remove_dups in Hy. apply list_elem_of_fmap in Hy as (x & -> & Hx).
  apply list_elem_of_fmap_2. rewrite elem_of_remove_dups. exact Hx.
Qed.

Lemma distinctSigners_le (votes : list Vote) : distinctSigners votes <= distinctValidators votes.
Proof.
  unfold distinctSigners, distinctValidators.
  pose proof (remove_dups_fmap_length toLowerCase (validator <$> votes)) as H.
  rewrite <- list_fmap_compose in H. apply inj_le. exact H.
Qed.

Lemma distinctSigners_normalised (votes : list Vote) :
  Forall (fun v => toLowerCase (validator v) = validator v) votes ->
  distinctSigners votes = distinctValidators votes.
Proof.
  intros H. unfold distinctSigners, distinctValidators. do 3 f_equal.
  apply Forall_fmap_ext_1. exact H.
Qed.

Lemma distinctSigners_snoc (votes : list Vote) (v : Vote) :
  distinctSigners (votes ++ [v])
  = if decide (toLowerCase (validator v)
               ∈ ((fun w => toLowerCase (validator w)) <$> votes : list address))
    then distinctSigners votes else distinctSigners votes + 1.
Proof.
  unfold distinctSigners. rewrite fmap_app. simpl.
  rewrite remove_dups_snoc_length. destruct (decide _); lia.
Qed.

(** X1 ([countQuorum] of common.ts). [countQuorum] counts validator strings,
    not validators. The count of a payload lies between the number of
    validators behind its votes (strings compared without letter case, as
    [verifyVote] does) and the number of votes, and equals the number of
    validators when every validator string is in lower case. Appending a vote
    raises the count of its own payload by one when its validator string has
    no vote for that payload yet, also when the same validator already has
    one under a string that differs in letter case; a further vote under a
    string already counted, and a vote for another payload, leave the count
    as it is. Appending votes never lowers a count. *)
Theorem countQuorum_counts_validator_strings (votes more : list Vote) (v : Vote)
    (h : option Transaction) :
  let matching := filter (fun w => voteTxHash w = h) in
  (distinctSigners (matching votes) <= countQuorum votes h <= Z.of_nat (length votes))
  /\ (Forall (fun w => toLowerCase (validator w) = validator w) votes ->
      countQuorum votes h = distinctSigners (matching votes))
  /\ (voteTxHash v <> h -> countQuorum (votes ++ [v]) h = countQuorum votes h)
  /\ ((exists w, w ∈ votes /\ voteTxHash w = h /\ validator w = validator v) ->
      countQuorum (votes ++ [v]) h = countQuorum votes h)
  /\ (voteTxHash v = h ->
      (forall w, w ∈ votes -> voteTxHash w = h -> validator w <> validator v) ->
      countQuorum (votes ++ [v]) h = countQuorum votes h + 1
      /\ ((exists w, w ∈ votes /\ voteTxHash w = h
                     /\ toLowerCase (validator w) = toLowerCase (validator v)) ->
          distinctSigners (matching (votes ++ [v])) = distinctSigners (matching votes)))
  /\ countQuorum votes h <= countQuorum (votes ++ more) h.
Proof.
  intros matching. split; [|split; [|split; [|split; [|split]]]].
  - split; [apply distinctSigners_le|].
    unfold countQuorum. etransitivity; [apply distinctValidators_le_length|].
    apply inj_le, length_filter.
  - intros Hlow. unfold countQuorum. symmetry. apply distinctSigners_normalised.
    apply Forall_forall. intros w Hw. apply list_elem_of_filter in Hw as [_ Hw].
    rewrite Forall_forall in Hlow. apply Hlow. exact Hw.
  - intros Hne. rewrite countQuorum_snoc. apply decide_False. tauto.
  - intros (w & Hw & Hh & Hv). rewrite countQuorum_snoc. apply decide_False.
    intros [_ Hnot]. apply Hnot. rewrite <- Hv.
    apply list_elem_of_fmap_2. apply list_elem_of_filter. split; assumption.
  - intros Hh Hfresh. split.
    + rewrite countQuorum_snoc. apply decide_True. split; [exact Hh|].
      intros Hin. apply list_elem_of_fmap in Hin as (w & Hv & Hw).
      apply list_elem_of_filter in Hw as [Hwh Hw]. apply (Hfresh w Hw Hwh). congruence.
    + intros (w & Hw & Hwh & Hlow). unfold matching.
      rewrite filter_app, filter_cons, filter_nil, decide_True by exact Hh.
      rewrite distinctSigners_snoc. apply decide_True. rewrite <- Hlow.
      apply (list_elem_of_fmap_2 (fun w0 => toLowerCase (validator w0))).
      apply list_elem_of_filter. split; assumption.
  - apply countQuorum_app_le.
Qed.

Lemma countQuorum_counts_validator_strings_witness :
  let votes := [Fixture.voteOf "0xa2" 0 (Some Scenario.pay0)] in
  let again := SpellingScenario.respell "0xA2" (Fixture.voteOf "0xa2" 0 (Some Scenario.pay0)) in
  countQuorum (votes ++ [again]) (Some Scenario.pay0) = countQuorum votes (Some Scenario.pay0) + 1
  /\ distinctSigners (filter (fun w => voteTxHash w = Some Scenario.pay0) (votes ++ [again]))
     = distinctSigners (filter (fun w => voteTxHash w = Some Scenario.pay0) votes).
Proof.
  intros votes again.
  pose proof (countQuorum_counts_validator_strings votes [] again (Some Scenario.pay0)) as H.
  cbv zeta in H. destruct H as (_ & _ & _ & _ & H & _).
  assert (Hh : voteTxHash again = Some Scenario.pay0) by reflexivity.
  assert (Hfresh : forall w, w ∈ votes -> voteTxHash w = Some Scenario.pay0 ->
                             validator w <> validator again).
  { intros w Hw _. apply list_elem_of_singleton in Hw. subst w. vm_compute. discriminate. }
  destruct (H Hh Hfresh) as [H1 H2]. split; [exact H1|]. apply H2.
  exists (Fixture.voteOf "0xa2" 0 (Some Scenario.pay0)).
  split; [left|]. split; reflexivity.
Defined.

Lemma distinctValidators_pos (votes : list Vote) : votes <> [] -> 1 <= distinctValidators votes.
Proof.
  destruct votes as [|w g]; [congruence|]. intros _. unfold distinctValidators.
  destruct (remove_dups (validator <$> w :: g)) eqn:E; [|simpl; lia].
  assert (H : validator w ∈ remove_dups (validator <$> w :: g))
    by (apply elem_of_remove_dups; simpl; left).
  rewrite E in H. inversion H.
Qed.

(** The loop of [getMaxQuorumCert] over the groups of [votesByTx]: the
    largest count, with the votes of the first payload that has it. *)
Lemma maxQuorum_spec (votes : list Vote) :
  let '(q, t, vs) := fold_left maxStep (votesByTx votes) (0, None, []) in
  (forall key, countQuorum votes key <= q)
  /\ q = distinctValidators vs
  /\ ((votes = [] /\ q = 0 /\ t = None /\ vs = [])
      \/ exists key, vs = filter (fun v => voteTxHash v = key) votes /\ vs <> []
                     /\ 1 <= q /\ q = countQuorum votes key /\ t = head vs ≫= voteTx).
Proof.
  pose proof (maxStep_fold (votesByTx votes) 0 None []) as H.
  destruct (votesByTx_spec votes) as (Hnd & Hgroups & Hkeys).
  destruct (fold_left maxStep (votesByTx votes) (0, None, [])) as [[q t] vs].
  destruct H as (Hq & Hall & Hsrc).
  assert (Hbound : forall key, countQuorum votes key <= q).
  { intros key. unfold countQuorum.
    destruct (decide (key ∈ (fst <$> votesByTx votes))) as [Hin|Hout].
    - apply list_elem_of_fmap in Hin as ([k vs'] & -> & Hin). simpl.
      destruct (Hgroups _ _ Hin) as [E _]. rewrite <- E. apply (Hall _ Hin).
    - rewrite (filter_nil_iff (fun v => voteTxHash v = key) votes); [exact Hq|].
      intros x Hx Hk. apply Hout. rewrite <- Hk. apply Hkeys. exact Hx. }
  split; [exact Hbound|].
  destruct Hsrc as [[= -> -> ->]|([k g] & Hg & -> & -> & ->)]; simpl.
  - split; [reflexivity|]. left.
    destruct votes as [|v votes]; [auto|]. exfalso.
    assert (Hv : voteTxHash v ∈ (fst <$> votesByTx (v :: votes))) by (apply Hkeys; left).
    apply list_elem_of_fmap in Hv as ([k' vs'] & _ & Hin).
    destruct (Hgroups _ _ Hin) as [_ Hne]. specialize (Hall _ Hin). simpl in Hall.
    pose proof (distinctValidators_pos vs' Hne). lia.
  - split; [reflexivity|]. right. destruct (Hgroups _ _ Hg) as [Hfil Hne].
    exists k. split; [exact Hfil|]. split; [exact Hne|].
    split; [apply distinctValidators_pos; exact Hne|].
    split; [unfold countQuorum; rewrite <- Hfil; reflexivity|reflexivity].
Qed.

Lemma getMaxQuorumCert_None (votes : list Vote) (minQuorum : Z) :
  cert (getMaxQuorumCert votes minQuorum) = None ->
  forall payload, countQuorum votes payload < minQuorum.
Proof.
  unfold getMaxQuorumCert. pose proof (maxQuorum_spec votes) as H.
  destruct (fold_left maxStep (votesByTx votes) (0, None, [])) as [[q t] vs].
  destruct H as (Hbound & _).
  destruct (Z.geb_spec q minQuorum) as [Hge|Hlt]; simpl; [discriminate|].
  intros _ payload. specialize (Hbound payload). lia.
Qed.

Lemma getMaxQuorumCert_Some (votes vs : list Vote) (minQuorum : Z) :
  1 <= minQuorum ->
  cert (getMaxQuorumCert votes minQuorum) = Some vs ->
  exists key,
    vs = filter (fun v => voteTxHash v = key) votes
    /\ tx (getMaxQuorumCert votes minQuorum) = head vs ≫= voteTx
    /\ quorum (getMaxQuorumCert votes minQuorum) = distinctValidators vs
    /\ distinctValidators vs = countQuorum votes key
    /\ minQuorum <= distinctValidators vs
    /\ forall other, countQuorum votes other <= distinctValidators vs.
Proof.
  intros Hmin. unfold getMaxQuorumCert. pose proof (maxQuorum_spec votes) as H.
  destruct (fold_left maxStep (votesByTx votes) (0, None, [])) as [[q t] vs'].
  destruct H as (Hbound & Hq & Hsrc).
  destruct (Z.geb_spec q minQuorum) as [Hge|Hlt]; simpl; [|discriminate].
  intros [= ->].
  destruct Hsrc as [(_ & Hq0 & _)|(key & Hfil & Hne & Hpos & Hcount & Ht)]; [lia|].
  exists key. split; [exact Hfil|]. split; [exact Ht|]. split; [exact Hq|].
  split; [congruence|]. split; [lia|]. intros other. rewrite <- Hq. apply Hbound.
Qed.

(** X2 ([getMaxQuorumCert] of validator-core.ts). With [minQuorum >= 1]:
    when a certificate is returned, its votes are all the given votes of one
    payload (in their order, at least one), [tx] is the transaction of the
    first of them, and [quorum] is the number of distinct validator strings
    among them (letter case included, so it is at least, and can exceed, the
    number of validators behind them), which is [countQuorum] of that
    payload, reaches [minQuorum] and is not exceeded by the count of any
    payload. When no certificate is returned, [quorum] is 0, [tx] is null and
    every payload counts less than [minQuorum]. *)
Theorem getMaxQuorumCert_certificate (votes : list Vote) (minQuorum : Z) :
  1 <= minQuorum ->
  let c := getMaxQuorumCert votes minQuorum in
  match cert c with
  | Some vs =>
      exists key,
        vs = filter (fun v => voteTxHash v = key) votes
        /\ vs <> []
        /\ tx c = head vs ≫= voteTx
        /\ quorum c = distinctValidators vs
        /\ distinctSigners vs <= quorum c
        /\ quorum c = countQuorum votes key
        /\ minQuorum <= quorum c
        /\ forall other, countQuorum votes other <= quorum c
  | None =>
      quorum c = 0 /\ tx c = None /\ forall key, countQuorum votes key < minQuorum
  end.
Proof.
  intros Hmin. unfold getMaxQuorumCert.
  pose proof (maxQuorum_spec votes) as H.
  destruct (fold_left maxStep (votesByTx votes) (0, None, [])) as [[q t] vs].
  destruct H as (Hbound & Hq & Hsrc).
  destruct (Z.geb_spec q minQuorum) as [Hge|Hlt]; simpl.
  - destruct Hsrc as [(_ & Hq0 & _)|(key & Hfil & Hne & Hpos & Hcount & Ht)]; [lia|].
    exists key. split; [exact Hfil|]. split; [exact Hne|]. split; [exact Ht|].
    split; [exact Hq|]. split; [rewrite Hq; apply distinctSigners_le|].
    split; [exact Hcount|]. split; [exact Hge|exact Hbound].
  - split; [reflexivity|]. split; [reflexivity|].
    intros key. specialize (Hbound key). lia.
Qed.

Lemma getMaxQuorumCert_certificate_witness :
  cert (getMaxQuorumCert OverdraftScenario.votes 3) <> None.
Proof.
  pose proof (getMaxQuorumCert_certificate OverdraftScenario.votes 3) as H.
  assert (H3 : 1 <= 3) by lia. specialize (H H3). cbv zeta in H.
  destruct (cert (getMaxQuorumCert OverdraftScenario.votes 3)) eqn:E; [discriminate|].
  destruct H as (_ & _ & H). specialize (H (Some OverdraftScenario.pay)).
  vm_compute in H. discriminate H.
Defined.

(** ** Delivering a vote again *)

(** X4 ([onVote] of validator-core.ts). Delivering a vote a second time
    changes nothing: after a first delivery (whatever it did, and even if
    processing it threw), a further delivery of the same vote leaves the
    whole state as it is; it returns normally when the vote verifies and
    throws the verification error otherwise. *)
Theorem onVote_redelivery_changes_nothing (cfg : Config) (fuel fuel' : nat) (vote : Vote)
    (s : State) :
  let s1 := snd (ValidatorCore.onVote cfg (S fuel) vote s) in
  ValidatorCore.onVote cfg (S fuel') vote s1
  = (if verifyVote vote (validatorSet cfg) then Ok tt else Throw InvalidVote, s1).
Proof.
  intros s1. destruct (verifyVote vote (validatorSet cfg)) eqn:Hver.
  - pose proof (onVote_store cfg fuel vote s Hver) as H1. cbv zeta in H1.
    pose proof (onVote_store cfg fuel' vote s1 Hver) as H2. cbv zeta in H2.
    destruct (ValidatorCore.alreadyVoted vote (getVotes (account vote) (voteNonce vote) s))
      eqn:Hdup.
    + assert (E : s1 = s) by (subst s1; rewrite H1; reflexivity).
      rewrite E in *. rewrite Hdup in H2. exact H2.
    + fold s1 in H1.
      assert (Hin : vote ∈ getVotes (account vote) (voteNonce vote) s1).
      { eapply elem_of_prefix; [|exact H1]. apply elem_of_app. right. left. }
      assert (Hnow : ValidatorCore.alreadyVoted vote
                       (getVotes (account vote) (voteNonce vote) s1) = true).
      { apply alreadyVoted_true. destruct (serializedTx vote) eqn:Htx.
        - exists vote. auto.
        - exists vote. auto. }
      rewrite Hnow in H2. exact H2.
  - assert (Hthrow : forall f s0, ValidatorCore.onVote cfg (S f) vote s0 = (Throw InvalidVote, s0)).
    { intros f s0. simpl. unfold ValidatorCore.onVoteBody. rewrite Hver. reflexivity. }
    subst s1. rewrite !Hthrow. reflexivity.
Qed.

(** ** The depth of the recursion of [onVote] and [processCertificate] *)

Lemma bind_ext_l {A B} (m m' : M A) (k : A -> M B) (s : State) :
  m s = m' s -> bind m k s = bind m' k s.
Proof. unfold bind. intros ->. reflexivity. Qed.

Lemma bind_ext_r {A B} (m : M A) (k k' : A -> M B) (s : State) :
  (forall a s0, k a s0 = k' a s0) -> bind m k s = bind m k' s.
Proof. intros H. unfold bind. destruct (m s) as [[a|e] s0]; [apply H|reflexivity]. Qed.

(** The processor calls [onVote] on bot votes of the validator only. *)
Lemma processCertificateBody_ext (cfg : Config) (rec rec' : Vote -> M unit)
    (acc : address) (votes : list Vote) (s : State) :
  (forall a k s0, rec (signVote cfg a k None) s0 = rec' (signVote cfg a k None) s0) ->
  ValidatorCore.processCertificateBody cfg rec acc votes s
  = ValidatorCore.processCertificateBody cfg rec' acc votes s.
Proof.
  intros Hrec. unfold ValidatorCore.processCertificateBody. rewrite !bind_nonNull.
  destruct (head votes) as [first|]; [|reflexivity].
  apply bind_ext_l.
  unfold ValidatorCore.handleCurrentNonce. rewrite !bind_gets.
  destruct (_ =? _); [|reflexivity]. destruct (_ <? _); [|reflexivity].
  destruct (negb _); [|reflexivity]. rewrite !bind_modify.
  apply bind_ext_l. apply Hrec.
Qed.

(** Once the validator's bot vote is among the votes, the processor calls
    [onVote] no more. *)
Lemma processCertificateBody_votedBot (cfg : Config) (rec rec' : Vote -> M unit)
    (acc : address) (votes : list Vote) (s : State) :
  ValidatorCore.votedBot cfg votes = true ->
  ValidatorCore.processCertificateBody cfg rec acc votes s
  = ValidatorCore.processCertificateBody cfg rec' acc votes s.
Proof.
  intros Hbot. unfold ValidatorCore.processCertificateBody. rewrite !bind_nonNull.
  destruct (head votes) as [first|]; [|reflexivity].
  apply bind_ext_l.
  unfold ValidatorCore.handleCurrentNonce. rewrite !bind_gets, Hbot. reflexivity.
Qed.

Lemma onVoteBody_ext (cfg : Config) (pc pc' : address -> list Vote -> M unit) (vote : Vote)
    (s : State) :
  (forall acc votes s0, pc acc votes s0 = pc' acc votes s0) ->
  ValidatorCore.onVoteBody cfg pc vote s = ValidatorCore.onVoteBody cfg pc' vote s.
Proof.
  intros Hpc. unfold ValidatorCore.onVoteBody.
  destruct (negb _); [reflexivity|]. rewrite !bind_gets.
  destruct (ValidatorCore.alreadyVoted _ _); [reflexivity|].
  rewrite !bind_modify, !bind_gets. destruct (_ && _); [apply Hpc|reflexivity].
Qed.

Lemma votedBot_snoc_own (cfg : Config) (votes : list Vote) (a : address) (k : Z) :
  ValidatorCore.votedBot cfg (votes ++ [signVote cfg a k None]) = true.
Proof.
  unfold ValidatorCore.votedBot. rewrite existsb_app. simpl.
  rewrite !bool_decide_eq_true_2 by reflexivity. apply orb_true_r.
Qed.

(** Storing the validator's own bot vote never leads to a further one. *)
Lemma onVote_bot_fuel (cfg : Config) (fuel : nat) (a : address) (k : Z) (s : State) :
  ValidatorCore.onVote cfg (S fuel) (signVote cfg a k None) s
  = ValidatorCore.onVote cfg 1 (signVote cfg a k None) s.
Proof.
  simpl. unfold ValidatorCore.onVoteBody.
  destruct (negb _); [reflexivity|]. rewrite !bind_gets.
  destruct (ValidatorCore.alreadyVoted _ _); [reflexivity|].
  rewrite !bind_modify, !bind_gets. destruct (_ && _); [|reflexivity].
  apply processCertificateBody_votedBot.
  rewrite storedVotes_pushVote. rewrite decide_True by reflexivity.
  apply votedBot_snoc_own.
Qed.


(** With two levels of calls the recursion has come to its end. *)
Lemma onVote_fuel (cfg : Config) (fuel : nat) (vote : Vote) (s : State) :
  ValidatorCore.onVote cfg (S (S fuel)) vote s = ValidatorCore.onVote cfg 2 vote s.
Proof.
  change (ValidatorCore.onVoteBody cfg
            (ValidatorCore.processCertificateBody cfg (ValidatorCore.onVote cfg (S fuel))) vote s
          = ValidatorCore.onVoteBody cfg
              (ValidatorCore.processCertificateBody cfg (ValidatorCore.onVote cfg 1)) vote s).
  apply onVoteBody_ext. intros acc votes s0. apply processCertificateBody_ext.
  intros a k s1. apply onVote_bot_fuel.
Qed.

(** What the handlers throw, for a set [E] of errors that holds the type
    error and the decoding error. *)
Lemma throwsOnly_handleFinality_in (E : Error -> Prop) (cfg : Config) (acc : address)
    (k q : Z) (tx : option Transaction) :
  E TypeError -> E DecodeError ->
  throwsOnly E (ValidatorCore.handleFinality cfg acc k q tx).
Proof.
  intros Ht Hd. unfold ValidatorCore.handleFinality.
  assert (Hnn : forall A (o : option A), throwsOnly E (nonNull o)).
  { intros A o. destruct o; [apply throwsOnly_ret|apply throwsOnly_throw; exact Ht]. }
  apply throwsOnly_bind; [apply throwsOnly_gets|intros a].
  destruct tx as [tx'|]; [|apply throwsOnly_ret].
  destruct (_ && _); [|apply throwsOnly_ret].
  apply throwsOnly_bind.
  { intros s e. unfold liftResult; simpl.
    destruct (getTxChainStart_cases tx') as [(orig & -> & _)|[->| ->]];
      [discriminate|intros [= <-]; exact Ht|intros [= <-]; exact Hd]. }
  intros orig. destruct (_ || _); [|apply throwsOnly_ret].
  apply throwsOnly_bind.
  { destruct (_ =? _); [|apply throwsOnly_ret]. unfold executeTransfer.
    apply throwsOnly_bind; [apply Hnn|intros sender].
    apply throwsOnly_bind; [apply Hnn|intros recipient].
    apply throwsOnly_bind; [apply throwsOnly_modify|intros _]. apply throwsOnly_modify. }
  intros _. apply throwsOnly_bind; [apply throwsOnly_modify|intros _].
  apply throwsOnly_bind; [apply throwsOnly_gets|intros a'].
  destruct (_ >=? _); [apply throwsOnly_modify|apply throwsOnly_ret].
Qed.

Lemma throwsOnly_processCertificateBody_in (E : Error -> Prop) (cfg : Config)
    (rec : Vote -> M unit) (acc : address) (votes : list Vote) :
  E TypeError -> E DecodeError ->
  (forall a k, throwsOnly E (rec (signVote cfg a k None))) ->
  throwsOnly E (ValidatorCore.processCertificateBody cfg rec acc votes).
Proof.
  intros Ht Hd Hrec. unfold ValidatorCore.processCertificateBody.
  apply throwsOnly_bind.
  { destruct (head votes); [apply throwsOnly_ret|apply throwsOnly_throw; exact Ht]. }
  intros first.
  apply throwsOnly_bind; [|intros _; apply throwsOnly_handleFinality_in; assumption].
  unfold ValidatorCore.handleCurrentNonce.
  apply throwsOnly_bind; [apply throwsOnly_gets|intros a].
  destruct (_ =? _); [|apply throwsOnly_ret].
  destruct (_ <? _).
  - destruct (negb _); [|apply throwsOnly_ret].
    apply throwsOnly_bind; [apply throwsOnly_modify|intros _].
    apply throwsOnly_bind; [apply Hrec|intros _]. apply throwsOnly_modify.
  - destruct (pending a); [apply throwsOnly_modify|apply throwsOnly_ret].
Qed.

Lemma throwsOnly_onVoteBody_in (E : Error -> Prop) (cfg : Config)
    (pc : address -> list Vote -> M unit) (vote : Vote) :
  E InvalidVote ->
  (forall acc votes, throwsOnly E (pc acc votes)) ->
  throwsOnly E (ValidatorCore.onVoteBody cfg pc vote).
Proof.
  intros Hi Hpc. unfold ValidatorCore.onVoteBody.
  destruct (negb _); [apply throwsOnly_throw; exact Hi|].
  apply throwsOnly_bind; [apply throwsOnly_gets|intros existing].
  destruct (ValidatorCore.alreadyVoted _ _); [apply throwsOnly_ret|].
  apply throwsOnly_bind; [apply throwsOnly_modify|intros _].
  apply throwsOnly_bind; [apply throwsOnly_gets|intros existing'].
  apply throwsOnly_bind; [apply throwsOnly_gets|intros acc].
  destruct (_ && _); [apply Hpc|apply throwsOnly_ret].
Qed.

(** Fuel for two levels of calls is never used up. *)
Lemma onVote_fuel_left (cfg : Config) (vote : Vote) :
  throwsOnly (fun e => e <> FuelExhausted) (ValidatorCore.onVote cfg 2 vote).
Proof.
  change (ValidatorCore.onVote cfg 2 vote)
    with (ValidatorCore.onVoteBody cfg
            (ValidatorCore.processCertificateBody cfg (ValidatorCore.onVote cfg 1)) vote).
  apply throwsOnly_onVoteBody_in; [discriminate|]. intros acc votes.
  apply throwsOnly_processCertificateBody_in; [discriminate|discriminate|].
  intros a k s e.
  assert (Hsame : ValidatorCore.onVote cfg 1 (signVote cfg a k None) s
                  = ValidatorCore.onVoteBody cfg
                      (ValidatorCore.processCertificateBody cfg (fun _ => ret tt))
                      (signVote cfg a k None) s).
  { simpl. unfold ValidatorCore.onVoteBody.
    destruct (negb _); [reflexivity|]. rewrite !bind_gets.
    destruct (ValidatorCore.alreadyVoted _ _); [reflexivity|].
    rewrite !bind_modify, !bind_gets. destruct (_ && _); [|reflexivity].
    apply processCertificateBody_votedBot.
    rewrite storedVotes_pushVote. rewrite decide_True by reflexivity.
    apply votedBot_snoc_own. }
  rewrite Hsame. clear Hsame. revert s e.
  apply throwsOnly_onVoteBody_in; [discriminate|]. intros acc' votes'.
  apply throwsOnly_processCertificateBody_in; [discriminate|discriminate|].
  intros a' k'. apply throwsOnly_ret.
Qed.

(** X5 ([onVote], [processCertificate] and [onTransaction] of
    validator-core.ts). The mutual recursion of [onVote] and
    [processCertificate] ends after one nested call: the processor calls
    [onVote] only on the validator's own bot vote, and once that vote is
    stored it casts no other. So a bound of two levels on the calls of
    [onVote] is never reached, and any larger bound gives the same result
    and the same state, for [onVote] and for [onTransaction]. *)
Theorem onVote_recursion_depth (cfg : Config) (fuel : nat) (vote : Vote) (signedTx : TxData)
    (s : State) :
  ValidatorCore.onVote cfg (S (S fuel)) vote s = ValidatorCore.onVote cfg 2 vote s
  /\ fst (ValidatorCore.onVote cfg 2 vote s) <> Throw FuelExhausted
  /\ ValidatorCore.onTransaction cfg (S (S fuel)) signedTx s
     = ValidatorCore.onTransaction cfg 2 signedTx s
  /\ fst (ValidatorCore.onTransaction cfg 2 signedTx s) <> Throw FuelExhausted.
Proof.
  split; [apply onVote_fuel|]. split.
  { intros H. apply (onVote_fuel_left cfg vote s FuelExhausted H). reflexivity. }
  split.
  - unfold ValidatorCore.onTransaction.
    apply bind_ext_r. intros tx s0. apply bind_ext_r. intros from s1.
    rewrite !bind_modify. apply bind_ext_l. apply onVote_fuel.
  - intros H.
    assert (T : throwsOnly (fun e => e <> FuelExhausted)
                  (ValidatorCore.onTransaction cfg 2 signedTx)); [|exact (T s _ H eq_refl)].
    unfold ValidatorCore.onTransaction.
    apply throwsOnly_bind.
    { intros s0 e. unfold reads; simpl. intros Hv.
      unfold ValidatorCore.validateTransaction in Hv.
      intros ->. revert Hv.
      destruct signedTx as [| |tx]; simpl; try discriminate.
      destruct (tx_from tx); [|discriminate].
      destruct (pending _); [discriminate|]. destruct (negb _); [discriminate|].
      destruct (tx_to tx) as [to|]; [|discriminate].
      destruct (isRecoveryContract to).
      - destruct (ValidatorCore.validateRecovery cfg tx s0) eqn:Hr; [discriminate|].
        intros [= ->]. revert Hr. unfold ValidatorCore.validateRecovery.
        destruct (tx_data tx); simpl; try discriminate.
        destruct (tx_from tx); [|discriminate].
        destruct (negb _); [discriminate|]. destruct (_ <? _); [discriminate|].
        intros Hc.
        match type of Hc with
        | ValidatorCore.checkIntermediate ?c ?a ?ks ?s = _ =>
            destruct (checkIntermediate_result c a ks s) as [E|[k E]];
              rewrite E in Hc; discriminate
        end.
      - destruct (ValidatorCore.validatePayment tx s0) eqn:Hp; [discriminate|].
        intros [= ->]. revert Hp. unfold ValidatorCore.validatePayment.
        destruct (tx_from tx); [|discriminate].
        destruct (negb _); [discriminate|]. destruct (_ <? _); discriminate. }
    intros tx. apply throwsOnly_bind.
    { destruct (tx_from tx); [apply throwsOnly_ret|apply throwsOnly_throw; discriminate]. }
    intros from. apply throwsOnly_bind; [apply throwsOnly_modify|intros _].
    apply throwsOnly_bind; [apply onVote_fuel_left|intros _].
    apply throwsOnly_bind; [apply throwsOnly_modify|intros _]. apply throwsOnly_ret.
Qed.

(** ** What the validator broadcasts *)

Lemma castOnly_refl (P : Vote -> Prop) (s : State) : castOnly P s s.
Proof. exists []. split; [rewrite app_nil_r; reflexivity|constructor]. Qed.

Lemma castOnly_trans (P : Vote -> Prop) (s1 s2 s3 : State) :
  castOnly P s1 s2 -> castOnly P s2 s3 -> castOnly P s1 s3.
Proof.
  intros (n1 & E1 & F1) (n2 & E2 & F2). exists (n1 ++ n2).
  split; [rewrite E2, E1, app_assoc; reflexivity|apply Forall_app; auto].
Qed.

Lemma castOnly_quiet (P : Vote -> Prop) (s s' : State) : quiet s s' -> castOnly P s s'.
Proof. intros [_ E]. exists []. split; [rewrite app_nil_r; exact E|constructor]. Qed.

Lemma castOnly_same (P : Vote -> Prop) (s s' : State) :
  broadcasts s' = broadcasts s -> castOnly P s s'.
Proof. intros E. exists []. split; [rewrite app_nil_r; exact E|constructor]. Qed.

Lemma castOnly_withBroadcast (P : Vote -> Prop) (v : Vote) (s : State) :
  P v -> castOnly P s (withBroadcast v s).
Proof. intros H. exists [v]. split; [reflexivity|repeat constructor; exact H]. Qed.

Lemma castOnly_mono (P Q : Vote -> Prop) (s s' : State) :
  (forall v, P v -> Q v) -> castOnly P s s' -> castOnly Q s s'.
Proof.
  intros H (new & E & F). exists new. split; [exact E|].
  eapply Forall_impl; [exact F|exact H].
Qed.

Lemma castOnly_processCertificateBody (P : Vote -> Prop) (cfg : Config)
    (rec : Vote -> M unit) (acc : address) (votes : list Vote) :
  (forall a k, P (signVote cfg a k None)) ->
  (forall v, preserves (castOnly P) (rec v)) ->
  preserves (castOnly P) (ValidatorCore.processCertificateBody cfg rec acc votes).
Proof.
  intros HP Hrec. unfold ValidatorCore.processCertificateBody.
  apply preserves_bind; [apply castOnly_trans|apply preserves_nonNull, castOnly_refl|intros first].
  apply preserves_bind; [apply castOnly_trans| |intros _].
  - unfold ValidatorCore.handleCurrentNonce.
    apply preserves_bind; [apply castOnly_trans|apply preserves_gets, castOnly_refl|intros a].
    destruct (_ =? _); [|apply preserves_ret, castOnly_refl].
    destruct (_ <? _).
    + destruct (negb _); [|apply preserves_ret, castOnly_refl].
      apply preserves_bind; [apply castOnly_trans| |intros _].
      { apply preserves_modify. intros s. apply castOnly_same. reflexivity. }
      apply preserves_bind; [apply castOnly_trans|apply Hrec|intros _].
      apply preserves_modify. intros s. apply castOnly_withBroadcast. apply HP.
    + destruct (pending a); [|apply preserves_ret, castOnly_refl].
      apply preserves_modify. intros s. apply castOnly_same. reflexivity.
  - intros s. apply castOnly_quiet. apply quiet_handleFinality.
Qed.

Lemma castOnly_onVote (P : Vote -> Prop) (cfg : Config) (fuel : nat) (vote : Vote) :
  (forall a k, P (signVote cfg a k None)) ->
  preserves (castOnly P) (ValidatorCore.onVote cfg fuel vote).
Proof.
  intros HP. revert vote. induction fuel as [|fuel IH]; intros vote; simpl.
  - apply preserves_throw, castOnly_refl.
  - unfold ValidatorCore.onVoteBody.
    destruct (negb _); [apply preserves_throw, castOnly_refl|].
    apply preserves_bind; [apply castOnly_trans|apply preserves_gets, castOnly_refl|intros ex].
    destruct (ValidatorCore.alreadyVoted _ _); [apply preserves_ret, castOnly_refl|].
    apply preserves_bind; [apply castOnly_trans| |intros _].
    { apply preserves_modify. intros s. apply castOnly_same. reflexivity. }
    apply preserves_bind; [apply castOnly_trans|apply preserves_gets, castOnly_refl|intros ex'].
    apply preserves_bind; [apply castOnly_trans|apply preserves_gets, castOnly_refl|intros a].
    destruct (_ && _); [|apply preserves_ret, castOnly_refl].
    apply castOnly_processCertificateBody; [exact HP|exact IH].
Qed.

(** What [onTransaction] does after its checks have passed. *)
Lemma onTransaction_run (cfg : Config) (fuel : nat) (signedTx : TxData) (s : State)
    (t : Transaction) :
  ValidatorCore.validateTransaction cfg signedTx s = Ok t ->
  exists from,
    tx_from t = Some from
    /\ pending (getAccount (toLowerCase from) s) = false
    /\ nonce (getAccount (toLowerCase from) s) = Z.of_N (tx_nonce t)
    /\ let sender := toLowerCase from in
       let vote := signVote cfg sender (Z.of_N (tx_nonce t)) (Some t) in
       let s1 := updateAccount sender (setPending true) s in
       ValidatorCore.onTransaction cfg fuel signedTx s
       = match ValidatorCore.onVote cfg fuel vote s1 with
         | (Ok _, s2) => (Ok vote, withBroadcast vote s2)
         | (Throw e, s2) => (Throw e, s2)
         end.
Proof.
  intros Hv. destruct (validateTransaction_Ok cfg signedTx s t Hv) as (_ & from & Hf & Hp & Hn).
  exists from. split; [exact Hf|]. split; [exact Hp|]. split; [exact Hn|].
  cbv zeta. unfold ValidatorCore.onTransaction. rewrite bind_reads, Hv.
  rewrite bind_nonNull, Hf. rewrite bind_modify. unfold bind at 1.
  destruct (ValidatorCore.onVote cfg fuel _ _) as [[[]|e] s2]; [|reflexivity].
  rewrite bind_broadcastVote. reflexivity.
Qed.

Lemma txCasts_castOnly (cfg : Config) (a : address) (k : Z) (s s' : State) :
  castOnly (ownBot cfg) s s' -> txCasts a k s' = txCasts a k s.
Proof.
  intros (new & E & F). unfold txCasts. rewrite E, filter_app.
  rewrite (filter_nil_iff _ new); [apply app_nil_r|].
  intros v Hv [Htx _]. rewrite Forall_forall in F.
  destruct (F v Hv) as (a' & k' & ->). apply Htx. reflexivity.
Qed.

Lemma castOnce_evolves (s s' : State) :
  evolves s s' -> (forall a k, txCasts a k s' = txCasts a k s) -> castOnce s -> castOnce s'.
Proof.
  intros Hev Hsame Hinv a k. rewrite Hsame. destruct (Hinv a k) as [Hlen Hnext].
  split; [exact Hlen|]. intros Hne. specialize (Hnext Hne).
  destruct (Hev a) as (Hn & _ & _ & Hp).
  destruct (Z.eq_dec (nonce (getAccount a s')) (nonce (getAccount a s))) as [E|E].
  - destruct Hnext as [Hlt|[Hk Hpend]]; [left; lia|].
    right. split; [lia|]. apply Hp; assumption.
  - left. lia.
Qed.

Lemma castOnce_onVote (cfg : Config) (fuel : nat) (vote : Vote) (s : State) :
  castOnce s -> castOnce (snd (ValidatorCore.onVote cfg fuel vote s)).
Proof.
  apply castOnce_evolves; [apply evolves_onVote|].
  intros a k. apply (txCasts_castOnly cfg). apply castOnly_onVote.
  intros a' k'. exists a', k'. reflexivity.
Qed.

Lemma castOnce_onTransaction (cfg : Config) (fuel : nat) (signedTx : TxData) (s : State) :
  castOnce s -> castOnce (snd (ValidatorCore.onTransaction cfg fuel signedTx s)).
Proof.
  intros Hinv.
  destruct (ValidatorCore.validateTransaction cfg signedTx s) as [t|e] eqn:Hv;
    [|rewrite (onTransaction_rejected cfg fuel signedTx s e Hv); exact Hinv].
  destruct (onTransaction_run cfg fuel signedTx s t Hv) as (from & Hf & Hp & Hn & Hrun).
  cbv zeta in Hrun. rewrite Hrun. clear Hrun.
  set (sender := toLowerCase from) in *. set (k0 := Z.of_N (tx_nonce t)) in *.
  set (vote := signVote cfg sender k0 (Some t)).
  set (s1 := updateAccount sender (setPending true) s).
  assert (Hev1 : evolves s s1).
  { apply evolves_updateAccount. cbv zeta. simpl. repeat split; auto; lia. }
  assert (Hinv1 : castOnce s1).
  { revert Hinv. apply castOnce_evolves; [exact Hev1|reflexivity]. }
  pose proof (castOnce_onVote cfg fuel vote s1 Hinv1) as Hinv2.
  pose proof (evolves_onVote cfg fuel vote s1) as Hev2.
  assert (Hcast2 : castOnly (ownBot cfg) s1 (snd (ValidatorCore.onVote cfg fuel vote s1))).
  { apply castOnly_onVote. intros a' k'. exists a', k'. reflexivity. }
  destruct (ValidatorCore.onVote cfg fuel vote s1) as [[[]|e] s2]; simpl in *; [|exact Hinv2].
  intros a k. unfold txCasts. simpl. rewrite filter_app, filter_cons, filter_nil.
  fold (txCasts a k s2).
  destruct (decide (serializedTx vote <> None
                    /\ toLowerCase (account vote) = toLowerCase a /\ voteNonce vote = k))
    as [(_ & Ha & Hk)|Hno].
  - simpl in Ha, Hk.
    assert (Hsame : getAccount a s = getAccount sender s)
      by (apply getAccount_same_lower; congruence).
    assert (Hnone : txCasts a k s2 = []).
    { rewrite (txCasts_castOnly cfg a k s1 s2 Hcast2).
      change (txCasts a k s1) with (txCasts a k s).
      destruct (txCasts a k s) eqn:E; [reflexivity|]. exfalso.
      destruct (Hinv a k) as [_ Hnext]. rewrite E in Hnext.
      rewrite Hsame in Hnext. destruct Hnext as [H|[_ H]]; [discriminate|lia|congruence]. }
    rewrite Hnone. simpl. split; [lia|]. intros _.
    assert (Hsame2 : getAccount a s2 = getAccount sender s2)
      by (apply getAccount_same_lower; congruence).
    change (getAccount a (withBroadcast vote s2)) with (getAccount a s2). rewrite Hsame2.
    destruct (Hev2 sender) as (Hn2 & _ & _ & Hp2).
    assert (Hn1 : nonce (getAccount sender s1) = k0).
    { subst s1. rewrite getAccount_updateAccount_eq. simpl. subst sender. exact Hn. }
    assert (Hp1 : pending (getAccount sender s1) = true).
    { subst s1. rewrite getAccount_updateAccount_eq. reflexivity. }
    destruct (Z.eq_dec (nonce (getAccount sender s2)) (nonce (getAccount sender s1))) as [E|E].
    + right. split; [lia|]. apply Hp2; assumption.
    + left. lia.
  - rewrite app_nil_r. apply Hinv2.
Qed.

Lemma castOnce_run (cfg : Config) (fuel : nat) (calls : list Call) (s : State) :
  castOnce s -> castOnce (ValidatorCore.run cfg fuel calls s).
Proof.
  revert s. induction calls as [|c calls IH]; intros s Hinv; [exact Hinv|].
  simpl. apply IH. destruct c as [signedTx|vote]; simpl.
  - apply castOnce_onTransaction. exact Hinv.
  - apply castOnce_onVote. exact Hinv.
Qed.

Lemma castOnce_genesis (balances : list (address * Z)) : castOnce (genesis balances).
Proof.
  intros a k. unfold txCasts. change (broadcasts (genesis balances)) with (@nil Vote).
  rewrite filter_nil. split; [simpl; lia|]. intros H. exfalso. apply H. reflexivity.
Qed.

(** X6 ([onVote], [processCertificate] and [onTransaction] of
    validator-core.ts, the calls of [broadcastVoteCallback]). The validator
    broadcasts only votes it has signed itself and never relays a vote it
    received: a call of [onVote] broadcasts nothing but bot votes of the
    validator; a call of [onTransaction] that returns broadcasts, after such
    bot votes, its vote for the submitted transaction at the transaction's
    nonce, last, and returns that vote; a call of [onTransaction] that throws
    broadcasts nothing but bot votes of the validator. *)
Theorem broadcasts_are_own_votes (cfg : Config) (fuel : nat) (vote : Vote)
    (signedTx : TxData) (s : State) :
  castOnly (ownBot cfg) s (snd (ValidatorCore.onVote cfg fuel vote s))
  /\ (forall v, fst (ValidatorCore.onTransaction cfg fuel signedTx s) = Ok v ->
        exists t from bots,
          signedTx = DataTx t /\ tx_from t = Some from
          /\ v = signVote cfg (toLowerCase from) (Z.of_N (tx_nonce t)) (Some t)
          /\ broadcasts (snd (ValidatorCore.onTransaction cfg fuel signedTx s))
             = broadcasts s ++ bots ++ [v]
          /\ Forall (ownBot cfg) bots)
  /\ (forall e, fst (ValidatorCore.onTransaction cfg fuel signedTx s) = Throw e ->
        castOnly (ownBot cfg) s (snd (ValidatorCore.onTransaction cfg fuel signedTx s))).
Proof.
  assert (Hbot : forall a k, ownBot cfg (signVote cfg a k None))
    by (intros a k; exists a, k; reflexivity).
  split; [apply castOnly_onVote; exact Hbot|].
  destruct (ValidatorCore.validateTransaction cfg signedTx s) as [t|e0] eqn:Hv.
  - destruct (validateTransaction_Ok cfg signedTx s t Hv) as (Hsigned & _).
    destruct (onTransaction_run cfg fuel signedTx s t Hv) as (from & Hf & _ & _ & Hrun).
    cbv zeta in Hrun. rewrite Hrun. clear Hrun.
    pose proof (castOnly_onVote (ownBot cfg) cfg fuel
                  (signVote cfg (toLowerCase from) (Z.of_N (tx_nonce t)) (Some t)) Hbot
                  (updateAccount (toLowerCase from) (setPending true) s)) as Hcast.
    destruct (ValidatorCore.onVote cfg fuel _ _) as [[[]|e] s2]; simpl in *.
    + split; [|intros e; discriminate]. intros v [= <-].
      destruct Hcast as (bots & E & F). exists t, from, bots.
      split; [exact Hsigned|]. split; [exact Hf|]. split; [reflexivity|].
      split; [rewrite E, app_assoc; reflexivity|exact F].
    + split; [intros v; discriminate|]. intros _ _. exact Hcast.
  - rewrite (onTransaction_rejected cfg fuel signedTx s e0 Hv). simpl.
    split; [intros v; discriminate|]. intros _ _. apply castOnly_refl.
Qed.

(** X7 ([onTransaction] of validator-core.ts, with the writes of [pending]
    and [nonce] in [processCertificate]). The validator never votes for two
    transactions at the same nonce of an account: in every state reached from
    the constructor by [onTransaction] and [onVote] calls, the broadcasts
    hold at most one vote with a transaction for each account and nonce, so
    two broadcast votes with a transaction for the same account and nonce are
    the same vote. *)
Theorem never_two_transaction_votes (cfg : Config) (fuel : nat)
    (balances : list (address * Z)) (calls : list Call) :
  let s := ValidatorCore.run cfg fuel calls (genesis balances) in
  (forall a k, (length (txCasts a k s) <= 1)%nat)
  /\ (forall v w,
        v ∈ broadcasts s -> w ∈ broadcasts s ->
        serializedTx v <> None -> serializedTx w <> None ->
        toLowerCase (account v) = toLowerCase (account w) ->
        voteNonce v = voteNonce w ->
        v = w).
Proof.
  intros s.
  assert (Hinv : castOnce s).
  { apply castOnce_run, castOnce_genesis. }
  split; [intros a k; apply Hinv|].
  intros v w Hv Hw Htv Htw Ha Hk.
  destruct (Hinv (account w) (voteNonce w)) as [Hlen _].
  assert (Hv' : v ∈ txCasts (account w) (voteNonce w) s)
    by (apply list_elem_of_filter; auto).
  assert (Hw' : w ∈ txCasts (account w) (voteNonce w) s)
    by (apply list_elem_of_filter; auto).
  destruct (txCasts (account w) (voteNonce w) s) as [|x [|y l]]; simpl in Hlen; [|
    apply list_elem_of_singleton in Hv', Hw'; congruence|lia].
  inversion Hv'.
Qed.

(** ** A finality quorum of matching votes *)

Lemma remove_dups_NoDup_id {A} `{EqDecision A} (l : list A) : NoDup l -> remove_dups l = l.
Proof.
  induction 1 as [|x l Hx Hl IH]; simpl; [reflexivity|].
  destruct (decide_rel elem_of x l); [contradiction|]. rewrite IH. reflexivity.
Qed.

Lemma distinctValidators_NoDup (votes : list Vote) :
  NoDup (validator <$> votes) -> distinctValidators votes = Z.of_nat (length votes).
Proof.
  intros H. unfold distinctValidators. rewrite (remove_dups_NoDup_id _ H), length_fmap.
  reflexivity.
Qed.

(** Votes of distinct validators for one payload: the certificate is the
    whole list. *)
Lemma getMaxQuorumCert_unanimous (votes : list Vote) (first : Vote) (h : option Transaction) :
  head votes = Some first ->
  NoDup (validator <$> votes) ->
  (forall v, v ∈ votes -> voteTxHash v = h) ->
  quorum (getMaxQuorumCert votes 1) = Z.of_nat (length votes)
  /\ tx (getMaxQuorumCert votes 1) = voteTx first.
Proof.
  intros Hhead Hnd Hsame. unfold getMaxQuorumCert.
  pose proof (maxQuorum_spec votes) as H.
  destruct (fold_left maxStep (votesByTx votes) (0, None, [])) as [[q t] vs].
  destruct H as (_ & Hq & [(-> & _)|(key & Hfil & Hne & Hpos & _ & Ht)]); [discriminate|].
  assert (Hall : vs = votes).
  { rewrite Hfil. destruct vs as [|w vs']; [congruence|].
    assert (Hw : w ∈ filter (fun v => voteTxHash v = key) votes) by (rewrite <- Hfil; left).
    apply list_elem_of_filter in Hw as [Hk Hw]. rewrite (Hsame w Hw) in Hk. subst key.
    clear -Hsame. induction votes as [|x l IH]; [reflexivity|].
    rewrite filter_cons. rewrite decide_True by (apply Hsame; left).
    f_equal. apply IH. intros v Hv. apply Hsame. right. exact Hv. }
  rewrite Hall in Ht, Hq. rewrite Hhead in Ht. simpl in Ht.
  destruct (Z.geb_spec q 1) as [_|]; [|lia]. simpl.
  split; [rewrite Hq; apply distinctValidators_NoDup; exact Hnd|exact Ht].
Qed.

Lemma handleCurrentNonce_reached (cfg : Config) (rec : Vote -> M unit) (acc account : address)
    (k q : Z) (votes : list Vote) (s : State) :
  NOTARISATION_QUORUM cfg <= q ->
  ValidatorCore.handleCurrentNonce cfg rec acc account k q votes s
  = if (k =? nonce (getAccount acc s)) && pending (getAccount acc s)
    then (Ok tt, updateAccount acc (fun a => setPending false (setNonce (k + 1) a)) s)
    else (Ok tt, s).
Proof.
  intros Hq. unfold ValidatorCore.handleCurrentNonce. rewrite bind_gets.
  destruct (_ =? _); [|reflexivity].
  destruct (Z.ltb_spec q (NOTARISATION_QUORUM cfg)); [lia|].
  destruct (pending _); reflexivity.
Qed.

Lemma alreadyVoted_fresh (vote : Vote) (existing : list Vote) :
  validator vote ∉ (validator <$> existing : list address) ->
  ValidatorCore.alreadyVoted vote existing = false.
Proof.
  intros Hfresh. unfold ValidatorCore.alreadyVoted.
  assert (H : forall x, x ∈ existing -> bool_decide (validator x = validator vote) = false).
  { intros x Hx. apply bool_decide_eq_false_2. intros E. apply Hfresh. rewrite <- E.
    apply list_elem_of_fmap_2. exact Hx. }
  destruct (serializedTx vote); apply existsb_false; intros x Hx; rewrite (H x Hx); reflexivity.
Qed.

(** Votes that leave the list below [n - f] entries are only stored. *)
Lemma deliver_below (cfg : Config) (fuel : nat) (n : address) (k : Z) (vs : list Vote)
    (s : State) :
  (forall v, v ∈ vs -> verifyVote v (validatorSet cfg) = true
                       /\ toLowerCase (account v) = n /\ voteNonce v = k) ->
  NoDup (validator <$> storedVotes n k s ++ vs) ->
  Z.of_nat (length (storedVotes n k s ++ vs)) < FINALITY_QUORUM cfg ->
  let s' := ValidatorCore.run cfg (S fuel) (map CallVote vs) s in
  storedVotes n k s' = storedVotes n k s ++ vs
  /\ accounts s' = accounts s /\ broadcasts s' = broadcasts s.
Proof.
  revert s. induction vs as [|v vs IH]; intros s Hvs Hnd Hlen; cbv zeta.
  - simpl. rewrite app_nil_r. auto.
  - destruct (Hvs v) as (Hver & Ha & Hk); [left|].
    assert (Hfresh : ValidatorCore.alreadyVoted v
                       (storedVotes (toLowerCase (account v)) (voteNonce v) s) = false).
    { rewrite Ha, Hk. apply alreadyVoted_fresh.
      rewrite fmap_app, fmap_cons in Hnd. apply NoDup_app in Hnd as (_ & Hd & _).
      intros Hin. apply (Hd _ Hin). left. }
    pose proof (onVote_pushed cfg fuel v s Hver Hfresh) as Hrun. cbv zeta in Hrun.
    rewrite Ha, Hk in Hrun.
    assert (Hshort : (Z.of_nat (length (storedVotes n k s ++ [v])) >=? FINALITY_QUORUM cfg)
                     = false).
    { destruct (Z.geb_spec (Z.of_nat (length (storedVotes n k s ++ [v])))
                  (FINALITY_QUORUM cfg)) as [H|]; [|reflexivity].
      rewrite !length_app in *. simpl in *. lia. }
    rewrite Hshort, andb_false_r in Hrun.
    change (ValidatorCore.run cfg (S fuel) (map CallVote (v :: vs)) s)
      with (ValidatorCore.run cfg (S fuel) (map CallVote vs)
              (snd (ValidatorCore.onVote cfg (S fuel) v s))).
    rewrite Hrun. simpl snd.
    assert (Hst : storedVotes n k (pushVote n k v s) = storedVotes n k s ++ [v]).
    { rewrite storedVotes_pushVote. rewrite decide_True by reflexivity. reflexivity. }
    specialize (IH (pushVote n k v s)). cbv zeta in IH. rewrite Hst in IH.
    rewrite <- !app_assoc in IH. simpl in IH.
    destruct IH as (E1 & E2 & E3); [intros w Hw; apply Hvs; right; exact Hw|exact Hnd|exact Hlen|].
    auto.
Qed.

(** X8 ([onVote] and [processCertificate] of validator-core.ts). Under
    n >= 5f+1 and f >= 0: when the votes of n - f distinct validators for one
    transaction are delivered, at the current nonce k of an account whose
    nonces below k are finalised and for which nothing is stored at k yet,
    and the chain start of the transaction is the payment of nonce k, then
    the last of them finalises the payment: the transfer is applied once,
    [finalised] becomes k, the nonce becomes k + 1 and [pending] is cleared;
    the votes are stored in the order of arrival and nothing is broadcast. *)
Theorem matching_votes_finalise (cfg : Config) (fuel : nat) (n : address) (k : Z)
    (vs : list Vote) (t orig : Transaction) (sender recipient : address) (s : State) :
  validParams cfg ->
  Z.of_nat (length vs) = FINALITY_QUORUM cfg ->
  NoDup (validator <$> vs) ->
  (forall v, v ∈ vs -> verifyVote v (validatorSet cfg) = true
                       /\ toLowerCase (account v) = n /\ voteNonce v = k
                       /\ serializedTx v = Some t) ->
  getTxChainStart t = Ok orig ->
  Z.of_N (tx_nonce orig) = k ->
  tx_from orig = Some sender ->
  tx_to orig = Some recipient ->
  storedVotes n k s = [] ->
  nonce (getAccount n s) = k ->
  finalised (getAccount n s) = k - 1 ->
  let s' := ValidatorCore.run cfg (S fuel) (map CallVote vs) s in
  nonce (getAccount n s') = k + 1
  /\ finalised (getAccount n s') = k
  /\ pending (getAccount n s') = false
  /\ (forall a, balance (getAccount a s')
                = balance (getAccount a s) + balanceChange sender recipient (tx_value orig) a)
  /\ storedVotes n k s' = vs
  /\ broadcasts s' = broadcasts s.
Proof.
  intros Hcfg Hlen Hnd Hvs Horig Hon Hfrom Hto Hempty Hn Hf.
  pose proof (quorums_ordered cfg Hcfg) as Hord.
  assert (Hfq : 1 <= FINALITY_QUORUM cfg)
    by (destruct Hcfg; unfold FINALITY_QUORUM; lia).
  destruct vs as [|v0 vs0] using rev_ind; [simpl in Hlen; lia|]. clear IHvs0.
  rename v0 into last, vs0 into front. cbv zeta.
  rewrite map_app. unfold ValidatorCore.run. rewrite fold_left_app.
  fold (ValidatorCore.run cfg (S fuel) (map CallVote front) s).
  cbn [map fold_left ValidatorCore.step].
  assert (Hfront : forall v, v ∈ front ->
                     verifyVote v (validatorSet cfg) = true
                     /\ toLowerCase (account v) = n /\ voteNonce v = k).
  { intros v Hv. destruct (Hvs v) as (H1 & H2 & H3 & _); [apply elem_of_app; left; exact Hv|auto]. }
  destruct (deliver_below cfg fuel n k front s Hfront) as (Hst1 & Hacc1 & Hbr1).
  { rewrite Hempty. simpl. rewrite fmap_app in Hnd. apply NoDup_app in Hnd. tauto. }
  { rewrite Hempty. simpl. rewrite length_app in Hlen. simpl in Hlen. lia. }
  set (s1 := ValidatorCore.run cfg (S fuel) (map CallVote front) s) in *.
  rewrite Hempty in Hst1. simpl in Hst1.
  assert (Hget1 : forall a, getAccount a s1 = getAccount a s)
    by (intros a; unfold getAccount; rewrite Hacc1; reflexivity).
  destruct (Hvs last) as (Hver & Ha & Hk & Htx); [apply elem_of_app; right; left|].
  assert (Hfresh : ValidatorCore.alreadyVoted last
                     (storedVotes (toLowerCase (account last)) (voteNonce last) s1) = false).
  { rewrite Ha, Hk, Hst1. apply alreadyVoted_fresh.
    rewrite fmap_app in Hnd. apply NoDup_app in Hnd as (_ & Hd & _).
    intros Hin. apply (Hd _ Hin). left. }
  pose proof (onVote_pushed cfg fuel last s1 Hver Hfresh) as Hrun. cbv zeta in Hrun.
  rewrite Ha, Hk, Hst1, Hget1, Hn, Z.eqb_refl in Hrun.
  destruct (Z.geb_spec (Z.of_nat (length (front ++ [last]))) (FINALITY_QUORUM cfg)) as [_|];
    [|lia].
  cbn [andb] in Hrun. rewrite Hrun. clear Hrun.
  set (s0 := pushVote n k last s1).
  assert (Hget0 : forall a, getAccount a s0 = getAccount a s)
    by (intros a; subst s0; rewrite getAccount_pushVote; apply Hget1).
  assert (Hst0 : storedVotes n k s0 = front ++ [last]).
  { subst s0. rewrite storedVotes_pushVote. rewrite decide_True by reflexivity.
    rewrite Hst1. reflexivity. }
  assert (Hbr0 : broadcasts s0 = broadcasts s) by exact Hbr1.
  destruct (head (front ++ [last])) as [first|] eqn:Hhead;
    [|destruct front; discriminate].
  assert (Hfirst : first ∈ front ++ [last]) by (apply head_Some_elem_of; exact Hhead).
  destruct (Hvs first Hfirst) as (_ & Ha1 & Hk1 & Htx1).
  rewrite (processCertificate_head cfg fuel n (front ++ [last]) first s0 Hhead). cbv zeta.
  destruct (getMaxQuorumCert_unanimous (front ++ [last]) first (tx_hash t) Hhead Hnd)
    as [Hq Hc].
  { intros v Hv. destruct (Hvs v Hv) as (_ & _ & _ & E). unfold voteTxHash. rewrite E.
    reflexivity. }
  rewrite Hq, Hc, Hlen, Ha1, Hk1. unfold voteTx. rewrite Htx1.
  rewrite handleCurrentNonce_reached by lia.
  rewrite Hget0, Hn, Z.eqb_refl. cbn [andb].
  set (s2 := if pending (getAccount n s)
             then updateAccount n (fun a => setPending false (setNonce (k + 1) a)) s0
             else s0).
  assert (Hs2 : (if pending (getAccount n s)
                 then (Ok tt, updateAccount n
                                (fun a => setPending false (setNonce (k + 1) a)) s0)
                 else (Ok tt, s0))
                = (Ok tt, s2)).
  { subst s2. destruct (pending _); reflexivity. }
  rewrite Hs2. clear Hs2.
  assert (Hf2 : finalised (getAccount n s2) = k - 1).
  { subst s2. destruct (pending _); [|rewrite Hget0; exact Hf].
    rewrite getAccount_updateAccount_eq. simpl. rewrite Hget0. exact Hf. }
  assert (Hn2 : nonce (getAccount n s2) = if pending (getAccount n s) then k + 1 else k).
  { subst s2. destruct (pending _); [|rewrite Hget0; exact Hn].
    rewrite getAccount_updateAccount_eq. reflexivity. }
  assert (Hp2 : pending (getAccount n s2) = false).
  { subst s2. destruct (pending _) eqn:Hp; [|rewrite Hget0; exact Hp].
    rewrite getAccount_updateAccount_eq. reflexivity. }
  assert (Hb2 : forall a, balance (getAccount a s2) = balance (getAccount a s)).
  { intros a. subst s2. destruct (pending _); [|rewrite Hget0; reflexivity].
    rewrite (sameBalance_updateAccount n _ s0) by reflexivity. rewrite Hget0. reflexivity. }
  assert (Hq2 : quiet s0 s2).
  { subst s2. destruct (pending _); [apply quiet_updateAccount|apply quiet_refl]. }
  clearbody s2.
  rewrite (handleFinality_run cfg n k _ t orig s2) by (try assumption; lia).
  rewrite Hf2. destruct (Z.eqb_spec (Z.of_N (tx_nonce orig)) (k - 1 + 1)) as [_|]; [|lia].
  pose proof (executeTransfer_balance orig sender recipient s2) as Hbal.
  pose proof (sameControl_executeTransfer orig s2) as Hctl.
  pose proof (quiet_executeTransfer orig s2) as Hqt.
  rewrite (executeTransfer_effect orig sender recipient s2 Hfrom Hto) in *.
  cbn [snd] in Hbal, Hctl, Hqt.
  set (sB := updateAccount recipient _ _) in *. clearbody sB.
  destruct (Hctl n) as (HnB & HpB & HfB).
  destruct (finalise_effect n k sB) as (E1 & E2 & E3 & E4). fold (finaliseAt n k sB) in *.
  cbn [snd].
  assert (Hfinal : nonce (getAccount n (finaliseAt n k sB)) = k + 1
                   /\ pending (getAccount n (finaliseAt n k sB)) = false).
  { rewrite HnB, Hn2 in E3, E4. destruct (pending (getAccount n s)).
    - destruct E4 as [-> ->]; [lia|]. rewrite HpB. auto.
    - apply E3. lia. }
  destruct Hfinal as [HnF HpF].
  assert (HqF : quiet s0 (finaliseAt n k sB)).
  { eapply quiet_trans; [exact Hq2|]. eapply quiet_trans; [exact Hqt|].
    apply quiet_finaliseAt. }
  split; [exact HnF|]. split; [exact E1|]. split; [exact HpF|]. split; [|split].
  - intros a. rewrite E2, Hbal by assumption. rewrite Hb2. reflexivity.
  - destruct HqF as [Hst _]. unfold storedVotes in *. rewrite Hst. exact Hst0.
  - destruct HqF as [_ Hbr]. rewrite Hbr. exact Hbr0.
Qed.

Lemma matching_votes_finalise_witness :
  let s' := ValidatorCore.run Fixture.me 1 (map CallVote OverdraftScenario.votes)
              (genesis [(Fixture.alice, 1000)]) in
  nonce (getAccount Fixture.alice s') = 1
  /\ finalised (getAccount Fixture.alice s') = 0
  /\ balance (getAccount Fixture.bob s') = 150.
Proof.
  cbv zeta.
  pose proof (matching_votes_finalise Fixture.me 0 Fixture.alice 0 OverdraftScenario.votes
                OverdraftScenario.pay OverdraftScenario.pay Fixture.alice Fixture.bob
                (genesis [(Fixture.alice, 1000)])) as H.
  assert (Hcfg : validParams Fixture.me) by (split; vm_compute; discriminate).
  specialize (H Hcfg). clear Hcfg.
  assert (Hlen : Z.of_nat (length OverdraftScenario.votes) = FINALITY_QUORUM Fixture.me)
    by (vm_compute; reflexivity).
  specialize (H Hlen). clear Hlen.
  assert (Hnd : NoDup (validator <$> OverdraftScenario.votes)).
  { apply (bool_decide_unpack _). vm_compute. exact I. }
  specialize (H Hnd). clear Hnd.
  assert (Hvs : forall v, v ∈ OverdraftScenario.votes ->
             verifyVote v (validatorSet Fixture.me) = true
             /\ toLowerCase (account v) = Fixture.alice /\ voteNonce v = 0
             /\ serializedTx v = Some OverdraftScenario.pay).
  { apply Forall_forall. unfold OverdraftScenario.votes. simpl.
    repeat (apply Forall_cons; split; [vm_compute; auto|]). apply Forall_nil_2. }
  specialize (H Hvs). clear Hvs.
  repeat match type of H with
         | ?P -> _ =>
             let h := fresh in
             assert (h : P) by (vm_compute; reflexivity);
             specialize (H h); clear h
         end.
  cbv zeta in H. destruct H as (H1 & H2 & _ & H4 & _).
  split; [exact H1|]. split; [exact H2|]. rewrite H4. vm_compute. reflexivity.
Defined.

(** ** Recovery information *)

Lemma getMaxQuorumCert_tx_stored (votes : list Vote) (minQuorum : Z) (t : Transaction) :
  tx (getMaxQuorumCert votes minQuorum) = Some t ->
  exists v, v ∈ votes /\ serializedTx v = Some t.
Proof.
  unfold getMaxQuorumCert. pose proof (maxQuorum_spec votes) as H.
  destruct (fold_left maxStep (votesByTx votes) (0, None, [])) as [[q t0] vs].
  destruct H as (_ & _ & [(_ & _ & -> & _)|(key & Hvs & _ & _ & _ & Ht0)]).
  - destruct (_ >=? _); discriminate.
  - destruct (_ >=? _); simpl; [|discriminate]. intros Ht. rewrite Ht in Ht0.
    destruct (head vs) as [v|] eqn:Hhead; [|discriminate]. simpl in Ht0.
    exists v. split; [|symmetry; exact Ht0].
    apply head_Some_elem_of in Hhead. rewrite Hvs in Hhead.
    apply list_elem_of_filter in Hhead as [_ Hin]. exact Hin.
Qed.

Lemma serializedOrNull_Ok (t r : option Transaction) :
  serializedOrNull t = Ok r -> r = t /\ forall t', t = Some t' -> tx_from t' <> None.
Proof.
  destruct t as [t'|]; simpl.
  - unfold serialized. destruct (tx_from t') eqn:E; [|discriminate].
    intros [= <-]. split; [reflexivity|]. intros ? [= <-]. congruence.
  - intros [= <-]. split; [reflexivity|]. discriminate.
Qed.

Lemma serializedOrNull_Throw (t : option Transaction) (e : Error) :
  serializedOrNull t = Throw e ->
  e = UnsignedSerialization /\ exists t', t = Some t' /\ tx_from t' = None.
Proof.
  destruct t as [t'|]; simpl; [|discriminate].
  unfold serialized. destruct (tx_from t') eqn:E; [discriminate|].
  intros [= <-]. split; [reflexivity|]. exists t'. auto.
Qed.

Lemma serializedOrNull_signed (t : option Transaction) :
  (forall t', t = Some t' -> tx_from t' <> None) -> serializedOrNull t = Ok t.
Proof.
  destruct t as [t'|]; simpl; [|reflexivity]. intros H. unfold serialized.
  destruct (tx_from t') eqn:E; [reflexivity|]. exfalso. apply (H t' eq_refl E).
Qed.

Lemma buildChain_Ok (cfg : Config) (account : address) (ks : list Z) (s : State)
    (entries : list ChainEntry) :
  buildChain cfg account ks s = Ok entries ->
  entryNonce <$> entries = ks
  /\ forall e, e ∈ entries ->
       let c := getMaxQuorumCert (getVotes account (entryNonce e) s) (NOTARISATION_QUORUM cfg) in
       cert c = Some (entryCert e) /\ entryTx e = tx c
       /\ forall t, entryTx e = Some t -> tx_from t <> None.
Proof.
  revert entries. induction ks as [|k ks IH]; intros entries; simpl.
  - intros [= <-]. split; [reflexivity|]. intros e H. inversion H.
  - destruct (cert _) as [votes|] eqn:Hc; [|discriminate].
    destruct (serializedOrNull _) as [bytes|e0] eqn:Hs; [|discriminate].
    apply serializedOrNull_Ok in Hs as [-> Hsigned].
    destruct (buildChain cfg account ks s) as [rest|e]; [|discriminate].
    intros [= <-]. destruct (IH rest eq_refl) as [Hn Hall].
    split; [rewrite fmap_cons; simpl; f_equal; exact Hn|].
    intros e He. apply elem_of_cons in He as [->|He]; [simpl; auto|apply Hall; exact He].
Qed.

(** Where [buildChain] stops: at the first nonce without a certificate, or
    at the first certificate headed by an unsigned transaction. *)
Lemma buildChain_Throw (cfg : Config) (account : address) (ks : list Z) (s : State)
    (e : Error) :
  buildChain cfg account ks s = Throw e ->
  exists before k after,
    ks = before ++ k :: after
    /\ (forall j, j ∈ before ->
          cert (getMaxQuorumCert (getVotes account j s) (NOTARISATION_QUORUM cfg)) <> None)
    /\ ((e = MissingNotarisation k
         /\ cert (getMaxQuorumCert (getVotes account k s) (NOTARISATION_QUORUM cfg)) = None)
        \/ (e = UnsignedSerialization
            /\ exists t, tx (getMaxQuorumCert (getVotes account k s) (NOTARISATION_QUORUM cfg))
                         = Some t /\ tx_from t = None)).
Proof.
  induction ks as [|k ks IH]; simpl; [discriminate|].
  destruct (cert _) as [votes|] eqn:Hc.
  - destruct (serializedOrNull _) as [bytes|e0] eqn:Hs.
    + destruct (buildChain cfg account ks s) as [rest|e']; [discriminate|].
      intros [= ->]. destruct (IH eq_refl) as (before & k' & after & -> & Hb & Hk).
      exists (k :: before), k', after. split; [reflexivity|]. split; [|exact Hk].
      intros j Hj. apply elem_of_cons in Hj as [->|Hj]; [rewrite Hc; discriminate|auto].
    + intros [= ->]. apply serializedOrNull_Throw in Hs as [-> Ht].
      exists [], k, ks. split; [reflexivity|]. split; [intros j Hj; inversion Hj|].
      right. auto.
  - intros [= <-]. exists [], k, ks. split; [reflexivity|].
    split; [intros j Hj; inversion Hj|]. left. auto.
Qed.

Lemma buildChain_total (cfg : Config) (account : address) (ks : list Z) (s : State) :
  (forall k, k ∈ ks ->
     cert (getMaxQuorumCert (getVotes account k s) (NOTARISATION_QUORUM cfg)) <> None) ->
  (forall k v t, k ∈ ks -> v ∈ getVotes account k s -> serializedTx v = Some t ->
                 tx_from t <> None) ->
  exists entries, buildChain cfg account ks s = Ok entries.
Proof.
  intros H Hsigned. destruct (buildChain cfg account ks s) as [entries|e] eqn:E; [eauto|].
  destruct (buildChain_Throw cfg account ks s e E)
    as (before & k & after & -> & _ & [[_ Hk]|[_ (t & Ht & Hfrom)]]).
  - exfalso. apply (H k); [apply elem_of_app; right; left|exact Hk].
  - exfalso. destruct (getMaxQuorumCert_tx_stored _ _ _ Ht) as (v & Hv & Hvt).
    apply (Hsigned k v t); [apply elem_of_app; right; left|exact Hv|exact Hvt|exact Hfrom].
Qed.

(** A throw of [buildChain] that is not the missing-certificate error is the
    serialisation error, at a nonce where a stored vote carries an unsigned
    transaction. *)
Lemma buildChain_Throw_unsigned (cfg : Config) (account : address) (ks : list Z) (s : State)
    (e : Error) :
  buildChain cfg account ks s = Throw e ->
  (exists k, e = MissingNotarisation k)
  \/ (e = UnsignedSerialization
      /\ exists k v t, k ∈ ks /\ v ∈ getVotes account k s
                       /\ serializedTx v = Some t /\ tx_from t = None).
Proof.
  intros E.
  destruct (buildChain_Throw cfg account ks s e E)
    as (before & k & after & -> & _ & [[-> _]|[-> (t & Ht & Hfrom)]]).
  - left. eauto.
  - right. split; [reflexivity|].
    destruct (getMaxQuorumCert_tx_stored _ _ _ Ht) as (v & Hv & Hvt).
    exists k, v, t. split; [apply elem_of_app; right; left|auto].
Qed.

Lemma finalisedPart_Throw (cfg : Config) (account : address) (kf : Z) (s : State) (e : Error) :
  finalisedPart cfg account kf s = Throw e ->
  e = UnsignedSerialization
  /\ 0 <= kf
  /\ exists v t, v ∈ getVotes account kf s /\ serializedTx v = Some t /\ tx_from t = None.
Proof.
  unfold finalisedPart. destruct (Z.geb_spec kf 0) as [Hk|]; [|discriminate].
  destruct (tx _) as [t|] eqn:Ht; [|discriminate].
  destruct (cert _); [|discriminate].
  unfold serialized. destruct (tx_from t) eqn:Hfrom; [discriminate|].
  intros [= <-]. split; [reflexivity|]. split; [lia|].
  destruct (getMaxQuorumCert_tx_stored _ _ _ Ht) as (v & Hv & Hvt). eauto.
Qed.

Lemma finalisedPart_total (cfg : Config) (account : address) (kf : Z) (s : State) :
  (forall v t, v ∈ getVotes account kf s -> serializedTx v = Some t -> tx_from t <> None) ->
  exists r, finalisedPart cfg account kf s = Ok r.
Proof.
  intros Hsigned. destruct (finalisedPart cfg account kf s) as [r|e] eqn:E; [eauto|].
  destruct (finalisedPart_Throw cfg account kf s e E) as (_ & _ & v & t & Hv & Ht & Hfrom).
  exfalso. apply (Hsigned v t Hv Ht Hfrom).
Qed.

Lemma finalisedPart_Some (cfg : Config) (account : address) (kf : Z) (s : State)
    (t : Transaction) (cf : option (list Vote)) :
  finalisedPart cfg account kf s = Ok (Some t, cf) ->
  0 <= kf
  /\ tx (getMaxQuorumCert (getVotes account kf s) (FINALITY_QUORUM cfg)) = Some t
  /\ exists vs, cert (getMaxQuorumCert (getVotes account kf s) (FINALITY_QUORUM cfg)) = Some vs.
Proof.
  unfold finalisedPart. destruct (Z.geb_spec kf 0) as [Hk|]; [|discriminate].
  destruct (tx _) as [t0|]; [|discriminate].
  destruct (cert _) as [vs|]; [|discriminate].
  unfold serialized. destruct (tx_from t0); [|discriminate].
  intros [= <- _]. split; [lia|]. split; [reflexivity|]. exists vs. reflexivity.
Qed.

(** The nonces of [seqZ] are met in increasing order. *)
Lemma seqZ_split_before (m len : Z) (before after : list Z) (k j : Z) :
  seqZ m len = before ++ k :: after -> j ∈ seqZ m len -> j < k -> j ∈ before.
Proof.
  intros Hks Hjin Hlt. rewrite Hks in Hjin.
  apply elem_of_app in Hjin as [H|H]; [exact H|]. exfalso.
  apply list_elem_of_lookup in H as [i Hi].
  assert (Hl : (before ++ k :: after) !! (length before + i)%nat = Some j)
    by (rewrite lookup_app_r by lia; replace (length before + i - length before)%nat
          with i by lia; exact Hi).
  assert (Hk0 : (before ++ k :: after) !! (length before + 0)%nat = Some k)
    by (rewrite lookup_app_r by lia; replace (length before + 0 - length before)%nat
          with 0%nat by lia; reflexivity).
  rewrite <- Hks in Hl, Hk0. apply lookup_seqZ in Hl as [-> _].
  apply lookup_seqZ in Hk0 as [-> _]. lia.
Qed.

(** X9 ([getRecoveryInfo] of validator-core.ts). With a notarisation quorum
    of at least 1. When it returns, the answer carries the account's
    finalised and current nonce and one chain entry for each nonce strictly
    between them, in increasing order; the certificate of an entry is made of
    all the stored votes of one payload at that nonce, their validator
    strings (as written in the votes, letter case included) number at least
    n - 3f, no payload has more, and the entry's transaction is the one of
    the first of these votes, null for bot and signed otherwise. It throws
    in two ways only: the missing-certificate error, naming the first nonce
    strictly between the two at which no payload has n - 3f validator
    strings, every nonce before it having one; and the serialisation error
    of [tx.serialized], when a vote stored at the finalised nonce or at a
    nonce between the two carries an unsigned transaction. *)
Theorem getRecoveryInfo_chain (cfg : Config) (account : address) (s : State) :
  1 <= NOTARISATION_QUORUM cfg ->
  let kf := finalised (getAccount account s) in
  let kn := nonce (getAccount account s) in
  match getRecoveryInfo cfg account s with
  | Ok info =>
      finalisedNonce info = kf /\ currentNonce info = kn
      /\ entryNonce <$> chain info = seqZ (kf + 1) (kn - kf - 1)
      /\ (forall t, serializedFinalisedTx info = Some t -> tx_from t <> None)
      /\ forall e, e ∈ chain info ->
           kf < entryNonce e < kn
           /\ (forall t, entryTx e = Some t -> tx_from t <> None)
           /\ exists key,
                entryCert e = filter (fun v => voteTxHash v = key)
                                     (getVotes account (entryNonce e) s)
                /\ entryTx e = head (entryCert e) ≫= voteTx
                /\ NOTARISATION_QUORUM cfg <= distinctValidators (entryCert e)
                /\ forall other,
                     countQuorum (getVotes account (entryNonce e) s) other
                     <= distinctValidators (entryCert e)
  | Throw e =>
      (exists k, e = MissingNotarisation k /\ kf < k < kn
                 /\ (forall payload,
                       countQuorum (getVotes account k s) payload < NOTARISATION_QUORUM cfg)
                 /\ forall j, kf < j < k ->
                      exists payload,
                        NOTARISATION_QUORUM cfg <= countQuorum (getVotes account j s) payload)
      \/ (e = UnsignedSerialization
          /\ exists k v t, (k = kf \/ kf < k < kn) /\ v ∈ getVotes account k s
                           /\ serializedTx v = Some t /\ tx_from t = None)
  end.
Proof.
  intros Hnq kf kn. unfold getRecoveryInfo. fold kf kn.
  destruct (finalisedPart cfg account kf s) as [[ftx cf]|e] eqn:Efin.
  2:{ destruct (finalisedPart_Throw cfg account kf s e Efin) as (-> & _ & v & t & H).
      right. split; [reflexivity|]. exists kf, v, t. auto. }
  destruct (buildChain cfg account (seqZ (kf + 1) (kn - kf - 1)) s) as [entries|e] eqn:E.
  - destruct (buildChain_Ok cfg account _ s entries E) as [Hn Hall]. simpl.
    split; [reflexivity|]. split; [reflexivity|]. split; [exact Hn|]. split.
    { intros t ->. revert Efin. unfold finalisedPart.
      destruct (_ >=? _); [|discriminate].
      destruct (tx _) as [t0|]; [|discriminate]. destruct (cert _); [|discriminate].
      unfold serialized. destruct (tx_from t0) eqn:Hf; [|discriminate].
      intros [= <- _]. congruence. }
    intros e He. split; [|split].
    + assert (Hin : entryNonce e ∈ seqZ (kf + 1) (kn - kf - 1))
        by (rewrite <- Hn; apply list_elem_of_fmap_2; exact He).
      apply elem_of_seqZ in Hin. lia.
    + apply (Hall e He).
    + destruct (Hall e He) as (Hc & Ht & _). cbv zeta in Hc, Ht.
      destruct (getMaxQuorumCert_Some _ _ _ Hnq Hc) as (key & Hfil & Htx & _ & _ & Hmin & Hmax).
      exists key. split; [exact Hfil|]. split; [congruence|].
      split; [exact Hmin|exact Hmax].
  - destruct (buildChain_Throw cfg account _ s e E) as (before & k & after & Hks & Hb & Hk).
    assert (Hin : k ∈ seqZ (kf + 1) (kn - kf - 1))
      by (rewrite Hks; apply elem_of_app; right; left).
    apply elem_of_seqZ in Hin.
    destruct Hk as [[-> Hk]|[-> (t & Ht & Hfrom)]].
    + left. exists k. split; [reflexivity|]. split; [lia|]. split.
      * apply getMaxQuorumCert_None. exact Hk.
      * intros j Hj.
        assert (Hjb : j ∈ before).
        { apply (seqZ_split_before _ _ before after k j Hks); [apply elem_of_seqZ; lia|lia]. }
        specialize (Hb j Hjb).
        destruct (cert (getMaxQuorumCert (getVotes account j s) (NOTARISATION_QUORUM cfg)))
          as [vs|] eqn:Hc; [|congruence].
        destruct (getMaxQuorumCert_Some _ _ _ Hnq Hc) as (key & _ & _ & _ & Hq & Hmin & _).
        exists key. lia.
    + right. split; [reflexivity|].
      destruct (getMaxQuorumCert_tx_stored _ _ _ Ht) as (v & Hv & Hvt).
      exists k, v, t. split; [right; lia|auto].
Qed.

Lemma getRecoveryInfo_chain_witness :
  exists info,
    getRecoveryInfo Fixture.me Fixture.alice ReentryScenario.pendingAt1 = Ok info
    /\ entryNonce <$> chain info = [0].
Proof.
  assert (Hnq : 1 <= NOTARISATION_QUORUM Fixture.me) by (vm_compute; discriminate).
  pose proof (getRecoveryInfo_chain Fixture.me Fixture.alice ReentryScenario.pendingAt1 Hnq) as H.
  cbv zeta in H.
  destruct (getRecoveryInfo Fixture.me Fixture.alice ReentryScenario.pendingAt1)
    as [info|e] eqn:E.
  - exists info. split; [reflexivity|]. destruct H as (_ & _ & Hc & _). rewrite Hc.
    vm_compute. reflexivity.
  - exfalso. vm_compute in E. discriminate.
Defined.

(** ** Recovery information is always available *)

Lemma notarisedBelow_step (cfg : Config) (s s' : State) :
  (forall n k, storedVotes n k s `prefix_of` storedVotes n k s') ->
  (forall a k,
     finalised (getAccount a s') < k < nonce (getAccount a s') ->
     finalised (getAccount a s) < k < nonce (getAccount a s)
     \/ exists payload, NOTARISATION_QUORUM cfg <= countQuorum (getVotes a k s') payload) ->
  notarisedBelow cfg s -> notarisedBelow cfg s'.
Proof.
  intros Hstore Hrange Hinv a k Hk.
  destruct (Hrange a k Hk) as [Hold|Hnew]; [|exact Hnew].
  destruct (Hinv a k Hold) as [payload Hq]. exists payload.
  etransitivity; [exact Hq|]. apply countQuorum_prefix. apply Hstore.
Qed.

Lemma notarisedBelow_same (cfg : Config) (s s' : State) :
  (forall a, nonce (getAccount a s') = nonce (getAccount a s)
             /\ finalised (getAccount a s') = finalised (getAccount a s)) ->
  voteStore s' = voteStore s ->
  notarisedBelow cfg s -> notarisedBelow cfg s'.
Proof.
  intros Hacc Hstore. apply notarisedBelow_step.
  - intros n k. unfold storedVotes. rewrite Hstore. reflexivity.
  - intros a k Hk. left. destruct (Hacc a) as [<- <-]. exact Hk.
Qed.

Lemma getAccount_finaliseAt_other (acc a : address) (k : Z) (s : State) :
  toLowerCase acc <> toLowerCase a -> getAccount a (finaliseAt acc k s) = getAccount a s.
Proof.
  intros Hne. unfold finaliseAt. cbv zeta.
  destruct (_ >=? _); rewrite !getAccount_updateAccount; rewrite !decide_False by exact Hne;
    reflexivity.
Qed.

(** The state after "Handle finality": as before, up to balances, or with
    the closing writes made at a nonce above the finalised one. *)
Lemma handleFinality_state (cfg : Config) (acc : address) (k q : Z) (tx : option Transaction)
    (s : State) :
  let s' := snd (ValidatorCore.handleFinality cfg acc k q tx s) in
  (sameControl s s' /\ quiet s s')
  \/ (finalised (getAccount acc s) < k
      /\ exists s1, sameControl s s1 /\ quiet s s1 /\ s' = finaliseAt acc k s1).
Proof.
  cbv zeta. unfold ValidatorCore.handleFinality. msimpl.
  assert (Hsame : sameControl s s /\ quiet s s) by (split; [apply sameControl_refl|apply quiet_refl]).
  destruct tx as [tx'|]; [|left; exact Hsame].
  destruct ((q >=? FINALITY_QUORUM cfg) && (k >? finalised (getAccount acc s))) eqn:Hc;
    [|left; exact Hsame].
  apply andb_true_iff in Hc as [_ Hk]. apply Z.gtb_lt in Hk.
  msimpl. destruct (getTxChainStart tx') as [orig|e]; [|left; exact Hsame].
  destruct (_ || _); [|left; exact Hsame].
  destruct (Z.of_N (tx_nonce orig) =? finalised (getAccount acc s) + 1).
  - pose proof (sameControl_executeTransfer orig s) as Hctl.
    pose proof (quiet_executeTransfer orig s) as Hq.
    rewrite bind_run. destruct (executeTransfer orig s) as [[[]|e] s1]; simpl in *.
    + right. split; [lia|]. exists s1. split; [exact Hctl|]. split; [exact Hq|].
      msimpl. unfold finaliseAt. cbv zeta. destruct (_ >=? _); reflexivity.
    + left. split; assumption.
  - right. split; [lia|]. exists s. split; [apply sameControl_refl|]. split; [apply quiet_refl|].
    msimpl. unfold finaliseAt. cbv zeta. destruct (_ >=? _); reflexivity.
Qed.

Lemma notarisedBelow_handleFinality (cfg : Config) (acc : address) (k q : Z)
    (tx : option Transaction) (s : State) :
  notarisedBelow cfg s ->
  notarisedBelow cfg (snd (ValidatorCore.handleFinality cfg acc k q tx s)).
Proof.
  intros Hinv.
  destruct (handleFinality_state cfg acc k q tx s) as [[Hctl [Hst _]]|(Hk & s1 & Hctl & [Hst _] & ->)].
  - revert Hinv. apply notarisedBelow_same; [|exact Hst].
    intros a. destruct (Hctl a) as (H1 & _ & H3). auto.
  - assert (Hinv1 : notarisedBelow cfg s1).
    { revert Hinv. apply notarisedBelow_same; [|exact Hst].
      intros a. destruct (Hctl a) as (H1 & _ & H3). auto. }
    revert Hinv1. apply notarisedBelow_step.
    + intros n j. destruct (quiet_finaliseAt acc k s1) as [E _]. unfold storedVotes.
      rewrite E. reflexivity.
    + intros a j Hj. left.
      destruct (decide (toLowerCase acc = toLowerCase a)) as [E|E].
      * rewrite <- (getAccount_same_lower acc a _ E) in Hj.
        rewrite <- (getAccount_same_lower acc a s1 E).
        destruct (finalise_effect acc k s1) as (E1 & _ & E3 & E4).
        fold (finaliseAt acc k s1) in *. rewrite E1 in Hj.
        destruct (Hctl acc) as (_ & _ & Hf1).
        destruct (Z.le_gt_cases (nonce (getAccount acc s1)) k) as [Hle|Hgt].
        -- destruct (E3 Hle) as [En _]. lia.
        -- destruct (E4 Hgt) as [En _]. lia.
      * rewrite (getAccount_finaliseAt_other acc a k s1 E) in Hj. exact Hj.
Qed.

Lemma notarisedBelow_handleCurrentNonce (cfg : Config) (rec : Vote -> M unit)
    (acc account : address) (k : Z) (votes : list Vote) (s : State) :
  1 <= NOTARISATION_QUORUM cfg ->
  (forall v s0, storeKeyed s0 -> notarisedBelow cfg s0 -> notarisedBelow cfg (snd (rec v s0))) ->
  storeKeyed s ->
  votes `prefix_of` getVotes acc k s ->
  notarisedBelow cfg s ->
  notarisedBelow cfg
    (snd (ValidatorCore.handleCurrentNonce cfg rec acc account k
            (quorum (getMaxQuorumCert votes 1)) votes s)).
Proof.
  intros Hnq Hrec Hkeyed Hpre Hinv. unfold ValidatorCore.handleCurrentNonce. msimpl.
  destruct (Z.eqb_spec k (nonce (getAccount acc s))) as [Hk|]; [|exact Hinv].
  destruct (Z.ltb_spec (quorum (getMaxQuorumCert votes 1)) (NOTARISATION_QUORUM cfg)) as [Hq|Hq].
  - destruct (negb _); [|exact Hinv]. msimpl.
    set (s1 := updateAccount acc (setPending true) s).
    assert (Hinv1 : notarisedBelow cfg s1).
    { revert Hinv. apply notarisedBelow_same; [|reflexivity].
      intros a. subst s1. rewrite getAccount_updateAccount.
      destruct (decide _) as [E|E]; [|auto].
      rewrite (getAccount_same_lower acc a s E). auto. }
    assert (Hkeyed1 : storeKeyed s1) by exact Hkeyed.
    specialize (Hrec (signVote cfg account k None) s1 Hkeyed1 Hinv1).
    unfold bind. destruct (rec _ s1) as [[[]|e] s2]; simpl in *; exact Hrec.
  - destruct (pending (getAccount acc s)); [|exact Hinv]. simpl.
    revert Hinv. apply notarisedBelow_step; [intros n j; reflexivity|].
    intros a j Hj. rewrite getAccount_updateAccount in Hj.
    destruct (decide (toLowerCase acc = toLowerCase a)) as [E|E]; [|left; exact Hj].
    simpl in Hj. rewrite <- (getAccount_same_lower acc a s E).
    destruct (Z.eq_dec j k) as [->|Hne]; [|left; lia]. right.
    destruct (getMaxQuorumCert_spec votes) as [_ [(-> & Hq0 & _)|(v & Hv & Hqv & _)]].
    + simpl in *. lia.
    + exists (voteTxHash v). unfold getVotes at 1.
      rewrite storedVotes_updateAccount. fold (getVotes a k s).
      assert (Hsame : getVotes a k s = getVotes acc k s)
        by (unfold getVotes; rewrite E; reflexivity).
      rewrite Hsame. etransitivity; [|apply countQuorum_prefix; exact Hpre]. lia.
Qed.

Lemma notarisedBelow_onVote (cfg : Config) (fuel : nat) (vote : Vote) (s : State) :
  1 <= NOTARISATION_QUORUM cfg ->
  storeKeyed s -> notarisedBelow cfg s ->
  notarisedBelow cfg (snd (ValidatorCore.onVote cfg fuel vote s)).
Proof.
  intros Hnq. revert vote s. induction fuel as [|fuel IH]; intros vote s Hkeyed Hinv; simpl.
  - exact Hinv.
  - unfold ValidatorCore.onVoteBody.
    destruct (negb _); [exact Hinv|]. msimpl.
    destruct (ValidatorCore.alreadyVoted _ _); [exact Hinv|]. msimpl.
    set (n := toLowerCase (account vote)). set (k := voteNonce vote).
    set (s0 := pushVote n k vote s).
    assert (Hkeyed0 : storeKeyed s0) by (apply storeKeyed_pushVote; exact Hkeyed).
    assert (Hinv0 : notarisedBelow cfg s0).
    { revert Hinv. apply notarisedBelow_step.
      - intros n' k'. subst s0. rewrite storedVotes_pushVote.
        destruct (decide _) as [[= <- <-]|]; [apply prefix_app_r|]; reflexivity.
      - intros a j Hj. left. exact Hj. }
    destruct (_ && _); [|exact Hinv0].
    unfold ValidatorCore.processCertificateBody. rewrite bind_nonNull.
    destruct (head (storedVotes n k s0)) as [first|] eqn:Hhead; [|exact Hinv0].
    assert (Hfirst : first ∈ storedVotes n k s0) by (apply head_Some_elem_of; exact Hhead).
    destruct (Hkeyed0 n k first Hfirst) as [_ Hk1].
    assert (Hpre : storedVotes n k s0 `prefix_of` getVotes n (voteNonce first) s0).
    { rewrite Hk1. unfold getVotes. subst n. rewrite toLowerCase_idemp. reflexivity. }
    pose proof (notarisedBelow_handleCurrentNonce cfg (ValidatorCore.onVote cfg fuel) n
                  (toLowerCase (account first)) (voteNonce first) (storedVotes n k s0) s0
                  Hnq IH Hkeyed0 Hpre Hinv0) as H1.
    unfold bind.
    destruct (ValidatorCore.handleCurrentNonce _ _ _ _ _ _ _ s0) as [[[]|e] s1];
      simpl in *; [|exact H1].
    apply notarisedBelow_handleFinality. exact H1.
Qed.

Lemma notarisedBelow_run (cfg : Config) (fuel : nat) (calls : list Call) (s : State) :
  1 <= NOTARISATION_QUORUM cfg ->
  storeKeyed s -> notarisedBelow cfg s ->
  notarisedBelow cfg (ValidatorCore.run cfg fuel calls s).
Proof.
  intros Hnq. revert s. induction calls as [|c calls IH]; intros s Hkeyed Hinv; [exact Hinv|].
  change (ValidatorCore.run cfg fuel (c :: calls) s)
    with (ValidatorCore.run cfg fuel calls (ValidatorCore.step cfg fuel c s)).
  apply IH; [apply (storeKeyed_run cfg fuel [c] s Hkeyed)|].
  destruct c as [signedTx|vote]; simpl; [|apply notarisedBelow_onVote; assumption].
  destruct (ValidatorCore.validateTransaction cfg signedTx s) as [t|e] eqn:Hv;
    [|rewrite (onTransaction_rejected cfg fuel signedTx s e Hv); exact Hinv].
  destruct (onTransaction_run cfg fuel signedTx s t Hv) as (from & _ & _ & _ & Hrun).
  cbv zeta in Hrun. rewrite Hrun. clear Hrun.
  set (s1 := updateAccount (toLowerCase from) (setPending true) s).
  assert (Hinv1 : notarisedBelow cfg s1).
  { revert Hinv. apply notarisedBelow_same; [|reflexivity].
    intros a. subst s1. rewrite getAccount_updateAccount.
    destruct (decide _) as [E|E]; [|auto].
    rewrite (getAccount_same_lower _ a s E). auto. }
  pose proof (notarisedBelow_onVote cfg fuel
                (signVote cfg (toLowerCase from) (Z.of_N (tx_nonce t)) (Some t)) s1 Hnq
                Hkeyed Hinv1) as H2.
  destruct (ValidatorCore.onVote cfg fuel _ s1) as [[[]|e] s2]; simpl in *; exact H2.
Qed.

Lemma notarisedBelow_genesis (cfg : Config) (balances : list (address * Z)) :
  notarisedBelow cfg (genesis balances).
Proof.
  intros a k Hk. destruct (getAccount_genesis balances a) as (Hn & Hf & _). lia.
Qed.

(** X10 ([getRecoveryInfo] with [onVote], [processCertificate] and
    [onTransaction] of validator-core.ts). Under n >= 5f+1 and f >= 0, in
    every state reached from the constructor by [onTransaction] and [onVote]
    calls, [getRecoveryInfo] never throws the missing-certificate error:
    each nonce between the finalised and the current one was passed with a
    notarisation quorum for one payload in the store, and votes are never
    removed. It can only throw the serialisation error of [tx.serialized],
    and only when a stored vote of the account carries an unsigned
    transaction; when none does, it returns, with one chain entry for each
    nonce strictly between the finalised and the current one. *)
Theorem getRecoveryInfo_available (cfg : Config) (fuel : nat) (balances : list (address * Z))
    (calls : list Call) (account : address) :
  validParams cfg ->
  let s := ValidatorCore.run cfg fuel calls (genesis balances) in
  (forall e, getRecoveryInfo cfg account s = Throw e ->
     e = UnsignedSerialization
     /\ exists k v t, v ∈ getVotes account k s /\ serializedTx v = Some t /\ tx_from t = None)
  /\ ((forall k v t, v ∈ getVotes account k s -> serializedTx v = Some t -> tx_from t <> None) ->
      exists info,
        getRecoveryInfo cfg account s = Ok info
        /\ length (chain info)
           = Z.to_nat (nonce (getAccount account s) - finalised (getAccount account s) - 1)).
Proof.
  intros Hcfg s.
  assert (Hnq : 1 <= NOTARISATION_QUORUM cfg)
    by (destruct Hcfg; unfold NOTARISATION_QUORUM; lia).
  assert (Hinv : notarisedBelow cfg s).
  { apply notarisedBelow_run; [exact Hnq|apply storeKeyed_genesis|apply notarisedBelow_genesis]. }
  set (kf := finalised (getAccount account s)). set (kn := nonce (getAccount account s)).
  assert (Hcert : forall k, k ∈ seqZ (kf + 1) (kn - kf - 1) ->
            cert (getMaxQuorumCert (getVotes account k s) (NOTARISATION_QUORUM cfg)) <> None).
  { intros k Hk. apply elem_of_seqZ in Hk.
    destruct (Hinv account k) as [payload Hq]; [subst kf kn; lia|].
    intros Hnone. pose proof (getMaxQuorumCert_None _ _ Hnone payload). lia. }
  assert (Hthrow : forall e, getRecoveryInfo cfg account s = Throw e ->
            e = UnsignedSerialization
            /\ exists k v t, v ∈ getVotes account k s /\ serializedTx v = Some t
                             /\ tx_from t = None).
  { intros e. unfold getRecoveryInfo. fold kf kn.
    destruct (finalisedPart cfg account kf s) as [[ftx cf]|e0] eqn:Efin.
    - destruct (buildChain cfg account (seqZ (kf + 1) (kn - kf - 1)) s) as [entries|e1] eqn:E;
        [discriminate|].
      intros [= ->].
      destruct (buildChain_Throw cfg account _ s e E)
        as (before & k & after & Hks & _ & [[_ Hk]|[-> (t & Ht & Hfrom)]]).
      + exfalso. apply (Hcert k); [rewrite Hks; apply elem_of_app; right; left|exact Hk].
      + split; [reflexivity|].
        destruct (getMaxQuorumCert_tx_stored _ _ _ Ht) as (v & Hv & Hvt).
        exists k, v, t. auto.
    - intros [= ->].
      destruct (finalisedPart_Throw cfg account kf s e Efin) as (-> & _ & v & t & H).
      split; [reflexivity|]. exists kf, v, t. exact H. }
  split; [exact Hthrow|].
  intros Hsigned.
  destruct (getRecoveryInfo cfg account s) as [info|e] eqn:E.
  - exists info. split; [reflexivity|].
    revert E. unfold getRecoveryInfo. fold kf kn.
    destruct (finalisedPart cfg account kf s) as [[ftx cf]|e0]; [|discriminate].
    destruct (buildChain cfg account (seqZ (kf + 1) (kn - kf - 1)) s) as [entries|e1] eqn:E;
      [|discriminate].
    intros [= <-]. simpl.
    destruct (buildChain_Ok cfg account _ s entries E) as [Hn _].
    rewrite <- (length_fmap entryNonce), Hn, length_seqZ. reflexivity.
  - exfalso. destruct (Hthrow e eq_refl) as (_ & k & v & t & Hv & Ht & Hfrom).
    apply (Hsigned k v t Hv Ht Hfrom).
Qed.

Lemma getRecoveryInfo_available_witness :
  exists info,
    getRecoveryInfo Fixture.me Fixture.alice
      (ValidatorCore.run Fixture.me 2 Scenario.finalise0 (genesis [(Fixture.alice, 1000)]))
    = Ok info.
Proof.
  assert (Hcfg : validParams Fixture.me) by (split; vm_compute; discriminate).
  destruct (proj2 (getRecoveryInfo_available Fixture.me 2 [(Fixture.alice, 1000)]
                     Scenario.finalise0 Fixture.alice Hcfg)) as (info & E & _).
  - intros k v t Hv Ht.
    apply (storedPayload_votes
             (ValidatorCore.run Fixture.me 2 Scenario.finalise0 (genesis [(Fixture.alice, 1000)]))
             (fun t => tx_from t <> None)).
    + apply map_Forall_to_list. vm_compute.
      repeat constructor; intros ? [= <-] ?; discriminate.
    + exists (toLowerCase Fixture.alice), k, v. split; [exact Hv|exact Ht].
  - exists info. exact E.
Defined.

(** ** The later revision: relations kept by every handler *)

(** A relation between states that is kept by the single writes of the
    handlers is kept by the handlers of the later revision, whatever the
    depth of the re-entry. *)
Section ReentryPreserves.
Context (cfg : Config) (R : State -> State -> Prop).
Hypothesis R_refl : forall s, R s s.
Hypothesis R_trans : forall s1 s2 s3, R s1 s2 -> R s2 s3 -> R s1 s3.
Hypothesis R_pending : forall acc s, R s (updateAccount acc (setPending true) s).
Hypothesis R_push : forall n k v s, R s (pushVote n k v s).
Hypothesis R_castBot : forall a k s, R s (withBroadcast (signVote cfg a k None) s).
Hypothesis R_castTx :
  forall a k t s, R s (withBroadcast (signVote cfg a k (Some t)) s).
Hypothesis R_advance :
  forall acc s,
    pending (getAccount acc s) = true ->
    NOTARISATION_QUORUM cfg
    <= quorum (getMaxQuorumCert (getVotes acc (nonce (getAccount acc s)) s) 1) ->
    R s (updateAccount acc
           (fun a => setPending false (setNonce (nonce (getAccount acc s) + 1) a)) s).
Hypothesis R_finality :
  forall acc k q tx s, R s (snd (ValidatorCore.handleFinality cfg acc k q tx s)).

(** "Handle current nonce", called as the processor calls it: with the votes
    stored at the nonce and their largest quorum. *)
Lemma reentry_handleCurrentNonce (rec : Vote -> M unit) (account : address) (k : Z)
    (s : State) :
  (forall v, preserves R (rec v)) ->
  R s (snd (ValidatorCoreReentry.handleCurrentNonce cfg rec account k
              (quorum (getMaxQuorumCert (getVotes account k s) 1)) (getVotes account k s) s)).
Proof.
  intros Hrec. unfold ValidatorCoreReentry.handleCurrentNonce. msimpl.
  destruct (Z.eqb_spec k (nonce (getAccount account s))) as [Hk|]; [|apply R_refl].
  destruct (Z.ltb_spec (quorum (getMaxQuorumCert (getVotes account k s) 1))
              (NOTARISATION_QUORUM cfg)) as [Hq|Hq].
  - destruct (_ && _); [|apply R_refl]. msimpl.
    eapply R_trans; [apply R_pending|].
    apply preserves_bind; [exact R_trans|apply Hrec|intros _].
    apply preserves_bind; [exact R_trans| |intros _; apply preserves_ret, R_refl].
    apply preserves_modify. intros s0. apply R_castBot.
  - destruct (pending (getAccount account s)) eqn:Hp; [|apply R_refl]. msimpl.
    subst k. apply R_advance; assumption.
Qed.

Lemma reentry_handleFinality (account : address) (k q : Z) (tx : option Transaction) :
  preserves R (ValidatorCoreReentry.handleFinality cfg account k q tx).
Proof. intros s. rewrite handleFinality_same_state. apply R_finality. Qed.

Lemma reentry_processCertificateBody (rec : Vote -> M unit)
    (pc : address -> Z -> M unit) (account : address) (k : Z) :
  (forall v, preserves R (rec v)) ->
  (forall a j, preserves R (pc a j)) ->
  preserves R (ValidatorCoreReentry.processCertificateBody cfg rec pc account k).
Proof.
  intros Hrec Hpc s. unfold ValidatorCoreReentry.processCertificateBody. rewrite bind_gets.
  apply bind_at; [exact R_trans|apply reentry_handleCurrentNonce, Hrec|intros i1 _].
  apply preserves_bind; [exact R_trans|apply reentry_handleFinality|intros i2].
  destruct (_ || _); [|apply preserves_ret, R_refl].
  apply preserves_bind; [exact R_trans|apply preserves_gets, R_refl|intros acc]. apply Hpc.
Qed.

Lemma reentry_onVoteBody (pc : address -> Z -> M unit) (vote : Vote) :
  (forall a j, preserves R (pc a j)) ->
  preserves R (ValidatorCoreReentry.onVoteBody cfg pc vote).
Proof.
  intros Hpc. unfold ValidatorCoreReentry.onVoteBody.
  destruct (_ && _); [apply preserves_throw, R_refl|].
  apply preserves_bind; [exact R_trans|apply preserves_gets, R_refl|intros existing].
  destruct (ValidatorCore.alreadyVoted _ _); [apply preserves_ret, R_refl|].
  apply preserves_bind; [exact R_trans| |intros _; apply Hpc].
  apply preserves_modify. intros s. apply R_push.
Qed.

Lemma reentry_processCertificate (fuel : nat) (account : address) (k : Z) :
  preserves R (ValidatorCoreReentry.processCertificate cfg fuel account k).
Proof.
  revert account k. induction fuel as [|fuel IH]; intros account k; simpl.
  - apply preserves_throw, R_refl.
  - apply reentry_processCertificateBody; [|exact IH].
    intros v. apply reentry_onVoteBody. exact IH.
Qed.

Lemma reentry_onVote (fuel : nat) (vote : Vote) :
  preserves R (ValidatorCoreReentry.onVote cfg fuel vote).
Proof. apply reentry_onVoteBody. intros a j. apply reentry_processCertificate. Qed.

Lemma reentry_onTransaction (fuel : nat) (signedTx : TxData) :
  preserves R (ValidatorCoreReentry.onTransaction cfg fuel signedTx).
Proof.
  unfold ValidatorCoreReentry.onTransaction.
  apply preserves_bind; [exact R_trans|apply preserves_reads, R_refl|intros tx].
  apply preserves_bind; [exact R_trans|apply preserves_nonNull, R_refl|intros from].
  apply preserves_bind; [exact R_trans| |intros _].
  { apply preserves_modify. intros s. apply R_pending. }
  apply preserves_bind; [exact R_trans| |intros _].
  { unfold storeVote. apply preserves_modify. intros s. apply R_push. }
  apply preserves_bind; [exact R_trans|apply reentry_processCertificate|intros _].
  apply preserves_bind; [exact R_trans| |intros _; apply preserves_ret, R_refl].
  apply preserves_modify. intros s. apply R_castTx.
Qed.

Lemma reentry_run (fuel : nat) (calls : list Call) (s : State) :
  R s (ValidatorCoreReentry.run cfg fuel calls s).
Proof.
  revert s. induction calls as [|c calls IH]; intros s; simpl; [apply R_refl|].
  eapply R_trans; [|apply IH].
  destruct c; simpl; [apply reentry_onTransaction|apply reentry_onVote].
Qed.

End ReentryPreserves.

Lemma evolves_cast (v : Vote) (s : State) : evolves s (withBroadcast v s).
Proof. apply (evolves_broadcastVote v s). Qed.

Lemma evolves_pending (acc : address) (s : State) :
  evolves s (updateAccount acc (setPending true) s).
Proof. apply evolves_updateAccount. simpl. repeat split; auto; lia. Qed.

Lemma evolves_advance (acc : address) (s : State) :
  evolves s (updateAccount acc
               (fun a => setPending false (setNonce (nonce (getAccount acc s) + 1) a)) s).
Proof. apply evolves_updateAccount. simpl. repeat split; lia. Qed.

Lemma evolves_reentry_processCertificate (cfg : Config) (fuel : nat) (account : address)
    (k : Z) :
  preserves evolves (ValidatorCoreReentry.processCertificate cfg fuel account k).
Proof.
  apply (reentry_processCertificate cfg evolves evolves_refl evolves_trans evolves_pending
           evolves_pushVote).
  - intros a j s. apply evolves_cast.
  - intros acc s _ _. apply evolves_advance.
  - intros acc j q tx s. apply evolves_handleFinality.
Qed.

Lemma evolves_reentry_onVote (cfg : Config) (fuel : nat) (vote : Vote) :
  preserves evolves (ValidatorCoreReentry.onVote cfg fuel vote).
Proof.
  apply (reentry_onVote cfg evolves evolves_refl evolves_trans evolves_pending
           evolves_pushVote).
  - intros a j s. apply evolves_cast.
  - intros acc s _ _. apply evolves_advance.
  - intros acc j q tx s. apply evolves_handleFinality.
Qed.

Lemma evolves_reentry_run (cfg : Config) (fuel : nat) (calls : list Call) (s : State) :
  evolves s (ValidatorCoreReentry.run cfg fuel calls s).
Proof.
  apply (reentry_run cfg evolves evolves_refl evolves_trans evolves_pending
           evolves_pushVote).
  - intros a j s0. apply evolves_cast.
  - intros a j t s0. apply evolves_cast.
  - intros acc s0 _ _. apply evolves_advance.
  - intros acc j q tx s0. apply evolves_handleFinality.
Qed.

(** X11 (the later revision of [ValidatorCore] in client.ts: [onVote],
    [processCertificate] with its re-entry, [onTransaction]). With the
    verification of votes on ([skipVerification = false], so that every
    stored nonce is one [verifyVote] has packed as an integer): in the later
    revision too, through every sequence of calls from the constructor and
    at any depth of re-entry, no account's nonce or finalised nonce ever goes
    down, [finalised < nonce] holds throughout, and an account that is
    pending stays pending until its nonce moves. *)
Theorem reentry_nonce_finalised_monotone (cfg : Config) (fuel : nat)
    (balances : list (address * Z)) (calls1 calls2 : list Call) (a : address) :
  skipVerification cfg = false ->
  let s1 := ValidatorCoreReentry.run cfg fuel calls1 (genesis balances) in
  let s2 := ValidatorCoreReentry.run cfg fuel calls2 s1 in
  nonce (getAccount a s1) <= nonce (getAccount a s2)
  /\ finalised (getAccount a s1) <= finalised (getAccount a s2)
  /\ finalised (getAccount a s1) < nonce (getAccount a s1)
  /\ finalised (getAccount a s2) < nonce (getAccount a s2)
  /\ (nonce (getAccount a s2) = nonce (getAccount a s1) ->
      pending (getAccount a s1) = true -> pending (getAccount a s2) = true).
Proof.
  intros _ s1 s2.
  pose proof (evolves_reentry_run cfg fuel) as Hrun.
  destruct (Hrun calls1 (genesis balances) a) as (_ & _ & H1 & _).
  destruct (Hrun calls2 s1 a) as (H2 & H3 & H4 & H5).
  fold s1 in H1. fold s2 in H2, H3, H4, H5.
  destruct (getAccount_genesis balances a) as (Hn & Hf & _).
  assert (Hlt : finalised (getAccount a s1) < nonce (getAccount a s1)) by (apply H1; lia).
  repeat split; auto.
Qed.

Lemma reentry_nonce_finalised_monotone_witness :
  let s1 := ValidatorCoreReentry.run Fixture.me 5 ReentryScenario.calls
              (genesis [(Fixture.alice, 1000)]) in
  let s2 := ValidatorCoreReentry.run Fixture.me 5 [CallVote ReentryScenario.fifth] s1 in
  nonce (getAccount Fixture.alice s1) <= nonce (getAccount Fixture.alice s2)
  /\ finalised (getAccount Fixture.alice s1) <= finalised (getAccount Fixture.alice s2).
Proof.
  intros s1 s2.
  pose proof (reentry_nonce_finalised_monotone Fixture.me 5 [(Fixture.alice, 1000)]
                ReentryScenario.calls [CallVote ReentryScenario.fifth] Fixture.alice eq_refl)
    as (H1 & H2 & _).
  split; [exact H1|exact H2].
Defined.

(** ** The first revision: relations kept by every handler *)

Section CorePreserves.
Context (cfg : Config) (R : State -> State -> Prop).
Hypothesis R_refl : forall s, R s s.
Hypothesis R_trans : forall s1 s2 s3, R s1 s2 -> R s2 s3 -> R s1 s3.
Hypothesis R_pending : forall acc s, R s (updateAccount acc (setPending true) s).
Hypothesis R_push : forall n k v s, R s (pushVote n k v s).
Hypothesis R_cast : forall a k t s, R s (withBroadcast (signVote cfg a k t) s).
Hypothesis R_advance :
  forall acc s,
    pending (getAccount acc s) = true ->
    R s (updateAccount acc
           (fun a => setPending false (setNonce (nonce (getAccount acc s) + 1) a)) s).
Hypothesis R_finality :
  forall acc k q tx s, R s (snd (ValidatorCore.handleFinality cfg acc k q tx s)).

Lemma core_processCertificateBody (rec : Vote -> M unit) (acc : address)
    (votes : list Vote) :
  (forall v, preserves R (rec v)) ->
  preserves R (ValidatorCore.processCertificateBody cfg rec acc votes).
Proof.
  intros Hrec. unfold ValidatorCore.processCertificateBody.
  apply preserves_bind; [exact R_trans|apply preserves_nonNull, R_refl|intros first].
  apply preserves_bind; [exact R_trans| |intros _; intros s; apply R_finality].
  intros s. unfold ValidatorCore.handleCurrentNonce. msimpl.
  destruct (Z.eqb_spec (voteNonce first) (nonce (getAccount acc s))) as [Hk|]; [|apply R_refl].
  destruct (_ <? _).
  - destruct (negb _); [|apply R_refl]. msimpl.
    eapply R_trans; [apply R_pending|].
    apply preserves_bind; [exact R_trans|apply Hrec|intros _].
    apply preserves_modify. intros s0. apply R_cast.
  - destruct (pending (getAccount acc s)) eqn:Hp; [|apply R_refl].
    rewrite Hk. apply R_advance. exact Hp.
Qed.

Lemma core_onVote (fuel : nat) (vote : Vote) :
  preserves R (ValidatorCore.onVote cfg fuel vote).
Proof.
  revert vote. induction fuel as [|fuel IH]; intros vote; simpl.
  - apply preserves_throw, R_refl.
  - unfold ValidatorCore.onVoteBody.
    destruct (negb _); [apply preserves_throw, R_refl|].
    apply preserves_bind; [exact R_trans|apply preserves_gets, R_refl|intros existing].
    destruct (ValidatorCore.alreadyVoted _ _); [apply preserves_ret, R_refl|].
    apply preserves_bind; [exact R_trans| |intros _].
    { apply preserves_modify. intros s. apply R_push. }
    apply preserves_bind; [exact R_trans|apply preserves_gets, R_refl|intros existing'].
    apply preserves_bind; [exact R_trans|apply preserves_gets, R_refl|intros a].
    destruct (_ && _); [|apply preserves_ret, R_refl].
    apply core_processCertificateBody. exact IH.
Qed.

Lemma core_onTransaction (fuel : nat) (signedTx : TxData) :
  preserves R (ValidatorCore.onTransaction cfg fuel signedTx).
Proof.
  unfold ValidatorCore.onTransaction.
  apply preserves_bind; [exact R_trans|apply preserves_reads, R_refl|intros tx].
  apply preserves_bind; [exact R_trans|apply preserves_nonNull, R_refl|intros from].
  apply preserves_bind; [exact R_trans| |intros _].
  { apply preserves_modify. intros s. apply R_pending. }
  apply preserves_bind; [exact R_trans|apply core_onVote|intros _].
  apply preserves_bind; [exact R_trans| |intros _; apply preserves_ret, R_refl].
  apply preserves_modify. intros s. apply R_cast.
Qed.

Lemma core_run (fuel : nat) (calls : list Call) (s : State) :
  R s (ValidatorCore.run cfg fuel calls s).
Proof.
  revert s. induction calls as [|c calls IH]; intros s; simpl; [apply R_refl|].
  eapply R_trans; [|apply IH].
  destruct c; simpl; [apply core_onTransaction|apply core_onVote].
Qed.

End CorePreserves.

(** ** The sum of the balances *)

Lemma totalBalance_insert (m : gmap address AccountState) (k : address) (x : AccountState) :
  map_fold (fun _ a total => balance a + total) 0 (<[k := x]> m)
  = map_fold (fun _ a total => balance a + total) 0 m
    - balance (default newAccount (m !! k)) + balance x.
Proof.
  assert (Hfresh : forall (m0 : gmap address AccountState) y,
             m0 !! k = None ->
             map_fold (fun _ a total => balance a + total) 0 (<[k := y]> m0)
             = balance y + map_fold (fun _ a total => balance a + total) 0 m0).
  { intros m0 y Hnone.
    apply (map_fold_insert_L (fun (_ : address) (a : AccountState) total => balance a + total));
      [|exact Hnone].
    intros. lia. }
  destruct (m !! k) as [y|] eqn:E; simpl.
  - rewrite <- (insert_delete_eq m k x).
    rewrite <- (insert_delete_id m k y E) at 2.
    rewrite !Hfresh by apply lookup_delete_eq. lia.
  - rewrite Hfresh by exact E. lia.
Qed.

Lemma totalBalance_updateAccount (acc : address) (f : AccountState -> AccountState)
    (s : State) :
  totalBalance (updateAccount acc f s)
  = totalBalance s - balance (getAccount acc s) + balance (f (getAccount acc s)).
Proof. unfold totalBalance, updateAccount, getAccount. simpl. apply totalBalance_insert. Qed.

Lemma sameTotal_refl (s : State) : sameTotal s s.
Proof. reflexivity. Qed.

Lemma sameTotal_trans (s1 s2 s3 : State) : sameTotal s1 s2 -> sameTotal s2 s3 -> sameTotal s1 s3.
Proof. unfold sameTotal. congruence. Qed.

Lemma sameTotal_updateAccount (acc : address) (f : AccountState -> AccountState) (s : State) :
  (forall x, balance (f x) = balance x) -> sameTotal s (updateAccount acc f s).
Proof. intros H. unfold sameTotal. rewrite totalBalance_updateAccount, H. lia. Qed.

Lemma sameTotal_executeTransfer (tx : Transaction) : preserves sameTotal (executeTransfer tx).
Proof.
  intros s. unfold executeTransfer. rewrite !bind_nonNull.
  destruct (tx_from tx) as [sender|]; [|apply sameTotal_refl].
  rewrite bind_nonNull. destruct (tx_to tx) as [recipient|]; [|apply sameTotal_refl].
  rewrite bind_modify. unfold modify, sameTotal. simpl.
  rewrite !totalBalance_updateAccount.
  rewrite (getAccount_updateAccount recipient sender).
  destruct (decide _) as [E|E]; simpl; lia.
Qed.

Lemma sameTotal_handleFinality (cfg : Config) (acc : address) (k q : Z)
    (tx : option Transaction) :
  preserves sameTotal (ValidatorCore.handleFinality cfg acc k q tx).
Proof.
  unfold ValidatorCore.handleFinality.
  apply preserves_bind; [apply sameTotal_trans|apply preserves_gets, sameTotal_refl|intros a].
  destruct tx as [tx'|]; [|apply preserves_ret, sameTotal_refl].
  destruct (_ && _); [|apply preserves_ret, sameTotal_refl].
  apply preserves_bind; [apply sameTotal_trans|apply preserves_liftResult, sameTotal_refl|intros orig].
  destruct (_ || _); [|apply preserves_ret, sameTotal_refl].
  apply preserves_bind; [apply sameTotal_trans| |intros _].
  { destruct (_ =? _); [apply sameTotal_executeTransfer|apply preserves_ret, sameTotal_refl]. }
  apply preserves_bind; [apply sameTotal_trans| |intros _].
  { apply preserves_modify. intros s. apply sameTotal_updateAccount. reflexivity. }
  apply preserves_bind; [apply sameTotal_trans|apply preserves_gets, sameTotal_refl|intros a'].
  destruct (_ >=? _); [|apply preserves_ret, sameTotal_refl].
  apply preserves_modify. intros s. apply sameTotal_updateAccount. reflexivity.
Qed.

Lemma sameTotal_classic_processCertificate (cfg : Config) (account : address) (k : Z) :
  preserves sameTotal (ClassicValidatorCore.processCertificate cfg account k).
Proof.
  unfold ClassicValidatorCore.processCertificate.
  apply preserves_bind; [apply sameTotal_trans|apply preserves_gets, sameTotal_refl|intros acc].
  apply preserves_bind; [apply sameTotal_trans|apply preserves_gets, sameTotal_refl|intros votes].
  destruct (ClassicValidatorCore.getMaxQuorumCert votes) as [q [t|]];
    [|apply preserves_ret, sameTotal_refl].
  destruct (_ && _); [|apply preserves_ret, sameTotal_refl].
  apply preserves_bind; [apply sameTotal_trans|apply sameTotal_executeTransfer|intros _].
  apply preserves_modify. intros s. apply sameTotal_updateAccount. reflexivity.
Qed.

Lemma sameTotal_classic_step (cfg : Config) (c : Call) (s : State) :
  sameTotal s (ClassicValidatorCore.step cfg c s).
Proof.
  destruct c as [signedTx|vote]; simpl.
  - unfold ClassicValidatorCore.onTransaction.
    apply preserves_bind; [apply sameTotal_trans|apply preserves_reads, sameTotal_refl|intros tx].
    apply preserves_bind; [apply sameTotal_trans|apply preserves_nonNull, sameTotal_refl|intros from].
    apply preserves_bind; [apply sameTotal_trans| |intros _].
    { apply preserves_modify. intros s0. apply sameTotal_updateAccount. reflexivity. }
    apply preserves_bind; [apply sameTotal_trans| |intros _].
    { unfold storeVote. apply preserves_modify. intros s0. reflexivity. }
    apply preserves_bind;
      [apply sameTotal_trans|apply sameTotal_classic_processCertificate|intros _].
    apply preserves_bind; [apply sameTotal_trans| |intros _; apply preserves_ret, sameTotal_refl].
    apply preserves_modify. intros s0. reflexivity.
  - unfold ClassicValidatorCore.onVote.
    destruct (_ && _); [apply preserves_throw, sameTotal_refl|].
    apply preserves_bind; [apply sameTotal_trans|apply preserves_gets, sameTotal_refl|intros ex].
    destruct (existsb _ _); [apply preserves_ret, sameTotal_refl|].
    apply preserves_bind;
      [apply sameTotal_trans| |intros _; apply sameTotal_classic_processCertificate].
    apply preserves_modify. intros s0. reflexivity.
Qed.

(** X12 ([executeTransfer] and every handler that reaches it, in
    validator-core.ts, in the later revision and in
    classic-validator-core.ts). No call creates or destroys value: through
    every sequence of [onTransaction] and [onVote] calls, whether they return
    or throw, the sum of the balances of all accounts stays what it was, in
    each of the three cores. *)
Theorem total_balance_conserved (cfg : Config) (fuel : nat) (calls : list Call) (s : State) :
  totalBalance (ValidatorCore.run cfg fuel calls s) = totalBalance s
  /\ totalBalance (ValidatorCoreReentry.run cfg fuel calls s) = totalBalance s
  /\ totalBalance (ClassicValidatorCore.run cfg calls s) = totalBalance s.
Proof.
  assert (Hp : forall acc s0, sameTotal s0 (updateAccount acc (setPending true) s0))
    by (intros; apply sameTotal_updateAccount; reflexivity).
  assert (Ha : forall acc s0,
             pending (getAccount acc s0) = true ->
             sameTotal s0
               (updateAccount acc
                  (fun a => setPending false (setNonce (nonce (getAccount acc s0) + 1) a)) s0))
    by (intros; apply sameTotal_updateAccount; reflexivity).
  split; [|split].
  - apply (core_run cfg sameTotal); try assumption.
    + apply sameTotal_refl.
    + apply sameTotal_trans.
    + reflexivity.
    + reflexivity.
    + intros acc k q tx s0. apply sameTotal_handleFinality.
  - apply (reentry_run cfg sameTotal sameTotal_refl sameTotal_trans Hp).
    + reflexivity.
    + reflexivity.
    + reflexivity.
    + intros acc s0 Hpend _. apply Ha. exact Hpend.
    + intros acc k q tx s0. apply sameTotal_handleFinality.
  - revert s. induction calls as [|c calls IH]; intros s; [reflexivity|].
    simpl. etransitivity; [apply IH|]. apply sameTotal_classic_step.
Qed.

(** ** The classic core: nonce and finalised nonce move together *)

Lemma classicStep_refl (s : State) : classicStep s s.
Proof. split; [auto|intros a; lia]. Qed.

Lemma classicStep_trans (s1 s2 s3 : State) :
  classicStep s1 s2 -> classicStep s2 s3 -> classicStep s1 s3.
Proof.
  intros [H1 N1] [H2 N2]. split; [auto|]. intros a. specialize (N1 a). specialize (N2 a). lia.
Qed.

Lemma classicStep_sameControl (s s' : State) : sameControl s s' -> classicStep s s'.
Proof.
  intros H. split.
  - intros Hinv a. destruct (H a) as (-> & _ & ->). apply Hinv.
  - intros a. destruct (H a) as (-> & _). lia.
Qed.

Lemma classicStep_accounts (s s' : State) : accounts s' = accounts s -> classicStep s s'.
Proof.
  intros E.
  assert (H : forall a, getAccount a s' = getAccount a s)
    by (intros a; unfold getAccount; rewrite E; reflexivity).
  split; [intros Hinv a; rewrite H; apply Hinv|intros a; rewrite H; lia].
Qed.

Lemma classicStep_updateAccount (acc : address) (f : AccountState -> AccountState)
    (s : State) :
  (forall x, nonce (f x) = nonce x /\ finalised (f x) = finalised x) ->
  classicStep s (updateAccount acc f s).
Proof.
  intros H.
  assert (Hsame : forall a, nonce (getAccount a (updateAccount acc f s)) = nonce (getAccount a s)
                            /\ finalised (getAccount a (updateAccount acc f s))
                               = finalised (getAccount a s)).
  { intros a. rewrite getAccount_updateAccount.
    destruct (decide _) as [E|E]; [|auto].
    rewrite (getAccount_same_lower acc a s E). apply H. }
  split.
  - intros Hinv a. destruct (Hsame a) as [-> ->]. apply Hinv.
  - intros a. destruct (Hsame a) as [-> _]. lia.
Qed.

Lemma classicStep_finalise (acc : address) (s : State) :
  classicStep s
    (updateAccount acc
       (fun a => setPending false
                   (setNonce (nonce (getAccount acc s) + 1)
                      (setFinalised (nonce (getAccount acc s)) a))) s).
Proof.
  split.
  - intros Hinv a. rewrite getAccount_updateAccount.
    destruct (decide _); [|apply Hinv]. simpl. destruct (Hinv acc). lia.
  - intros a. rewrite getAccount_updateAccount.
    destruct (decide _) as [E|E]; [|lia]. simpl.
    rewrite (getAccount_same_lower acc a s E). lia.
Qed.

Lemma classicStep_processCertificate (cfg : Config) (account : address) (k : Z) :
  preserves classicStep (ClassicValidatorCore.processCertificate cfg account k).
Proof.
  intros s. unfold ClassicValidatorCore.processCertificate. msimpl.
  destruct (ClassicValidatorCore.getMaxQuorumCert _) as [q [t|]]; [|apply classicStep_refl].
  destruct (Z.eqb_spec k (nonce (getAccount account s))) as [Hk|]; [|apply classicStep_refl].
  destruct (_ >=? _); [|apply classicStep_refl]. cbn [andb].
  apply bind_at; [apply classicStep_trans| |intros [] _].
  - apply classicStep_sameControl. apply sameControl_executeTransfer.
  - set (s1 := snd (executeTransfer t s)). msimpl.
    destruct (sameControl_executeTransfer t s account) as (Hn & _). fold s1 in Hn.
    rewrite Hk, <- Hn. apply classicStep_finalise.
Qed.

Lemma classicStep_step (cfg : Config) (c : Call) (s : State) :
  classicStep s (ClassicValidatorCore.step cfg c s).
Proof.
  destruct c as [signedTx|vote]; simpl.
  - unfold ClassicValidatorCore.onTransaction.
    apply preserves_bind; [apply classicStep_trans|apply preserves_reads, classicStep_refl|intros tx].
    apply preserves_bind; [apply classicStep_trans|apply preserves_nonNull, classicStep_refl|intros from].
    apply preserves_bind; [apply classicStep_trans| |intros _].
    { apply preserves_modify. intros s0. apply classicStep_updateAccount. auto. }
    apply preserves_bind; [apply classicStep_trans| |intros _].
    { unfold storeVote. apply preserves_modify. intros s0. apply classicStep_accounts. reflexivity. }
    apply preserves_bind;
      [apply classicStep_trans|apply classicStep_processCertificate|intros _].
    apply preserves_bind;
      [apply classicStep_trans| |intros _; apply preserves_ret, classicStep_refl].
    apply preserves_modify. intros s0. apply classicStep_accounts. reflexivity.
  - unfold ClassicValidatorCore.onVote.
    destruct (_ && _); [apply preserves_throw, classicStep_refl|].
    apply preserves_bind; [apply classicStep_trans|apply preserves_gets, classicStep_refl|intros ex].
    destruct (existsb _ _); [apply preserves_ret, classicStep_refl|].
    apply preserves_bind;
      [apply classicStep_trans| |intros _; apply classicStep_processCertificate].
    apply preserves_modify. intros s0. apply classicStep_accounts. reflexivity.
Qed.

Lemma tracksFinalised_genesis (balances : list (address * Z)) :
  tracksFinalised (genesis balances).
Proof. intros a. destruct (getAccount_genesis balances a) as (-> & -> & _). lia. Qed.

Lemma classicStep_run (cfg : Config) (calls : list Call) (s : State) :
  classicStep s (ClassicValidatorCore.run cfg calls s).
Proof.
  revert s. induction calls as [|c calls IH]; intros s; simpl; [apply classicStep_refl|].
  eapply classicStep_trans; [apply classicStep_step|apply IH].
Qed.

(** X13 ([processCertificate], [onVote] and [onTransaction] of
    classic-validator-core.ts). In the classic core the nonce of an account
    is always one above its finalised nonce: the two are only written
    together, when a transfer is executed at the current nonce. In every
    state reached from the constructor, for every account,
    [nonce = finalised + 1] and the nonce is not negative; and no later call
    lowers a nonce. *)
Theorem classic_nonce_follows_finalised (cfg : Config) (balances : list (address * Z))
    (calls more : list Call) (a : address) :
  let s := ClassicValidatorCore.run cfg calls (genesis balances) in
  nonce (getAccount a s) = finalised (getAccount a s) + 1
  /\ 0 <= nonce (getAccount a s)
  /\ nonce (getAccount a s) <= nonce (getAccount a (ClassicValidatorCore.run cfg more s)).
Proof.
  intros s.
  destruct (classicStep_run cfg calls (genesis balances)) as [Hinv _].
  specialize (Hinv (tracksFinalised_genesis balances) a). fold s in Hinv.
  destruct (classicStep_run cfg more s) as [_ Hmono].
  destruct Hinv as [H1 H2]. split; [exact H1|]. split; [exact H2|apply Hmono].
Qed.

(** ** The client's choice of a tip *)

Lemma bestResponse_max (first : RecoveryInfo) (rest : list RecoveryInfo) :
  Client.bestResponse first rest ∈ first :: rest
  /\ forall r, r ∈ first :: rest ->
       currentNonce r <= currentNonce (Client.bestResponse first rest).
Proof.
  unfold Client.bestResponse. revert first.
  induction rest as [|x rest IH]; intros first; simpl.
  - split; [left|]. intros r Hr. apply list_elem_of_singleton in Hr as ->. lia.
  - destruct (Z.gtb_spec (currentNonce x) (currentNonce first)) as [Hgt|Hle].
    + destruct (IH x) as [Hin Hmax]. split; [right; exact Hin|].
      intros r Hr. apply elem_of_cons in Hr as [->|Hr]; [|apply Hmax; exact Hr].
      specialize (Hmax x (list_elem_of_here _ _)). lia.
    + destruct (IH first) as [Hin Hmax]. split.
      * apply elem_of_cons in Hin as [->|Hin]; [left|right; right; exact Hin].
      * intros r Hr. apply elem_of_cons in Hr as [->|Hr]; [apply Hmax; left|].
        apply elem_of_cons in Hr as [->|Hr]; [|apply Hmax; right; exact Hr].
        specialize (Hmax first (list_elem_of_here _ _)). lia.
Qed.

Lemma lastTransaction_Some (entries : list ChainEntry) (t : Transaction) :
  Client.lastTransaction (reverse entries) = Some t ->
  exists before e after,
    entries = before ++ e :: after /\ entryTx e = Some t
    /\ Forall (fun x => entryTx x = None) after.
Proof.
  induction entries as [|x entries IH] using rev_ind; [discriminate|].
  rewrite reverse_app. simpl. destruct (entryTx x) as [t'|] eqn:Hx.
  - intros [= ->]. exists entries, x, []. auto.
  - intros H. destruct (IH H) as (before & e & after & -> & He & Hafter).
    exists before, e, (after ++ [x]). split; [rewrite <- app_assoc; reflexivity|].
    split; [exact He|]. apply Forall_app. split; [exact Hafter|]. repeat constructor. exact Hx.
Qed.

Lemma lastTransaction_None (entries : list ChainEntry) :
  Client.lastTransaction (reverse entries) = None ->
  Forall (fun x => entryTx x = None) entries.
Proof.
  induction entries as [|x entries IH] using rev_ind; [constructor|].
  rewrite reverse_app. simpl. destruct (entryTx x) as [t'|] eqn:Hx; [discriminate|].
  intros H. apply Forall_app. split; [apply IH; exact H|]. repeat constructor. exact Hx.
Qed.

(** X14 ([findTipTransaction] of the [Client] in client.ts). Without a
    response the client keeps its own nonce and finds no tip. Otherwise the
    nonce it returns is the current nonce of one of the responses and no
    response has a higher one; the tip is the transaction of the last entry
    of that response's chain that is not bot, and, when every entry is bot
    (or the chain is empty), the response's finalised transaction, if any. *)
Theorem findTipTransaction_picks_last_transaction (ownNonce : Z) (first : RecoveryInfo)
    (rest : list RecoveryInfo) :
  Client.findTipTransaction ownNonce [] = (None, ownNonce)
  /\ exists best,
       best ∈ first :: rest
       /\ (forall r, r ∈ first :: rest -> currentNonce r <= currentNonce best)
       /\ snd (Client.findTipTransaction ownNonce (first :: rest)) = currentNonce best
       /\ ((exists before e after,
              chain best = before ++ e :: after
              /\ Forall (fun x => entryTx x = None) after
              /\ entryTx e <> None
              /\ fst (Client.findTipTransaction ownNonce (first :: rest)) = entryTx e)
           \/ (Forall (fun x => entryTx x = None) (chain best)
               /\ fst (Client.findTipTransaction ownNonce (first :: rest))
                  = serializedFinalisedTx best)).
Proof.
  split; [reflexivity|]. exists (Client.bestResponse first rest).
  destruct (bestResponse_max first rest) as [Hin Hmax].
  split; [exact Hin|]. split; [exact Hmax|]. split; [reflexivity|].
  unfold Client.findTipTransaction. cbv zeta. cbn [fst].
  destruct (Client.lastTransaction (reverse (chain (Client.bestResponse first rest))))
    as [t|] eqn:E.
  - left. destruct (lastTransaction_Some _ t E) as (before & e & after & Hc & He & Hafter).
    exists before, e, after. rewrite He. split; [exact Hc|]. split; [exact Hafter|].
    split; [discriminate|reflexivity].
  - right. split; [apply lastTransaction_None; exact E|reflexivity].
Qed.

(** ** The client's recovery transaction at the validator *)

Lemma certificate_for_transaction (votes vs : list Vote) (m : Z) (t : Transaction) :
  1 <= m ->
  cert (getMaxQuorumCert votes m) = Some vs ->
  tx (getMaxQuorumCert votes m) = Some t ->
  m <= countQuorum votes (tx_hash t)
  /\ exists v, v ∈ votes /\ serializedTx v = Some t.
Proof.
  intros Hm Hc Ht.
  destruct (getMaxQuorumCert_Some votes vs m Hm Hc) as (key & Hfil & Htx & _ & Hq & Hmin & _).
  rewrite Ht in Htx. destruct vs as [|v0 vs']; [discriminate|]. simpl in Htx.
  assert (Hv0 : v0 ∈ filter (fun v => voteTxHash v = key) votes) by (rewrite <- Hfil; left).
  apply list_elem_of_filter in Hv0 as [Hk Hin].
  unfold voteTx in Htx. unfold voteTxHash in Hk. rewrite <- Htx in Hk. subst key.
  split; [lia|]. exists v0. auto.
Qed.

Lemma certificate_for_bot (votes vs : list Vote) (m : Z) :
  1 <= m ->
  cert (getMaxQuorumCert votes m) = Some vs ->
  tx (getMaxQuorumCert votes m) = None ->
  m <= countQuorum votes None.
Proof.
  intros Hm Hc Ht.
  destruct (getMaxQuorumCert_Some votes vs m Hm Hc) as (key & Hfil & Htx & _ & Hq & Hmin & _).
  rewrite Ht in Htx. destruct vs as [|v0 vs'].
  - unfold distinctValidators in Hmin. simpl in Hmin. lia.
  - simpl in Htx.
    assert (Hv0 : v0 ∈ filter (fun v => voteTxHash v = key) votes) by (rewrite <- Hfil; left).
    apply list_elem_of_filter in Hv0 as [Hk Hin].
    unfold voteTx in Htx. unfold voteTxHash in Hk. rewrite <- Htx in Hk. subst key. lia.
Qed.

(** In a chain whose nonces are consecutive, the entries after an entry are
    those of the higher nonces. *)
Lemma chain_after (entries before after : list ChainEntry) (e : ChainEntry) (m len k : Z) :
  entryNonce <$> entries = seqZ m len ->
  entries = before ++ e :: after ->
  entryNonce e < k < m + len ->
  exists e', e' ∈ after /\ entryNonce e' = k.
Proof.
  intros Hn -> Hk.
  assert (Hin : k ∈ seqZ m len).
  { apply elem_of_seqZ. split; [|lia].
    assert (He : entryNonce e ∈ seqZ m len).
    { rewrite <- Hn. apply list_elem_of_fmap_2. apply elem_of_app. right. left. }
    apply elem_of_seqZ in He. lia. }
  rewrite <- Hn in Hin. apply list_elem_of_fmap in Hin as (e' & Hk' & Hin).
  apply list_elem_of_lookup in Hin as [i Hi].
  assert (Hpos : forall j x, (before ++ e :: after) !! j = Some x ->
                             entryNonce x = m + Z.of_nat j).
  { intros j x Hx.
    assert (H : (entryNonce <$> before ++ e :: after) !! j = Some (entryNonce x))
      by (rewrite list_lookup_fmap, Hx; reflexivity).
    rewrite Hn in H. apply lookup_seqZ in H. tauto. }
  assert (He : entryNonce e = m + Z.of_nat (length before)).
  { apply Hpos. rewrite lookup_app_r by lia. rewrite Nat.sub_diag. reflexivity. }
  pose proof (Hpos i e' Hi) as Hi'.
  assert (Hgt : (length before < i)%nat) by lia.
  exists e'. split; [|congruence].
  rewrite lookup_app_r in Hi by lia.
  destruct (i - length before)%nat as [|j] eqn:Ej; [lia|]. simpl in Hi.
  apply list_elem_of_lookup. exists j. exact Hi.
Qed.

(** X15 ([getRecoveryInfo] and [validateRecovery] of validator-core.ts with
    [findTipTransaction] and [initiateRecovery] of the [Client] in
    client.ts). Under n >= 5f+1 and f >= 0: when the client builds its
    recovery transaction from the answer of a validator (to the recovery
    contract, at the current nonce of the answer, with the tip found in the
    answer as data), the tip is signed by the client and the votes for the
    tip in that validator's store sit at the tip's own nonce, then that
    validator's [validateRecovery] accepts the transaction; and its
    [onTransaction] checks pass as well when the account is not pending. *)
Theorem client_recovery_accepted (cfg : Config) (account client : address) (ownNonce : Z)
    (s : State) (info : RecoveryInfo) (t : Transaction) (n : Z) :
  validParams cfg ->
  getRecoveryInfo cfg account s = Ok info ->
  Client.findTipTransaction ownNonce [info] = (Some t, n) ->
  toLowerCase client = toLowerCase account ->
  toLowerCase <$> tx_from t = Some (toLowerCase client) ->
  (forall j v, v ∈ getVotes account j s -> serializedTx v = Some t -> Z.of_N (tx_nonce t) = j) ->
  0 <= nonce (getAccount account s) ->
  let recovery := Client.recoveryTransaction client n t in
  n = nonce (getAccount account s)
  /\ ValidatorCore.validateRecovery cfg recovery s = Ok tt
  /\ (pending (getAccount account s) = false ->
      ValidatorCore.validateTransaction cfg (DataTx recovery) s = Ok recovery).
Proof.
  intros Hcfg Hinfo Htip Hclient Hfrom Hhonest Hnonneg recovery.
  pose proof (quorums_ordered cfg Hcfg) as Hord.
  assert (Hnq : 1 <= NOTARISATION_QUORUM cfg)
    by (destruct Hcfg; unfold NOTARISATION_QUORUM; lia).
  assert (Hvotes : forall k, getVotes client k s = getVotes account k s)
    by (intros k; unfold getVotes; rewrite Hclient; reflexivity).
  unfold getRecoveryInfo in Hinfo.
  set (kf := finalised (getAccount account s)) in *.
  set (kn := nonce (getAccount account s)) in *.
  destruct (finalisedPart cfg account kf s) as [[ftx cf]|e] eqn:Efin; [|discriminate].
  destruct (buildChain cfg account (seqZ (kf + 1) (kn - kf - 1)) s) as [entries|e] eqn:E;
    [|discriminate].
  destruct (buildChain_Ok cfg account _ s entries E) as [Hnonces Hentries].
  injection Hinfo as <-. unfold Client.findTipTransaction, Client.bestResponse in Htip.
  cbn [fold_left chain currentNonce serializedFinalisedTx] in Htip.
  assert (Hn : n = kn) by (injection Htip as _ <-; reflexivity).
  assert (Hbot : forall e, e ∈ entries -> entryTx e = None ->
                   NOTARISATION_QUORUM cfg
                   <= countQuorum (getVotes account (entryNonce e) s) None).
  { intros e He Hnone. destruct (Hentries e He) as (Hc & Ht & _). cbv zeta in Hc, Ht.
    apply (certificate_for_bot _ (entryCert e)); [exact Hnq|exact Hc|congruence]. }
  assert (Hcond : recoveryConditions cfg recovery s).
  { exists t, client. split; [reflexivity|]. split; [reflexivity|]. split; [exact Hfrom|].
    destruct (Client.lastTransaction (reverse entries)) as [t'|] eqn:Hlast.
    - assert (t' = t) as -> by (injection Htip as -> _; reflexivity).
      destruct (lastTransaction_Some entries t Hlast) as (before & e & after & Hsplit & He & Hafter).
      assert (Hin : e ∈ entries) by (rewrite Hsplit; apply elem_of_app; right; left).
      destruct (Hentries e Hin) as (Hc & Ht & _). cbv zeta in Hc, Ht. rewrite He in Ht.
      destruct (certificate_for_transaction _ _ _ t Hnq Hc (eq_sym Ht)) as [Hq (v & Hv & Hvt)].
      pose proof (Hhonest _ v Hv Hvt) as Hj.
      split.
      + rewrite Hvotes, Hj. exact Hq.
      + intros k Hk. rewrite Hvotes. simpl in Hk. rewrite Hn in Hk.
        rewrite Z2N.id in Hk by exact Hnonneg.
        destruct (chain_after entries before after e (kf + 1) (kn - kf - 1) k Hnonces Hsplit)
          as (e' & He' & <-); [lia|].
        rewrite Forall_forall in Hafter. apply Hbot; [|apply Hafter; exact He'].
        rewrite Hsplit. apply elem_of_app. right. right. exact He'.
    - pose proof (lastTransaction_None entries Hlast) as Hall.
      rewrite Forall_forall in Hall.
      assert (ftx = Some t) as -> by (injection Htip as -> _; reflexivity).
      destruct (finalisedPart_Some cfg account kf s t cf Efin) as (Hkf & Ht & vs & Hc).
      assert (Hfq : 1 <= FINALITY_QUORUM cfg) by lia.
      destruct (certificate_for_transaction _ _ _ t Hfq Hc Ht) as [Hq (v & Hv & Hvt)].
      pose proof (Hhonest _ v Hv Hvt) as Hj.
      split.
      + rewrite Hvotes, Hj. lia.
      + intros k Hk. rewrite Hvotes. simpl in Hk. rewrite Hn in Hk.
        rewrite Z2N.id in Hk by exact Hnonneg.
        assert (Hin : k ∈ seqZ (kf + 1) (kn - kf - 1)) by (apply elem_of_seqZ; lia).
        rewrite <- Hnonces in Hin. apply list_elem_of_fmap in Hin as (e' & -> & He').
        apply Hbot; [exact He'|apply Hall; exact He']. }
  split; [exact Hn|]. split; [apply validateRecovery_Ok; exact Hcond|].
  intros Hpending. unfold ValidatorCore.validateTransaction. simpl.
  rewrite (getAccount_lower client s), (getAccount_same_lower client account s Hclient).
  rewrite Hpending. fold kn. rewrite Hn, Z2N.id by exact Hnonneg.
  rewrite Z.eqb_refl. simpl.
  apply validateRecovery_Ok in Hcond. rewrite Hcond. reflexivity.
Qed.

Lemma client_recovery_accepted_witness :
  ValidatorCore.validateRecovery Fixture.me
    (Client.recoveryTransaction Fixture.alice 1 Scenario.pay0) Scenario.afterPay0 = Ok tt.
Proof.
  destruct (getRecoveryInfo Fixture.me Fixture.alice Scenario.afterPay0) as [info|e] eqn:E;
    [|vm_compute in E; discriminate].
  assert (Htip : Client.findTipTransaction 0 [info] = (Some Scenario.pay0, 1)).
  { vm_compute in E. injection E as <-. vm_compute. reflexivity. }
  assert (Hhonest : forall j v, v ∈ getVotes Fixture.alice j Scenario.afterPay0 ->
                      serializedTx v = Some Scenario.pay0 ->
                      Z.of_N (tx_nonce Scenario.pay0) = j).
  { intros j v Hv _. unfold getVotes in Hv.
    assert (Hkeyed : storeKeyed Scenario.afterPay0)
      by (unfold Scenario.afterPay0, Scenario.start; apply storeKeyed_run, storeKeyed_genesis).
    destruct (Hkeyed (toLowerCase Fixture.alice) j v Hv) as [_ Hj].
    assert (Hall : map_Forall (fun _ l => Forall (fun w => voteNonce w = 0) l)
                     (voteStore Scenario.afterPay0)).
    { apply map_Forall_to_list. vm_compute. repeat constructor. }
    unfold storedVotes in Hv.
    match type of Hv with
    | _ ∈ default [] ?o => destruct o as [l|] eqn:El
    end; [change (v ∈ l) in Hv|change (v ∈ @nil Vote) in Hv; inversion Hv].
    specialize (Hall _ _ El). rewrite Forall_forall in Hall.
    rewrite <- Hj, (Hall v Hv). reflexivity. }
  assert (Hcfg : validParams Fixture.me) by (split; vm_compute; discriminate).
  assert (Hfrom : toLowerCase <$> tx_from Scenario.pay0 = Some (toLowerCase Fixture.alice))
    by (vm_compute; reflexivity).
  assert (Hnn : 0 <= nonce (getAccount Fixture.alice Scenario.afterPay0))
    by (vm_compute; discriminate).
  pose proof (client_recovery_accepted Fixture.me Fixture.alice Fixture.alice 0
                Scenario.afterPay0 info Scenario.pay0 1 Hcfg E Htip eq_refl Hfrom Hhonest Hnn)
    as H.
  cbv zeta in H. exact (proj1 (proj2 H)).
Defined.

(** ** The later revision: what the validator broadcasts *)

Lemma castOnly_reentry_processCertificate (cfg : Config) (fuel : nat) (account : address)
    (k : Z) :
  preserves (castOnly (ownBot cfg)) (ValidatorCoreReentry.processCertificate cfg fuel account k).
Proof.
  apply (reentry_processCertificate cfg (castOnly (ownBot cfg))
           (castOnly_refl _) (castOnly_trans _)).
  - intros acc s. apply castOnly_same. reflexivity.
  - intros n j v s. apply castOnly_same. reflexivity.
  - intros a j s. apply castOnly_withBroadcast. exists a, j. reflexivity.
  - intros acc s _ _. apply castOnly_same. reflexivity.
  - intros acc j q tx s. apply castOnly_quiet. apply quiet_handleFinality.
Qed.

Lemma castOnly_reentry_onVote (cfg : Config) (fuel : nat) (vote : Vote) :
  preserves (castOnly (ownBot cfg)) (ValidatorCoreReentry.onVote cfg fuel vote).
Proof.
  apply (reentry_onVote cfg (castOnly (ownBot cfg)) (castOnly_refl _) (castOnly_trans _)).
  - intros acc s. apply castOnly_same. reflexivity.
  - intros n j v s. apply castOnly_same. reflexivity.
  - intros a j s. apply castOnly_withBroadcast. exists a, j. reflexivity.
  - intros acc s _ _. apply castOnly_same. reflexivity.
  - intros acc j q tx s. apply castOnly_quiet. apply quiet_handleFinality.
Qed.

(** What [onTransaction] of the later revision does after its checks have
    passed. *)
Lemma onTransaction_run' (cfg : Config) (fuel : nat) (signedTx : TxData) (s : State)
    (t : Transaction) :
  ValidatorCore.validateTransaction cfg signedTx s = Ok t ->
  exists from,
    tx_from t = Some from
    /\ pending (getAccount (toLowerCase from) s) = false
    /\ nonce (getAccount (toLowerCase from) s) = Z.of_N (tx_nonce t)
    /\ let sender := toLowerCase from in
       let vote := signVote cfg sender (Z.of_N (tx_nonce t)) (Some t) in
       let s1 := pushVote sender (Z.of_N (tx_nonce t)) vote
                   (updateAccount sender (setPending true) s) in
       ValidatorCoreReentry.onTransaction cfg fuel signedTx s
       = match ValidatorCoreReentry.processCertificate cfg fuel sender
                 (Z.of_N (tx_nonce t)) s1 with
         | (Ok _, s2) => (Ok vote, withBroadcast vote s2)
         | (Throw e, s2) => (Throw e, s2)
         end.
Proof.
  intros Hv. destruct (validateTransaction_Ok cfg signedTx s t Hv) as (_ & from & Hf & Hp & Hn).
  exists from. split; [exact Hf|]. split; [exact Hp|]. split; [exact Hn|].
  cbv zeta. unfold ValidatorCoreReentry.onTransaction. rewrite bind_reads, Hv.
  rewrite bind_nonNull, Hf. rewrite bind_modify. unfold storeVote. rewrite bind_modify.
  simpl account. simpl voteNonce. rewrite toLowerCase_idemp. rewrite bind_run.
  destruct (ValidatorCoreReentry.processCertificate cfg fuel _ _ _) as [[[]|e] s2];
    [|reflexivity].
  rewrite bind_broadcastVote. reflexivity.
Qed.

Lemma castOnce_reentry_step (cfg : Config) (fuel : nat) (c : Call) (s : State) :
  castOnce s -> castOnce (ValidatorCoreReentry.step cfg fuel c s).
Proof.
  intros Hinv. destruct c as [signedTx|vote]; simpl.
  2:{ revert Hinv. apply castOnce_evolves; [apply evolves_reentry_onVote|].
      intros a k. apply (txCasts_castOnly cfg). apply castOnly_reentry_onVote. }
  destruct (ValidatorCore.validateTransaction cfg signedTx s) as [t|e] eqn:Hv;
    [|rewrite (onTransaction_rejected' cfg fuel signedTx s e Hv); exact Hinv].
  destruct (onTransaction_run' cfg fuel signedTx s t Hv) as (from & Hf & Hp & Hn & Hrun).
  cbv zeta in Hrun. rewrite Hrun. clear Hrun.
  set (sender := toLowerCase from) in *. set (k0 := Z.of_N (tx_nonce t)) in *.
  set (vote := signVote cfg sender k0 (Some t)).
  set (s1 := pushVote sender k0 vote (updateAccount sender (setPending true) s)).
  assert (Hev1 : evolves s s1).
  { eapply evolves_trans; [apply evolves_pending|apply evolves_pushVote]. }
  assert (Hinv1 : castOnce s1).
  { revert Hinv. apply castOnce_evolves; [exact Hev1|reflexivity]. }
  pose proof (evolves_reentry_processCertificate cfg fuel sender k0 s1) as Hev2.
  pose proof (castOnly_reentry_processCertificate cfg fuel sender k0 s1) as Hcast2.
  assert (Hinv2 : castOnce (snd (ValidatorCoreReentry.processCertificate cfg fuel sender k0 s1))).
  { revert Hinv1. apply castOnce_evolves; [exact Hev2|].
    intros a k. apply (txCasts_castOnly cfg). exact Hcast2. }
  destruct (ValidatorCoreReentry.processCertificate cfg fuel sender k0 s1) as [[[]|e] s2];
    simpl in *; [|exact Hinv2].
  intros a k. unfold txCasts. simpl. rewrite filter_app, filter_cons, filter_nil.
  fold (txCasts a k s2).
  destruct (decide (serializedTx vote <> None
                    /\ toLowerCase (account vote) = toLowerCase a /\ voteNonce vote = k))
    as [(_ & Ha & Hk)|Hno].
  - simpl in Ha, Hk.
    assert (Hsame : getAccount a s = getAccount sender s)
      by (apply getAccount_same_lower; congruence).
    assert (Hnone : txCasts a k s2 = []).
    { rewrite (txCasts_castOnly cfg a k s1 s2 Hcast2).
      change (txCasts a k s1) with (txCasts a k s).
      destruct (txCasts a k s) eqn:E; [reflexivity|]. exfalso.
      destruct (Hinv a k) as [_ Hnext]. rewrite E in Hnext.
      rewrite Hsame in Hnext. destruct Hnext as [H|[_ H]]; [discriminate|lia|congruence]. }
    rewrite Hnone. simpl. split; [lia|]. intros _.
    assert (Hsame2 : getAccount a s2 = getAccount sender s2)
      by (apply getAccount_same_lower; congruence).
    change (getAccount a (withBroadcast vote s2)) with (getAccount a s2). rewrite Hsame2.
    destruct (Hev2 sender) as (Hn2 & _ & _ & Hp2).
    assert (Hn1 : nonce (getAccount sender s1) = k0).
    { subst s1. rewrite getAccount_pushVote, getAccount_updateAccount_eq. simpl.
      subst sender. exact Hn. }
    assert (Hp1 : pending (getAccount sender s1) = true).
    { subst s1. rewrite getAccount_pushVote, getAccount_updateAccount_eq. reflexivity. }
    destruct (Z.eq_dec (nonce (getAccount sender s2)) (nonce (getAccount sender s1))) as [E|E].
    + right. split; [lia|]. apply Hp2; assumption.
    + left. lia.
  - rewrite app_nil_r. apply Hinv2.
Qed.

(** X16 (the later revision of [ValidatorCore] in client.ts: [onTransaction],
    [storeVote], [processCertificate] with its re-entry, the calls of
    [broadcastVoteCallback]). In the later revision too the validator never
    votes for two transactions at the same nonce of an account, however far
    the re-entry carries the nonce within one call: in every state reached
    from the constructor the broadcasts hold at most one vote with a
    transaction for each account and nonce; and a call of [onVote] broadcasts
    nothing but bot votes signed by the validator. *)
Theorem reentry_never_two_transaction_votes (cfg : Config) (fuel : nat)
    (balances : list (address * Z)) (calls : list Call) (vote : Vote) :
  let s := ValidatorCoreReentry.run cfg fuel calls (genesis balances) in
  (forall a k, (length (txCasts a k s) <= 1)%nat)
  /\ (forall v w,
        v ∈ broadcasts s -> w ∈ broadcasts s ->
        serializedTx v <> None -> serializedTx w <> None ->
        toLowerCase (account v) = toLowerCase (account w) ->
        voteNonce v = voteNonce w ->
        v = w)
  /\ castOnly (ownBot cfg) s (snd (ValidatorCoreReentry.onVote cfg fuel vote s)).
Proof.
  intros s.
  assert (Hinv : castOnce s).
  { subst s. generalize (castOnce_genesis balances). generalize (genesis balances).
    induction calls as [|c calls IH]; intros s0 H0; [exact H0|].
    simpl. apply IH. apply castOnce_reentry_step. exact H0. }
  split; [intros a k; apply Hinv|]. split; [|apply castOnly_reentry_onVote].
  intros v w Hv Hw Htv Htw Ha Hk.
  destruct (Hinv (account w) (voteNonce w)) as [Hlen _].
  assert (Hv' : v ∈ txCasts (account w) (voteNonce w) s)
    by (apply list_elem_of_filter; auto).
  assert (Hw' : w ∈ txCasts (account w) (voteNonce w) s)
    by (apply list_elem_of_filter; auto).
  destruct (txCasts (account w) (voteNonce w) s) as [|x [|y l]]; simpl in Hlen; [|
    apply list_elem_of_singleton in Hv', Hw'; congruence|lia].
  inversion Hv'.
Qed.

(** ** The later revision and the classic core: delivering a vote again *)

Lemma storeGrows_refl (s : State) : storeGrows s s.
Proof. intros n k. reflexivity. Qed.

Lemma storeGrows_trans (s1 s2 s3 : State) :
  storeGrows s1 s2 -> storeGrows s2 s3 -> storeGrows s1 s3.
Proof. intros H1 H2 n k. etransitivity; [apply H1|apply H2]. Qed.

Lemma storeGrows_same (s s' : State) : voteStore s' = voteStore s -> storeGrows s s'.
Proof. intros E n k. unfold storedVotes. rewrite E. reflexivity. Qed.

Lemma storeGrows_pushVote (n : address) (k : Z) (v : Vote) (s : State) :
  storeGrows s (pushVote n k v s).
Proof.
  intros n' k'. rewrite storedVotes_pushVote.
  destruct (decide _) as [[= <- <-]|]; [apply prefix_app_r|]; reflexivity.
Qed.

Lemma storeGrows_reentry_processCertificate (cfg : Config) (fuel : nat) (account : address)
    (k : Z) :
  preserves storeGrows (ValidatorCoreReentry.processCertificate cfg fuel account k).
Proof.
  apply (reentry_processCertificate cfg storeGrows storeGrows_refl storeGrows_trans).
  - intros acc s. apply storeGrows_same. reflexivity.
  - apply storeGrows_pushVote.
  - intros a j s. apply storeGrows_same. reflexivity.
  - intros acc s _ _. apply storeGrows_same. reflexivity.
  - intros acc j q tx s. apply storeGrows_same. apply sameStore_handleFinality.
Qed.

Lemma alreadyVoted_stored (vote : Vote) (existing : list Vote) :
  vote ∈ existing -> ValidatorCore.alreadyVoted vote existing = true.
Proof.
  intros Hin. apply alreadyVoted_true.
  destruct (serializedTx vote) eqn:Htx; exists vote; auto.
Qed.

(** X17 ([onVote] of the later revision of [ValidatorCore] in client.ts and
    of classic-validator-core.ts). In these two cores as well, delivering a
    vote a second time changes nothing: after a first delivery, whatever it
    did, a further delivery of the same vote leaves the whole state as it
    is; it throws the verification error when the vote does not verify (and
    verification is not skipped) and returns normally otherwise. *)
Theorem redelivery_changes_nothing (cfg : Config) (fuel fuel' : nat) (vote : Vote)
    (s : State) :
  let checked := negb (skipVerification cfg) && negb (verifyVote vote (validatorSet cfg)) in
  (let s1 := snd (ValidatorCoreReentry.onVote cfg fuel vote s) in
   ValidatorCoreReentry.onVote cfg fuel' vote s1
   = (if checked then Throw InvalidVote else Ok tt, s1))
  /\ (let s1 := snd (ClassicValidatorCore.onVote cfg vote s) in
      ClassicValidatorCore.onVote cfg vote s1
      = (if checked then Throw InvalidVote else Ok tt, s1)).
Proof.
  intros checked. split; intros s1.
  - assert (Hdrop : forall f s0,
               checked = false ->
               ValidatorCore.alreadyVoted vote
                 (storedVotes (toLowerCase (account vote)) (voteNonce vote) s0) = true ->
               ValidatorCoreReentry.onVote cfg f vote s0 = (Ok tt, s0)).
    { intros f s0 Hc Hd. unfold ValidatorCoreReentry.onVote, ValidatorCoreReentry.onVoteBody.
      fold checked. rewrite Hc, bind_gets, Hd. reflexivity. }
    assert (Hthrow : forall f s0,
               checked = true -> ValidatorCoreReentry.onVote cfg f vote s0 = (Throw InvalidVote, s0)).
    { intros f s0 Hc. unfold ValidatorCoreReentry.onVote, ValidatorCoreReentry.onVoteBody.
      fold checked. rewrite Hc. reflexivity. }
    destruct checked eqn:Hc.
    { subst s1. rewrite !Hthrow by reflexivity. reflexivity. }
    destruct (ValidatorCore.alreadyVoted vote
                (storedVotes (toLowerCase (account vote)) (voteNonce vote) s)) eqn:Hdup.
    { subst s1. rewrite (Hdrop fuel s eq_refl Hdup). apply Hdrop; [reflexivity|exact Hdup]. }
    apply Hdrop; [reflexivity|]. apply alreadyVoted_stored. subst s1.
    unfold ValidatorCoreReentry.onVote, ValidatorCoreReentry.onVoteBody.
    fold checked. rewrite Hc, bind_gets, Hdup, bind_modify.
    eapply elem_of_prefix;
      [|apply (storeGrows_reentry_processCertificate cfg fuel (account vote) (voteNonce vote))].
    rewrite storedVotes_pushVote. rewrite decide_True by reflexivity.
    apply elem_of_app. right. left.
  - assert (Hdrop : forall s0,
               checked = false ->
               existsb (fun v => bool_decide (validator v = validator vote))
                 (storedVotes (toLowerCase (account vote)) (voteNonce vote) s0) = true ->
               ClassicValidatorCore.onVote cfg vote s0 = (Ok tt, s0)).
    { intros s0 Hc Hd. unfold ClassicValidatorCore.onVote.
      fold checked. rewrite Hc, bind_gets, Hd. reflexivity. }
    assert (Hthrow : forall s0,
               checked = true -> ClassicValidatorCore.onVote cfg vote s0 = (Throw InvalidVote, s0)).
    { intros s0 Hc. unfold ClassicValidatorCore.onVote. fold checked. rewrite Hc. reflexivity. }
    destruct checked eqn:Hc.
    { subst s1. rewrite !Hthrow by reflexivity. reflexivity. }
    destruct (existsb (fun v => bool_decide (validator v = validator vote))
                (storedVotes (toLowerCase (account vote)) (voteNonce vote) s)) eqn:Hdup.
    { subst s1. rewrite (Hdrop s eq_refl Hdup). apply Hdrop; [reflexivity|exact Hdup]. }
    apply Hdrop; [reflexivity|]. apply existsb_true. exists vote.
    split; [|apply bool_decide_eq_true_2; reflexivity]. subst s1.
    unfold ClassicValidatorCore.onVote. fold checked. rewrite Hc, bind_gets, Hdup, bind_modify.
    destruct (classic_processCertificate cfg (account vote) (voteNonce vote) (account vote)
                (voteNonce vote)
                (pushVote (toLowerCase (account vote)) (voteNonce vote) vote s)) as (Hst & _).
    unfold storedVotes at 1. rewrite Hst.
    fold (storedVotes (toLowerCase (account vote)) (voteNonce vote)
            (pushVote (toLowerCase (account vote)) (voteNonce vote) vote s)).
    rewrite storedVotes_pushVote. rewrite decide_True by reflexivity.
    apply elem_of_app. right. left.
Qed.

(** ** The later revision: recovery information is always available *)

Lemma notarisedBelow_advance (cfg : Config) (acc : address) (s : State) :
  1 <= NOTARISATION_QUORUM cfg ->
  NOTARISATION_QUORUM cfg
  <= quorum (getMaxQuorumCert (getVotes acc (nonce (getAccount acc s)) s) 1) ->
  notarisedBelow cfg s ->
  notarisedBelow cfg
    (updateAccount acc
       (fun a => setPending false (setNonce (nonce (getAccount acc s) + 1) a)) s).
Proof.
  intros Hnq Hq. apply notarisedBelow_step; [intros n j; reflexivity|].
  intros a j Hj. rewrite getAccount_updateAccount in Hj.
  destruct (decide (toLowerCase acc = toLowerCase a)) as [E|E]; [|left; exact Hj].
  simpl in Hj. rewrite <- (getAccount_same_lower acc a s E).
  destruct (Z.eq_dec j (nonce (getAccount acc s))) as [->|Hne]; [|left; lia]. right.
  destruct (getMaxQuorumCert_spec (getVotes acc (nonce (getAccount acc s)) s))
    as [_ [(Hnil & Hq0 & _)|(v & Hv & Hqv & _)]].
  - cbv zeta in Hq0. lia.
  - exists (voteTxHash v). unfold getVotes at 1.
    rewrite storedVotes_updateAccount. fold (getVotes a (nonce (getAccount acc s)) s).
    assert (Hsame : getVotes a (nonce (getAccount acc s)) s
                    = getVotes acc (nonce (getAccount acc s)) s)
      by (unfold getVotes; rewrite E; reflexivity).
    rewrite Hsame. cbv zeta in Hqv. lia.
Qed.

Lemma notarisedBelow_reentry_run (cfg : Config) (fuel : nat) (calls : list Call) (s : State) :
  1 <= NOTARISATION_QUORUM cfg ->
  notarisedBelow cfg s -> notarisedBelow cfg (ValidatorCoreReentry.run cfg fuel calls s).
Proof.
  intros Hnq.
  apply (reentry_run cfg (fun s0 s' => notarisedBelow cfg s0 -> notarisedBelow cfg s')).
  - auto.
  - auto.
  - intros acc s0. apply notarisedBelow_same; [|reflexivity].
    intros a. rewrite getAccount_updateAccount.
    destruct (decide _) as [E|E]; [|auto].
    rewrite (getAccount_same_lower acc a s0 E). auto.
  - intros n k v s0. apply notarisedBelow_step.
    + intros n' k'. rewrite storedVotes_pushVote.
      destruct (decide _) as [[= <- <-]|]; [apply prefix_app_r|]; reflexivity.
    + intros a j Hj. left. exact Hj.
  - intros a k s0. apply notarisedBelow_same; [auto|reflexivity].
  - intros a k t s0. apply notarisedBelow_same; [auto|reflexivity].
  - intros acc s0 _ Hq. apply notarisedBelow_advance; assumption.
  - intros acc k q tx s0. apply notarisedBelow_handleFinality.
Qed.

(** X18 ([getRecoveryInfo] with the handlers of the later revision of
    [ValidatorCore] in client.ts, verification of votes on). Under
    n >= 5f+1 and f >= 0, in every state the later revision reaches from the
    constructor by [onTransaction] and [onVote] calls, at any depth of
    re-entry, [getRecoveryInfo] never throws the missing-certificate error.
    It can only throw the serialisation error of [tx.serialized], and only
    when a stored vote of the account carries an unsigned transaction; when
    none does, it returns, with one chain entry for each nonce strictly
    between the finalised and the current one. *)
Theorem reentry_getRecoveryInfo_available (cfg : Config) (fuel : nat)
    (balances : list (address * Z)) (calls : list Call) (account : address) :
  validParams cfg ->
  skipVerification cfg = false ->
  let s := ValidatorCoreReentry.run cfg fuel calls (genesis balances) in
  (forall e, getRecoveryInfo cfg account s = Throw e ->
     e = UnsignedSerialization
     /\ exists k v t, v ∈ getVotes account k s /\ serializedTx v = Some t /\ tx_from t = None)
  /\ ((forall k v t, v ∈ getVotes account k s -> serializedTx v = Some t -> tx_from t <> None) ->
      exists info,
        getRecoveryInfo cfg account s = Ok info
        /\ length (chain info)
           = Z.to_nat (nonce (getAccount account s) - finalised (getAccount account s) - 1)).
Proof.
  intros Hcfg _ s.
  assert (Hnq : 1 <= NOTARISATION_QUORUM cfg)
    by (destruct Hcfg; unfold NOTARISATION_QUORUM; lia).
  assert (Hinv : notarisedBelow cfg s)
    by (apply notarisedBelow_reentry_run; [exact Hnq|apply notarisedBelow_genesis]).
  set (kf := finalised (getAccount account s)). set (kn := nonce (getAccount account s)).
  assert (Hcert : forall k, k ∈ seqZ (kf + 1) (kn - kf - 1) ->
            cert (getMaxQuorumCert (getVotes account k s) (NOTARISATION_QUORUM cfg)) <> None).
  { intros k Hk. apply elem_of_seqZ in Hk.
    destruct (Hinv account k) as [payload Hq]; [subst kf kn; lia|].
    intros Hnone. pose proof (getMaxQuorumCert_None _ _ Hnone payload). lia. }
  assert (Hthrow : forall e, getRecoveryInfo cfg account s = Throw e ->
            e = UnsignedSerialization
            /\ exists k v t, v ∈ getVotes account k s /\ serializedTx v = Some t
                             /\ tx_from t = None).
  { intros e. unfold getRecoveryInfo. fold kf kn.
    destruct (finalisedPart cfg account kf s) as [[ftx cf]|e0] eqn:Efin.
    - destruct (buildChain cfg account (seqZ (kf + 1) (kn - kf - 1)) s) as [entries|e1] eqn:E;
        [discriminate|].
      intros [= ->].
      destruct (buildChain_Throw cfg account _ s e E)
        as (before & k & after & Hks & _ & [[_ Hk]|[-> (t & Ht & Hfrom)]]).
      + exfalso. apply (Hcert k); [rewrite Hks; apply elem_of_app; right; left|exact Hk].
      + split; [reflexivity|].
        destruct (getMaxQuorumCert_tx_stored _ _ _ Ht) as (v & Hv & Hvt).
        exists k, v, t. auto.
    - intros [= ->].
      destruct (finalisedPart_Throw cfg account kf s e Efin) as (-> & _ & v & t & H).
      split; [reflexivity|]. exists kf, v, t. exact H. }
  split; [exact Hthrow|].
  intros Hsigned.
  destruct (getRecoveryInfo cfg account s) as [info|e] eqn:E.
  - exists info. split; [reflexivity|].
    revert E. unfold getRecoveryInfo. fold kf kn.
    destruct (finalisedPart cfg account kf s) as [[ftx cf]|e0]; [|discriminate].
    destruct (buildChain cfg account (seqZ (kf + 1) (kn - kf - 1)) s) as [entries|e1] eqn:E;
      [|discriminate].
    intros [= <-]. simpl.
    destruct (buildChain_Ok cfg account _ s entries E) as [Hn _].
    rewrite <- (length_fmap entryNonce), Hn, length_seqZ. reflexivity.
  - exfalso. destruct (Hthrow e eq_refl) as (_ & k & v & t & Hv & Ht & Hfrom).
    apply (Hsigned k v t Hv Ht Hfrom).
Qed.

Lemma reentry_getRecoveryInfo_available_witness :
  exists info,
    getRecoveryInfo Fixture.me Fixture.alice
      (ValidatorCoreReentry.run Fixture.me 5 ReentryScenario.calls
         (genesis [(Fixture.alice, 1000)]))
    = Ok info.
Proof.
  assert (Hcfg : validParams Fixture.me) by (split; vm_compute; discriminate).
  destruct (proj2 (reentry_getRecoveryInfo_available Fixture.me 5 [(Fixture.alice, 1000)]
                     ReentryScenario.calls Fixture.alice Hcfg eq_refl)) as (info & E & _).
  - intros k v t Hv Ht.
    apply (storedPayload_votes
             (ValidatorCoreReentry.run Fixture.me 5 ReentryScenario.calls
                (genesis [(Fixture.alice, 1000)]))
             (fun t => tx_from t <> None)).
    + apply map_Forall_to_list. vm_compute.
      repeat constructor; intros ? [= <-] ?; discriminate.
    + exists (toLowerCase Fixture.alice), k, v. split; [exact Hv|exact Ht].
  - exists info. exact E.
Defined.

(** ** The bot-vote rule in both revisions *)






(** ** Balances along a run *)




Lemma balanceInv_withBroadcast (cfg : Config) (v : Vote) (s : State) :
  balanceInv cfg s -> balanceInv cfg (withBroadcast v s).
Proof. intros H. exact H. Qed.



















